(* ===== verification/_CoqProject ===== *)
-Q . S2P
Prelude.v
SizeClass.v
LinkMem.v
FreeList.v
Treiber.v
Weak.v
Slab.v
SlabSpec.v
SlabRace.v
SlabList.v
Sys.v
SysAlloc.v
Metrics.v
MetricsRace.v
PageList.v
Pool.v
PoolCounters.v
PoolInv.v
PoolSpec.v
PoolSeq.v
SlabCache.v
PagePort.v
Heap.v
Abandon.v
HeapInv.v
HeapEnv.v
HeapOps.v
HeapSpec.v
PoolDrop.v
HeapQuiet.v
HeapCounts.v
Global.v
GlobalSpec.v
Accounting.v
Gauges.v
F64.v
Pprof.v
Protobuf.v
Profile.v
ProfileSpec.v
Dump.v
Profiled.v
ProfiledSpec.v
TestKit.v
HeapTests.v
PoolTests.v
SlabTests.v
LoomTests.v
SizeTests.v
GlobalTests.v
