(* ===== verification/Prelude.v ===== *)
(** * clmalloc: a verification development

    clmalloc is a general-purpose memory allocator in Rust, installed as the
    global allocator of a program.  This library models its code under
    [src/src/] as executable definitions and proves what makes it correct, from
    the bit arithmetic of the size classes up to the process: whatever the
    threads of a program allocate, free, write and however they exit, they see
    an abstract allocator of disjoint, aligned blocks.

    ** The program and the files that model it

    From the bottom up; each file's own header gives the details.

    - [Prelude]: outcomes of code that may panic ([res]), integers at their
      width ([uint], [wrap], [wadd], [wsub]), [Layout], arrays with panicking
      access, counting permutations ([perm]), swap-removal.
    - [SizeClass] (size_class.rs): the class table and its lookup, against the
      bit-arithmetic reference.
    - [LinkMem], [FreeList] (slab.rs): the byte memory with its unaligned
      eight-byte accesses, behind the interface of intrusive links
      ([LinkMem], [LinkMemLaws]); the owner's free list of a slab.
    - [Treiber] (slab.rs): the lock-free list of slots freed by other threads,
      interleaved access by access.  [Weak]: the same, and the abandoned lists,
      under the memory orderings the code asks for.
    - [Slab], [SlabSpec] (slab.rs): a slab, its invariant, and its refinement of
      an abstract pool of slots.  [SlabRace]: the same with the frees of other
      threads and the drain interleaved access by access.  [SlabList]: the
      queues of slabs, doubly linked with a pointer to the predecessor's link.
    - [Sys], [SysAlloc] (sys.rs): the trait [PageAllocator] with its contract,
      the mmap backend over the documented behaviour of the system calls, and
      the backend of the tests over that of [std::alloc].
    - [Metrics] (metrics.rs): the counters, the registry of live heaps, the
      snapshot.  [MetricsRace]: snapshots that read while the heaps count.
    - [PageList], [Pool], [PoolCounters], [PoolInv], [PoolSpec], [PoolSeq]
      (pool.rs): segments, the dirty and clean page lists, purging, the registry
      calls and counters, the interleaving of the pool's critical sections
      ([pool_step]) and its whole operations.
      [SlabCache]: the lock-free cache of free pages, access by access.
      [PoolDrop]: dropping a pool.
    - [PagePort]: what heaps need from a pool ([PagePort], [PagePortLaws],
      [HeapRegistry]); the pool satisfies it.
    - [Heap], [HeapInv], [HeapEnv], [HeapOps], [HeapSpec], [HeapQuiet] (heap.rs,
      and the abandoned lists of pool.rs): every method of a heap over the
      [world] all heaps share, the invariant, what frees of other threads may do
      to it in the middle of a call, and the client's view.  [Abandon]: the
      abandoned lists, access by access, refine the stacks that the heaps use.
    - [Global], [GlobalSpec] (global.rs): the process: thread-local cells, lazy
      creation of heaps, registration, the destructor at thread exit, the
      allocation and free of [GlobalAlloc]; the abstract allocator and the
      refinement.  [HeapCounts], [Accounting]: what the heaps count, and what a
      snapshot of the process says about the blocks the program holds.
      [Gauges]: what it says about the memory of the pool.
    - [F64], [Pprof], [Protobuf], [Profile], [ProfileSpec] (pprof.rs): floats,
      the sampler and the tables of the heap profiler, the protobuf encoder, the
      dumped message, and a reader of the pprof format.  [Dump]: dumping through
      the gzip encoder.  [Profiled], [ProfiledSpec]: the process with a sampler
      in every heap, whose allocations are sampled and whose frees are looked up.
    - [TestKit], [HeapTests], [PoolTests], [SlabTests], [SizeTests],
      [GlobalTests]: the deterministic tests of the repository as programs over
      these definitions, and that they pass.  [LoomTests]: the racing tests of a
      slab, which pass under every interleaving.

    Components meet at type classes: a client's theorems are proved against
    [LinkMemLaws], [PageAllocatorLaws], [PagePortLaws], [HeapRegistryLaws],
    [KernelLaws], [StdAllocLaws], [LibcLaws] or [GzipLaws], and the component
    below, or for code outside the repository a concrete instance, discharges
    them.

    ** State and operations

    A struct is a record with the source's field names (prefixed where two
    structs share one), an operation a function from the state to the new state,
    with a [res] where the code can panic, index out of range or follow a
    pointer to a slab that does not exist.  Pointers are addresses in [Z]; free
    slots and pages hold their links in the byte memory, slab headers are in a
    store by base address ([lstore]), heaps by index in the process.  Atomic
    objects used by several threads have a step relation with one step per
    access ([treiber_step], [race_step], [cache_step], [ab_step], [snap_step])
    or per critical section ([pool_step]).  The heaps and the process compose whole calls, but the frees
    of other threads are not atomic with respect to them: a free of another
    heap's slot ends with a push on the remote list of the slab, which may land
    at any later time.  The slots whose push is outstanding are in [w_flight];
    a heap notices a push only where it reads a remote list ([slab_drain_at],
    [settle_at]), and before each of these reads [interfere] lands those that the
    schedule [w_sched] names.  The theorems hold for every schedule.

    ** What is shown

    - Process: [process_refines] (refinement of the abstract allocator),
      [process_total] (every call returns, except a thread's first allocation
      when the registry is full or there is no pthread key; the causes of a null
      answer), both with frees landing in the middle of other calls;
      [exited_thread_gets_nothing], [process_snapshot_exact] (a snapshot counts
      the blocks held, and the frees it misses), [process_gauges] (what is
      mapped, active and allocated, and that they are ordered).
    - Heaps: [heap_alloc_correct], [heap_dealloc_correct], [heap_exit_correct],
      [request_slab_adopts] (slabs of exited threads are taken over),
      [abandon_refines] (also when pushes and takes of many threads overlap).
    - Pool: [pool_refines], [pool_accounting], [pool_unmap_safe],
      [pool_panics_only_at_capacity] under interleaving; [alloc_slab_total],
      [dealloc_slab_total], [pool_drop_returns_all] for whole operations;
      [cache_conservation], [cache_lifo] and [cache_aba] for the page cache.
    - Slabs: [treiber_conservation], [treiber_lock_free] (no schedule keeps a push
      in its loop), [weak_race_free] (the orderings of the source exclude data
      races; [relaxed_push_races] and [relaxed_swap_races]: weaker ones do not),
      [slab_refines], [slab_race_refines] (also when frees of other threads
      overlap with the owner's operations), [slab_drain_total],
      [slot_serves_layout], [slab_init_exact] (what a new slab hands out, and
      where its 16-bit cursor wraps), [slab_list_refines].
    - Size classes: [class_index_smallest_fit], [class_index_equals_reference],
      [class_waste_quarter], [class_index_roundtrip].
    - Page allocator: [mmap_alloc_sound], [mmap_exact].
    - Metrics: [registry_total], [snapshot_counts_every_event],
      [snapshot_between] (a snapshot taken while the heaps count),
      [snapshot_bytes_consistent], [finalize_live_exact].
    - Profiler: [profiled_process_correct] (a profiled process still refines the
      abstract allocator, and panics only where it does without, and for the
      interval 0), [live_profile_exact] (what the tables say about the blocks
      held), [dump_readable] (reading a dump gives the profiler's state back),
      [pprof_typed_always] (the counters, and when they wrap), [sampler_exact].

    Some theorems show where the code does not do what its comments or its
    specification say: [min_alignment_counterexample],
    [release_missed_after_carving], [release_lost_to_purge],
    [setspecific_failure_leaks_heap],
    [mmap_leaks_unaligned_tail], [cache_aba], [interval_change_skews_live],
    [inactive_free_keeps_sample], [heapless_free_keeps_sample],
    [active_counts_empty_page], [active_exceeds_mapped], [snapshot_torn],
    [freed_abandoned_stays].

    ** Fuel and bounds

    Loops over lists in memory take fuel that a theorem shows to be enough: the
    length counter of the list for [remove_if] and for draining the page cache,
    the number of slots of a slab for [drain_loop], the number of slabs in the
    world ([slab_fuel]) for the queues of a heap.  [Heap_alloc] takes two levels
    of recursion, and [heap_alloc_correct] shows that the code never
    needs more.  [encode_varint] takes ten turns for 64 bits.  The table
    of segments (4096), the registry (1024 heaps) and the page cache (512 pages)
    have the source's limits, and running into them is modelled.

    ** Not modelled

    - Weak memory beyond [Weak]: in the other files atomics are sequentially
      consistent, with spurious failures of weak compare-and-swap; so is the page
      cache everywhere.  sync.rs only re-exports the atomics of std or loom.
    - Other overlaps of the calls of different heaps: the lock-free objects and
      the critical sections of the pool are interleaved on their own; between
      heaps only the pushes of remote frees are interleaved with the calls.  The
      theorems on the process would not hold for every overlap: two pops of the
      page cache at a time can corrupt it ([cache_aba]).
    - The code of libc, of the kernel and of the crates rand, backtrace and
      flate2: parameters with their documented behaviour.  [ln] and [exp] on
      floats.
    - The heaps of [Heap] are those of the feature [metrics]; the feature [pprof]
      is added around them in [Profiled], as the sampling is the last thing an
      allocation does and the lookup the first of a free.
    - lib.rs (module declarations), getters, benches and build files.  Of the
      tests: those of the pool whose threads race (they assert nothing, and the
      theorems on interleavings cover what they try), those that draw random
      numbers or use floating point, and those of the standard library's
      collections. *)

From stdpp Require Import base numbers list gmap.
From Stdlib Require Import ZArith Lia.

Local Open Scope Z_scope.

Declare Scope clm_scope.
Delimit Scope clm_scope with clm.
Create HintDb clm.

(** ** Outcomes of Rust code that may panic *)

(** Why a computation stops without a result. *)
Inductive panic :=
  | PanicUnreachable   (* [unreachable!] *)
  | PanicIndex         (* slice or array index out of range *)
  | PanicAssert        (* [assert!] / [assert_eq!] *)
  | InvalidPointer     (* a pointer to no slab header is dereferenced: undefined behaviour *)
  | PanicDeadlock      (* a thread waits for a mutex that it holds *)
  | OutOfFuel.         (* a loop that does not end within its bound *)

Inductive res (A : Type) :=
  | Ok (a : A)
  | Panic (p : panic).
Arguments Ok {A} _.
Arguments Panic {A} _.

#[export] Instance panic_eq_dec : EqDecision panic.
Proof. solve_decision. Defined.

#[export] Instance res_eq_dec `{EqDecision A} : EqDecision (res A).
Proof. solve_decision. Defined.

#[export] Instance res_ret : MRet res := @Ok.

#[export] Instance res_bind : MBind res := λ A B f m,
  match m with Ok a => f a | Panic p => Panic p end.

Definition res_of_option {A} (p : panic) (o : option A) : res A :=
  match o with Some a => Ok a | None => Panic p end.

Lemma res_bind_ok {A B} (m : res A) (f : A → res B) b :
  (m ≫= f) = Ok b ↔ ∃ a, m = Ok a ∧ f a = Ok b.
Proof. destruct m; split; naive_solver. Qed.

Lemma res_of_option_ok {A} p (o : option A) a :
  res_of_option p o = Ok a ↔ o = Some a.
Proof. destruct o; split; naive_solver. Qed.

(** ** Machine integers

    An unsigned [w]-bit integer is a [Z] in [0, 2^w).  [wadd] and [wsub] are
    the wrapping operations of the release profile.  Where the code uses plain
    [+], [-] or [*] on sizes, addresses and counts of pages and slots, the
    theorems prove that nothing wraps; for the event counters, which only grow,
    they are exact modulo 2^64 or say until when nothing wraps. *)

Definition uint (w x : Z) : Prop := 0 ≤ x < 2 ^ w.
Definition wrap (w x : Z) : Z := x mod 2 ^ w.
Definition wadd (w x y : Z) : Z := wrap w (x + y).
Definition wsub (w x y : Z) : Z := wrap w (x - y).
(** [u64::cast_signed] and [i64::cast_unsigned] *)
Definition cast_signed (w x : Z) : Z := if x <? 2 ^ (w - 1) then x else x - 2 ^ w.
Definition cast_unsigned (w x : Z) : Z := wrap w x.

Notation "x +[ w ] y" := (wadd w x y) (at level 50, left associativity) : clm_scope.
Notation "x -[ w ] y" := (wsub w x y) (at level 50, left associativity) : clm_scope.

#[export] Instance uint_dec w x : Decision (uint w x).
Proof. unfold uint. apply _. Defined.

(** [usize::leading_zeros] on the 64-bit target. *)
Definition leading_zeros (x : Z) : Z := if x =? 0 then 64 else 63 - Z.log2 x.

(** [usize::div_ceil]: quotient rounded up. *)
Definition div_ceil (x y : Z) : Z := if 0 <? x mod y then x / y + 1 else x / y.

(** [usize::next_multiple_of]. *)
Definition next_multiple_of (x y : Z) : Z := if x mod y =? 0 then x else x + (y - x mod y).

(** Alignments are powers of two. *)
Definition pow2 (x : Z) : Prop := ∃ k, 0 ≤ k ∧ x = 2 ^ k.

Lemma wrap_small w x : uint w x → wrap w x = x.
Proof. apply Z.mod_small. Qed.

Lemma wadd_small w x y : uint w (x + y) → wadd w x y = x + y.
Proof. apply wrap_small. Qed.

Lemma wsub_small w x y : uint w (x - y) → wsub w x y = x - y.
Proof. apply wrap_small. Qed.

Lemma wrap_bound w x : 0 ≤ w → uint w (wrap w x).
Proof. intros. apply Z.mod_pos_bound. lia. Qed.

Lemma wrap_add w x y : wrap w (wrap w x + y) = wrap w (x + y).
Proof. unfold wrap. apply Zplus_mod_idemp_l. Qed.

Lemma wrap_sub w x y : wrap w (wrap w x - y) = wrap w (x - y).
Proof. unfold wrap. apply Zminus_mod_idemp_l. Qed.

Definition sum_Z (l : list Z) : Z := foldr Z.add 0 l.

Lemma pow2_pos x : pow2 x → 0 < x.
Proof. intros (k & ? & ->). lia. Qed.

(** Two powers of two are comparable by divisibility. *)
Lemma pow2_divide x y : pow2 x → pow2 y → x ≤ y → (x | y).
Proof.
  intros (j & ? & ->) (k & ? & ->) Hle.
  apply Z.pow_le_mono_r_iff in Hle; [|lia..].
  exists (2 ^ (k - j)). rewrite <- Z.pow_add_r by lia. f_equal. lia.
Qed.

Lemma pow2_le_32768 x :
  pow2 x → x ≤ 32768 →
  x ∈ [1; 2; 4; 8; 16; 32; 64; 128; 256; 512; 1024; 2048; 4096; 8192; 16384; 32768].
Proof.
  intros (k & ? & ->) Hle.
  change 32768 with (2 ^ 15) in Hle. apply Z.pow_le_mono_r_iff in Hle; [|lia..].
  assert (k ∈ seqZ 0 16) as Hk by (apply elem_of_seqZ; lia).
  revert Hk. clear. vm_compute seqZ. intros Hk.
  repeat (apply elem_of_cons in Hk as [->|Hk]; [vm_compute; set_solver|]). set_solver.
Qed.

Lemma div_ceil_bounds x y : 0 < y → (div_ceil x y - 1) * y < x ≤ div_ceil x y * y.
Proof.
  intros Hy. unfold div_ceil. pose proof (Z.div_mod x y ltac:(lia)).
  pose proof (Z.mod_pos_bound x y Hy). case_match; lia.
Qed.

(** [x & !(2^k - 1)] on 64 bits rounds down to a multiple of [2^k]. *)
Definition not64 (x : Z) : Z := (2 ^ 64 - 1) - x.

Lemma land_align_down x k :
  uint 64 x → 0 ≤ k ≤ 64 → Z.land x (not64 (2 ^ k - 1)) = x - x mod 2 ^ k.
Proof.
  intros Hx Hk.
  assert (not64 (2 ^ k - 1) = Z.shiftl (Z.ones (64 - k)) k) as ->.
  { unfold not64. rewrite Z.shiftl_mul_pow2, Z.ones_equiv by lia.
    replace (2 ^ 64) with (2 ^ (64 - k) * 2 ^ k) by (rewrite <- Z.pow_add_r by lia; f_equal; lia).
    lia. }
  replace (x - x mod 2 ^ k) with (Z.shiftl (Z.shiftr x k) k).
  2: { rewrite Z.shiftl_mul_pow2, Z.shiftr_div_pow2 by lia.
       pose proof (Z.div_mod x (2 ^ k)). lia. }
  apply Z.bits_inj'. intros i Hi. rewrite Z.land_spec.
  destruct (Z.lt_ge_cases i k) as [Hlt|Hge].
  { rewrite !Z.shiftl_spec_low by done. apply andb_false_r. }
  rewrite !Z.shiftl_spec, Z.testbit_ones_nonneg, Z.shiftr_spec by lia.
  replace (i - k + k) with i by lia.
  destruct (Z.ltb_spec (i - k) (64 - k)) as [_|Hhi]; [apply andb_true_r|].
  rewrite <- (Z.mod_small x (2 ^ 64)), Z.mod_pow2_bits_high by (done || lia). done.
Qed.

Section next_multiple_of.
Context (x y : Z) (Hx : 0 ≤ x) (Hy : 0 < y).

Lemma next_multiple_of_divide : (y | next_multiple_of x y).
Proof.
  unfold next_multiple_of. case_match eqn:E.
  - apply Z.mod_divide; lia.
  - exists (x / y + 1). rewrite (Z.div_mod x y) at 1 by lia. ring.
Qed.

Lemma next_multiple_of_ge : x ≤ next_multiple_of x y.
Proof.
  unfold next_multiple_of. pose proof (Z.mod_pos_bound x y). case_match; lia.
Qed.

Lemma next_multiple_of_lt : next_multiple_of x y < x + y.
Proof.
  unfold next_multiple_of. pose proof (Z.mod_pos_bound x y). case_match; lia.
Qed.

Lemma next_multiple_of_least z : x ≤ z → (y | z) → next_multiple_of x y ≤ z.
Proof.
  intros Hz [q ->].
  destruct next_multiple_of_divide as [p Hp]. pose proof next_multiple_of_lt.
  rewrite Hp in *. apply Z.mul_le_mono_nonneg_r; [lia|].
  enough (p < q + 1) by lia. apply (Z.mul_lt_mono_pos_r y); lia.
Qed.
End next_multiple_of.

Lemma next_multiple_of_1 x : next_multiple_of x 1 = x.
Proof. unfold next_multiple_of. by rewrite Z.mod_1_r. Qed.

#[export] Hint Resolve wrap_bound pow2_pos next_multiple_of_divide next_multiple_of_ge : clm.

(** ** [core::alloc::Layout]

    [Layout::from_size_align] only builds layouts that satisfy [layout_valid]. *)

Definition isize_MAX : Z := 2 ^ 63 - 1.

Record Layout := mkLayout { size : Z; align : Z }.

Definition layout_valid (l : Layout) : Prop :=
  pow2 (align l) ∧ 0 ≤ size l ∧ size l ≤ isize_MAX - (align l - 1).

#[export] Instance Layout_eq_dec : EqDecision Layout.
Proof. solve_decision. Defined.

(** ** Permutations of address lists

    [perm] proves a permutation of concatenations from others by counting
    occurrences. *)

Definition one (a x : Z) : nat := if decide (a = x) then 1%nat else 0%nat.

Fixpoint cnt (l : list Z) (x : Z) : nat :=
  match l with [] => 0%nat | a :: l => (one a x + cnt l x)%nat end.

Lemma cnt_app l k x : cnt (l ++ k) x = (cnt l x + cnt k x)%nat.
Proof. induction l as [|a l IH]; simpl; [done|]. rewrite IH. lia. Qed.

Lemma cnt_cons a l x : cnt (a :: l) x = (one a x + cnt l x)%nat.
Proof. done. Qed.

Lemma cnt_rev l x : cnt (rev l) x = cnt l x.
Proof. induction l as [|a l IH]; simpl; [done|]. rewrite cnt_app, IH. simpl. lia. Qed.

Lemma cnt_perm l k : l ≡ₚ k ↔ ∀ x, cnt l x = cnt k x.
Proof.
  rewrite (Permutation_count_occ Z.eq_dec).
  assert (∀ l x, count_occ Z.eq_dec l x = cnt l x) as Heq.
  { intros l' x. induction l' as [|a l' IH]; simpl; [done|]. unfold one.
    rewrite IH. case_decide; by destruct (Z.eq_dec a x). }
  by setoid_rewrite Heq.
Qed.

Ltac perm :=
  rewrite ?cnt_perm in *;
  let x := fresh in intros x;
  repeat match goal with
  | H : ∀ y, cnt _ y = cnt _ y |- _ => specialize (H x)
  end;
  rewrite ?concat_app, ?fmap_app, ?concat_cons, ?cnt_app, ?cnt_cons, ?cnt_rev, ?cnt_app in *;
  cbn [cnt concat fmap list_fmap] in *;
  rewrite ?cnt_app, ?cnt_cons in *; lia.

(** ** Arrays

    A fixed-size array is a list of that length; an index out of range panics. *)

Definition arr_get {A} (l : list A) (i : Z) : res A :=
  if i <? 0 then Panic PanicIndex else res_of_option PanicIndex (l !! Z.to_nat i).

Definition arr_set {A} (l : list A) (i : Z) (x : A) : res (list A) :=
  _ ← arr_get l i; Ok (<[Z.to_nat i := x]> l).

(** [a[i] += f] and the like: read, compute, write. *)
Definition arr_update {A} (l : list A) (i : Z) (f : A → A) : res (list A) :=
  x ← arr_get l i; arr_set l i (f x).

Section arrays.
Context {A : Type}.
Implicit Types (l : list A) (x : A) (i : nat).

Lemma arr_get_ok l i x : l !! i = Some x → arr_get l (Z.of_nat i) = Ok x.
Proof.
  intros Hl. unfold arr_get. destruct (Z.ltb_spec (Z.of_nat i) 0); [lia|].
  by rewrite Nat2Z.id, Hl.
Qed.

Lemma arr_get_inv l (z : Z) x : arr_get l z = Ok x → 0 ≤ z ∧ l !! Z.to_nat z = Some x.
Proof.
  unfold arr_get. destruct (Z.ltb_spec z 0); [done|]. intros ?%res_of_option_ok. done.
Qed.

Lemma arr_set_ok l i x : (i < length l)%nat → arr_set l (Z.of_nat i) x = Ok (<[i := x]> l).
Proof.
  intros Hi. destruct (lookup_lt_is_Some_2 l i Hi) as [y Hy].
  unfold arr_set. rewrite (arr_get_ok l i y Hy). cbn. by rewrite Nat2Z.id.
Qed.

Lemma arr_update_ok l i x f :
  l !! i = Some x → arr_update l (Z.of_nat i) f = Ok (<[i := f x]> l).
Proof.
  intros Hl. unfold arr_update. rewrite (arr_get_ok l i x Hl). cbn.
  apply arr_set_ok. by eapply lookup_lt_Some.
Qed.

(** In range, the access and the update succeed. *)
Lemma arr_get_total l z : 0 ≤ z < Z.of_nat (length l) → ∃ x, arr_get l z = Ok x ∧ l !! Z.to_nat z = Some x.
Proof.
  intros Hz. destruct (lookup_lt_is_Some_2 l (Z.to_nat z)) as [x Hx]; [lia|]. exists x.
  split; [|done]. rewrite <- (Z2Nat.id z) by lia. by apply arr_get_ok.
Qed.

Lemma arr_set_total l z x :
  0 ≤ z < Z.of_nat (length l) → arr_set l z x = Ok (<[Z.to_nat z := x]> l).
Proof. intros Hz. rewrite <- (Z2Nat.id z) at 1 by lia. apply arr_set_ok. lia. Qed.

Lemma arr_update_total l z f :
  0 ≤ z < Z.of_nat (length l) → ∃ l', arr_update l z f = Ok l' ∧ length l' = length l.
Proof.
  intros Hz. destruct (arr_get_total l z Hz) as (x & Hx & _). exists (<[Z.to_nat z := f x]> l).
  unfold arr_update. rewrite Hx. cbn. rewrite arr_set_total by done. by rewrite length_insert.
Qed.

Lemma arr_update_inv l z f l' :
  arr_update l z f = Ok l' →
  ∃ x, 0 ≤ z ∧ l !! Z.to_nat z = Some x ∧ l' = <[Z.to_nat z := f x]> l.
Proof.
  unfold arr_update, arr_set. destruct (arr_get l z) as [x|] eqn:E; cbn [mbind res_bind]; [|done].
  intros [= <-]. apply arr_get_inv in E as [? ?]. by exists x.
Qed.
End arrays.

(** *** Swap-removal

    The first [n] entries of an array are in use; the last one fills the place
    of the one removed. *)

Section swap_remove.
Context {A : Type}.
Implicit Types (l a : list A) (x y d : A).

(** The entries behind the removed one, afterwards. *)
Definition swap_tail l : list A :=
  match last l with None => [] | Some y => y :: removelast l end.

Lemma swap_tail_snoc l y : swap_tail (l ++ [y]) = y :: l.
Proof. unfold swap_tail. by rewrite last_snoc, removelast_last. Qed.

Lemma swap_tail_perm l : swap_tail l ≡ₚ l.
Proof.
  destruct l as [|y l _] using rev_ind; [done|]. rewrite swap_tail_snoc.
  apply Permutation_cons_append.
Qed.

Lemma take_app_cons n a l1 x l2 :
  take n a = l1 ++ x :: l2 → a !! length l1 = Some x ∧ (length l1 < n)%nat.
Proof.
  intros Ht. assert (take n a !! length l1 = Some x) as Hx by (rewrite Ht; by apply list_lookup_middle).
  apply lookup_take_Some in Hx. tauto.
Qed.

Lemma swap_remove_take a n l1 x l2 y d :
  take n a = l1 ++ x :: l2 → (n ≤ length a)%nat → a !! pred n = Some y →
  take (pred n) (<[pred n := d]> (if decide (length l1 = pred n) then a
                                  else <[length l1 := y]> a)) = l1 ++ swap_tail l2.
Proof.
  intros Ht Hn Hy. rewrite take_insert_ge by done.
  pose proof (f_equal length Ht) as Hlen. rewrite length_take, length_app in Hlen. simpl in Hlen.
  replace (n `min` length a)%nat with n in Hlen by lia.
  assert (take (pred n) a = take (pred n) (l1 ++ x :: l2)) as Ht'
    by (rewrite <- Ht, take_take; f_equal; lia).
  destruct l2 as [|z l2 _] using rev_ind.
  - simpl in Hlen. rewrite decide_True by lia. rewrite Ht', take_app_length' by lia.
    unfold swap_tail. simpl. by rewrite app_nil_r.
  - rewrite length_app in Hlen. simpl in Hlen. rewrite decide_False by lia.
    rewrite swap_tail_snoc, take_insert_lt by lia. rewrite Ht'.
    assert (take n a !! pred n = Some z) as Hz.
    { rewrite Ht, app_comm_cons, app_assoc. apply lookup_snoc_Some. right. split; [|done].
      rewrite length_app. simpl. lia. }
    rewrite lookup_take_lt, Hy in Hz by lia. injection Hz as <-.
    rewrite app_comm_cons, app_assoc, take_app_length' by (rewrite length_app; simpl; lia).
    rewrite insert_app_r_alt by lia. by rewrite Nat.sub_diag.
Qed.
End swap_remove.

(** ** Pairwise relations on lists *)

Fixpoint pairwise {A} (R : A → A → Prop) (l : list A) : Prop :=
  match l with [] => True | a :: l => Forall (R a) l ∧ pairwise R l end.

Lemma pairwise_perm {A} (R : A → A → Prop) l k :
  (∀ a b, R a b → R b a) → l ≡ₚ k → pairwise R l → pairwise R k.
Proof.
  intros Hsym. induction 1 as [|a l k Hp IH|a b l|l1 l2 l3 _ IH1 _ IH2]; simpl; [done|..|by auto].
  - intros [Ha ?]. split; [by rewrite <- Hp|auto].
  - intros ([Hab Ha]%Forall_cons & Hb & ?). by rewrite !Forall_cons; auto.
Qed.

Lemma pairwise_app {A} (R : A → A → Prop) l k :
  pairwise R (l ++ k) ↔ pairwise R l ∧ pairwise R k ∧ (∀ a b, a ∈ l → b ∈ k → R a b).
Proof.
  induction l as [|x l IH]; cbn; [set_solver|]. rewrite IH, Forall_app, !Forall_forall. set_solver.
Qed.

Lemma pairwise_impl {A} (R S : A → A → Prop) l :
  (∀ a b, R a b → S a b) → pairwise R l → pairwise S l.
Proof.
  intros HRS. induction l as [|a l IH]; simpl; [done|]. intros [Ha ?].
  split; [by eapply Forall_impl; [|apply HRS]|auto].
Qed.

Lemma filter_none {A} (P : A → Prop) `{∀ x, Decision (P x)} (l : list A) :
  (∀ x, x ∈ l → ¬ P x) → filter P l = [].
Proof.
  induction l as [|x l IH]; intros Hl; [done|]. rewrite filter_cons_False by (apply Hl; set_solver).
  apply IH. set_solver.
Qed.

Lemma filter_all {A} (P : A → Prop) `{∀ x, Decision (P x)} (l : list A) :
  (∀ x, x ∈ l → P x) → filter P l = l.
Proof.
  induction l as [|x l IH]; intros Hl; [done|]. rewrite filter_cons_True by (apply Hl; set_solver).
  f_equal. apply IH. set_solver.
Qed.

Lemma pairwise_fmap {A B} (R : B → B → Prop) (Q : A → A → Prop) (f : A → B) (P : A → Prop) l :
  Forall P l → (∀ a b, P a → P b → R (f a) (f b) → Q a b) → pairwise R (f <$> l) → pairwise Q l.
Proof.
  intros HP HR. induction HP as [|a l Ha Hl IH]; [done|]. cbn. intros [Hf Hp]. split; [|by apply IH].
  rewrite Forall_fmap in Hf. rewrite Forall_forall in *. intros b Hb. apply HR; [done|by apply Hl|].
  by apply (Hf b).
Qed.

(** The list without the first occurrence of [x]. *)
Fixpoint take_out (x : Z) (l : list Z) : option (list Z) :=
  match l with
  | [] => None
  | y :: l => if x =? y then Some l else cons y <$> take_out x l
  end.

Lemma take_out_Some x l k : take_out x l = Some k → l ≡ₚ x :: k.
Proof.
  revert k. induction l as [|y l IH]; intros k; cbn; [done|]. destruct (Z.eqb_spec x y) as [->|].
  - by intros [= ->].
  - intros (k' & Hx & ->)%fmap_Some. rewrite (IH k' Hx). constructor.
Qed.

(** ** Labelled runs and forward simulation *)

Inductive run {S E : Type} (step : S → E → S → Prop) : S → list E → S → Prop :=
  | run_nil s : run step s [] s
  | run_cons s1 e s2 es s3 : step s1 e s2 → run step s2 es s3 → run step s1 (e :: es) s3.

Lemma run_app {S E} (step : S → E → S → Prop) s1 es1 s2 es2 s3 :
  run step s1 es1 s2 → run step s2 es2 s3 → run step s1 (es1 ++ es2) s3.
Proof. induction 1; [done|]. intros. econstructor; [done|]. auto. Qed.

Lemma run_app_inv {S E} (step : S → E → S → Prop) es1 : ∀ s1 es2 s3,
  run step s1 (es1 ++ es2) s3 → ∃ s2, run step s1 es1 s2 ∧ run step s2 es2 s3.
Proof.
  induction es1 as [|e es1 IH]; intros s1 es2 s3 Hrun; [exists s1; split; [constructor|done]|].
  inversion Hrun as [|? ? s2 ? ? Hs Hr]; subst. destruct (IH _ _ _ Hr) as (s4 & H1 & H2).
  exists s4. split; [by eapply run_cons|done].
Qed.

Section simulation.
Context {C A E : Type} (cstep : C → E → C → Prop) (astep : A → E → A → Prop).
Context (R : C → A → Prop).
Context (Hsim : ∀ c e c' a, R c a → cstep c e c' → ∃ a', astep a e a' ∧ R c' a').

Lemma run_simulation c es c' a :
  R c a → run cstep c es c' → ∃ a', run astep a es a' ∧ R c' a'.
Proof.
  intros HR Hrun. revert a HR. induction Hrun as [c|c1 e c2 es c3 Hstep Hrun IH]; intros a HR.
  - exists a. split; [constructor|done].
  - destruct (Hsim _ _ _ _ HR Hstep) as (a2 & ? & HR2).
    destruct (IH a2 HR2) as (a3 & ? & ?). exists a3. split; [by econstructor|done].
Qed.
End simulation.

(** Simulation of a system whose internal steps the specification does not see. *)
Section weak_simulation.
Context {C A E : Type} (cstep : C → option E → C → Prop) (astep : A → E → A → Prop).
Context (R : C → A → Prop).
Context (Hsim : ∀ c e c' a, R c a → cstep c e c' →
  ∃ a', match e with None => a' = a | Some ev => astep a ev a' end ∧ R c' a').

Lemma run_weak_simulation c es c' a :
  R c a → run cstep c es c' → ∃ a', run astep a (omap id es) a' ∧ R c' a'.
Proof.
  intros HR Hrun. revert a HR. induction Hrun as [c|c1 e c2 es c3 Hstep Hrun IH]; intros a HR.
  - exists a. split; [constructor|done].
  - destruct (Hsim _ _ _ _ HR Hstep) as (a2 & He & HR2). destruct (IH a2 HR2) as (a3 & Hr & ?).
    exists a3. split; [|done]. destruct e as [ev|]; [by eapply run_cons|by subst].
Qed.
End weak_simulation.

Lemma run_invariant {S E} (step : S → E → S → Prop) (P : S → Prop) s es s' :
  (∀ s e s', P s → step s e s' → P s') → P s → run step s es s' → P s'.
Proof. intros Hstep HP Hrun. induction Hrun; eauto. Qed.

(** A relation that hides the labels. *)
Lemma run_rtc {S E} (step : S → E → S → Prop) s es s' : run step s es s' → rtc (λ s s', ∃ e, step s e s') s s'.
Proof. induction 1 as [|s1 e s2 es s3 Hs _ IH]; [apply rtc_refl|]. eapply rtc_l; [by exists e|exact IH]. Qed.

Lemma rtc_run {S E} (step : S → E → S → Prop) s s' : rtc (λ s s', ∃ e, step s e s') s s' → ∃ es, run step s es s'.
Proof.
  induction 1 as [s|s1 s2 s3 [e Hs] _ [es IH]]; [exists []; constructor|]. exists (e :: es). by eapply run_cons.
Qed.

(** ** Tactics *)

(** The first step of a successful run: [H] is about the rest. *)
Tactic Notation "bind_inv" hyp(H) "as" simple_intropattern(x) ident(E) :=
  apply res_bind_ok in H as (x & E & H).

(** Decide the boolean comparison in the goal and keep the arithmetic fact. *)
Ltac case_bool :=
  match goal with
  | |- context [?x <? ?y] => destruct (Z.ltb_spec x y)
  | |- context [?x <=? ?y] => destruct (Z.leb_spec x y)
  | |- context [?x =? ?y] => destruct (Z.eqb_spec x y)
  | H : context [?x <? ?y] |- _ => destruct (Z.ltb_spec x y)
  | H : context [?x <=? ?y] |- _ => destruct (Z.leb_spec x y)
  | H : context [?x =? ?y] |- _ => destruct (Z.eqb_spec x y)
  end.

(** Linear arithmetic with division and modulo by constants. *)
Ltac zdiv := Z.div_mod_to_equations; lia.

(** The equations of a successful run. *)
Ltac run_inv :=
  repeat match goal with
  | E : (_ ≫= _) = Ok _ |- _ => apply res_bind_ok in E as (? & ? & E)
  | E : Ok _ = Ok _ |- _ => injection E as E; subst
  | E : Panic _ = Ok _ |- _ => discriminate E
  | E : (_, _) = (_, _) |- _ => injection E as E; subst
  | x : (_ * _)%type |- _ => destruct x
  | E : match ?x with _ => _ end = _ |- _ => destruct x eqn:?
  end.
