(* ===== verification/SizeClass.v ===== *)
(** * Size classes ([src/src/size_class.rs])

    The 49 size classes: four sub-steps per power of two from 8 to 16384, and
    one class of 32768 bytes.  [class_index_from_size] is the bit-arithmetic
    reference, [CLASS_TABLE] the table the compiler builds from it, and
    [class_index] the lookup on the allocation path.  The theorems show that
    the table lookup computes the least class that fits a layout in size and
    alignment, that classes are strictly monotone and idempotent, and that at
    most a quarter of the request is wasted. *)

From stdpp Require Import base numbers list.
From Stdlib Require Import ZArith Lia.
From S2P Require Import Prelude.

Local Open Scope Z_scope.

(** ** Definitions *)

Definition MIN_SIZE : Z := 8.
Definition SUB_STEPS : Z := 4.
Definition MIN_K : Z := 3.
Definition MAX_K : Z := 14.
Definition NUM_GROUPS : Z := MAX_K - MIN_K + 1.
Definition NUM_REGULAR : Z := NUM_GROUPS * SUB_STEPS.
Definition MAX_SLAB_SIZE : Z := 32768.
Definition NUM_CLASSES : Z := NUM_REGULAR + 1.

(** [class_index_from_size]; the casts to [u8] wrap. *)
Definition class_index_from_size (size : Z) : res Z :=
  if negb ((MIN_SIZE <=? size) && (size <=? MAX_SLAB_SIZE)) then Panic PanicAssert else
  if MAX_SLAB_SIZE <=? size then Ok (wrap 8 NUM_REGULAR) else
  let k := 64 - 1 - leading_zeros size in
  let base := Z.shiftl 1 k in
  let step := Z.shiftr base 2 in
  let j := div_ceil (size - base) step in
  if SUB_STEPS <=? j then
    let next_k := k + 1 in
    if MAX_K <? next_k then Ok (wrap 8 NUM_REGULAR)
    else Ok (wrap 8 ((next_k - MIN_K) * SUB_STEPS))
  else Ok (wrap 8 ((k - MIN_K) * SUB_STEPS + j)).

(** One iteration of the loop that fills [CLASS_TABLE]: the value of [table[i]]. *)
Definition class_table_entry (i : Z) : res Z :=
  let size := (i + 1) * 2 in
  let clamped := if size <? MIN_SIZE then MIN_SIZE else size in
  class_index_from_size clamped.

(** The loop [while i < MAX_SLAB_SIZE / 2], for [n] more iterations from [i];
    an assertion that fails aborts the constant evaluation. *)
Fixpoint class_table_loop (n : nat) (i : Z) : res (list Z) :=
  match n with
  | O => Ok []
  | S n =>
      x ← class_table_entry i;
      t ← class_table_loop n (i + 1);
      Ok (x :: t)
  end.

Definition CLASS_TABLE : res (list Z) := class_table_loop (Z.to_nat (MAX_SLAB_SIZE / 2)) 0.

(** [class_index]: [Ok None] sends the request to the large-allocation path. *)
Definition class_index (layout : Layout) : res (option Z) :=
  let size := Z.max (next_multiple_of (size layout) (align layout)) MIN_SIZE in
  if MAX_SLAB_SIZE <? size then Ok None else
  table ← CLASS_TABLE;
  x ← res_of_option PanicIndex (table !! Z.to_nat (Z.shiftr (size - 1) 1));
  Ok (Some x).

Definition class_size (index : Z) : Z :=
  if NUM_REGULAR <=? index then MAX_SLAB_SIZE else
  let group := index / SUB_STEPS in
  let sub := index mod SUB_STEPS in
  let k := group + MIN_K in
  let base := Z.shiftl 1 k in
  let step := Z.shiftr base 2 in
  base + sub * step.

(** The size the class is chosen for: rounded up to the alignment and at least
    [MIN_SIZE]. *)
Definition effective_size (layout : Layout) : Z :=
  Z.max (next_multiple_of (size layout) (align layout)) MIN_SIZE.

(** A class serves a layout when a slot of it is large enough and a multiple of
    the alignment. *)
Definition class_fits (layout : Layout) (i : Z) : Prop :=
  size layout ≤ class_size i ∧ (align layout | class_size i).

(** ** Arithmetic of the classes *)

Ltac sc_unfold :=
  unfold class_index_from_size, NUM_CLASSES, NUM_REGULAR, NUM_GROUPS, MAX_K, MIN_K,
    SUB_STEPS, MIN_SIZE, MAX_SLAB_SIZE in *.

(** Split a bounded integer into its concrete values. *)
Ltac enum k lo n :=
  let H := fresh in
  assert (k ∈ seqZ lo n) as H by (apply elem_of_seqZ; lia);
  let t := eval vm_compute in (seqZ lo n) in
  change (seqZ lo n) with t in H;
  repeat (apply elem_of_cons in H as [->|H]; [|]); [..|by apply not_elem_of_nil in H].

(** Evaluate every closed class index and class size of the goal. *)
Ltac class_consts :=
  repeat match goal with
  | |- context [class_size ?i] =>
      let v := eval vm_compute in (class_size i) in change (class_size i) with v
  | |- context [wrap 8 ?i] =>
      let v := eval vm_compute in (wrap 8 i) in change (wrap 8 i) with v
  end.

(** Evaluate the closed powers and shifts of the hypotheses. *)
Ltac shift_consts :=
  repeat match goal with
  | H : context [Z.shiftr (Z.shiftl 1 ?k) 2] |- _ =>
      let v := eval vm_compute in (Z.shiftr (Z.shiftl 1 k) 2) in
      change (Z.shiftr (Z.shiftl 1 k) 2) with v in H
  | H : context [Z.shiftl 1 ?k] |- _ =>
      let v := eval vm_compute in (Z.shiftl 1 k) in change (Z.shiftl 1 k) with v in H
  | H : context [2 ^ ?k] |- _ =>
      let v := eval vm_compute in (2 ^ k) in change (2 ^ k) with v in H
  end.

Lemma class_size_48 : class_size 48 = 32768.
Proof. reflexivity. Qed.

Lemma class_size_step i : 0 ≤ i < 48 → class_size i < class_size (i + 1).
Proof. intros. enum i 0 48; reflexivity. Qed.

Lemma class_size_mono i j : 0 ≤ i → i < j → j ≤ 48 → class_size i < class_size j.
Proof.
  intros Hi Hij. replace j with (i + 1 + (j - i - 1)) by lia.
  assert (0 ≤ j - i - 1) as Hd by lia. revert Hd. generalize (j - i - 1). clear j Hij.
  apply (natlike_ind (λ d, i + 1 + d ≤ 48 → class_size i < class_size (i + 1 + d))).
  - intros. rewrite Z.add_0_r. apply class_size_step. lia.
  - intros d Hd IH ?. pose proof (class_size_step (i + 1 + d)).
    replace (i + 1 + Z.succ d) with (i + 1 + d + 1) by lia. lia.
Qed.

Lemma class_size_le i j : 0 ≤ i → i ≤ j → j ≤ 48 → class_size i ≤ class_size j.
Proof.
  intros. destruct (decide (i = j)) as [->|]; [lia|].
  pose proof (class_size_mono i j). lia.
Qed.

Lemma class_size_even i : 0 ≤ i ≤ 48 → (2 | class_size i).
Proof. intros. enum i 0 49; apply Z.mod_divide; done. Qed.

Lemma class_size_bounds i : 0 ≤ i ≤ 48 → 8 ≤ class_size i ≤ 32768.
Proof.
  intros. pose proof (class_size_le 0 i). pose proof (class_size_le i 48).
  change (class_size 0) with 8 in *. rewrite class_size_48 in *. lia.
Qed.

(** [i] is the least class of at least [s] bytes. *)
Definition least_class (s i : Z) : Prop :=
  0 ≤ i ≤ 48 ∧ s ≤ class_size i ∧ (0 < i → class_size (i - 1) < s).

Lemma least_class_unique s i j : least_class s i → least_class s j → i = j.
Proof.
  intros (? & ? & Hi) (? & ? & Hj).
  destruct (Z.lt_trichotomy i j) as [Hlt|[->|Hlt]]; [|done|].
  - pose proof (class_size_le i (j - 1)). lia.
  - pose proof (class_size_le j (i - 1)). lia.
Qed.

Lemma least_class_min s i j : least_class s i → 0 ≤ j ≤ 48 → s ≤ class_size j → i ≤ j.
Proof.
  intros (? & ? & Hi) ? ?. destruct (Z.le_gt_cases i j); [done|].
  pose proof (class_size_le j (i - 1)). lia.
Qed.

(** Class sizes are even, so an odd request and its successor share a class:
    the reason why a table with two-byte granularity is exact. *)
Lemma least_class_odd s i : Z.Odd s → least_class (s + 1) i → least_class s i.
Proof.
  intros [q Hq] (? & ? & Hprev). split; [done|]. split; [lia|]. intros Hi.
  specialize (Hprev Hi). destruct (class_size_even (i - 1)) as [p Hp]; lia.
Qed.

Lemma class_index_from_size_least s :
  8 ≤ s ≤ 32768 → ∃ i, class_index_from_size s = Ok i ∧ least_class s i.
Proof.
  intros Hs. destruct (decide (s = 32768)) as [->|Hne].
  { exists 48. split; [reflexivity|]. unfold least_class. by vm_compute. }
  assert (3 ≤ Z.log2 s < 15) as Hk.
  { pose proof (Z.log2_le_mono 8 s). pose proof (Z.log2_lt_pow2 s 15).
    change (Z.log2 8) with 3 in *. change (2 ^ 15) with 32768 in *. lia. }
  pose proof (Z.log2_spec s ltac:(lia)) as Hlog.
  sc_unfold.
  destruct (Z.leb_spec 8 s); [|lia]. destruct (Z.leb_spec s 32768); [|lia]. simpl.
  destruct (Z.leb_spec 32768 s); [lia|].
  unfold leading_zeros. destruct (Z.eqb_spec s 0); [lia|].
  replace (64 - 1 - (63 - Z.log2 s)) with (Z.log2 s) by lia.
  generalize dependent (Z.log2 s). intros k Hk Hlog.
  set (j := div_ceil (s - Z.shiftl 1 k) (Z.shiftr (Z.shiftl 1 k) 2)).
  assert ((j - 1) * Z.shiftr (Z.shiftl 1 k) 2 < s - Z.shiftl 1 k
          ≤ j * Z.shiftr (Z.shiftl 1 k) 2) as Hj.
  { apply div_ceil_bounds. enum k 3 12; reflexivity. }
  clearbody j.
  enum k 3 12; shift_consts.
  all: destruct (Z.leb_spec 4 j);
    [|assert (0 ≤ j < 4) as Hj4 by lia; enum j 0 4]; eexists; (split; [reflexivity|]).
  all: unfold least_class; class_consts; lia.
Qed.

(** ** The table *)

Lemma class_table_entry_least i :
  0 ≤ i < 16384 →
  ∃ x, class_table_entry i = Ok x ∧ least_class (Z.max 8 ((i + 1) * 2)) x.
Proof.
  intros Hi. unfold class_table_entry, MIN_SIZE.
  destruct (Z.ltb_spec ((i + 1) * 2) 8).
  - rewrite Z.max_l by lia. apply class_index_from_size_least. lia.
  - rewrite Z.max_r by lia. apply class_index_from_size_least. lia.
Qed.

Lemma class_table_loop_ok n i :
  (∀ k, i ≤ k < i + Z.of_nat n → ∃ x, class_table_entry k = Ok x) →
  ∃ t, class_table_loop n i = Ok t ∧
    ∀ m, (m < n)%nat → ∃ x, t !! m = Some x ∧ class_table_entry (i + Z.of_nat m) = Ok x.
Proof.
  revert i. induction n as [|n IH]; intros i Hok; simpl.
  { exists []. split; [done|]. lia. }
  destruct (Hok i) as [x Hx]; [lia|]. rewrite Hx. simpl.
  destruct (IH (i + 1)) as (t & -> & Ht); [intros; apply Hok; lia|]. simpl.
  eexists. split; [done|]. intros [|m] Hm; simpl.
  - exists x. by rewrite Z.add_0_r.
  - destruct (Ht m) as (y & ? & ?); [lia|]. exists y. split; [done|].
    by replace (i + Z.of_nat (S m)) with (i + 1 + Z.of_nat m) by lia.
Qed.

Lemma CLASS_TABLE_lookup i :
  0 ≤ i < 16384 →
  ∃ t x, CLASS_TABLE = Ok t ∧ t !! Z.to_nat i = Some x ∧ least_class (Z.max 8 ((i + 1) * 2)) x.
Proof.
  intros Hi. unfold CLASS_TABLE.
  assert (Z.of_nat (Z.to_nat (MAX_SLAB_SIZE / 2)) = 16384) as HN.
  { apply (Z2Nat.id (MAX_SLAB_SIZE / 2)). by vm_compute. }
  generalize dependent (Z.to_nat (MAX_SLAB_SIZE / 2)). intros N HN.
  destruct (class_table_loop_ok N 0) as (t & Ht & Hlook).
  { rewrite HN. intros k Hk. destruct (class_table_entry_least k) as (x & ? & _); eauto. }
  destruct (Hlook (Z.to_nat i)) as (x & ? & Hx); [lia|].
  destruct (class_table_entry_least i) as (y & Hy & Hleast); [done|].
  rewrite Z2Nat.id, Z.add_0_l, Hy in Hx by lia. simplify_eq. eauto.
Qed.

Lemma class_index_least l :
  effective_size l ≤ 32768 →
  ∃ i, class_index l = Ok (Some i) ∧ least_class (effective_size l) i.
Proof.
  unfold class_index. fold (effective_size l). intros Hs.
  assert (8 ≤ effective_size l) as Hs8 by (unfold effective_size, MIN_SIZE; lia).
  generalize dependent (effective_size l). clear l. intros s Hs Hs8.
  unfold MAX_SLAB_SIZE at 1. destruct (Z.ltb_spec 32768 s); [lia|].
  rewrite Z.shiftr_div_pow2 by lia. change (2 ^ 1) with 2.
  destruct (CLASS_TABLE_lookup ((s - 1) / 2)) as (t & x & -> & Hx & Hleast); [zdiv|].
  simpl. rewrite Hx. simpl. exists x. split; [done|].
  destruct (Z.Even_or_Odd s) as [[q Hq]|[q Hq]].
  - by replace s with (Z.max 8 (((s - 1) / 2 + 1) * 2)) by zdiv.
  - apply least_class_odd; [by exists q|].
    by replace (s + 1) with (Z.max 8 (((s - 1) / 2 + 1) * 2)) by zdiv.
Qed.

Lemma class_index_large l : 32768 < effective_size l → class_index l = Ok None.
Proof.
  unfold class_index. fold (effective_size l). unfold MAX_SLAB_SIZE at 1. intros.
  by destruct (Z.ltb_spec 32768 (effective_size l)); [|lia].
Qed.

(** ** Alignment and waste, by evaluation over the 49 classes *)

(** The largest size that does not need class [i]. *)
Definition class_prev (i : Z) : Z := if i =? 0 then 7 else class_size (i - 1).

Lemma least_class_prev s i : 8 ≤ s → least_class s i → class_prev i < s ≤ class_size i.
Proof.
  intros ? (? & ? & Hprev). unfold class_prev. destruct (Z.eqb_spec i 0); [lia|].
  split; [apply Hprev; lia|done].
Qed.

Definition aligned_class (a i : Z) : bool :=
  (class_size i mod a =? 0) || (class_size i / a * a <=? class_prev i).

Lemma aligned_class_all a i :
  pow2 a → a ≤ 32768 → 0 ≤ i ≤ 48 → aligned_class a i = true.
Proof.
  intros Ha Hle Hi.
  assert (Forall (λ a, Forall (λ i, aligned_class a i) (seqZ 0 49))
    [1; 2; 4; 8; 16; 32; 64; 128; 256; 512; 1024; 2048; 4096; 8192; 16384; 32768]) as Hall
    by (apply (bool_decide_unpack _); by vm_compute).
  rewrite Forall_forall in Hall. specialize (Hall a (pow2_le_32768 a Ha Hle)).
  rewrite Forall_forall in Hall. apply Is_true_true, (Hall i), elem_of_seqZ. lia.
Qed.

Lemma least_class_aligned s i a :
  8 ≤ s ≤ 32768 → pow2 a → (a | s) → least_class s i → (a | class_size i).
Proof.
  intros Hs Ha Has Hleast. pose proof (pow2_pos a Ha).
  assert (a ≤ s) by (apply Z.divide_pos_le; [lia|done]).
  pose proof (aligned_class_all a i Ha ltac:(lia) ltac:(apply Hleast)) as Hok.
  apply orb_true_iff in Hok as [Hm%Z.eqb_eq|Hm%Z.leb_le].
  { by apply Z.mod_divide; [lia|]. }
  apply least_class_prev in Hleast; [|lia]. destruct Has as [q ->].
  pose proof (Z.div_le_lower_bound (class_size i) a q). nia.
Qed.

Lemma effective_size_divide l :
  layout_valid l → 0 < size l → (align l | effective_size l).
Proof.
  intros (Hp & Hs & _) Hpos. unfold effective_size, MIN_SIZE.
  pose proof (pow2_pos _ Hp). pose proof (next_multiple_of_divide (size l) (align l)).
  apply Z.max_case_strong; intros Hle; [auto|].
  apply pow2_divide; [done|by exists 3|].
  pose proof (next_multiple_of_ge (size l) (align l)).
  assert (align l ≤ next_multiple_of (size l) (align l))
    by (apply Z.divide_pos_le; [lia|auto]). lia.
Qed.

Lemma effective_size_least l n :
  layout_valid l → 8 ≤ n → size l ≤ n → (align l | n) → effective_size l ≤ n.
Proof.
  intros (Hp & Hs & _) ? ? ?. unfold effective_size, MIN_SIZE.
  pose proof (pow2_pos _ Hp).
  apply Z.max_lub; [|done]. apply next_multiple_of_least; auto.
Qed.

Lemma effective_size_ge l : layout_valid l → size l ≤ effective_size l.
Proof.
  intros (Hp & _ & _). unfold effective_size. pose proof (pow2_pos _ Hp).
  pose proof (next_multiple_of_ge (size l) (align l)). lia.
Qed.

(** What the other components use of [class_index]. *)
Lemma class_index_fits l i :
  layout_valid l → 0 < size l → class_index l = Ok (Some i) →
  0 ≤ i < NUM_CLASSES ∧ class_fits l i.
Proof.
  intros Hv Hpos Hi. destruct (Z.le_gt_cases (effective_size l) 32768) as [Hle|Hgt].
  2: { rewrite class_index_large in Hi by lia. done. }
  destruct (class_index_least l Hle) as (j & Hj & Hleast). rewrite Hi in Hj. simplify_eq.
  pose proof (effective_size_ge l Hv). destruct Hleast as (? & ? & ?).
  split; [change NUM_CLASSES with 49; lia|]. split; [lia|].
  apply (least_class_aligned (effective_size l)); [|apply Hv|by apply effective_size_divide|done].
  split; [unfold effective_size, MIN_SIZE; lia|done].
Qed.

(** ** Properties *)

(** C10. The table lookup on the allocation path computes the same class as the
    bit-arithmetic reference for every valid layout, odd sizes included, and
    answers [None] exactly above [MAX_SLAB_SIZE]. *)
Theorem class_index_equals_reference (l : Layout) :
  layout_valid l →
  class_index l =
    if MAX_SLAB_SIZE <? effective_size l then Ok None
    else i ← class_index_from_size (effective_size l); Ok (Some i).
Proof.
  intros Hv. unfold MAX_SLAB_SIZE. destruct (Z.ltb_spec 32768 (effective_size l)).
  { by apply class_index_large. }
  destruct (class_index_least l) as (i & -> & Hi); [lia|].
  destruct (class_index_from_size_least (effective_size l)) as (j & -> & Hj).
  { unfold effective_size, MIN_SIZE in *. lia. }
  simpl. by rewrite (least_class_unique _ _ _ Hi Hj).
Qed.

Lemma class_index_equals_reference_witness :
  class_index (mkLayout 41 8) = Ok (Some 10).
Proof.
  rewrite (class_index_equals_reference (mkLayout 41 8)).
  - reflexivity.
  - split; [by exists 3|]. by vm_compute.
Defined.

(** C9. For every valid non-empty layout, [class_index] returns the smallest
    class whose slots are at least [size] bytes and a multiple of [align]; it
    returns [None] only when no class fits. *)
Theorem class_index_smallest_fit (l : Layout) :
  layout_valid l → 0 < size l →
  (∃ i, class_index l = Ok (Some i) ∧ 0 ≤ i < NUM_CLASSES ∧ class_fits l i ∧
     ∀ j, 0 ≤ j < NUM_CLASSES → class_fits l j → i ≤ j) ∨
  (class_index l = Ok None ∧ ∀ j, 0 ≤ j < NUM_CLASSES → ¬ class_fits l j).
Proof.
  intros Hv Hpos. change NUM_CLASSES with 49 in *.
  assert (∀ j, 0 ≤ j < 49 → class_fits l j → effective_size l ≤ class_size j) as Hmin.
  { intros j Hj [? ?]. pose proof (class_size_bounds j).
    apply effective_size_least; auto; lia. }
  destruct (Z.le_gt_cases (effective_size l) 32768) as [Hle|Hgt].
  - left. destruct (class_index_least l Hle) as (i & Hi & Hleast). exists i.
    destruct (class_index_fits l i Hv Hpos Hi) as [? ?].
    do 3 (split; [done|]). intros j Hj Hfit.
    apply (least_class_min (effective_size l)); auto with lia.
  - right. split; [apply class_index_large; lia|]. intros j Hj Hfit.
    pose proof (Hmin j Hj Hfit). pose proof (class_size_bounds j). lia.
Qed.

Lemma class_index_smallest_fit_witness :
  ∃ i, class_index (mkLayout 100 64) = Ok (Some i) ∧ class_fits (mkLayout 100 64) i.
Proof.
  destruct (class_index_smallest_fit (mkLayout 100 64)) as [(i & Hi & _ & Hf & _)|[_ Hno]].
  - split; [by exists 6|]. by vm_compute.
  - done.
  - exists i. exact (conj Hi Hf).
  - exfalso. apply (Hno 16); [by vm_compute|]. split; [by vm_compute|by exists 2].
Defined.

(** C11. A slot wastes at most a quarter of the (rounded) request it serves. *)
Theorem class_waste_quarter (l : Layout) (i : Z) :
  class_index l = Ok (Some i) →
  0 ≤ class_size i - effective_size l ∧
  4 * (class_size i - effective_size l) ≤ effective_size l.
Proof.
  intros Hi. destruct (Z.le_gt_cases (effective_size l) 32768) as [Hle|Hgt].
  2: { rewrite class_index_large in Hi by lia. done. }
  destruct (class_index_least l Hle) as (j & Hj & Hleast). rewrite Hi in Hj. simplify_eq.
  assert (8 ≤ effective_size l) as Hs8 by (unfold effective_size, MIN_SIZE; lia).
  pose proof (least_class_prev _ _ Hs8 Hleast) as Hp.
  assert (4 * (class_size j - (class_prev j + 1)) ≤ class_prev j + 1) as Hw.
  { destruct Hleast as (Hj & _). clear -Hj. enum j 0 49; by vm_compute. }
  lia.
Qed.

Lemma class_waste_quarter_witness :
  class_index (mkLayout 33 1) = Ok (Some 9) ∧ 4 * (class_size 9 - 33) ≤ 33.
Proof.
  split; [vm_compute; reflexivity|].
  apply (class_waste_quarter (mkLayout 33 1) 9). vm_compute. reflexivity.
Defined.

(** C12. Every class is recovered from its own size, and class sizes are strictly
    increasing: deallocation finds the class allocation used. *)
Theorem class_index_roundtrip (i : Z) :
  0 ≤ i < NUM_CLASSES →
  class_index (mkLayout (class_size i) 1) = Ok (Some i) ∧
  (0 < i → class_size (i - 1) < class_size i).
Proof.
  change NUM_CLASSES with 49. intros Hi. pose proof (class_size_bounds i ltac:(lia)) as Hb.
  assert (effective_size (mkLayout (class_size i) 1) = class_size i) as Heff.
  { unfold effective_size, MIN_SIZE. simpl. rewrite next_multiple_of_1. lia. }
  assert (0 < i → class_size (i - 1) < class_size i) as Hstep.
  { intros. apply class_size_mono; lia. }
  split; [|done].
  destruct (class_index_least (mkLayout (class_size i) 1)) as (j & -> & Hj); [lia|].
  do 2 f_equal. rewrite Heff in Hj. apply (least_class_unique _ _ _ Hj).
  split; [lia|]. auto with lia.
Qed.

Lemma class_index_roundtrip_witness :
  class_index (mkLayout 28672 1) = Ok (Some 47).
Proof. apply (class_index_roundtrip 47). by vm_compute. Defined.
