(* ===== verification/LinkMem.v ===== *)
(** * Memory for intrusive lists ([src/src/slab.rs], lines 43 to 64)

    Every list of the allocator is intrusive: a free slot or page stores the
    address of the next one in its own memory.  [LinkMem] is the interface the
    list components are proved against: a memory whose cells hold a link, with
    the frame law that writing one link does not change a separated one.

    [mem] is the byte memory; [read_next] and [write_next] are the unaligned
    eight-byte accesses of the source, and [byte_link_mem] is the instance that
    satisfies the interface, with cells at least eight bytes apart. *)

From stdpp Require Import base numbers list gmap sorting.
From Stdlib Require Import ZArith Lia.
From S2P Require Import Prelude.

Local Open Scope Z_scope.

(** ** The interface *)

Class LinkMem (M : Type) := {
  link_get : M → Z → Z;
  link_set : M → Z → Z → M;
  link_sep : Z → Z → Prop;
}.

Class LinkMemLaws (M : Type) `{LinkMem M} := {
  link_sep_sym a b : link_sep a b → link_sep b a;
  link_get_set_eq m a v : uint 64 v → link_get (link_set m a v) a = v;
  link_get_set_ne m a b v : link_sep a b → link_get (link_set m a v) b = link_get m b;
}.

(** A non-null pointer. *)
Definition ptr_ok (x : Z) : Prop := 0 < x < 2 ^ 64.

#[export] Instance ptr_ok_dec x : Decision (ptr_ok x).
Proof. unfold ptr_ok. apply _. Defined.

(** [chain m head l]: following links from [head] visits exactly [l], then null. *)
Fixpoint chain `{LinkMem M} (m : M) (head : Z) (l : list Z) : Prop :=
  match l with
  | [] => head = 0
  | x :: l => head = x ∧ ptr_ok x ∧ chain m (link_get m x) l
  end.

(** [linked m l z]: the nodes of [l] are linked in order and the last one links
    to [z]. *)
Fixpoint linked `{LinkMem M} (m : M) (l : list Z) (z : Z) : Prop :=
  match l with
  | [] => True
  | [x] => link_get m x = z
  | x :: (y :: _) as l => link_get m x = y ∧ linked m l z
  end.

(** A set of addresses any two of which are separated. *)
Definition link_region (M : Type) `{LinkMem M} (P : Z → Prop) : Prop :=
  ∀ a b, P a → P b → a ≠ b → link_sep a b.

(** ** The byte memory *)

(** A byte that was never written reads as zero, like fresh anonymous memory. *)
Abbreviation mem := (gmap Z Z).

Definition read_byte (m : mem) (a : Z) : Z := default 0 (m !! a).
Definition write_byte (m : mem) (a b : Z) : mem := <[a := wrap 8 b]> m.

(** Little-endian access to [n] bytes at [a]. *)
Fixpoint read_le (n : nat) (m : mem) (a : Z) : Z :=
  match n with
  | O => 0
  | S n => read_byte m a + 256 * read_le n m (a + 1)
  end.

Fixpoint write_le (n : nat) (m : mem) (a v : Z) : mem :=
  match n with
  | O => m
  | S n => write_le n (write_byte m a v) (a + 1) (v / 256)
  end.

(** [read_next]: [slot.cast::<Link>().read_unaligned()]. *)
Definition read_next (m : mem) (slot : Z) : Z := read_le 8 m slot.

(** [write_next]: [slot.cast::<Link>().write_unaligned(next)]. *)
Definition write_next (m : mem) (slot next : Z) : mem := write_le 8 m slot next.

#[export] Instance byte_link_mem : LinkMem mem := {
  link_get := read_next;
  link_set := write_next;
  link_sep a b := 8 ≤ Z.abs (a - b);
}.

(** ** Laws of the byte memory *)

Lemma read_byte_write m a b v :
  read_byte (write_byte m a v) b = if decide (a = b) then wrap 8 v else read_byte m b.
Proof. unfold read_byte, write_byte. rewrite lookup_insert. by case_decide. Qed.

Lemma read_byte_write_le n m a b v :
  b < a ∨ a + Z.of_nat n ≤ b → read_byte (write_le n m a v) b = read_byte m b.
Proof.
  revert m a v. induction n as [|n IH]; intros m a v Hb; [done|].
  simpl. rewrite IH by lia. rewrite read_byte_write. case_decide; [lia|done].
Qed.

Lemma read_le_write_le_ne n k m a b v :
  a + Z.of_nat n ≤ b ∨ b + Z.of_nat k ≤ a →
  read_le k (write_le n m a v) b = read_le k m b.
Proof.
  revert b. induction k as [|k IH]; intros b Hb; [done|].
  simpl. rewrite read_byte_write_le, IH by lia. done.
Qed.

Lemma read_le_write_le n m a v :
  0 ≤ v < 256 ^ Z.of_nat n → read_le n (write_le n m a v) a = v.
Proof.
  revert m a v. induction n as [|n IH]; intros m a v Hv; simpl.
  { change (256 ^ Z.of_nat 0) with 1 in Hv. lia. }
  rewrite Nat2Z.inj_succ, Z.pow_succ_r in Hv by lia.
  rewrite IH by (split; [apply Z.div_pos|apply Z.div_lt_upper_bound]; lia).
  rewrite read_byte_write_le, read_byte_write by lia.
  rewrite decide_True by done. unfold wrap. change (2 ^ 8) with 256.
  pose proof (Z.div_mod v 256). lia.
Qed.

#[export] Instance byte_link_mem_laws : LinkMemLaws mem.
Proof.
  split; simpl.
  - lia.
  - intros m a v Hv. unfold read_next, write_next. by apply read_le_write_le.
  - intros m a b v Hab. apply read_le_write_le_ne. lia.
Qed.

(** ** Chains *)

Section chain.
Context `{LinkMemLaws M}.
Implicit Types (m : M) (l : list Z).

Lemma chain_functional m h l1 l2 : chain m h l1 → chain m h l2 → l1 = l2.
Proof.
  revert h l2. induction l1 as [|x l1 IH]; intros h [|y l2]; simpl; unfold ptr_ok.
  - done.
  - intros -> (? & ? & _). lia.
  - intros (-> & ? & _) ?. lia.
  - intros (-> & _ & H1) (-> & _ & H2). f_equal. eauto.
Qed.

Lemma chain_set m h l a v : Forall (link_sep a) l → chain m h l → chain (link_set m a v) h l.
Proof.
  intros Hs. revert h. induction Hs as [|x l Hx Hs IH]; intros h; simpl; [done|].
  intros (-> & ? & ?). rewrite link_get_set_ne by done. auto.
Qed.

(** A chain only depends on the links of its nodes. *)
Lemma chain_agree m m' h l :
  (∀ x, x ∈ l → link_get m' x = link_get m x) → chain m h l → chain m' h l.
Proof.
  revert h. induction l as [|x l IH]; intros h Ha; [done|]. intros (-> & Hx & Hc). split; [done|]. split; [done|].
  rewrite Ha by by left. apply IH; [|done]. intros y Hy. apply Ha. by right.
Qed.

Lemma chain_uint m h l : chain m h l → uint 64 h.
Proof. destruct l; simpl; unfold uint, ptr_ok; [lia|]. intros (-> & ? & _). lia. Qed.

Lemma chain_ptr_ok m h l : chain m h l → Forall ptr_ok l.
Proof.
  revert h. induction l as [|x l IH]; intros h; simpl; [done|].
  intros (-> & ? & ?). eauto.
Qed.

(** Pushing a node in front of a chain. *)
Lemma chain_push m h l a :
  chain m h l → ptr_ok a → Forall (link_sep a) l → chain (link_set m a h) a (a :: l).
Proof.
  intros Hc ? ?. simpl. rewrite link_get_set_eq by (by eapply chain_uint).
  by auto using chain_set.
Qed.

Lemma chain_nonnull m h l : chain m h l → h ≠ 0 → ∃ l', l = h :: l' ∧ chain m (link_get m h) l'.
Proof. destruct l; simpl; [done|]. intros (-> & ? & ?) _. eauto. Qed.

Lemma linked_set m l z a v :
  Forall (link_sep a) l → linked m l z → linked (link_set m a v) l z.
Proof.
  induction 1 as [|x [|y l] Hx Hs IH]; cbn [linked] in *;
    rewrite ?link_get_set_ne by done; naive_solver.
Qed.

(** A linked segment in front of a chain. *)
Lemma chain_app m c h l :
  c ≠ [] → linked m c h → Forall ptr_ok c → chain m h l → chain m (default 0 (head c)) (c ++ l).
Proof.
  intros Hne Hc Hok Hl. induction c as [|x c IH]; [done|].
  apply Forall_cons in Hok as [? Hok]. simpl. split; [done|]. split; [done|].
  destruct c as [|y c]; simpl in *; [by subst|].
  destruct Hc as [-> Hc]. by apply IH.
Qed.

Lemma link_region_sep (P : Z → Prop) a l :
  link_region M P → P a → Forall P l → a ∉ l → Forall (link_sep a) l.
Proof.
  intros HP Ha Hl Hnot. apply Forall_forall. intros x Hx. rewrite Forall_forall in Hl.
  apply HP; auto. set_solver.
Qed.
End chain.

(** The same for the byte memory, in terms of the source's functions. *)
Lemma chain_write_next (m : mem) h l a v :
  Forall (link_sep a) l → chain m h l → chain (write_next m a v) h l.
Proof. exact (chain_set m h l a v). Qed.

Lemma chain_push_next (m : mem) h l a :
  chain m h l → ptr_ok a → Forall (link_sep a) l → chain (write_next m a h) a (a :: l).
Proof. exact (chain_push m h l a). Qed.

(** A chain only depends on the link bytes of its nodes. *)
Lemma read_le_ext n (m m' : mem) a :
  (∀ x, a ≤ x < a + Z.of_nat n → read_byte m' x = read_byte m x) →
  read_le n m' a = read_le n m a.
Proof.
  revert a. induction n as [|n IH]; intros a Hx; simpl; [done|].
  rewrite Hx, IH by lia || (intros; apply Hx; lia). done.
Qed.

Lemma chain_ext (m m' : mem) h l :
  (∀ a x, a ∈ l → a ≤ x < a + 8 → read_byte m' x = read_byte m x) →
  chain m h l → chain m' h l.
Proof.
  revert h. induction l as [|a l IH]; intros h Hx; simpl; [done|].
  intros (-> & ? & Hc). split; [done|]. split; [done|].
  unfold read_next in *. rewrite (read_le_ext 8 m m').
  - apply IH; [|done]. intros b x Hb. apply Hx. set_solver.
  - intros x Hr. apply (Hx a); [set_solver|lia].
Qed.

Lemma chain_next (m : mem) x l : chain m x (x :: l) → chain m (read_next m x) l.
Proof. by intros (_ & _ & ?). Qed.

#[export] Hint Resolve chain_uint chain_ptr_ok : clm.
