(* ===== verification/FreeList.v ===== *)
(** * Slot free list ([src/src/slab.rs], [SlotFreeList])

    The owner's free list of a slab: a head pointer and a 16-bit length, with
    the links stored in the free slots.  [slot_list] is the abstraction to a
    list of slot addresses; [push] and [pop] implement cons and head/tail on it. *)

From stdpp Require Import base numbers list gmap.
From Stdlib Require Import ZArith Lia.
From S2P Require Import Prelude LinkMem.

Local Open Scope Z_scope.
Local Open Scope clm_scope.

(** ** Definitions *)

Record SlotFreeList := mkSlotFreeList { sfl_head : Z; sfl_len : Z }.

#[export] Instance SlotFreeList_eq_dec : EqDecision SlotFreeList.
Proof. solve_decision. Defined.

Definition SlotFreeList_EMPTY : SlotFreeList := mkSlotFreeList 0 0.

Definition SlotFreeList_pop (m : mem) (fl : SlotFreeList) : option Z * SlotFreeList :=
  if sfl_head fl =? 0 then (None, fl)
  else (Some (sfl_head fl), mkSlotFreeList (read_next m (sfl_head fl)) (sfl_len fl -[16] 1)).

Definition SlotFreeList_push (m : mem) (fl : SlotFreeList) (slot : Z) : mem * SlotFreeList :=
  (write_next m slot (sfl_head fl), mkSlotFreeList slot (sfl_len fl +[16] 1)).

(** The free list holds exactly the slots [l], and its length field counts them. *)
Definition slot_list (m : mem) (fl : SlotFreeList) (l : list Z) : Prop :=
  chain m (sfl_head fl) l ∧ sfl_len fl = Z.of_nat (length l) ∧ Z.of_nat (length l) < 2 ^ 16.

(** ** Specification *)

Lemma slot_list_empty m : slot_list m SlotFreeList_EMPTY [].
Proof. split; [done|]. simpl. lia. Qed.

Lemma slot_list_pop m fl l :
  slot_list m fl l →
  match l with
  | [] => SlotFreeList_pop m fl = (None, fl)
  | x :: l' => ∃ fl', SlotFreeList_pop m fl = (Some x, fl') ∧ slot_list m fl' l'
  end.
Proof.
  intros (Hc & Hlen & Hb). unfold SlotFreeList_pop. destruct l as [|x l]; simpl in *.
  { by rewrite Hc. }
  destruct Hc as (-> & Hx & Hc). destruct (Z.eqb_spec x 0); [unfold ptr_ok in *; lia|].
  eexists. split; [done|]. split; [done|]. simpl.
  rewrite wsub_small by (unfold uint; lia). lia.
Qed.

Lemma slot_list_push m fl l a m' fl' :
  slot_list m fl l → ptr_ok a → Forall (link_sep a) l → Z.of_nat (length l) + 1 < 2 ^ 16 →
  SlotFreeList_push m fl a = (m', fl') →
  slot_list m' fl' (a :: l).
Proof.
  intros (Hc & Hlen & Hb) Ha Hs Hlt [= <- <-]. split; [by apply chain_push_next|]. simpl.
  rewrite wadd_small by (unfold uint; lia). lia.
Qed.

Lemma slot_list_set m fl l a v :
  Forall (link_sep a) l → slot_list m fl l → slot_list (write_next m a v) fl l.
Proof. intros Hs (Hc & ?). split; [by apply chain_write_next|done]. Qed.
