(* ===== verification/Treiber.v ===== *)
(** * Remote free list ([src/src/slab.rs], [TreiberStack])

    The lock-free stack any thread pushes freed slots onto and only the owning
    thread drains.  [push_step] is one atomic access of the CAS loop that
    [push] and [push_chain] share; [treiber_step] interleaves any number of
    pushing threads with the owner, which swaps the stack out, walks the
    drained chain, writes to the slots it owns and hands slots out again (so a
    slot may be pushed, drained and pushed again while another push is in
    flight).  Memory is sequentially consistent; [compare_exchange_weak] may
    fail spuriously.

    The theorems show that no interleaving loses or duplicates a slot, that the
    stack is lock-free, and that a push that runs alone finishes. *)

From stdpp Require Import base numbers list gmap relations.
From Stdlib Require Import ZArith Lia.
From S2P Require Import Prelude LinkMem.

Local Open Scope Z_scope.

(** ** Definitions *)

(** Program counter of a push: before the load of [head], at the head of the
    loop body with the last value seen, before the CAS, and returned. *)
Inductive push_pc :=
  | PushLoad
  | PushWrite (head : Z)
  | PushCas (head : Z)
  | PushDone.

#[export] Instance push_pc_eq_dec : EqDecision push_pc.
Proof. solve_decision. Defined.

(** The number of spurious failures of a run. *)
Definition spurious_failures (spurs : list bool) : nat :=
  length (filter (λ b, b = true) spurs).

Lemma spurious_failures_cons b spurs :
  spurious_failures (b :: spurs) = ((if b then 1 else 0) + spurious_failures spurs)%nat.
Proof. by destruct b. Qed.

Section treiber.
Context {M : Type} `{LinkMem M}.

(** One atomic access of [push_chain first last]; [push slot] is
    [push_chain slot slot].  The state is the memory and the [head] cell. *)
Definition TreiberStack_push_step (first last : Z) (spurious : bool) (pc : push_pc)
    (s : M * Z) : push_pc * (M * Z) :=
  let '(m, top) := s in
  match pc with
  | PushLoad => (PushWrite top, (m, top))
  | PushWrite head => (PushCas head, (link_set m last head, top))
  | PushCas head =>
      if (top =? head) && negb spurious then (PushDone, (m, first))
      else (PushWrite top, (m, top))
  | PushDone => (PushDone, (m, top))
  end.

(** The loop run without interference; the list says which steps, if they are
    a CAS, fail spuriously. *)
Fixpoint TreiberStack_push_run (spurs : list bool) (first last : Z) (pc : push_pc)
    (s : M * Z) : push_pc * (M * Z) :=
  match spurs with
  | [] => (pc, s)
  | b :: spurs =>
      let '(pc, s) := TreiberStack_push_step first last b pc s in
      TreiberStack_push_run spurs first last pc s
  end.

(** [push_chain] and [push] as the uninterrupted calls the heap model makes. *)
Definition TreiberStack_push_chain (s : M * Z) (first last : Z) : M * Z :=
  snd (TreiberStack_push_run [false; false; false] first last PushLoad s).

Definition TreiberStack_push (s : M * Z) (slot : Z) : M * Z :=
  TreiberStack_push_chain s slot slot.

(** [swap_drain]: the old head, and the new (null) one. *)
Definition TreiberStack_swap_drain (top : Z) : Z * Z := (top, 0).

Definition TreiberStack_is_empty (top : Z) : bool := top =? 0.

(** A thread pushing the pre-chained slots [th_chain]. *)
Record push_thread := mkThread { th_chain : list Z; th_pc : push_pc }.

Definition th_first (t : push_thread) : Z := default 0 (head (th_chain t)).
Definition th_last (t : push_thread) : Z := default 0 (last (th_chain t)).

(** The link an access of a push touches. *)
Definition link_accessed (t : push_thread) : option Z :=
  match th_pc t with PushWrite _ => Some (th_last t) | _ => None end.

(** The stack, the threads in a push, and the owner: its position in the chain
    it is draining and the slots it owns. *)
Record treiber_sys := mkTreiber {
  t_mem : M;
  t_top : Z;
  t_threads : list push_thread;
  t_cursor : Z;
  t_owned : list Z;
}.

Definition t_inflight (s : treiber_sys) : list Z := concat (th_chain <$> t_threads s).

(** Labels of the steps; an access says whether it is a CAS that fails although
    the head is the expected one. *)
Inductive treiber_event :=
  | TvStart
  | TvAccess (spurious : bool)
  | TvReturn
  | TvSwap
  | TvOwner.

Definition fails_spuriously (pc : push_pc) (top : Z) (b : bool) : bool :=
  match pc with PushCas head => (top =? head) && b | _ => false end.

Inductive treiber_lstep : treiber_sys → treiber_event → treiber_sys → Prop :=
  (** The owner gives away slots, linked in order; another thread frees them. *)
  | treiber_start m top ths cur owned c z owned' :
      owned ≡ₚ c ++ owned' → c ≠ [] → linked m c z →
      treiber_lstep (mkTreiber m top ths cur owned) TvStart
                    (mkTreiber m top (mkThread c PushLoad :: ths) cur owned')
  (** One access of a pushing thread that does not finish it. *)
  | treiber_thread m top ths1 c pc ths2 cur owned b pc' m' top' :
      TreiberStack_push_step (th_first (mkThread c pc)) (th_last (mkThread c pc)) b pc (m, top)
        = (pc', (m', top')) →
      pc' ≠ PushDone →
      treiber_lstep (mkTreiber m top (ths1 ++ mkThread c pc :: ths2) cur owned)
                    (TvAccess (fails_spuriously pc top b))
                    (mkTreiber m' top' (ths1 ++ mkThread c pc' :: ths2) cur owned)
  (** The access that makes a push return. *)
  | treiber_done m top ths1 c pc ths2 cur owned b m' top' :
      TreiberStack_push_step (th_first (mkThread c pc)) (th_last (mkThread c pc)) b pc (m, top)
        = (PushDone, (m', top')) →
      treiber_lstep (mkTreiber m top (ths1 ++ mkThread c pc :: ths2) cur owned) TvReturn
                    (mkTreiber m' top' (ths1 ++ ths2) cur owned)
  (** The owner starts a drain with the atomic swap. *)
  | treiber_swap m top ths owned cur' top' :
      TreiberStack_swap_drain top = (cur', top') →
      treiber_lstep (mkTreiber m top ths 0 owned) TvSwap (mkTreiber m top' ths cur' owned)
  (** One iteration of the drain loop: read the link, take the slot. *)
  | treiber_walk m top ths cur owned :
      cur ≠ 0 →
      treiber_lstep (mkTreiber m top ths cur owned) TvOwner
                    (mkTreiber m top ths (link_get m cur) (cur :: owned))
  (** Whoever holds an owned slot writes anything into it. *)
  | treiber_write m top ths cur owned a v :
      a ∈ owned →
      treiber_lstep (mkTreiber m top ths cur owned) TvOwner
                    (mkTreiber (link_set m a v) top ths cur owned).

Definition treiber_step (s s' : treiber_sys) : Prop := ∃ e, treiber_lstep s e s'.

Definition treiber_init (m : M) (nodes : list Z) : treiber_sys := mkTreiber m 0 [] 0 nodes.

(** ** Invariant *)

(** What a pushing thread relies on between two of its accesses. *)
Definition thread_ok (m : M) (t : push_thread) : Prop :=
  th_chain t ≠ [] ∧
  match th_pc t with
  | PushLoad => ∃ z, linked m (th_chain t) z
  | PushWrite head => uint 64 head ∧ ∃ z, linked m (th_chain t) z
  | PushCas head => uint 64 head ∧ linked m (th_chain t) head
  | PushDone => False
  end.

Definition treiber_inv (nodes : list Z) (s : treiber_sys) : Prop :=
  ∃ l lc, chain (t_mem s) (t_top s) l ∧ chain (t_mem s) (t_cursor s) lc ∧
    l ++ lc ++ t_inflight s ++ t_owned s ≡ₚ nodes ∧
    Forall (thread_ok (t_mem s)) (t_threads s).
End treiber.

Arguments push_thread : clear implicits.
Arguments treiber_sys M : clear implicits.

Section treiber_proofs.
Context `{LinkMemLaws M}.
Context (nodes : list Z) (Hnodup : NoDup nodes) (Hok : Forall ptr_ok nodes)
  (Hregion : link_region M (.∈ nodes)).
Implicit Types (m : M).

(** A node of the partition is separated from all the others. *)
Lemma part_sep a rest : a :: rest ≡ₚ nodes → Forall (link_sep a) rest.
Proof.
  intros Hp. assert (NoDup (a :: rest)) as [Hnot _]%NoDup_cons by by rewrite Hp.
  apply (link_region_sep (.∈ nodes)); auto.
  - rewrite <- Hp. set_solver.
  - apply Forall_forall. intros x Hx. rewrite <- Hp. set_solver.
Qed.

Lemma thread_ok_set m a v t :
  Forall (link_sep a) (th_chain t) → thread_ok m t → thread_ok (link_set m a v) t.
Proof.
  intros Hs [? Ht]. split; [done|]. destruct (th_pc t); naive_solver eauto using linked_set.
Qed.

Lemma threads_ok_set m a v ths :
  Forall (link_sep a) (concat (th_chain <$> ths)) →
  Forall (thread_ok m) ths → Forall (thread_ok (link_set m a v)) ths.
Proof.
  intros Hs Hths. induction Hths as [|t ths Ht Hths IH]; [constructor|].
  cbn in Hs. apply Forall_app in Hs as [? ?]. constructor; [|by apply IH].
  by apply thread_ok_set.
Qed.

(** Overwriting the link of the last node of a linked segment. *)
Lemma linked_set_last m c a z v :
  linked m (c ++ [a]) z → uint 64 v → Forall (link_sep a) c →
  linked (link_set m a v) (c ++ [a]) v.
Proof.
  intros Hl Hv Hs. induction Hs as [|x [|y c] Hx Hs IH]; cbn in *.
  - by apply link_get_set_eq.
  - rewrite link_get_set_ne by done. naive_solver.
  - rewrite link_get_set_ne by done. naive_solver.
Qed.

(** An access that does not end a push writes at most the link of its last
    node.  The head it sees may be any pointer. *)
Lemma push_access_ok m h c pc b pc' m' h' rest :
  thread_ok m (mkThread c pc) → uint 64 h → c ++ rest ≡ₚ nodes →
  TreiberStack_push_step (th_first (mkThread c pc)) (th_last (mkThread c pc)) b pc (m, h) = (pc', (m', h')) →
  pc' ≠ PushDone →
  h' = h ∧ thread_ok m' (mkThread c pc') ∧
  match link_accessed (mkThread c pc) with
  | None => m' = m
  | Some a => ∃ c' v, c = c' ++ [a] ∧ m' = link_set m a v ∧ Forall (link_sep a) rest
  end.
Proof.
  intros [Hne Hpc] Hh Hp Hstep Hdone. cbn in Hne, Hpc.
  destruct pc as [|h0|h0|]; cbn in Hstep; simplify_eq; cbn [link_accessed th_pc].
  - split; [done|]. split; [|done]. split; [done|]. by split.
  - destruct Hpc as [Hh0 [z Hz]]. destruct c as [|a c _] using rev_ind; [done|]. clear Hne.
    unfold th_last. cbn [th_chain]. rewrite last_snoc. cbn [default from_option id].
    assert (Forall (link_sep a) (c ++ rest)) as [Hsc Hs]%Forall_app by (apply part_sep; perm).
    split; [done|]. split; [|by eauto]. split; [by destruct c|]. cbn. split; [done|]. by eapply linked_set_last.
  - destruct Hpc as [_ Hc]. destruct ((h =? h0) && negb b); simplify_eq.
    split; [done|]. split; [|done]. split; [done|]. cbn. eauto.
Qed.

(** One access of a push: either the push goes on, having written at most its
    own last node, or its chain is now on top of the stack. *)
Lemma push_step_ok m top c pc b pc' m' top' l rest :
  thread_ok m (mkThread c pc) → chain m top l → c ++ l ++ rest ≡ₚ nodes →
  TreiberStack_push_step (th_first (mkThread c pc)) (th_last (mkThread c pc)) b pc (m, top)
    = (pc', (m', top')) →
  (pc' ≠ PushDone ∧ top' = top ∧ thread_ok m' (mkThread c pc') ∧
     (m' = m ∨ ∃ a v, m' = link_set m a v ∧ Forall (link_sep a) (l ++ rest))) ∨
  (pc' = PushDone ∧ m' = m ∧ chain m top' (c ++ l)).
Proof.
  intros Ht Hl Hp Hstep. destruct (decide (pc' = PushDone)) as [->|Hdone].
  - right. destruct Ht as [Hne Hpc]. cbn in Hne, Hpc. destruct pc as [|h|h|]; cbn in Hstep; simplify_eq; try done.
    destruct Hpc as [_ Hc]. destruct (Z.eqb_spec top h) as [->|]; [|done]. destruct b; [done|]. simplify_eq/=.
    do 2 (split; [done|]). apply (chain_app m' c h l); try done.
    apply Forall_forall. intros x Hx. rewrite Forall_forall in Hok. apply Hok. rewrite <- Hp. set_solver.
  - left. destruct (push_access_ok _ _ _ _ _ _ _ _ _ Ht (chain_uint _ _ _ Hl) Hp Hstep Hdone) as (-> & Ht' & Hm).
    do 3 (split; [done|]). destruct (link_accessed _) as [a|]; [|by left].
    right. destruct Hm as (c' & v & _ & -> & Hs). eauto.
Qed.

Lemma treiber_inv_init m : treiber_inv nodes (treiber_init m nodes).
Proof. exists [], []. split_and!; done. Qed.

Lemma treiber_inv_start m top ths cur owned c z owned' :
  owned ≡ₚ c ++ owned' → c ≠ [] → linked m c z →
  treiber_inv nodes (mkTreiber m top ths cur owned) →
  treiber_inv nodes (mkTreiber m top (mkThread c PushLoad :: ths) cur owned').
Proof.
  intros Hc Hne Hz (l & lc & Hl & Hlc & Hp & Hths). unfold t_inflight in *. cbn in *.
  exists l, lc. split_and!; try done; [unfold t_inflight; cbn; perm|].
  constructor; [split; [done|cbn; eauto]|done].
Qed.

Lemma treiber_inv_thread m top ths1 c pc ths2 cur owned b pc' m' top' :
  TreiberStack_push_step (th_first (mkThread c pc)) (th_last (mkThread c pc)) b pc (m, top)
    = (pc', (m', top')) →
  pc' ≠ PushDone →
  treiber_inv nodes (mkTreiber m top (ths1 ++ mkThread c pc :: ths2) cur owned) →
  treiber_inv nodes (mkTreiber m' top' (ths1 ++ mkThread c pc' :: ths2) cur owned).
Proof.
  intros Hstep Hdone (l & lc & Hl & Hlc & Hp & Hths). unfold t_inflight in *. cbn in *.
  apply Forall_app in Hths as [Hths1 [Ht Hths2]%Forall_cons].
  destruct (push_step_ok m top c pc b pc' m' top' l
    (lc ++ concat (th_chain <$> ths1) ++ concat (th_chain <$> ths2) ++ owned))
    as [(_ & -> & Ht' & Hm)|(-> & _)]; try done.
  { rewrite fmap_app, fmap_cons, concat_app in Hp. cbn in Hp. perm. }
  exists l, lc. unfold t_inflight. cbn. split_and!.
  1-2: destruct Hm as [->|(a & v & -> & Hs)]; [done|]; rewrite !Forall_app in Hs;
    apply chain_set; naive_solver.
  - rewrite fmap_app, fmap_cons in Hp |- *. done.
  - apply Forall_app. destruct Hm as [->|(a & v & -> & Hs)]; [by auto|].
    rewrite !Forall_app in Hs. split; [|constructor; [done|]]; apply threads_ok_set; naive_solver.
Qed.

Lemma treiber_inv_done m top ths1 c pc ths2 cur owned b m' top' :
  TreiberStack_push_step (th_first (mkThread c pc)) (th_last (mkThread c pc)) b pc (m, top)
    = (PushDone, (m', top')) →
  treiber_inv nodes (mkTreiber m top (ths1 ++ mkThread c pc :: ths2) cur owned) →
  treiber_inv nodes (mkTreiber m' top' (ths1 ++ ths2) cur owned).
Proof.
  intros Hstep (l & lc & Hl & Hlc & Hp & Hths). unfold t_inflight in *. cbn in *.
  apply Forall_app in Hths as [Hths1 [Ht Hths2]%Forall_cons].
  rewrite fmap_app, fmap_cons, concat_app in Hp. cbn in Hp.
  destruct (push_step_ok m top c pc b PushDone m' top' l
    (lc ++ concat (th_chain <$> ths1) ++ concat (th_chain <$> ths2) ++ owned))
    as [(? & _)|(_ & -> & Hcl)]; try done; [perm|].
  exists (c ++ l), lc. unfold t_inflight. cbn. split_and!; try done.
  - rewrite fmap_app, concat_app. perm.
  - by apply Forall_app.
Qed.

Lemma treiber_inv_step s s' :
  treiber_inv nodes s → treiber_step s s' → treiber_inv nodes s'.
Proof.
  intros Hinv [e Hstep]. destruct Hstep as [| | |m top ths owned cur' top' Heq
    |m top ths cur owned Hcur|m top ths cur owned a v Ha].
  - by eapply treiber_inv_start.
  - by eapply treiber_inv_thread.
  - by eapply treiber_inv_done.
  - destruct Hinv as (l & lc & Hl & Hlc & Hp & Hths). injection Heq as <- <-.
    cbn in *. destruct lc as [|x lc]; [|destruct Hlc as (<- & Hx & _); unfold ptr_ok in Hx; lia].
    exists [], l. split_and!; try done.
  - destruct Hinv as (l & lc & Hl & Hlc & Hp & Hths). cbn in *.
    destruct (chain_nonnull _ _ _ Hlc Hcur) as (lc' & -> & Hlc').
    exists l, lc'. unfold t_inflight in *. cbn in *. split_and!; try done. perm.
  - destruct Hinv as (l & lc & Hl & Hlc & Hp & Hths). unfold t_inflight in *. cbn in *.
    apply list_elem_of_split in Ha as (o1 & o2 & ->).
    assert (Forall (link_sep a) (l ++ lc ++ concat (th_chain <$> ths) ++ o1 ++ o2)) as Hs
      by (apply part_sep; perm).
    rewrite !Forall_app in Hs. destruct Hs as (? & ? & ? & _).
    exists l, lc. cbn. split_and!; try done; auto using chain_set, threads_ok_set.
Qed.

Lemma treiber_inv_reachable m s :
  rtc treiber_step (treiber_init m nodes) s → treiber_inv nodes s.
Proof.
  intros Hs. eapply (rtc_ind_r (treiber_inv nodes)); [|..|exact Hs].
  - apply treiber_inv_init.
  - intros. by eapply treiber_inv_step.
Qed.

(** *** A push that runs alone *)

Definition push_need (pc : push_pc) : nat :=
  match pc with PushLoad => 3 | PushWrite _ => 2 | PushCas _ => 1 | PushDone => 0 end.

Definition saw_top (top : Z) (pc : push_pc) : Prop :=
  match pc with PushWrite h | PushCas h => h = top | _ => True end.

Lemma push_run_done spurs first last (s : M * Z) :
  TreiberStack_push_run spurs first last PushDone s = (PushDone, s).
Proof. destruct s as [m top]. induction spurs as [|b spurs IH]; [done|]. apply IH. Qed.

Lemma push_run_solo spurs m top l c pc :
  c ++ l ≡ₚ nodes → thread_ok m (mkThread c pc) → saw_top top pc → chain m top l →
  (push_need pc + 2 * spurious_failures spurs ≤ length spurs)%nat →
  ∃ m' top',
    TreiberStack_push_run spurs (th_first (mkThread c pc)) (th_last (mkThread c pc)) pc (m, top)
      = (PushDone, (m', top')) ∧
    chain m' top' (c ++ l).
Proof.
  intros Hp. revert m top pc. induction spurs as [|b spurs IH]; intros m top pc Ht Hsaw Hl Hlen.
  { destruct pc; cbn in Hlen; try lia. by destruct Ht as [_ []]. }
  cbn [TreiberStack_push_run].
  destruct (TreiberStack_push_step _ _ b pc (m, top)) as [pc' [m' top']] eqn:Hstep.
  pose proof Hstep as Hstep'.
  destruct (push_step_ok m top c pc b pc' m' top' l []) as
    [(Hdone & -> & Ht' & Hm)|(-> & -> & Hcl)]; try done; [by rewrite app_nil_r| |].
  - apply (IH m' top pc'); [done| | |].
    + by destruct pc; cbn in Hstep; repeat case_match; simplify_eq.
    + destruct Hm as [->|(a & v & -> & Hs)]; [done|]. rewrite app_nil_r in Hs.
      by apply chain_set.
    + rewrite spurious_failures_cons in Hlen. clear -Hstep Hdone Hsaw Hlen.
      destruct pc as [|h|h|], b; cbn in *; subst; rewrite ?Z.eqb_refl in Hstep; cbn in *;
        simplify_eq/=; lia.
  - rewrite push_run_done. eauto.
Qed.
End treiber_proofs.

(** ** Progress of the whole system *)

Definition is_start (e : treiber_event) : bool := match e with TvStart => true | _ => false end.
Definition is_access (e : treiber_event) : bool := match e with TvAccess _ | TvReturn => true | _ => false end.
Definition is_spurious (e : treiber_event) : bool := match e with TvAccess b => b | _ => false end.
(** The events that change the head. *)
Definition moves_head (e : treiber_event) : bool := match e with TvReturn | TvSwap => true | _ => false end.

Definition tally (f : treiber_event → bool) (es : list treiber_event) : nat := length (filter f es).

Lemma tally_cons f e es : tally f (e :: es) = (Nat.b2n (f e) + tally f es)%nat.
Proof. unfold tally. rewrite filter_cons. by destruct (f e). Qed.

(** The accesses a push still needs if nothing disturbs it: two more when the
    head it has seen is stale. *)
Definition push_cost (top : Z) (pc : push_pc) : nat :=
  match pc with
  | PushLoad => 3
  | PushWrite h => if top =? h then 2 else 4
  | PushCas h => if top =? h then 1 else 3
  | PushDone => 0
  end.

Section progress.
Context {M : Type} `{LinkMem M}.

Definition pushes_cost (top : Z) (ths : list push_thread) : nat := sum_list_with (λ t, push_cost top (th_pc t)) ths.

Definition total_cost (s : treiber_sys M) : nat := pushes_cost (t_top s) (t_threads s).

Definition in_loop (t : push_thread) : Prop := th_pc t ≠ PushDone.

Lemma pushes_cost_cons top t ths : pushes_cost top (t :: ths) = (push_cost top (th_pc t) + pushes_cost top ths)%nat.
Proof. done. Qed.

(** A change of the head costs each push at most one more turn. *)
Lemma cost_stale top top' ths : (pushes_cost top' ths ≤ pushes_cost top ths + 2 * length ths)%nat.
Proof.
  induction ths as [|[c pc] ths IH]; [done|]. rewrite !pushes_cost_cons. cbn [length th_pc].
  destruct pc; cbn [push_cost]; repeat case_match; lia.
Qed.

Lemma cost_split top ths1 t ths2 :
  pushes_cost top (ths1 ++ t :: ths2) = (pushes_cost top (ths1 ++ ths2) + push_cost top (th_pc t))%nat.
Proof. unfold pushes_cost. rewrite !sum_list_with_app. cbn. lia. Qed.

Lemma cost_bound top ths : (Forall in_loop ths → pushes_cost top ths ≤ 4 * length ths)%nat.
Proof.
  induction 1 as [|[c pc] ths _ _ IH]; [done|]. rewrite pushes_cost_cons. cbn [length th_pc].
  destruct pc; cbn [push_cost]; repeat case_match; lia.
Qed.

Lemma push_step_cost first last b pc m top pc' m' top' :
  TreiberStack_push_step first last b pc (m, top) = (pc', (m', top')) → pc ≠ PushDone →
  (pc' = PushDone ∧ push_cost top pc = 1%nat) ∨
  (pc' ≠ PushDone ∧ top' = top ∧
    (1 + push_cost top pc' ≤ push_cost top pc + 2 * Nat.b2n (fails_spuriously pc top b))%nat).
Proof.
  destruct pc as [|h|h|]; cbn [TreiberStack_push_step fails_spuriously]; [| | |done].
  - intros [= <- <- <-] _. right. do 2 (split; [done|]). cbn. rewrite Z.eqb_refl. lia.
  - intros [= <- <- <-] _. right. do 2 (split; [done|]). cbn. case_match; lia.
  - destruct (Z.eqb_spec top h) as [->|Hne], b; cbn [andb negb]; intros [= <- <- <-] _;
      [right|left; cbn; by rewrite Z.eqb_refl|right|right]; (split; [done|]); (split; [done|]); cbn;
      rewrite ?Z.eqb_refl; try case_match; lia.
Qed.

Lemma in_loop_split ths1 t ths2 : Forall in_loop (ths1 ++ t :: ths2) ↔ in_loop t ∧ Forall in_loop (ths1 ++ ths2).
Proof. rewrite !Forall_app, Forall_cons. tauto. Qed.

(** [n] bounds the threads that push at the same time. *)
Lemma lstep_cost s e s' n :
  treiber_lstep s e s' → Forall in_loop (t_threads s) → (length (t_threads s) ≤ n)%nat →
  (Nat.b2n (is_access e) + total_cost s'
   ≤ total_cost s + 3 * Nat.b2n (is_start e) + 2 * Nat.b2n (is_spurious e) + 2 * n * Nat.b2n (moves_head e))%nat ∧
  Forall in_loop (t_threads s') ∧ (length (t_threads s') ≤ length (t_threads s) + Nat.b2n (is_start e))%nat.
Proof.
  unfold total_cost.
  destruct 1 as [|m top ths1 c pc ths2 cur owned b pc' m' top' E Hpc|m top ths1 c pc ths2 cur owned b m' top' E
    |m top ths owned cur' top' _| |];
    cbn [t_top t_threads is_start is_access is_spurious moves_head Nat.b2n]; intros Hloop Hn.
  - rewrite pushes_cost_cons. cbn [th_pc push_cost length]. split; [lia|]. split; [by constructor|lia].
  - apply in_loop_split in Hloop as [Hpc0 Hloop]. pose proof (push_step_cost _ _ _ _ _ _ _ _ _ E Hpc0) as Hc.
    destruct Hc as [[? _]|(_ & -> & Hc)]; [done|]. rewrite !cost_split, !length_app in *. cbn [th_pc length].
    split; [lia|]. split; [by apply in_loop_split|lia].
  - apply in_loop_split in Hloop as [Hpc0 Hloop]. pose proof (push_step_cost _ _ _ _ _ _ _ _ _ E Hpc0) as Hc.
    destruct Hc as [[_ Hc]|[? _]]; [|done]. rewrite cost_split. pose proof (cost_stale top top' (ths1 ++ ths2)).
    rewrite !length_app in *. cbn [th_pc length] in *. split; [nia|]. split; [done|lia].
  - pose proof (cost_stale top top' ths). split; [nia|]. split; [done|lia].
  - split; [lia|]. split; [done|lia].
  - split; [lia|]. split; [done|lia].
Qed.

Lemma run_cost s es s' : run treiber_lstep s es s' → ∀ n,
  Forall in_loop (t_threads s) → (length (t_threads s) + tally is_start es ≤ n)%nat →
  (tally is_access es + total_cost s'
   ≤ total_cost s + 3 * tally is_start es + 2 * tally is_spurious es + 2 * n * tally moves_head es)%nat ∧
  Forall in_loop (t_threads s').
Proof.
  induction 1 as [s|s1 e s2 es s3 Hstep _ IH]; intros n Hloop Hn; [split; [cbn; lia|done]|].
  rewrite tally_cons in Hn. destruct (lstep_cost _ _ _ n Hstep Hloop) as (Hc & Hloop2 & Hlen); [lia|].
  destruct (IH n Hloop2) as [IHc Hloop3]; [lia|]. split; [|done]. rewrite !tally_cons. nia.
Qed.
End progress.

(** ** Properties *)

(** C8. Under every interleaving of pushing threads with the draining owner,
    spurious CAS failures and reuse of drained slots included, the slots on the
    stack, in the chain being drained, in flight and owned are together exactly
    the slots of the start: none is lost and none is handed out twice. *)
Theorem treiber_conservation `{LinkMemLaws M} (nodes : list Z) (m : M) (s : treiber_sys M) :
  NoDup nodes → Forall ptr_ok nodes → link_region M (.∈ nodes) →
  rtc treiber_step (treiber_init m nodes) s →
  ∃ l lc, chain (t_mem s) (t_top s) l ∧ chain (t_mem s) (t_cursor s) lc ∧
    l ++ lc ++ t_inflight s ++ t_owned s ≡ₚ nodes.
Proof.
  intros Hnd Hok Hreg Hs.
  destruct (treiber_inv_reachable nodes Hnd Hok Hreg m s Hs) as (l & lc & ? & ? & ? & _). eauto.
Qed.

(** C13. The stack is lock-free.  Whatever the scheduler does from a reachable
    state on, the threads that push make at most four accesses each in a row,
    three for a new push, before a push returns or the owner takes the stack,
    each of which costs the others at most two more; a spurious failure costs
    two.  So finitely many pushes and drains with finitely many spurious
    failures end after finitely many accesses: no schedule keeps a push in its
    loop. *)
Theorem treiber_lock_free `{LinkMem M} (nodes : list Z) (m : M) (s : treiber_sys M) es s' :
  rtc treiber_step (treiber_init m nodes) s → run treiber_lstep s es s' →
  let n := (length (t_threads s) + tally is_start es)%nat in
  (tally is_access es ≤ 4 * length (t_threads s) + 3 * tally is_start es +
     2 * n * tally moves_head es + 2 * tally is_spurious es)%nat.
Proof.
  intros Hreach Hrun n. apply rtc_run in Hreach as [es0 Hreach].
  destruct (run_cost _ _ _ Hreach _ (Forall_nil_2 _) ltac:(reflexivity)) as [_ Hloop].
  destruct (run_cost _ _ _ Hrun n Hloop ltac:(done)) as [Hc _].
  pose proof (cost_bound (t_top s) _ Hloop). unfold total_cost in Hc. lia.
Qed.

(** A push of a linked chain that runs alone returns once its CAS has
    failed spuriously finitely often, with the chain on top of the stack. *)
Theorem treiber_push_terminates `{LinkMemLaws M} (spurs : list bool) (m : M) (top z : Z)
    (c l : list Z) :
  NoDup (c ++ l) → Forall ptr_ok (c ++ l) → link_region M (.∈ c ++ l) →
  c ≠ [] → linked m c z → chain m top l →
  (3 + 2 * spurious_failures spurs ≤ length spurs)%nat →
  ∃ m' top',
    TreiberStack_push_run spurs (default 0 (head c)) (default 0 (last c)) PushLoad (m, top)
      = (PushDone, (m', top')) ∧
    chain m' top' (c ++ l).
Proof.
  intros Hnd Hok Hreg Hne Hz Hl Hlen.
  apply (push_run_solo (c ++ l) Hnd Hok Hreg spurs m top l c PushLoad); try done.
  split; [done|]. by exists z.
Qed.

(** ** Witnesses *)

Lemma region_72_80 : link_region mem (.∈ [72; 80]).
Proof. intros a b Ha Hb Hne. cbn. set_unfold in Ha. set_unfold in Hb. lia. Qed.

(** One slot pushed, swapped out and walked back to the owner. *)
Definition treiber_demo : treiber_sys mem :=
  mkTreiber (write_next ∅ 72 0) 0 [] 0 [72; 80].

Definition treiber_demo_events : list treiber_event :=
  [TvStart; TvAccess false; TvAccess false; TvReturn; TvSwap; TvOwner].

Lemma treiber_demo_run :
  run treiber_lstep (treiber_init ∅ [72; 80]) treiber_demo_events treiber_demo.
Proof.
  eapply run_cons; [apply (treiber_start ∅ 0 [] 0 [72; 80] [72] 0 [80]); by vm_compute|].
  eapply run_cons; [by apply (treiber_thread _ _ [] [72] PushLoad [] _ _ false)|].
  eapply run_cons; [by apply (treiber_thread _ _ [] [72] (PushWrite 0) [] _ _ false)|].
  eapply run_cons; [by eapply (treiber_done _ _ [] [72] _ [] _ _ false)|].
  eapply run_cons; [by apply treiber_swap|].
  eapply run_cons; [by apply treiber_walk|].
  change (link_get _ _) with 0. apply run_nil.
Qed.

Lemma treiber_demo_reachable : rtc treiber_step (treiber_init ∅ [72; 80]) treiber_demo.
Proof.
  eapply run_rtc, treiber_demo_run.
Qed.

Lemma treiber_conservation_witness :
  ∃ l lc, chain (t_mem treiber_demo) (t_top treiber_demo) l ∧
    chain (t_mem treiber_demo) (t_cursor treiber_demo) lc ∧
    l ++ lc ++ t_inflight treiber_demo ++ t_owned treiber_demo ≡ₚ [72; 80].
Proof.
  apply (treiber_conservation [72; 80] ∅ treiber_demo).
  - apply (bool_decide_unpack _). by vm_compute.
  - apply (bool_decide_unpack _). by vm_compute.
  - exact region_72_80.
  - exact treiber_demo_reachable.
Defined.

Lemma treiber_lock_free_witness :
  (tally is_access treiber_demo_events ≤ 3 * 1 + 2 * 1 * 2 + 2 * 0)%nat.
Proof.
  apply (treiber_lock_free [72; 80] ∅ (treiber_init (∅ : mem) [72; 80]) treiber_demo_events treiber_demo).
  - apply rtc_refl.
  - exact treiber_demo_run.
Defined.

Lemma treiber_push_terminates_witness :
  ∃ (m' : mem) top',
    TreiberStack_push_run [false; false; true; false; false] 72 72 PushLoad (∅, 0)
      = (PushDone, (m', top')) ∧
    chain m' top' ([72] ++ []).
Proof.
  apply (treiber_push_terminates [false; false; true; false; false] ∅ 0 0 [72] []).
  - apply (bool_decide_unpack _). by vm_compute.
  - apply (bool_decide_unpack _). by vm_compute.
  - intros a b Ha Hb Hne. cbn. set_unfold in Ha. set_unfold in Hb. lia.
  - done.
  - reflexivity.
  - reflexivity.
  - vm_compute. lia.
Defined.
