(* ===== verification/Weak.v ===== *)
(** * The lock-free stacks with their memory orderings ([src/src/slab.rs],
    [TreiberStack]; [src/src/pool.rs], [abandon_slab], [adopt_all])

    [Treiber] and [Abandon] take every access as sequentially consistent.  The
    code asks for less: the loads of the head and failed compare-and-swaps are
    [Relaxed], a successful one is [Release], the swap of the owner [Acquire],
    and the links are no atomics at all, so that an access to a link that is
    not ordered with the previous one is a data race, undefined behaviour.

    [weak_step] has views: an access to a link is an event, a thread knows the
    events that happen before what it does next, a [Release] leaves the knowledge
    of the thread with the head, an [Acquire] picks up what was left there (by
    all pushes since, as read-modify-writes continue a release sequence), and a
    [Relaxed] load may see any value the head ever had.  The theorem is that
    with the orderings of the source no run has a data race and no slot is lost;
    with either of them weakened to [Relaxed], some run has a race.

    All of this is over any memory of links: the slots of a slab ([mem]), and the
    headers of slabs ([headers] of [Abandon]), whose lists use the same
    orderings. *)

From stdpp Require Import base numbers list gmap relations.
From Stdlib Require Import ZArith Lia.
From S2P Require Import Prelude LinkMem Treiber.

Local Open Scope Z_scope.

(** ** Definitions *)

Inductive Ordering := Relaxed | Acquire | Release.

#[export] Instance Ordering_eq_dec : EqDecision Ordering.
Proof. solve_decision. Defined.

(** The orderings of a successful CAS of [push] and of the swap of [swap_drain];
    those of the source. *)
Record orderings := mkOrderings { push_success : Ordering; swap_order : Ordering }.

Definition source_orderings : orderings := mkOrderings Release Acquire.

(** Events known to a thread, and for each link its last access. *)
Abbreviation view := (gset nat).

Definition knows (v : view) (last : gmap Z nat) (a : Z) : Prop := ∀ e, last !! a = Some e → e ∈ v.

Section weak.
Context {M : Type} `{LinkMem M} (o : orderings).

Record weak_thread := mkWThread { wt_push : push_thread; wt_view : view }.

(** [wk_top] is the value of the head that is last in its modification order,
    [wk_seen] are the earlier ones, [wk_msg] is what an [Acquire] of the last
    one picks up.  The owner has reached [wk_cursor] in the chain it drains. *)
Record weak_sys := mkWeak {
  wk_mem : M;
  wk_top : Z;
  wk_seen : list Z;
  wk_msg : view;
  wk_threads : list weak_thread;
  wk_cursor : Z;
  wk_owned : list Z;
  wk_view : view;
  wk_last : gmap Z nat;
  wk_next : nat;
}.

(** An access to a link: the thread knows its own event. *)
Definition touch (a : option Z) (v : view) (last : gmap Z nat) (next : nat) : view * gmap Z nat * nat :=
  match a with
  | Some a => ({[next]} ∪ v, <[a := next]> last, S next)
  | None => (v, last, next)
  end.

Inductive weak_step : weak_sys → weak_sys → Prop :=
  (** The owner gives away slots, linked in order; how the pointers get to the
      other thread orders what it does after what the owner did. *)
  | weak_start m top seen msg ths cur owned v last next c z owned' :
      owned ≡ₚ c ++ owned' → c ≠ [] → linked m c z →
      weak_step (mkWeak m top seen msg ths cur owned v last next)
        (mkWeak m top seen msg (mkWThread (mkThread c PushLoad) v :: ths) cur owned' v last next)
  (** A load of the head, a write of a link, or a CAS that fails: the head is
      some value it has had. *)
  | weak_access m top seen msg ths ths' cur owned v last next c pc tv h b pc' m' tv' last' next' :
      ths ≡ₚ mkWThread (mkThread c pc) tv :: ths' → h ∈ top :: seen →
      TreiberStack_push_step (th_first (mkThread c pc)) (th_last (mkThread c pc)) b pc (m, h) = (pc', (m', h)) →
      pc' ≠ PushDone → touch (link_accessed (mkThread c pc)) tv last next = (tv', last', next') →
      weak_step (mkWeak m top seen msg ths cur owned v last next)
        (mkWeak m' top seen msg (mkWThread (mkThread c pc') tv' :: ths') cur owned v last' next')
  (** The CAS that succeeds replaces the last value of the head. *)
  | weak_push m top seen msg ths ths' cur owned v last next c pc tv b m' top' :
      ths ≡ₚ mkWThread (mkThread c pc) tv :: ths' →
      TreiberStack_push_step (th_first (mkThread c pc)) (th_last (mkThread c pc)) b pc (m, top) = (PushDone, (m', top')) →
      weak_step (mkWeak m top seen msg ths cur owned v last next)
        (mkWeak m' top' (top :: seen) (if decide (push_success o = Release) then tv ∪ msg else msg) ths' cur owned v last next)
  (** The owner's swap. *)
  | weak_swap m top seen msg ths owned v last next cur' top' :
      TreiberStack_swap_drain top = (cur', top') →
      weak_step (mkWeak m top seen msg ths 0 owned v last next)
        (mkWeak m top' (top :: seen) msg ths cur' owned (if decide (swap_order o = Acquire) then msg ∪ v else v) last next)
  (** The owner reads a link of the chain it drains. *)
  | weak_walk m top seen msg ths cur owned v last next v' last' next' :
      cur ≠ 0 → touch (Some cur) v last next = (v', last', next') →
      weak_step (mkWeak m top seen msg ths cur owned v last next)
        (mkWeak m top seen msg ths (link_get m cur) (cur :: owned) v' last' next')
  (** The owner, or who holds the slot, writes into an owned slot. *)
  | weak_write m top seen msg ths cur owned v last next a x v' last' next' :
      a ∈ owned → touch (Some a) v last next = (v', last', next') →
      weak_step (mkWeak m top seen msg ths cur owned v last next)
        (mkWeak (link_set m a x) top seen msg ths cur owned v' last' next').

Definition weak_init (m : M) (nodes : list Z) : weak_sys := mkWeak m 0 [] ∅ [] 0 nodes ∅ ∅ 0.

(** Some thread may access a link next without knowing its last access. *)
Definition racy (s : weak_sys) : Prop :=
  (∃ t a, t ∈ wk_threads s ∧ link_accessed (wt_push t) = Some a ∧ ¬ knows (wt_view t) (wk_last s) a) ∨
  (wk_cursor s ≠ 0 ∧ ¬ knows (wk_view s) (wk_last s) (wk_cursor s)) ∨
  (∃ a, a ∈ wk_owned s ∧ ¬ knows (wk_view s) (wk_last s) a).

Definition wk_inflight (s : weak_sys) : list Z := concat ((λ t, th_chain (wt_push t)) <$> wk_threads s).

(** ** Invariant *)

Definition wthread_ok (m : M) (last : gmap Z nat) (t : weak_thread) : Prop :=
  thread_ok m (wt_push t) ∧ Forall (knows (wt_view t) last) (th_chain (wt_push t)).

Record weak_inv (nodes : list Z) (s : weak_sys) (l lc : list Z) : Prop := {
  wv_stack : chain (wk_mem s) (wk_top s) l;
  wv_drain : chain (wk_mem s) (wk_cursor s) lc;
  wv_parts : l ++ lc ++ wk_inflight s ++ wk_owned s ≡ₚ nodes;
  wv_threads : Forall (wthread_ok (wk_mem s) (wk_last s)) (wk_threads s);
  wv_seen : Forall (uint 64) (wk_top s :: wk_seen s);
  wv_msg : Forall (knows (wk_msg s) (wk_last s)) l;
  wv_owner : Forall (knows (wk_view s) (wk_last s)) (lc ++ wk_owned s);
}.
End weak.

Arguments weak_thread : clear implicits.
Arguments weak_sys M : clear implicits.

(** ** Knowledge *)

Lemma knows_mono (v v' : view) last a : v ⊆ v' → knows v last a → knows v' last a.
Proof. intros Hv Hk e He. by apply Hv, Hk. Qed.

Lemma knows_all_mono (v v' : view) last l : v ⊆ v' → Forall (knows v last) l → Forall (knows v' last) l.
Proof. intros Hv Hl. eapply Forall_impl; [exact Hl|]. intros a. by apply knows_mono. Qed.

(** An access to [a] is known to who makes it, and does not matter to the others. *)
Lemma touch_other a v last next v1 last1 next1 (u : view) l :
  touch a v last next = (v1, last1, next1) → (∀ x, a = Some x → x ∉ l) →
  Forall (knows u last) l → Forall (knows u last1) l.
Proof.
  intros Ht Ha. destruct a as [x|]; cbn in Ht; injection Ht as <- <- <-; [|done].
  rewrite !Forall_forall. intros Hk y Hy e. rewrite lookup_insert_ne; [by apply Hk|]. intros ->. by apply (Ha y).
Qed.

Lemma touch_own a v last next v1 last1 next1 l :
  touch a v last next = (v1, last1, next1) → Forall (knows v last) l → v ⊆ v1 ∧ Forall (knows v1 last1) l.
Proof.
  intros Ht. destruct a as [x|]; cbn in Ht; injection Ht as <- <- <-; [|done].
  rewrite !Forall_forall. intros Hk. split; [set_solver|]. intros y Hy e. rewrite lookup_insert.
  case_decide; [intros [= <-]; set_solver|]. intros He. specialize (Hk y Hy e He). set_solver.
Qed.

Section weak_proofs.
Context `{LinkMemLaws M}.
Context (nodes : list Z) (Hnodup : NoDup nodes) (Hok : Forall ptr_ok nodes)
  (Hregion : link_region M (.∈ nodes)).
Implicit Types (m : M).

Lemma inflight_perm (ths ths' : list weak_thread) :
  ths ≡ₚ ths' →
  concat ((λ t, th_chain (wt_push t)) <$> ths) ≡ₚ concat ((λ t, th_chain (wt_push t)) <$> ths').
Proof. intros Hp. by rewrite Hp. Qed.

(** The nodes in other hands are not the one accessed. *)
Lemma apart_not (a : Z) rest : a :: rest ≡ₚ nodes → a ∉ rest.
Proof. intros Hp. rewrite <- Hp in Hnodup. by apply NoDup_cons in Hnodup as [? _]. Qed.

(** Threads keep what they rely on when somebody else accesses a link. *)
Lemma wthreads_touch m m' a v last next v1 last1 next1 (ths : list weak_thread) :
  touch a v last next = (v1, last1, next1) →
  (∀ x, a = Some x → x ∉ concat ((λ t, th_chain (wt_push t)) <$> ths)) →
  match a with
  | Some x => ∃ w, m' = link_set m x w ∧ Forall (link_sep x) (concat ((λ t, th_chain (wt_push t)) <$> ths))
  | None => m' = m
  end ∨ m' = m →
  Forall (wthread_ok m last) ths → Forall (wthread_ok m' last1) ths.
Proof.
  intros Ht Ha Hm Hths. induction Hths as [|t ths [Hok1 Hk1] Hths IH]; [constructor|]. cbn in Ha, Hm. constructor.
  - split.
    + destruct a as [x|]; [|by destruct Hm as [->| ->]]. destruct Hm as [(w & -> & Hs)| ->]; [|done].
      apply Forall_app in Hs as [Hs _]. by apply thread_ok_set.
    + eapply touch_other; [exact Ht| |exact Hk1]. intros x ->. specialize (Ha x eq_refl). set_solver.
  - apply IH; [intros x ->; specialize (Ha x eq_refl); set_solver|]. destruct a as [x|]; [|done].
    destruct Hm as [(w & -> & Hs)| ->]; [|by right]. apply Forall_app in Hs as [_ Hs]. left. eauto.
Qed.

Lemma weak_inv_start m top seen msg ths cur owned v last next c z owned' l lc :
  weak_inv nodes (mkWeak m top seen msg ths cur owned v last next) l lc →
  owned ≡ₚ c ++ owned' → c ≠ [] → linked m c z →
  weak_inv nodes (mkWeak m top seen msg (mkWThread (mkThread c PushLoad) v :: ths) cur owned' v last next) l lc.
Proof.
  intros [Hs Hd Hp Ht Hseen Hm Ho] Hc Hne Hz. unfold wk_inflight in *. cbn in *.
  rewrite Hc, !Forall_app in Ho. destruct Ho as (Hlc & Hkc & Hko).
  split; unfold wk_inflight; cbn; try done.
  - rewrite <- Hp, Hc. perm.
  - constructor; [|done]. split; [|done]. split; [done|]. cbn. eauto.
  - by apply Forall_app.
Qed.

Lemma weak_inv_access m top seen msg ths ths' cur owned v last next c pc tv h b pc' m' tv' last' next' l lc :
  weak_inv nodes (mkWeak m top seen msg ths cur owned v last next) l lc →
  ths ≡ₚ mkWThread (mkThread c pc) tv :: ths' → h ∈ top :: seen →
  TreiberStack_push_step (th_first (mkThread c pc)) (th_last (mkThread c pc)) b pc (m, h) = (pc', (m', h)) →
  pc' ≠ PushDone → touch (link_accessed (mkThread c pc)) tv last next = (tv', last', next') →
  weak_inv nodes (mkWeak m' top seen msg (mkWThread (mkThread c pc') tv' :: ths') cur owned v last' next') l lc.
Proof.
  intros [Hs Hd Hp Ht Hseen Hm Ho] Hths Hh Hstep Hpc Htouch. unfold wk_inflight in *. cbn [wk_mem wk_top wk_seen
    wk_msg wk_threads wk_cursor wk_owned wk_view wk_last] in *.
  rewrite (inflight_perm _ _ Hths) in Hp. rewrite Hths in Ht. apply Forall_cons in Ht as [[Htok Htk] Ht]. cbn in Hp, Htok, Htk.
  set (others := concat ((λ t, th_chain (wt_push t)) <$> ths')) in *.
  assert (c ++ l ++ lc ++ others ++ owned ≡ₚ nodes) as Hparts by perm.
  assert (uint 64 h) as Hu by (rewrite Forall_forall in Hseen; by apply Hseen).
  destruct (push_access_ok nodes Hnodup Hok Hregion _ _ _ _ _ _ _ _ _ Htok Hu Hparts Hstep Hpc) as (_ & Htok' & Hlink).
  assert (∀ x, link_accessed (mkThread c pc) = Some x → x ∉ l ++ lc ++ others ++ owned) as Hnot.
  { intros x Hx. rewrite Hx in Hlink. destruct Hlink as (c' & w & -> & _).
    assert (x ∉ c' ++ l ++ lc ++ others ++ owned) by (apply apart_not; perm). set_solver. }
  assert (m' = m ∨ ∃ x w, link_accessed (mkThread c pc) = Some x ∧ m' = link_set m x w ∧ Forall (link_sep x) (l ++ lc ++ others ++ owned)) as Hmem.
  { destruct (link_accessed _) as [x|]; [|by left]. destruct Hlink as (c' & w & _ & ? & ?). right. eauto 6. }
  split; unfold wk_inflight; cbn [wk_mem wk_top wk_seen wk_msg wk_threads wk_cursor wk_owned wk_view wk_last].
  1-2: destruct Hmem as [->|(x & w & _ & -> & Hsep)]; [done|]; rewrite !Forall_app in Hsep; apply chain_set; tauto.
  - cbn. fold others. perm.
  - constructor.
    + split; [done|]. by eapply touch_own.
    + eapply wthreads_touch; [exact Htouch| | |exact Ht].
      * intros x Hx. specialize (Hnot x Hx). set_solver.
      * destruct Hmem as [->|(x & w & -> & -> & Hsep)]; [by right|]. left. exists w. rewrite !Forall_app in Hsep. by destruct Hsep as (_ & _ & ? & _).
  - done.
  - eapply touch_other; [exact Htouch| |exact Hm]. intros x Hx. specialize (Hnot x Hx). set_solver.
  - eapply touch_other; [exact Htouch| |exact Ho]. intros x Hx. specialize (Hnot x Hx). set_solver.
Qed.

Lemma weak_inv_push m top seen msg ths ths' cur owned v last next c pc tv b m' top' l lc :
  weak_inv nodes (mkWeak m top seen msg ths cur owned v last next) l lc →
  ths ≡ₚ mkWThread (mkThread c pc) tv :: ths' →
  TreiberStack_push_step (th_first (mkThread c pc)) (th_last (mkThread c pc)) b pc (m, top) = (PushDone, (m', top')) →
  weak_inv nodes (mkWeak m' top' (top :: seen) (tv ∪ msg) ths' cur owned v last next) (c ++ l) lc.
Proof.
  intros [Hs Hd Hp Ht Hseen Hm Ho] Hths Hstep. unfold wk_inflight in *. cbn [wk_mem wk_top wk_seen
    wk_msg wk_threads wk_cursor wk_owned wk_view wk_last] in *.
  rewrite (inflight_perm _ _ Hths) in Hp. rewrite Hths in Ht. apply Forall_cons in Ht as [[Htok Htk] Ht]. cbn in Hp, Htok, Htk.
  set (others := concat ((λ t, th_chain (wt_push t)) <$> ths')) in *.
  assert (c ++ l ++ lc ++ others ++ owned ≡ₚ nodes) as Hparts by perm.
  destruct (push_step_ok nodes Hnodup Hok Hregion _ _ _ _ _ _ _ _ _ _ Htok Hs Hparts Hstep) as [[? _]|(_ & -> & Hc)]; [done|].
  split; unfold wk_inflight; cbn [wk_mem wk_top wk_seen wk_msg wk_threads wk_cursor wk_owned wk_view wk_last]; try done.
  - fold others. perm.
  - constructor; [by eapply chain_uint|done].
  - apply Forall_app. split; (eapply knows_all_mono; [|done]); set_solver.
Qed.

Lemma weak_inv_swap m top seen msg ths owned v last next l lc :
  weak_inv nodes (mkWeak m top seen msg ths 0 owned v last next) l lc →
  weak_inv nodes (mkWeak m 0 (top :: seen) msg ths top owned (msg ∪ v) last next) [] l.
Proof.
  intros [Hs Hd Hp Ht Hseen Hm Ho]. cbn in Hs, Hd, Hm, Ho.
  destruct lc as [|x lc]; [|destruct Hd as (<- & Hx & _); unfold ptr_ok in Hx; lia].
  split; try done; [by constructor|]. apply Forall_app. split.
  - eapply knows_all_mono; [|exact Hm]. set_solver.
  - eapply knows_all_mono; [|exact Ho]. set_solver.
Qed.

Lemma weak_inv_walk m top seen msg ths cur owned v last next v' last' next' l lc :
  weak_inv nodes (mkWeak m top seen msg ths cur owned v last next) l lc →
  cur ≠ 0 → touch (Some cur) v last next = (v', last', next') →
  ∃ lc', weak_inv nodes (mkWeak m top seen msg ths (link_get m cur) (cur :: owned) v' last' next') l lc'.
Proof.
  intros [Hs Hd Hp Ht Hseen Hm Ho] Hne Htouch. unfold wk_inflight in *. cbn [wk_mem wk_top wk_seen
    wk_msg wk_threads wk_cursor wk_owned wk_view wk_last] in *.
  destruct (chain_nonnull _ _ _ Hd Hne) as (lc' & -> & Hd'). exists lc'.
  set (others := concat ((λ t, th_chain (wt_push t)) <$> ths)) in *.
  assert (cur ∉ l ++ lc' ++ others ++ owned) as Hnot by (apply apart_not; perm).
  split; unfold wk_inflight; cbn [wk_mem wk_top wk_seen wk_msg wk_threads wk_cursor wk_owned wk_view wk_last]; try done.
  - fold others. perm.
  - eapply wthreads_touch; [exact Htouch| |by right|exact Ht]. intros x [= <-]. fold others. set_solver.
  - eapply touch_other; [exact Htouch| |exact Hm]. intros x [= <-]. set_solver.
  - eapply touch_own; [exact Htouch|]. by rewrite <- Permutation_middle.
Qed.

Lemma weak_inv_write m top seen msg ths cur owned v last next a w v' last' next' l lc :
  weak_inv nodes (mkWeak m top seen msg ths cur owned v last next) l lc →
  a ∈ owned → touch (Some a) v last next = (v', last', next') →
  weak_inv nodes (mkWeak (link_set m a w) top seen msg ths cur owned v' last' next') l lc.
Proof.
  intros [Hs Hd Hp Ht Hseen Hm Ho] Ha Htouch. unfold wk_inflight in *. cbn [wk_mem wk_top wk_seen
    wk_msg wk_threads wk_cursor wk_owned wk_view wk_last] in *.
  set (others := concat ((λ t, th_chain (wt_push t)) <$> ths)) in *.
  apply list_elem_of_split in Ha as (o1 & o2 & ->).
  assert (a :: l ++ lc ++ others ++ o1 ++ o2 ≡ₚ nodes) as Hparts by perm.
  pose proof (apart_not _ _ Hparts) as Hnot. pose proof (part_sep nodes Hnodup Hok Hregion _ _ Hparts) as Hsep.
  rewrite !Forall_app in Hsep. destruct Hsep as (Hsl & Hsc & Hst & _).
  split; unfold wk_inflight; cbn [wk_mem wk_top wk_seen wk_msg wk_threads wk_cursor wk_owned wk_view wk_last]; try done.
  - by apply chain_set.
  - by apply chain_set.
  - eapply wthreads_touch; [exact Htouch| |left; by exists w|exact Ht]. intros x [= <-]. fold others. set_solver.
  - eapply touch_other; [exact Htouch| |exact Hm]. intros x [= <-]. set_solver.
  - by eapply touch_own.
Qed.

Lemma weak_inv_step s s' l lc :
  weak_inv nodes s l lc → weak_step source_orderings s s' → ∃ l' lc', weak_inv nodes s' l' lc'.
Proof.
  intros Hinv Hstep. destruct Hstep as [| | |m top seen msg ths owned v last next cur' top' Heq| |].
  - exists l, lc. by eapply weak_inv_start.
  - exists l, lc. by eapply weak_inv_access.
  - eexists _, lc. by eapply weak_inv_push.
  - injection Heq as <- <-. eexists _, _. by apply (weak_inv_swap _ _ _ _ _ _ _ _ _ _ _ Hinv).
  - exists l. by eapply weak_inv_walk.
  - exists l, lc. by eapply weak_inv_write.
Qed.

Lemma weak_inv_reachable m s :
  rtc (weak_step source_orderings) (weak_init m nodes) s → ∃ l lc, weak_inv nodes s l lc.
Proof.
  intros Hs. eapply (rtc_ind_r (λ s, ∃ l lc, weak_inv nodes s l lc)); [|..|exact Hs].
  - exists [], []. split; try done; [by constructor|]. apply Forall_forall. intros a _ e. cbn. by rewrite lookup_empty.
  - intros s1 s2 _ Hstep (l & lc & Hinv). by eapply weak_inv_step.
Qed.

Lemma weak_inv_not_racy s l lc : weak_inv nodes s l lc → ¬ racy s.
Proof.
  intros [Hs Hd Hp Ht Hseen Hm Ho]. intros [(t & a & Hin & Hl & Hno)|[(Hne & Hno)|(a & Ha & Hno)]].
  - apply Hno. rewrite Forall_forall in Ht. destruct (Ht t Hin) as [[Hne _] Hk]. rewrite Forall_forall in Hk. apply Hk.
    destruct (wt_push t) as [c pc]. destruct pc as [|h|h|]; try done. injection Hl as <-. unfold th_last. cbn in *.
    destruct c as [|x c _] using rev_ind; [done|]. rewrite last_snoc. set_solver.
  - apply Hno. destruct (chain_nonnull _ _ _ Hd Hne) as (lc' & -> & _). rewrite Forall_forall in Ho. apply Ho. by left.
  - apply Hno. rewrite Forall_forall in Ho. apply Ho. set_solver.
Qed.
End weak_proofs.

(** ** Properties *)

(** C16. With the memory orderings of the source, that is [Relaxed] loads that may
    see any earlier value of the head, a [Release] CAS and an [Acquire] swap, no
    run of any number of pushing threads and the draining owner has a data race
    on a link, and as under sequential consistency no slot is lost or
    duplicated. *)
Theorem weak_race_free `{LinkMemLaws M} (nodes : list Z) (m : M) (s : weak_sys M) :
  NoDup nodes → Forall ptr_ok nodes → link_region M (.∈ nodes) →
  rtc (weak_step source_orderings) (weak_init m nodes) s →
  ¬ racy s ∧
  ∃ l lc, chain (wk_mem s) (wk_top s) l ∧ chain (wk_mem s) (wk_cursor s) lc ∧
    l ++ lc ++ wk_inflight s ++ wk_owned s ≡ₚ nodes.
Proof.
  intros Hnd Hok Hreg Hs. destruct (weak_inv_reachable nodes Hnd Hok Hreg m s Hs) as (l & lc & Hinv).
  split; [by eapply weak_inv_not_racy|]. exists l, lc. split; [apply Hinv|]. split; apply Hinv.
Qed.

(** ** Why the orderings are needed *)

(** One slot pushed and taken by the owner, up to the read of its link. *)
Ltac run_one_push :=
  eapply rtc_l; [apply (weak_start _ ∅ 0 [] ∅ [] 0 [72] ∅ ∅ 0%nat [72] 0 []); by vm_compute|];
  eapply rtc_l; [eapply (weak_access _ _ _ _ _ _ [] _ _ _ _ _ [72] PushLoad _ 0 false); [done|by left|by cbn|done|by cbn]|];
  eapply rtc_l; [eapply (weak_access _ _ _ _ _ _ [] _ _ _ _ _ [72] (PushWrite 0) _ 0 false); [done|by left|by cbn|done|by cbn]|];
  eapply rtc_l; [eapply (weak_push _ _ _ _ _ _ [] _ _ _ _ _ [72] (PushCas 0) _ false); [done|by cbn]|];
  eapply rtc_l; [by eapply weak_swap|].

(** With a [Relaxed] CAS in [push] the owner reads a link it need not see. *)
Theorem relaxed_push_races :
  ∃ s : weak_sys mem, rtc (weak_step (mkOrderings Relaxed Acquire)) (weak_init ∅ [72]) s ∧ racy s.
Proof.
  eexists. split; [run_one_push; apply rtc_refl|]. right. left. split; [done|].
  intros Hk. specialize (Hk 0%nat eq_refl). cbn in Hk. set_solver.
Qed.

(** The same with a [Relaxed] swap in [swap_drain]. *)
Theorem relaxed_swap_races :
  ∃ s : weak_sys mem, rtc (weak_step (mkOrderings Release Relaxed)) (weak_init ∅ [72]) s ∧ racy s.
Proof.
  eexists. split; [run_one_push; apply rtc_refl|]. right. left. split; [done|].
  intros Hk. specialize (Hk 0%nat eq_refl). cbn in Hk. set_solver.
Qed.

(** ** Witness *)

Lemma weak_demo_run :
  ∃ s : weak_sys mem, rtc (weak_step source_orderings) (weak_init ∅ [72]) s ∧ wk_cursor s = 72.
Proof. eexists. split; [run_one_push; apply rtc_refl|done]. Qed.

Lemma weak_race_free_witness :
  ∃ s : weak_sys mem, rtc (weak_step source_orderings) (weak_init ∅ [72]) s ∧ wk_cursor s = 72 ∧ ¬ racy s.
Proof.
  destruct weak_demo_run as (s & Hs & Hc). exists s. split; [exact Hs|]. split; [exact Hc|].
  apply (weak_race_free [72] ∅ s).
  - apply (bool_decide_unpack _). by vm_compute.
  - apply (bool_decide_unpack _). by vm_compute.
  - intros a b Ha Hb Hne. set_unfold in Ha. set_unfold in Hb. lia.
  - exact Hs.
Defined.
