(* ===== verification/Slab.v ===== *)
(** * Slabs ([src/src/slab.rs])

    A slab is a 64 KiB page of slots of one size class.  Its header holds the
    bump region, the owner's free list and the remote free list.  A slab is
    modelled by its base address, its header and the byte memory its slots'
    links live in.

    [slab_inv base m h loc rem live] is the invariant: the carved slots are,
    up to order, those of the local list [loc], of the remote list [rem] and
    those handed out ([live]).  Every operation is specified as a change of
    these three lists; from it follow uniqueness, disjointness and alignment of
    the slots handed out, and that programs writing to live slots cannot break
    the lists. *)

From stdpp Require Import base numbers list gmap.
From Stdlib Require Import ZArith Lia.
From S2P Require Import Prelude SizeClass LinkMem FreeList Treiber.

Local Open Scope Z_scope.
Local Open Scope clm_scope.
Arguments class_size : simpl never.
Arguments next_multiple_of : simpl never.
Arguments Z.div : simpl never.

(** ** Layout of the header *)

Definition SLAB_SIZE : Z := Z.shiftl 1 16.
(** [!(SLAB_SIZE - 1)] on 64 bits. *)
Definition SLAB_MASK : Z := not64 (SLAB_SIZE - 1).

(** Offsets of the fields of a [repr(C)] struct from their sizes and
    alignments; the last entry is the size of the struct. *)
Fixpoint repr_c_offsets (off max_align : Z) (fields : list (Z * Z)) : list Z :=
  match fields with
  | [] => [next_multiple_of off max_align]
  | (sz, al) :: fields =>
      let o := next_multiple_of off al in
      o :: repr_c_offsets (o + sz) (Z.max max_align al) fields
  end.

(** Size and alignment of the fields of [SlabHeader] in declaration order. *)
Definition SlabHeader_fields : list (Z * Z) :=
  [ (2, 2);    (* slot_size : u16 *)
    (2, 2);    (* slot_count : u16 *)
    (2, 2);    (* slots_offset : u16 *)
    (1, 1);    (* size_class_index : u8 *)
    (8, 8);    (* heap_id : usize *)
    (8, 8);    (* next_link : Option<NonNull<SlabBase>> *)
    (8, 8);    (* prev_link : *mut Option<NonNull<SlabBase>> *)
    (2, 2);    (* bump_cursor : u16 *)
    (2, 2);    (* bump_remaining : u16 *)
    (16, 8);   (* local : UnsafeCell<SlotFreeList> *)
    (8, 1);    (* _remote_pad : [u8; 8] *)
    (8, 8) ].  (* remote : TreiberStack *)

Definition size_of_SlabHeader : Z := default 0 (last (repr_c_offsets 0 1 SlabHeader_fields)).

(** ** State *)

(** A list head variable: [full_heads[class]] or [partial_heads[class]] of a heap. *)
Inductive list_kind := FullList | PartialList.
Record HeadCell := mkHeadCell { hc_heap : Z; hc_kind : list_kind; hc_class : Z }.

(** [*mut Option<NonNull<SlabBase>>]: null, a list head variable, or the
    [next_link] field of the slab at [base]. *)
Inductive LinkPtr := LinkNull | LinkHead (c : HeadCell) | LinkNext (base : Z).

#[export] Instance list_kind_eq_dec : EqDecision list_kind.
Proof. solve_decision. Defined.
#[export] Instance HeadCell_eq_dec : EqDecision HeadCell.
Proof. solve_decision. Defined.
#[export] Instance LinkPtr_eq_dec : EqDecision LinkPtr.
Proof. solve_decision. Defined.

Record SlabHeader := mkSlabHeader {
  slot_size : Z;
  slot_count : Z;
  slots_offset : Z;
  size_class_index : Z;
  heap_id : Z;
  next_link : option Z;
  prev_link : LinkPtr;
  bump_cursor : Z;
  bump_remaining : Z;
  local : SlotFreeList;
  remote : Z;
}.

#[export] Instance SlabHeader_eq_dec : EqDecision SlabHeader.
Proof. solve_decision. Defined.

Definition with_local (h : SlabHeader) (fl : SlotFreeList) : SlabHeader :=
  mkSlabHeader (slot_size h) (slot_count h) (slots_offset h) (size_class_index h) (heap_id h)
    (next_link h) (prev_link h) (bump_cursor h) (bump_remaining h) fl (remote h).
Definition with_remote (h : SlabHeader) (top : Z) : SlabHeader :=
  mkSlabHeader (slot_size h) (slot_count h) (slots_offset h) (size_class_index h) (heap_id h)
    (next_link h) (prev_link h) (bump_cursor h) (bump_remaining h) (local h) top.
Definition with_bump (h : SlabHeader) (cursor remaining : Z) : SlabHeader :=
  mkSlabHeader (slot_size h) (slot_count h) (slots_offset h) (size_class_index h) (heap_id h)
    (next_link h) (prev_link h) cursor remaining (local h) (remote h).

(** [Slab::set_heap_id], [Slab::set_next_link] and [Slab::set_prev_link]. *)
Definition Slab_set_heap_id (h : SlabHeader) (id : Z) : SlabHeader :=
  mkSlabHeader (slot_size h) (slot_count h) (slots_offset h) (size_class_index h) id
    (next_link h) (prev_link h) (bump_cursor h) (bump_remaining h) (local h) (remote h).
Definition Slab_set_next_link (h : SlabHeader) (next : option Z) : SlabHeader :=
  mkSlabHeader (slot_size h) (slot_count h) (slots_offset h) (size_class_index h) (heap_id h)
    next (prev_link h) (bump_cursor h) (bump_remaining h) (local h) (remote h).
Definition Slab_set_prev_link (h : SlabHeader) (prev : LinkPtr) : SlabHeader :=
  mkSlabHeader (slot_size h) (slot_count h) (slots_offset h) (size_class_index h) (heap_id h)
    (next_link h) prev (bump_cursor h) (bump_remaining h) (local h) (remote h).

(** ** Operations *)

(** [SlabHeader::init]: the header written at the base of the page. *)
Definition SlabHeader_init (class heap : Z) : SlabHeader :=
  let slot_size := class_size class in
  let slots_offset := next_multiple_of size_of_SlabHeader slot_size in
  let slot_count := (SLAB_SIZE - slots_offset) / slot_size in
  mkSlabHeader (wrap 16 slot_size) (wrap 16 slot_count) (wrap 16 slots_offset) class heap
    None LinkNull (wrap 16 slots_offset) (wrap 16 slot_count) SlotFreeList_EMPTY 0.

(** [SlabHeader::from_ptr], [SlabRef::from_interior_ptr]: the base of the slab. *)
Definition SlabHeader_from_ptr (ptr : Z) : Z := Z.land ptr SLAB_MASK.

Definition SlabRef_header_eq (a b : Z) : bool := a =? b.

Definition Slab_free_count (h : SlabHeader) : Z := sfl_len (local h) +[16] bump_remaining h.

Definition Slab_is_fully_free (h : SlabHeader) : bool := Slab_free_count h =? slot_count h.

Definition Slab_alloc (base : Z) (m : mem) (h : SlabHeader) : option Z * SlabHeader :=
  let '(ptr, fl) := SlotFreeList_pop m (local h) in
  let h := with_local h fl in
  match ptr with
  | Some _ => (ptr, h)
  | None =>
      if 0 <? bump_remaining h then
        let slot := base + bump_cursor h in
        (Some slot, with_bump h (bump_cursor h +[16] slot_size h) (bump_remaining h -[16] 1))
      else (None, h)
  end.

Definition Slab_dealloc_local (m : mem) (h : SlabHeader) (ptr : Z) : mem * SlabHeader :=
  let '(m, fl) := SlotFreeList_push m (local h) ptr in (m, with_local h fl).

Definition Slab_has_pending_remote (h : SlabHeader) : bool :=
  negb (TreiberStack_is_empty (remote h)).

(** The loop of [drain_remote]: [count] slots were recovered so far. *)
Fixpoint drain_loop (fuel : nat) (m : mem) (fl : SlotFreeList) (count cursor : Z)
    : res (mem * SlotFreeList * Z) :=
  if cursor =? 0 then Ok (m, fl, count) else
  match fuel with
  | O => Panic OutOfFuel
  | S fuel =>
      let next := read_next m cursor in
      let '(m, fl) := SlotFreeList_push m fl cursor in
      drain_loop fuel m fl (count +[16] 1) next
  end.

(** [Slab::drain_remote]; a chain has at most [slot_count] nodes. *)
Definition Slab_drain_remote (m : mem) (h : SlabHeader) : res (mem * SlabHeader * Z) :=
  let '(chain, top) := TreiberStack_swap_drain (remote h) in
  '(m, fl, count) ← drain_loop (Z.to_nat (slot_count h)) m (local h) 0 chain;
  Ok (m, with_local (with_remote h top) fl, count).

(** [SlabRef::dealloc_remote] and [SlabRef::push_chain_remote]. *)
Definition SlabRef_dealloc_remote (m : mem) (h : SlabHeader) (ptr : Z) : mem * SlabHeader :=
  let '(m, top) := TreiberStack_push (m, remote h) ptr in (m, with_remote h top).

Definition SlabRef_push_chain_remote (m : mem) (h : SlabHeader) (first last : Z)
    : mem * SlabHeader :=
  let '(m, top) := TreiberStack_push_chain (m, remote h) first last in (m, with_remote h top).

(** ** The invariant *)

(** The address of slot [i]. *)
Definition slot_addr (base : Z) (h : SlabHeader) (i : Z) : Z :=
  base + slots_offset h + i * slot_size h.

(** Slots taken from the bump region so far. *)
Definition carved (h : SlabHeader) : Z := slot_count h - bump_remaining h.

Definition carved_slots (base : Z) (h : SlabHeader) : list Z :=
  slot_addr base h <$> seqZ 0 (carved h).

Definition slab_base_ok (base : Z) : Prop :=
  (SLAB_SIZE | base) ∧ 0 < base ∧ base + SLAB_SIZE ≤ 2 ^ 64.

(** The fields that never change are those of the class, untruncated. *)
Definition slab_static (h : SlabHeader) : Prop :=
  0 ≤ size_class_index h < NUM_CLASSES ∧
  slot_size h = class_size (size_class_index h) ∧
  slots_offset h = next_multiple_of size_of_SlabHeader (slot_size h) ∧
  slot_count h = (SLAB_SIZE - slots_offset h) / slot_size h.

Record slab_inv (base : Z) (m : mem) (h : SlabHeader) (loc rem live : list Z) : Prop := {
  si_base : slab_base_ok base;
  si_static : slab_static h;
  si_bump : 0 ≤ bump_remaining h ≤ slot_count h;
  si_cursor : bump_cursor h = wrap 16 (slots_offset h + carved h * slot_size h);
  si_local : slot_list m (local h) loc;
  si_remote : chain m (remote h) rem;
  si_parts : loc ++ rem ++ live ≡ₚ carved_slots base h;
}.

(** ** Geometry of the slots *)

Lemma size_of_SlabHeader_72 : size_of_SlabHeader = 72.
Proof. reflexivity. Qed.

(** The compile-time assertion of the source: [remote] starts a new cache line. *)
Lemma remote_cache_line : nth 11 (repr_c_offsets 0 1 SlabHeader_fields) 0 = 64.
Proof. reflexivity. Qed.

(** What [init] computes for a class, without the casts. *)
Definition class_geometry (c : Z) : Z * Z * Z :=
  let sz := class_size c in
  let off := next_multiple_of size_of_SlabHeader sz in
  (sz, off, (SLAB_SIZE - off) / sz).

Definition geometry_ok (g : Z * Z * Z) : bool :=
  let '(sz, off, n) := g in
  (8 <=? sz) && (sz <=? 32768) && (72 <=? off) && (off <? 65536) && (off mod sz =? 0) &&
  (1 <=? n) && (n <=? 8183) && (off + n * sz <=? 65536).

Lemma geometry_ok_all c : 0 ≤ c < NUM_CLASSES → geometry_ok (class_geometry c) = true.
Proof. change NUM_CLASSES with 49. intros. enum c 0 49; reflexivity. Qed.

Record geometry (h : SlabHeader) : Prop := {
  geo_size : 8 ≤ slot_size h ≤ 32768;
  geo_offset : 72 ≤ slots_offset h < 65536;
  geo_mult : (slot_size h | slots_offset h);
  geo_count : 1 ≤ slot_count h ≤ 8183;
  geo_fit : slots_offset h + slot_count h * slot_size h ≤ 65536;
}.

Lemma static_geometry h : slab_static h → geometry h.
Proof.
  intros (Hc & Hs & Ho & Hn). pose proof (geometry_ok_all _ Hc) as Hok.
  unfold geometry_ok, class_geometry in Hok. rewrite <- Hs, <- Ho, <- Hn in Hok.
  repeat match goal with
  | H : _ && _ = true |- _ => apply andb_true_iff in H as [? ?]
  end.
  rewrite ?Z.leb_le, ?Z.ltb_lt, ?Z.eqb_eq in *.
  split; try lia. apply Z.mod_divide; lia.
Qed.

Lemma slot_addr_inj_sep base h i j :
  geometry h → i ≠ j → slot_size h ≤ Z.abs (slot_addr base h i - slot_addr base h j).
Proof. intros [] Hij. unfold slot_addr. nia. Qed.

Lemma slot_addr_range base h i :
  geometry h → 0 ≤ i < slot_count h →
  base + 72 ≤ slot_addr base h i ∧ slot_addr base h i + slot_size h ≤ base + 65536.
Proof. intros [] Hi. unfold slot_addr. nia. Qed.

Lemma elem_of_carved base h a :
  a ∈ carved_slots base h ↔ ∃ i, 0 ≤ i < carved h ∧ a = slot_addr base h i.
Proof.
  unfold carved_slots. rewrite list_elem_of_fmap. setoid_rewrite elem_of_seqZ.
  split; intros (i & ? & ?); exists i; split; auto; lia.
Qed.

Lemma carved_region base h : geometry h → link_region mem (.∈ carved_slots base h).
Proof.
  intros Hg a b. rewrite !elem_of_carved. intros (i & ? & ->) (j & ? & ->) Hne.
  pose proof (slot_addr_inj_sep base h i j Hg). pose proof (geo_size h Hg). cbn.
  destruct (decide (i = j)) as [->|]; [done|]. lia.
Qed.

Lemma carved_NoDup base h : geometry h → NoDup (carved_slots base h).
Proof.
  intros Hg. apply NoDup_fmap_2; [|apply NoDup_seqZ].
  intros i j Heq. destruct (decide (i = j)); [done|].
  pose proof (slot_addr_inj_sep base h i j Hg). pose proof (geo_size h Hg). lia.
Qed.

Lemma length_carved base h : 0 ≤ carved h → Z.of_nat (length (carved_slots base h)) = carved h.
Proof. intros. unfold carved_slots. rewrite length_fmap, length_seqZ. lia. Qed.

Lemma slot_ptr_ok base h i :
  slab_base_ok base → geometry h → 0 ≤ i < slot_count h → ptr_ok (slot_addr base h i).
Proof.
  intros (_ & ? & ?) Hg Hi. pose proof (slot_addr_range base h i Hg Hi).
  pose proof (geo_size h Hg). unfold ptr_ok. change SLAB_SIZE with 65536 in *. lia.
Qed.

(** Taking the next bump slot extends the carved slots at the end. *)
Lemma carved_slots_snoc base h h' :
  0 ≤ carved h → carved h' = carved h + 1 →
  slots_offset h' = slots_offset h → slot_size h' = slot_size h →
  carved_slots base h' = carved_slots base h ++ [slot_addr base h (carved h)].
Proof.
  intros Hc Hc' Ho Hs. unfold carved_slots. rewrite Hc', seqZ_app by lia.
  rewrite fmap_app. f_equal.
  - apply list_fmap_ext. intros. unfold slot_addr. by rewrite Ho, Hs.
  - change (seqZ (0 + carved h) 1) with [Z.of_nat 0 + (0 + carved h)].
    cbn [fmap list_fmap]. unfold slot_addr. rewrite Ho, Hs. done.
Qed.

(** ** The operations on the three lists *)

Section slab_ops.
Context (base : Z).
Implicit Types (m : mem) (h : SlabHeader) (loc rem live : list Z).

(** Slots of different lists do not overlap, so writing the link of one leaves
    the others alone. *)
Lemma slab_inv_sep m h loc rem live a rest :
  slab_inv base m h loc rem live → a :: rest ≡ₚ loc ++ rem ++ live →
  ptr_ok a ∧ Forall (link_sep a) rest.
Proof.
  intros Hi Hp. rewrite (si_parts _ _ _ _ _ _ Hi) in Hp.
  pose proof (static_geometry h (si_static _ _ _ _ _ _ Hi)) as Hg.
  pose proof (carved_NoDup base h Hg) as Hnd. rewrite <- Hp in Hnd.
  apply NoDup_cons in Hnd as [Hnot _].
  assert (∀ x, x ∈ a :: rest → x ∈ carved_slots base h) as Hin by (intros x; by rewrite Hp).
  split.
  - pose proof (Hin a ltac:(set_solver)) as (i & Hr & ->)%elem_of_carved.
    apply slot_ptr_ok; [apply Hi|done|]. pose proof (si_bump _ _ _ _ _ _ Hi).
    unfold carved in Hr. lia.
  - apply (link_region_sep (.∈ carved_slots base h)); [by apply carved_region|..|done].
    + set_solver.
    + apply Forall_forall. set_solver.
Qed.

Lemma slab_inv_length m h loc rem live :
  slab_inv base m h loc rem live →
  Z.of_nat (length loc) + Z.of_nat (length rem) + Z.of_nat (length live) = carved h ∧
  0 ≤ carved h ≤ slot_count h.
Proof.
  intros Hi. pose proof (si_bump _ _ _ _ _ _ Hi) as Hb.
  pose proof (Permutation_length (si_parts _ _ _ _ _ _ Hi)) as Hl.
  rewrite !length_app in Hl.
  pose proof (length_carved base h ltac:(unfold carved; lia)). unfold carved in *. lia.
Qed.

Lemma slab_free_count m h loc rem live :
  slab_inv base m h loc rem live →
  Slab_free_count h = Z.of_nat (length loc) + bump_remaining h.
Proof.
  intros Hi. pose proof (slab_inv_length _ _ _ _ _ Hi).
  pose proof (geo_count h (static_geometry h (si_static _ _ _ _ _ _ Hi))).
  destruct (si_local _ _ _ _ _ _ Hi) as (_ & Hlen & _). unfold Slab_free_count.
  pose proof (si_bump _ _ _ _ _ _ Hi). unfold carved in *.
  rewrite Hlen, wadd_small; [lia|]. unfold uint. lia.
Qed.

Lemma slab_fully_free m h loc rem live :
  slab_inv base m h loc rem live →
  Slab_is_fully_free h = true ↔ rem = [] ∧ live = [].
Proof.
  intros Hi. unfold Slab_is_fully_free. rewrite (slab_free_count _ _ _ _ _ Hi), Z.eqb_eq.
  pose proof (slab_inv_length _ _ _ _ _ Hi) as [Hl _]. unfold carved in Hl.
  rewrite <- !length_zero_iff_nil. lia.
Qed.

Lemma slab_init_inv class heap m :
  slab_base_ok base → 0 ≤ class < NUM_CLASSES →
  slab_inv base m (SlabHeader_init class heap) [] [] [].
Proof.
  intros Hb Hc. pose proof (geometry_ok_all class Hc) as Hok.
  unfold geometry_ok, class_geometry in Hok.
  repeat match goal with
  | H : _ && _ = true |- _ => apply andb_true_iff in H as [? ?]
  end.
  rewrite ?Z.leb_le, ?Z.ltb_lt in *.
  unfold SlabHeader_init.
  assert (∀ x, 0 ≤ x ≤ 65535 → wrap 16 x = x) as Hw
    by (intros; apply wrap_small; unfold uint; lia).
  rewrite !Hw by lia.
  split; cbn [slot_size slot_count slots_offset size_class_index bump_cursor bump_remaining
    local remote].
  - exact Hb.
  - split_and!; [apply Hc|apply Hc|reflexivity..].
  - lia.
  - unfold carved. cbn [slot_count bump_remaining slots_offset slot_size]. rewrite Z.sub_diag, Z.mul_0_l, Z.add_0_r, Hw; lia.
  - apply slot_list_empty.
  - reflexivity.
  - unfold carved_slots, carved. cbn [slot_count bump_remaining]. rewrite Z.sub_diag.
    change (seqZ 0 0) with (@nil Z). constructor.
Qed.

Lemma slab_alloc_ok m h loc rem live r h' :
  slab_inv base m h loc rem live → Slab_alloc base m h = (r, h') →
  match loc with
  | a :: loc' => r = Some a ∧ slab_inv base m h' loc' rem (a :: live)
  | [] =>
      if 0 <? bump_remaining h then
        r = Some (slot_addr base h (carved h)) ∧
        slab_inv base m h' [] rem (slot_addr base h (carved h) :: live)
      else r = None ∧ h' = h
  end.
Proof.
  intros Hi. unfold Slab_alloc. pose proof (si_local _ _ _ _ _ _ Hi) as Hl.
  pose proof (slot_list_pop _ _ _ Hl) as Hpop. destruct loc as [|a loc].
  - rewrite Hpop. pose proof (static_geometry h (si_static _ _ _ _ _ _ Hi)) as Hg.
    pose proof (si_bump _ _ _ _ _ _ Hi) as Hb. pose proof (geo_count h Hg).
    cbn [with_local bump_remaining]. destruct (Z.ltb_spec 0 (bump_remaining h)) as [Hlt|Hge];
      intros [= <- <-].
    + assert (base + bump_cursor h = slot_addr base h (carved h)) as Hslot.
      { rewrite (si_cursor _ _ _ _ _ _ Hi), wrap_small; [unfold slot_addr; lia|].
        pose proof (slot_addr_range base h (carved h) Hg ltac:(unfold carved; lia)).
        pose proof (geo_size h Hg). unfold slot_addr, carved, uint in *. nia. }
      rewrite Hslot. split; [done|]. destruct Hi. split; simpl; try done.
      * rewrite wsub_small by (unfold uint; lia). lia.
      * rewrite si_cursor0. unfold carved. simpl.
        rewrite wsub_small by (unfold uint; lia). unfold wadd, wrap.
        rewrite Zplus_mod_idemp_l. f_equal. lia.
      * rewrite (carved_slots_snoc base h); [rewrite <- si_parts0; perm|unfold carved; lia| |done..].
        unfold carved. simpl. rewrite wsub_small by (unfold uint; lia). lia.
    + split; [done|]. by destruct h.
  - destruct Hpop as (fl' & -> & Hl'). intros [= <- <-]. split; [done|].
    destruct Hi. split; simpl; try done. rewrite <- si_parts0. unfold carved_slots. perm.
Qed.

Lemma slab_dealloc_local_ok m h loc rem live a live' m' h' :
  slab_inv base m h loc rem live → live ≡ₚ a :: live' →
  Slab_dealloc_local m h a = (m', h') →
  slab_inv base m' h' (a :: loc) rem live'.
Proof.
  intros Hi Hp. unfold Slab_dealloc_local.
  destruct (SlotFreeList_push m (local h) a) as [m1 fl] eqn:Hpush. intros [= <- <-].
  destruct (slab_inv_sep m h loc rem live a (loc ++ rem ++ live') Hi) as [Ha Hs]; [perm|].
  rewrite !Forall_app in Hs. destruct Hs as (Hsl & Hsr & _).
  pose proof (slab_inv_length _ _ _ _ _ Hi) as [Hlen Hc].
  pose proof (geo_count h (static_geometry h (si_static _ _ _ _ _ _ Hi))).
  pose proof (Permutation_length Hp) as Hpl. simpl in Hpl.
  destruct Hi. split; simpl; try done.
  - eapply slot_list_push; try done. lia.
  - unfold SlotFreeList_push in Hpush. simplify_eq. by apply chain_write_next.
  - change (carved_slots base (with_local h fl)) with (carved_slots base h).
    rewrite <- si_parts0. perm.
Qed.

Lemma slab_dealloc_remote_ok m h loc rem live a live' m' h' :
  slab_inv base m h loc rem live → live ≡ₚ a :: live' →
  SlabRef_dealloc_remote m h a = (m', h') →
  slab_inv base m' h' loc (a :: rem) live'.
Proof.
  intros Hi Hp. unfold SlabRef_dealloc_remote, TreiberStack_push, TreiberStack_push_chain.
  cbn. rewrite Z.eqb_refl. cbn. intros [= <- <-].
  destruct (slab_inv_sep m h loc rem live a (loc ++ rem ++ live') Hi) as [Ha Hs]; [perm|].
  rewrite !Forall_app in Hs. destruct Hs as (Hsl & Hsr & _).
  destruct Hi. split; simpl; try done.
  - by apply slot_list_set.
  - exact (chain_push_next m _ rem a si_remote0 Ha Hsr).
  - change (carved_slots base (with_remote h a)) with (carved_slots base h).
    rewrite <- si_parts0. perm.
Qed.

Lemma drain_loop_nil fuel m fl count cursor loc :
  slot_list m fl loc → chain m cursor [] →
  ∃ m' fl', drain_loop fuel m fl count cursor = Ok (m', fl', count + Z.of_nat (@length Z [])) ∧
    slot_list m' fl' (rev [] ++ loc).
Proof.
  intros Hl Hc. cbn in Hc. subst. exists m, fl. split; [|done].
  cbn [length Z.of_nat]. rewrite Z.add_0_r. by destruct fuel.
Qed.

(** Draining moves the remote slots, in reverse, in front of the local ones. *)
Lemma drain_loop_ok m fl count cursor loc rem (P : Z → Prop) fuel :
  link_region mem P → Forall P (loc ++ rem) → NoDup (loc ++ rem) →
  slot_list m fl loc → chain m cursor rem →
  (length rem ≤ fuel)%nat → 0 ≤ count → count + Z.of_nat (length rem) < 2 ^ 16 →
  Z.of_nat (length loc) + Z.of_nat (length rem) < 2 ^ 16 →
  ∃ m' fl', drain_loop fuel m fl count cursor = Ok (m', fl', count + Z.of_nat (length rem)) ∧
    slot_list m' fl' (rev rem ++ loc).
Proof.
  intros HP. revert m fl count cursor loc rem.
  induction fuel as [|fuel IH]; intros m fl count cursor loc rem HF Hnd Hl Hc Hlen Hcnt Hc16 Hl16.
  { destruct rem; [|simpl in *; lia]. by apply (drain_loop_nil 0). }
  destruct rem as [|a rem]; [by apply drain_loop_nil|].
  pose proof (chain_ptr_ok _ _ _ Hc) as [Ha _]%Forall_cons.
  destruct Hc as (-> & _ & Hc). cbn [drain_loop].
  destruct (Z.eqb_spec a 0); [unfold ptr_ok in Ha; lia|].
  destruct (SlotFreeList_push m fl a) as [m1 fl1] eqn:Hpush.
  apply NoDup_app in Hnd as (Hnd1 & Hdisj & [Hnr Hnd2]%NoDup_cons).
  apply Forall_app in HF as [HF1 [HPa HF2]%Forall_cons].
  assert (Forall (link_sep a) loc) as Hsl.
  { apply (link_region_sep P); auto. intros Hin. apply (Hdisj a Hin). set_solver. }
  assert (Forall (link_sep a) rem) as Hsr by by apply (link_region_sep P).
  cbn [length] in *.
  rewrite wadd_small by (unfold uint; lia).
  destruct (IH m1 fl1 (count + 1) (read_next m a) (a :: loc) rem) as (m' & fl' & -> & Hl').
  - rewrite <- app_comm_cons. constructor; [done|]. by apply Forall_app.
  - rewrite <- app_comm_cons. apply NoDup_cons. split; [|apply NoDup_app; split_and!; auto].
    + intros [Hin|Hin]%elem_of_app; [apply (Hdisj a Hin); set_solver|done].
    + intros x Hx Hx'. apply (Hdisj x Hx). set_solver.
  - eapply slot_list_push; [done..| |done]. lia.
  - unfold SlotFreeList_push in Hpush. simplify_eq. by apply chain_write_next.
  - lia.
  - lia.
  - lia.
  - simpl length. lia.
  - exists m', fl'. split; [do 2 f_equal; lia|]. cbn [rev]. by rewrite <- app_assoc.
Qed.

Lemma slab_drain_ok m h loc rem live :
  slab_inv base m h loc rem live →
  ∃ m' h', Slab_drain_remote m h = Ok (m', h', Z.of_nat (length rem)) ∧
    slab_inv base m' h' (rev rem ++ loc) [] live.
Proof.
  intros Hi. pose proof (static_geometry h (si_static _ _ _ _ _ _ Hi)) as Hg.
  pose proof (geo_count h Hg) as Hn. pose proof (slab_inv_length _ _ _ _ _ Hi) as [Hlen Hcv].
  destruct (drain_loop_ok m (local h) 0 (remote h) loc rem (.∈ carved_slots base h)
    (Z.to_nat (slot_count h))) as (m' & fl' & Hd & Hl').
  - by apply carved_region.
  - apply Forall_forall. intros x Hx. rewrite <- (si_parts _ _ _ _ _ _ Hi). set_solver.
  - pose proof (carved_NoDup base h Hg) as Hnd.
    rewrite <- (si_parts _ _ _ _ _ _ Hi), app_assoc in Hnd. by apply NoDup_app in Hnd as [? _].
  - apply Hi.
  - apply Hi.
  - lia.
  - lia.
  - lia.
  - lia.
  - exists m', (with_local (with_remote h 0) fl'). split.
    + unfold Slab_drain_remote. cbn [TreiberStack_swap_drain]. rewrite Hd. done.
    + destruct Hi. split; cbn [with_local with_remote local remote bump_remaining bump_cursor
        slot_count slot_size slots_offset size_class_index]; try done.
      change (carved_slots base (with_local _ _)) with (carved_slots base h).
      rewrite <- si_parts0. perm.
Qed.

Lemma slab_inv_live_perm m h loc rem live live' :
  live ≡ₚ live' → slab_inv base m h loc rem live → slab_inv base m h loc rem live'.
Proof. intros Hp []. split; try done. by rewrite <- Hp. Qed.

(** The invariant only depends on the memory of the free slots. *)
Lemma slab_inv_agree m m' h loc rem live :
  slab_inv base m h loc rem live →
  (∀ x, (∀ a, a ∈ live → ¬ a ≤ x < a + slot_size h) →
        base + 72 ≤ x < base + 65536 → read_byte m' x = read_byte m x) →
  slab_inv base m' h loc rem live.
Proof.
  intros Hi Hx. pose proof (static_geometry h (si_static _ _ _ _ _ _ Hi)) as Hg.
  pose proof (geo_size h Hg) as Hs. pose proof (si_bump _ _ _ _ _ _ Hi) as Hb.
  assert (∀ a x, a ∈ loc ++ rem → a ≤ x < a + 8 → read_byte m' x = read_byte m x) as Hfree.
  { intros a x Ha Hr. pose proof (carved_NoDup base h Hg) as Hnd.
    rewrite <- (si_parts _ _ _ _ _ _ Hi), app_assoc in Hnd.
    apply NoDup_app in Hnd as (_ & Hdisj & _).
    assert (a ∈ carved_slots base h) as (i & Hi' & ->)%elem_of_carved
      by (rewrite <- (si_parts _ _ _ _ _ _ Hi); set_solver).
    pose proof (slot_addr_range base h i Hg ltac:(unfold carved in *; lia)).
    apply Hx; [|lia]. intros b Hb' Hr'.
    assert (b ∈ carved_slots base h) as (j & Hj & ->)%elem_of_carved
      by (rewrite <- (si_parts _ _ _ _ _ _ Hi); set_solver).
    destruct (decide (i = j)) as [->|Hne]; [by apply (Hdisj _ Ha)|].
    pose proof (slot_addr_inj_sep base h i j Hg Hne). lia. }
  destruct Hi. split; try done.
  - destruct si_local0 as [Hc ?]. split; [|done]. apply (chain_ext m); [|done].
    intros a x Ha. apply Hfree. set_solver.
  - apply (chain_ext m); [|done]. intros a x Ha. apply Hfree. set_solver.
Qed.
End slab_ops.
