(* ===== verification/SlabSpec.v ===== *)
(** * What a slab promises ([src/src/slab.rs])

    The abstract specification: a slab is a pool of equal slots, each of which
    is free for the owner, freed by another thread and not drained yet, or
    live.  [slab_step] runs the operations of [Slab] for a client that only
    frees slots it holds and may write anything into them; [slab_refines]
    shows that every such run is a run of the specification. *)

From stdpp Require Import base numbers list gmap.
From Stdlib Require Import ZArith Lia.
From S2P Require Import Prelude SizeClass LinkMem FreeList Treiber Slab.

Local Open Scope Z_scope.

(** ** Specification *)

Inductive slab_event :=
  | EvAlloc (r : option Z)
  | EvFree (a : Z)
  | EvFreeRemote (a : Z)
  | EvDrain (n : Z)
  | EvFullyFree (b : bool)
  | EvWrite.

Record slab_spec := mkSpec { sp_free : list Z; sp_pending : list Z; sp_live : list Z }.

Inductive spec_step : slab_spec → slab_event → slab_spec → Prop :=
  | spec_alloc a free free' pending live :
      free ≡ₚ a :: free' →
      spec_step (mkSpec free pending live) (EvAlloc (Some a)) (mkSpec free' pending (a :: live))
  | spec_alloc_none pending live :
      spec_step (mkSpec [] pending live) (EvAlloc None) (mkSpec [] pending live)
  | spec_free a free free' pending live live' :
      live ≡ₚ a :: live' → free' ≡ₚ a :: free →
      spec_step (mkSpec free pending live) (EvFree a) (mkSpec free' pending live')
  | spec_free_remote a free pending live live' :
      live ≡ₚ a :: live' →
      spec_step (mkSpec free pending live) (EvFreeRemote a) (mkSpec free (a :: pending) live')
  | spec_drain free free' pending live :
      free' ≡ₚ pending ++ free →
      spec_step (mkSpec free pending live) (EvDrain (Z.of_nat (length pending)))
                (mkSpec free' [] live)
  | spec_fully_free s b :
      (b = true ↔ sp_pending s = [] ∧ sp_live s = []) →
      spec_step s (EvFullyFree b) s
  | spec_write s : spec_step s EvWrite s.

(** ** The slab and its client *)

(** The memory, the header and the slots the client holds. *)
Record slab_sys := mkSys { sy_mem : mem; sy_header : SlabHeader; sy_live : list Z }.

Inductive slab_step (base : Z) : slab_sys → slab_event → slab_sys → Prop :=
  | step_alloc m h live a h' :
      Slab_alloc base m h = (Some a, h') →
      slab_step base (mkSys m h live) (EvAlloc (Some a)) (mkSys m h' (a :: live))
  | step_alloc_none m h live h' :
      Slab_alloc base m h = (None, h') →
      slab_step base (mkSys m h live) (EvAlloc None) (mkSys m h' live)
  | step_free m h live a live' m' h' :
      live ≡ₚ a :: live' → Slab_dealloc_local m h a = (m', h') →
      slab_step base (mkSys m h live) (EvFree a) (mkSys m' h' live')
  | step_free_remote m h live a live' m' h' :
      live ≡ₚ a :: live' → SlabRef_dealloc_remote m h a = (m', h') →
      slab_step base (mkSys m h live) (EvFreeRemote a) (mkSys m' h' live')
  | step_drain m h live m' h' n :
      Slab_drain_remote m h = Ok (m', h', n) →
      slab_step base (mkSys m h live) (EvDrain n) (mkSys m' h' live)
  | step_fully_free m h live :
      slab_step base (mkSys m h live) (EvFullyFree (Slab_is_fully_free h)) (mkSys m h live)
  (** The client writes a byte of a slot it holds. *)
  | step_write m h live a x b :
      a ∈ live → a ≤ x < a + slot_size h →
      slab_step base (mkSys m h live) EvWrite (mkSys (write_byte m x b) h live).

Definition slab_sys_init (m : mem) (class heap : Z) : slab_sys :=
  mkSys m (SlabHeader_init class heap) [].

(** All slots of a slab of the class. *)
Definition all_slots (base class : Z) : list Z :=
  let h := SlabHeader_init class 0 in slot_addr base h <$> seqZ 0 (slot_count h).

(** ** The simulation relation *)

Definition fresh_slots (base : Z) (h : SlabHeader) : list Z :=
  slot_addr base h <$> seqZ (carved h) (bump_remaining h).

Definition slab_rel (base : Z) (s : slab_sys) (a : slab_spec) : Prop :=
  ∃ loc rem, slab_inv base (sy_mem s) (sy_header s) loc rem (sy_live s) ∧
    sp_free a ≡ₚ loc ++ fresh_slots base (sy_header s) ∧
    sp_pending a = rem ∧ sp_live a = sy_live s.

Section slab_sim.
Context (base : Z).

(** Header updates that keep the geometry and the bump region. *)
Lemma fresh_slots_same h h' :
  slots_offset h' = slots_offset h → slot_size h' = slot_size h →
  slot_count h' = slot_count h → bump_remaining h' = bump_remaining h →
  fresh_slots base h' = fresh_slots base h.
Proof.
  intros Ho Hs Hc Hb. unfold fresh_slots, carved. rewrite Hc, Hb.
  apply list_fmap_ext. intros. unfold slot_addr. by rewrite Ho, Hs.
Qed.

Lemma alloc_fresh m h loc rem live r h' :
  slab_inv base m h loc rem live → Slab_alloc base m h = (r, h') →
  match loc, r with
  | [], Some a => fresh_slots base h = a :: fresh_slots base h'
  | [], None => fresh_slots base h = []
  | _ :: _, _ => fresh_slots base h' = fresh_slots base h
  end.
Proof.
  intros Hi Ha. pose proof (slab_alloc_ok base _ _ _ _ _ _ _ Hi Ha) as Hok.
  pose proof (slot_list_pop _ _ _ (si_local _ _ _ _ _ _ Hi)) as Hpop.
  pose proof (si_bump _ _ _ _ _ _ Hi) as Hb.
  pose proof (geo_count h (static_geometry h (si_static _ _ _ _ _ _ Hi))) as Hn.
  unfold Slab_alloc in Ha. destruct loc as [|x loc].
  - rewrite Hpop in Ha. cbn [with_local bump_remaining] in Ha.
    destruct (Z.ltb_spec 0 (bump_remaining h)) as [Hlt|Hge]; injection Ha as <- <-.
    + destruct Hok as [Hslot _]. injection Hslot as Hslot. rewrite Hslot. unfold fresh_slots.
      rewrite seqZ_cons by lia. cbn [fmap list_fmap]. f_equal.
      unfold carved. cbn [with_bump with_local slot_count bump_remaining].
      rewrite wsub_small by (unfold uint; lia).
      replace (Z.succ (slot_count h - bump_remaining h)) with
        (slot_count h - (bump_remaining h - 1)) by lia.
      replace (Z.pred (bump_remaining h)) with (bump_remaining h - 1) by lia.
      apply list_fmap_ext. done.
    + unfold fresh_slots. replace (bump_remaining h) with 0 by lia. done.
  - destruct Hpop as (fl' & Hpop & _). rewrite Hpop in Ha. simplify_eq. done.
Qed.

Lemma slab_rel_init m class heap :
  slab_base_ok base → 0 ≤ class < NUM_CLASSES →
  slab_rel base (slab_sys_init m class heap) (mkSpec (all_slots base class) [] []).
Proof.
  intros Hb Hc. exists [], []. split; [by apply slab_init_inv|]. split; [|done].
  unfold fresh_slots, all_slots, carved. cbn [slab_sys_init sy_header SlabHeader_init
    slot_count bump_remaining sp_free app]. by rewrite Z.sub_diag.
Qed.

Lemma slab_sim_step s e s' a :
  slab_rel base s a → slab_step base s e s' →
  ∃ a', spec_step a e a' ∧ slab_rel base s' a'.
Proof.
  destruct a as [free pending live0].
  intros (loc & rem & Hi & Hf & Hp & Hl) Hstep. cbn in Hi, Hf, Hp, Hl.
  destruct Hstep as [m h live a h' Ha|m h live h' Ha|m h live a live' m' h' Hlv Hd
    |m h live a live' m' h' Hlv Hd|m h live m' h' n Hd|m h live|m h live a x b Hx Hr];
    cbn [sy_mem sy_header sy_live] in *; subst pending live0.
  - pose proof (slab_alloc_ok base _ _ _ _ _ _ _ Hi Ha) as Hok.
    pose proof (alloc_fresh _ _ _ _ _ _ _ Hi Ha) as Hfr.
    destruct loc as [|y loc].
    + destruct (0 <? bump_remaining h); [|by destruct Hok].
      destruct Hok as [Heq Hi']. simplify_eq. rewrite Hfr in Hf.
      eexists. split; [by apply spec_alloc|]. exists [], rem. done.
    + destruct Hok as [Heq Hi']. simplify_eq. rewrite <- Hfr in Hf.
      eexists. split; [by apply spec_alloc|]. exists loc, rem. done.
  - pose proof (slab_alloc_ok base _ _ _ _ _ _ _ Hi Ha) as Hok.
    pose proof (alloc_fresh _ _ _ _ _ _ _ Hi Ha) as Hfr.
    destruct loc as [|y loc]; [|by destruct Hok].
    destruct (0 <? bump_remaining h); [by destruct Hok|]. destruct Hok as [_ ->].
    rewrite Hfr in Hf. apply Permutation_nil_r in Hf as ->.
    eexists. split; [by apply spec_alloc_none|]. exists [], rem. cbn. by rewrite Hfr.
  - pose proof (slab_dealloc_local_ok base _ _ _ _ _ _ _ _ _ Hi Hlv Hd) as Hi'.
    unfold Slab_dealloc_local in Hd. destruct (SlotFreeList_push m (local h) a). simplify_eq.
    exists (mkSpec (a :: free) rem live'). split; [by apply spec_free|].
    exists (a :: loc), rem. split; [done|]. cbn. by rewrite Hf.
  - pose proof (slab_dealloc_remote_ok base _ _ _ _ _ _ _ _ _ Hi Hlv Hd) as Hi'.
    unfold SlabRef_dealloc_remote in Hd. destruct (TreiberStack_push _ _). simplify_eq.
    exists (mkSpec free (a :: rem) live'). split; [by apply spec_free_remote|].
    exists loc, (a :: rem). done.
  - destruct (slab_drain_ok base _ _ _ _ _ Hi) as (m1 & h1 & Hd1 & Hi1).
    rewrite Hd in Hd1. simplify_eq.
    exists (mkSpec (rem ++ free) [] live). split; [by apply spec_drain|].
    exists (rev rem ++ loc), []. split; [done|]. split; [|done]. cbn.
    rewrite (fresh_slots_same h h1); [rewrite Hf; perm|..];
      unfold Slab_drain_remote in Hd; cbn in Hd;
      destruct (drain_loop _ _ _ _ _) as [[[??]?]|]; by simplify_eq/=.
  - eexists. split; [apply spec_fully_free; cbn; by apply (slab_fully_free base m h loc)|].
    by exists loc, rem.
  - eexists. split; [apply spec_write|]. exists loc, rem. split; [|done]. cbn.
    eapply slab_inv_agree; [exact Hi|]. intros y Hy _. rewrite read_byte_write.
    case_decide; [subst; by destruct (Hy a)|done].
Qed.

(** Every state a client reaches satisfies the invariant. *)
Lemma slab_reachable_inv m class heap es s :
  slab_base_ok base → 0 ≤ class < NUM_CLASSES →
  run (slab_step base) (slab_sys_init m class heap) es s →
  ∃ loc rem, slab_inv base (sy_mem s) (sy_header s) loc rem (sy_live s).
Proof.
  intros Hb Hc Hrun.
  destruct (run_simulation _ _ _ slab_sim_step _ _ _ _ (slab_rel_init m class heap Hb Hc) Hrun)
    as (a & _ & loc & rem & Hi & _). eauto.
Qed.
End slab_sim.

(** ** Header and slots *)

Lemma init_static class heap :
  0 ≤ class < NUM_CLASSES → slab_static (SlabHeader_init class heap).
Proof.
  intros Hc. assert (slab_base_ok 65536) as Hb by (split; [by exists 1|by vm_compute]).
  apply (slab_init_inv 65536 class heap ∅ Hb Hc).
Qed.

Lemma init_geometry class heap :
  0 ≤ class < NUM_CLASSES → geometry (SlabHeader_init class heap).
Proof. intros. by apply static_geometry, init_static. Qed.

Lemma init_slot_size class heap :
  0 ≤ class < NUM_CLASSES → slot_size (SlabHeader_init class heap) = class_size class.
Proof. intros Hc. by destruct (init_static class heap Hc) as (_ & ? & _). Qed.

(** A pointer into a slab's page masks to the base of the page. *)
Lemma from_ptr_base base x :
  slab_base_ok base → base ≤ x < base + SLAB_SIZE → SlabHeader_from_ptr x = base.
Proof.
  intros ([q ->] & ? & ?) Hx. unfold SlabHeader_from_ptr, SLAB_MASK.
  change SLAB_SIZE with (2 ^ 16) in *. rewrite land_align_down; [|unfold uint; lia|lia].
  assert (x mod 2 ^ 16 = x - q * 2 ^ 16) by
    (symmetry; apply (Z.mod_unique x (2 ^ 16) q); lia).
  lia.
Qed.

Lemma slot_addr_aligned base h i a :
  slab_base_ok base → geometry h → pow2 a → (a | slot_size h) → (a | slot_addr base h i).
Proof.
  intros (Hb & _ & _) Hg Ha Hd. pose proof (geo_size h Hg).
  assert (a ≤ slot_size h) by (apply Z.divide_pos_le; [lia|done]).
  assert ((a | SLAB_SIZE)) by (apply pow2_divide; [done|by exists 16|change SLAB_SIZE with 65536; lia]).
  unfold slot_addr. apply Z.divide_add_r; [apply Z.divide_add_r|].
  - by etrans.
  - etrans; [exact Hd|apply (geo_mult h Hg)].
  - by apply Z.divide_mul_r.
Qed.

(** ** Properties *)

(** C14. Every run of the slab's operations for a client that frees only slots
    it holds, with remote frees, drains and arbitrary writes into held slots,
    is a run of the specification, event for event: an allocation returns a
    free slot and fails only when none is left, freed slots come back, and
    [is_fully_free] answers exactly whether no slot is live or pending. *)
Theorem slab_refines (base class heap : Z) (m : mem) (es : list slab_event) (s : slab_sys) :
  slab_base_ok base → 0 ≤ class < NUM_CLASSES →
  run (slab_step base) (slab_sys_init m class heap) es s →
  ∃ a, run spec_step (mkSpec (all_slots base class) [] []) es a ∧ sp_live a = sy_live s.
Proof.
  intros Hb Hc Hrun.
  destruct (run_simulation _ _ _ (slab_sim_step base) _ _ _ _
    (slab_rel_init base m class heap Hb Hc) Hrun) as (a & ? & loc & rem & _ & _ & _ & ?).
  eauto.
Qed.

(** No slot is handed out while it is held: the slots the client holds are
    pairwise distinct slots of the slab. *)
Theorem slab_no_double_alloc (base class heap : Z) (m : mem) (es : list slab_event)
    (s : slab_sys) :
  slab_base_ok base → 0 ≤ class < NUM_CLASSES →
  run (slab_step base) (slab_sys_init m class heap) es s →
  NoDup (sy_live s) ∧
  ∀ a, a ∈ sy_live s →
    ∃ i, 0 ≤ i < slot_count (sy_header s) ∧ a = slot_addr base (sy_header s) i.
Proof.
  intros Hb Hc Hrun. destruct (slab_reachable_inv base m class heap es s Hb Hc Hrun)
    as (loc & rem & Hi).
  pose proof (static_geometry _ (si_static _ _ _ _ _ _ Hi)) as Hg.
  pose proof (carved_NoDup base _ Hg) as Hnd. pose proof (si_parts _ _ _ _ _ _ Hi) as Hp.
  split.
  - rewrite <- Hp, app_assoc in Hnd. by apply NoDup_app in Hnd as (_ & _ & ?).
  - intros a Ha. assert (a ∈ carved_slots base (sy_header s)) as (i & Hr & ->)%elem_of_carved
      by (rewrite <- Hp; set_solver).
    exists i. split; [|done]. pose proof (si_bump _ _ _ _ _ _ Hi). unfold carved in Hr. lia.
Qed.

(** Draining the remote list terminates in every reachable state; it leaves
    the remote list empty, returns the number of slots recovered, and the free
    count is then exact: all slots but the live ones. *)
Theorem slab_drain_total (base class heap : Z) (m : mem) (es : list slab_event)
    (s : slab_sys) :
  slab_base_ok base → 0 ≤ class < NUM_CLASSES →
  run (slab_step base) (slab_sys_init m class heap) es s →
  ∃ m' h' n, Slab_drain_remote (sy_mem s) (sy_header s) = Ok (m', h', n) ∧
    Slab_has_pending_remote h' = false ∧
    Slab_free_count h' = Slab_free_count (sy_header s) + n ∧
    Slab_free_count h' = slot_count h' - Z.of_nat (length (sy_live s)).
Proof.
  intros Hb Hc Hrun. destruct (slab_reachable_inv base m class heap es s Hb Hc Hrun)
    as (loc & rem & Hi).
  destruct (slab_drain_ok base _ _ _ _ _ Hi) as (m' & h' & Hd & Hi').
  exists m', h', (Z.of_nat (length rem)). split; [done|].
  pose proof (si_remote _ _ _ _ _ _ Hi') as Hr. cbn in Hr.
  unfold Slab_has_pending_remote, TreiberStack_is_empty. rewrite Hr. split; [done|].
  rewrite (slab_free_count base _ _ _ _ _ Hi), (slab_free_count base _ _ _ _ _ Hi').
  pose proof (slab_inv_length base _ _ _ _ _ Hi') as [Hl _]. unfold carved in Hl. cbn in Hl.
  assert (bump_remaining h' = bump_remaining (sy_header s)) as Hbr.
  { unfold Slab_drain_remote in Hd. cbn in Hd.
    destruct (drain_loop _ _ _ _ _) as [[[??]?]|]; by simplify_eq/=. }
  rewrite length_app, length_rev in *. lia.
Qed.

(** *** A new slab *)

(** [n] allocations in a row. *)
Fixpoint slab_allocs (n : nat) (base : Z) (m : mem) (h : SlabHeader) : list (option Z) * SlabHeader :=
  match n with
  | O => ([], h)
  | S n =>
      let '(r, h) := Slab_alloc base m h in
      let '(rs, h) := slab_allocs n base m h in (r :: rs, h)
  end.

(** The header after [n] allocations from the bump region. *)
Definition bumped (h : SlabHeader) (n : Z) : SlabHeader :=
  let next := slots_offset h + n * slot_size h in
  with_bump h (if next =? SLAB_SIZE then 0 else next) (slot_count h - n).

Section bump.
Context (base : Z) (m : mem) (h : SlabHeader).
Context (Hg : geometry h) (Hl : local h = SlotFreeList_EMPTY).

Lemma slab_alloc_used_up : Slab_alloc base m (bumped h (slot_count h)) = (None, bumped h (slot_count h)).
Proof.
  unfold bumped. rewrite Z.sub_diag. unfold Slab_alloc. cbn [with_bump local bump_remaining]. rewrite Hl.
  cbn [SlotFreeList_pop SlotFreeList_EMPTY sfl_head Z.eqb with_local bump_remaining Z.ltb]. by rewrite <- Hl.
Qed.

Lemma slab_alloc_bumped k :
  0 ≤ k < slot_count h → Slab_alloc base m (bumped h k) = (Some (slot_addr base h k), bumped h (k + 1)).
Proof.
  intros Hk. destruct Hg as [Hz Ho _ Hc Hf]. unfold Slab_alloc, bumped. change SLAB_SIZE with 65536.
  assert (slots_offset h + k * slot_size h + slot_size h ≤ 65536) by nia. assert (0 ≤ k * slot_size h) by nia.
  cbn [with_bump local bump_remaining bump_cursor slot_size slots_offset]. rewrite Hl.
  cbn [SlotFreeList_pop SlotFreeList_EMPTY sfl_head Z.eqb with_local with_bump bump_remaining bump_cursor slot_size slots_offset].
  destruct (Z.ltb_spec 0 (slot_count h - k)); [|lia].
  destruct (Z.eqb_spec (slots_offset h + k * slot_size h) 65536); [lia|]. f_equal.
  - cbn. f_equal. unfold slot_addr. lia.
  - unfold with_bump, with_local. cbn. rewrite Hl, (wsub_small 16) by (unfold uint; lia).
    replace (slots_offset h + (k + 1) * slot_size h) with (slots_offset h + k * slot_size h + slot_size h) by lia.
    replace (slot_count h - (k + 1)) with (slot_count h - k - 1) by lia. f_equal. unfold wadd.
    destruct (Z.eqb_spec (slots_offset h + k * slot_size h + slot_size h) 65536) as [->|]; [done|].
    apply wrap_small. unfold uint. lia.
Qed.

Lemma slab_allocs_from n : ∀ k,
  0 ≤ k → k + Z.of_nat n ≤ slot_count h →
  slab_allocs n base m (bumped h k) =
    ((λ i, Some (slot_addr base h i)) <$> seqZ k (Z.of_nat n), bumped h (k + Z.of_nat n)).
Proof.
  induction n as [|n IH]; intros k Hk Hn; [cbn; by rewrite Z.add_0_r|].
  cbn [slab_allocs]. rewrite slab_alloc_bumped by lia. rewrite IH by lia.
  rewrite (seqZ_cons k) by lia. cbn [fmap list_fmap]. replace (Z.succ k) with (k + 1) by lia.
  replace (Z.pred (Z.of_nat (S n))) with (Z.of_nat n) by lia. by replace (k + Z.of_nat (S n)) with (k + 1 + Z.of_nat n) by lia.
Qed.

Lemma slab_allocs_bumped :
  bump_remaining h = slot_count h → bump_cursor h = slots_offset h → ∀ n, Z.of_nat n ≤ slot_count h →
  slab_allocs n base m h = ((λ i, Some (slot_addr base h i)) <$> seqZ 0 (Z.of_nat n), bumped h (Z.of_nat n)).
Proof.
  intros Hr Hcur n Hn. assert (h = bumped h 0) as Heq.
  { destruct Hg as [Hz Ho _ Hc Hf]. unfold bumped. change SLAB_SIZE with 65536. rewrite Z.add_0_r, Z.sub_0_r.
    destruct (Z.eqb_spec (slots_offset h) 65536); [lia|]. rewrite <- Hr, <- Hcur. by destruct h. }
  rewrite Heq at 1. by rewrite (slab_allocs_from n 0) by lia.
Qed.
End bump.

(** C18. A slot of the slab initialised for the class of a layout serves the
    layout: it is aligned, large enough, inside the page and clear of the
    header, disjoint from every other slot, and every byte of it masks back to
    the slab. *)
Theorem slot_serves_layout (l : Layout) (c base heap i : Z) :
  layout_valid l → 0 < size l → class_index l = Ok (Some c) → slab_base_ok base →
  let h := SlabHeader_init c heap in
  0 ≤ i < slot_count h →
  (align l | slot_addr base h i) ∧
  base + size_of_SlabHeader ≤ slot_addr base h i ∧
  slot_addr base h i + size l ≤ base + SLAB_SIZE ∧
  (∀ x, slot_addr base h i ≤ x < slot_addr base h i + size l → SlabHeader_from_ptr x = base) ∧
  (∀ j, 0 ≤ j < slot_count h → j ≠ i →
     slot_addr base h i + size l ≤ slot_addr base h j ∨
     slot_addr base h j + size l ≤ slot_addr base h i).
Proof.
  intros Hv Hpos Hci Hb h Hi.
  destruct (class_index_fits l c Hv Hpos Hci) as [Hc [Hsz Hal]].
  pose proof (init_geometry c heap Hc) as Hg. pose proof (init_slot_size c heap Hc) as Hs.
  fold h in Hg, Hs. rewrite <- Hs in Hsz, Hal.
  pose proof (slot_addr_range base h i Hg Hi) as [Hlo Hhi].
  change size_of_SlabHeader with 72. change SLAB_SIZE with 65536.
  split; [apply slot_addr_aligned; [done|done|apply Hv|done]|].
  split; [done|]. split; [lia|]. split.
  - intros x Hx. apply from_ptr_base; [done|]. change SLAB_SIZE with 65536. lia.
  - intros j Hj Hne. pose proof (slot_addr_inj_sep base h i j Hg ltac:(lia)). lia.
Qed.

(** C19. [SlabHeader::init] loses nothing in its casts to [u16]: the header
    carries the exact slot size, offset and count, and the count, at least one,
    is the largest that fits behind the header.  A new slab hands out exactly
    these slots, in the order of their addresses, and then none: its [u16]
    cursor is the exact offset of the next slot as long as there is one, and
    wraps around to 0 only with the last slot, if it ends with the page (as for
    the class of 8 bytes). *)
Theorem slab_init_exact (c heap base : Z) (m : mem) (n : nat) :
  0 ≤ c < NUM_CLASSES →
  let h := SlabHeader_init c heap in
  slot_size h = class_size c ∧
  slots_offset h = next_multiple_of size_of_SlabHeader (class_size c) ∧
  1 ≤ slot_count h ∧
  slots_offset h + slot_count h * slot_size h ≤ SLAB_SIZE <
    slots_offset h + (slot_count h + 1) * slot_size h ∧
  bump_remaining h = slot_count h ∧ bump_cursor h = slots_offset h ∧
  Slab_is_fully_free h = true ∧
  (Z.of_nat n ≤ slot_count h →
     slab_allocs n base m h =
       ((λ i, Some (slot_addr base h i)) <$> seqZ 0 (Z.of_nat n), bumped h (Z.of_nat n)) ∧
     (Z.of_nat n = slot_count h → Slab_alloc base m (bumped h (Z.of_nat n)) = (None, bumped h (Z.of_nat n)))).
Proof.
  intros Hc h. pose proof (init_geometry c heap Hc) as Hg.
  destruct (init_static c heap Hc) as (_ & Hs & Ho & Hn). fold h in Hg, Hs, Ho, Hn.
  pose proof Hg as []. split; [done|]. split; [by rewrite Ho, Hs|]. split; [lia|]. split.
  { change SLAB_SIZE with 65536 in *. split; [lia|]. rewrite Hn in *.
    pose proof (Z.div_mod (65536 - slots_offset h) (slot_size h)).
    pose proof (Z.mod_pos_bound (65536 - slots_offset h) (slot_size h)). nia. }
  do 2 (split; [done|]). split.
  { unfold Slab_is_fully_free, Slab_free_count, wadd.
    change (bump_remaining h) with (slot_count h). change (sfl_len (local h)) with 0.
    rewrite wrap_small by (unfold uint; lia). apply Z.eqb_refl. }
  intros Hle. split; [exact (slab_allocs_bumped base m h Hg eq_refl eq_refl eq_refl n Hle)|].
  intros ->. by apply slab_alloc_used_up.
Qed.

(** The comment on [MIN_SIZE] promises eight-byte alignment to every
    allocation; the second slot of a slab of ten-byte slots, which serves
    requests of nine bytes, is only a multiple of two. *)
Theorem min_alignment_counterexample :
  class_index (mkLayout 9 1) = Ok (Some 1) ∧
  slot_addr 262144 (SlabHeader_init 1 0) 1 mod MIN_SIZE = 2.
Proof. split; vm_compute; reflexivity. Qed.

(** ** Witnesses *)

Lemma base_ok_262144 : slab_base_ok 262144.
Proof. split; [by exists 4|by vm_compute]. Qed.

(** Two slots allocated, the first freed by another thread and drained. *)
Definition demo_events : list slab_event :=
  [EvAlloc (Some 262216); EvAlloc (Some 262224); EvFreeRemote 262216; EvDrain 1].

Definition demo_sys : slab_sys :=
  let h := SlabHeader_init 0 7 in
  let h := with_bump (with_remote h 0) 88 (bump_remaining h - 2) in
  mkSys (write_next (write_next ∅ 262216 0) 262216 0) (with_local h (mkSlotFreeList 262216 1))
    [262224].

Lemma demo_run : run (slab_step 262144) (slab_sys_init ∅ 0 7) demo_events demo_sys.
Proof.
  eapply run_cons; [apply step_alloc; vm_compute; reflexivity|].
  eapply run_cons; [apply step_alloc; vm_compute; reflexivity|].
  eapply run_cons.
  { eapply (step_free_remote _ _ _ [262224; 262216] 262216 [262224]); [by constructor|].
    vm_compute. reflexivity. }
  eapply run_cons; [apply step_drain; vm_compute; reflexivity|].
  apply run_nil.
Qed.

Lemma slab_refines_witness :
  ∃ a, run spec_step (mkSpec (all_slots 262144 0) [] []) demo_events a ∧
    sp_live a = [262224].
Proof.
  apply (slab_refines 262144 0 7 ∅ demo_events demo_sys).
  - exact base_ok_262144.
  - by vm_compute.
  - exact demo_run.
Defined.

Lemma slab_no_double_alloc_witness : NoDup (sy_live demo_sys).
Proof.
  apply (slab_no_double_alloc 262144 0 7 ∅ demo_events demo_sys).
  - exact base_ok_262144.
  - by vm_compute.
  - exact demo_run.
Defined.

Lemma slab_drain_total_witness :
  ∃ m' h' n, Slab_drain_remote (sy_mem demo_sys) (sy_header demo_sys) = Ok (m', h', n) ∧
    Slab_free_count h' = slot_count h' - 1.
Proof.
  destruct (slab_drain_total 262144 0 7 ∅ demo_events demo_sys)
    as (m' & h' & n & Hd & _ & _ & Hf).
  - exact base_ok_262144.
  - by vm_compute.
  - exact demo_run.
  - exists m', h', n. split; [exact Hd|exact Hf].
Defined.

Lemma slot_serves_layout_witness :
  (64 | slot_addr 262144 (SlabHeader_init 16 0) 3).
Proof.
  apply (slot_serves_layout (mkLayout 100 64) 16 262144 0 3).
  - split; [by exists 6|by vm_compute].
  - by vm_compute.
  - vm_compute. reflexivity.
  - exact base_ok_262144.
  - by vm_compute.
Defined.

(** All 8183 slots of the class of 8 bytes: the last one ends with the page. *)
Lemma slab_init_exact_witness :
  let h := SlabHeader_init 0 3 in
  slots_offset h + slot_count h * slot_size h = SLAB_SIZE ∧ bump_cursor (snd (slab_allocs 8183 262144 ∅ h)) = 0.
Proof.
  split; [vm_compute; reflexivity|].
  destruct (slab_init_exact 0 3 262144 ∅ 8183) as (_ & _ & _ & _ & _ & _ & _ & Ha); [by vm_compute|].
  destruct Ha as [-> _]; [by vm_compute|]. vm_compute. reflexivity.
Defined.
