(* ===== verification/SlabRace.v ===== *)
(** * A slab while other threads free ([src/src/slab.rs])

    [SlabSpec] runs the operations of a slab one after the other.  Here the
    frees of other threads are loops of single accesses ([dealloc_remote]: load
    the head, write the link into the slot, compare-and-swap), and so is the
    owner's [drain_remote] (swap, then one slot at a time): [race_step]
    interleaves any number of frees with the owner's operations and with writes
    into the slots the program holds.  [slab_race_refines] shows that a free
    takes effect with its CAS and a drain with its swap: between the two, the
    slots of a slab are free, pending, being drained, live or being freed.

    The heap model relies on this when it lets a free land as a whole. *)

From stdpp Require Import base numbers list gmap.
From Stdlib Require Import ZArith Lia.
From S2P Require Import Prelude SizeClass LinkMem FreeList Treiber Slab SlabSpec.

Local Open Scope Z_scope.
Local Open Scope clm_scope.
Arguments SLAB_SIZE : simpl never.

(** ** Specification *)

Inductive race_event :=
  | RaAlloc (r : option Z)
  | RaFree (a : Z)
  | RaFreeStart (a : Z)
  | RaFreeDone (a : Z)
  | RaDrainStart
  | RaDrainDone (n : Z)
  | RaFullyFree (b : bool)
  | RaPending (b : bool)
  | RaWrite.

#[export] Instance race_event_eq_dec : EqDecision race_event.
Proof. solve_decision. Defined.

(** Slots that are free for the owner, freed and not drained, taken by the
    running drain, live, and in the hands of a running free. *)
Record race_spec := mkRaceSpec {
  rs_free : list Z;
  rs_pending : list Z;
  rs_draining : option (list Z);
  rs_live : list Z;
  rs_freeing : list Z;
}.

Inductive race_spec_step : race_spec → race_event → race_spec → Prop :=
  | rspec_alloc a free free' p lv fr :
      free ≡ₚ a :: free' →
      race_spec_step (mkRaceSpec free p None lv fr) (RaAlloc (Some a)) (mkRaceSpec free' p None (a :: lv) fr)
  | rspec_alloc_none p lv fr :
      race_spec_step (mkRaceSpec [] p None lv fr) (RaAlloc None) (mkRaceSpec [] p None lv fr)
  | rspec_free a free free' p lv lv' fr :
      lv ≡ₚ a :: lv' → free' ≡ₚ a :: free →
      race_spec_step (mkRaceSpec free p None lv fr) (RaFree a) (mkRaceSpec free' p None lv' fr)
  | rspec_free_start a free p d lv lv' fr :
      lv ≡ₚ a :: lv' →
      race_spec_step (mkRaceSpec free p d lv fr) (RaFreeStart a) (mkRaceSpec free p d lv' (a :: fr))
  | rspec_free_done a free p d lv fr fr' :
      fr ≡ₚ a :: fr' →
      race_spec_step (mkRaceSpec free p d lv fr) (RaFreeDone a) (mkRaceSpec free (a :: p) d lv fr')
  | rspec_drain_start free p lv fr :
      race_spec_step (mkRaceSpec free p None lv fr) RaDrainStart (mkRaceSpec free [] (Some p) lv fr)
  | rspec_drain_done free free' p d lv fr :
      free' ≡ₚ d ++ free →
      race_spec_step (mkRaceSpec free p (Some d) lv fr) (RaDrainDone (Z.of_nat (length d)))
                     (mkRaceSpec free' p None lv fr)
  | rspec_fully_free free p lv fr b :
      (b = true ↔ p = [] ∧ lv = [] ∧ fr = []) →
      race_spec_step (mkRaceSpec free p None lv fr) (RaFullyFree b) (mkRaceSpec free p None lv fr)
  | rspec_pending s b :
      (b = true ↔ rs_pending s ≠ []) → race_spec_step s (RaPending b) s
  | rspec_write s : race_spec_step s RaWrite s.

(** ** The slab, its owner and the other threads *)

(** The frees in progress, and the owner's drain: the slots counted so far and
    the slot it has reached. *)
Record race_sys := mkRace {
  ra_mem : mem;
  ra_header : SlabHeader;
  ra_live : list Z;
  ra_freeing : list (Z * push_pc);
  ra_drain : option (Z * Z);
}.

(** One access of [dealloc_remote a]. *)
Definition dealloc_remote_access (a : Z) (spurious : bool) (pc : push_pc) (m : mem) (h : SlabHeader)
    : push_pc * mem * SlabHeader :=
  let '(pc, (m, top)) := TreiberStack_push_step a a spurious pc (m, remote h) in
  (pc, m, with_remote h top).

(** The swap with which [drain_remote] starts, and one turn of its loop. *)
Definition drain_swap (h : SlabHeader) : Z * SlabHeader :=
  let '(chain, top) := TreiberStack_swap_drain (remote h) in (chain, with_remote h top).

Definition drain_turn (m : mem) (h : SlabHeader) (count cursor : Z) : mem * SlabHeader * Z * Z :=
  let next := read_next m cursor in
  let '(m, fl) := SlotFreeList_push m (local h) cursor in
  (m, with_local h fl, count +[16] 1, next).

Inductive race_step (base : Z) : race_sys → option race_event → race_sys → Prop :=
  | race_alloc m h lv fr r h' :
      Slab_alloc base m h = (r, h') →
      race_step base (mkRace m h lv fr None) (Some (RaAlloc r))
        (mkRace m h' (match r with Some a => a :: lv | None => lv end) fr None)
  | race_free m h lv a lv' fr m' h' :
      lv ≡ₚ a :: lv' → Slab_dealloc_local m h a = (m', h') →
      race_step base (mkRace m h lv fr None) (Some (RaFree a)) (mkRace m' h' lv' fr None)
  (** Another thread calls [dealloc_remote]. *)
  | race_free_start m h lv a lv' fr d :
      lv ≡ₚ a :: lv' →
      race_step base (mkRace m h lv fr d) (Some (RaFreeStart a)) (mkRace m h lv' ((a, PushLoad) :: fr) d)
  | race_free_access m h lv fr fr' a pc spurious pc' m' h' d :
      fr ≡ₚ (a, pc) :: fr' → dealloc_remote_access a spurious pc m h = (pc', m', h') → pc' ≠ PushDone →
      race_step base (mkRace m h lv fr d) None (mkRace m' h' lv ((a, pc') :: fr') d)
  | race_free_done m h lv fr fr' a pc spurious m' h' d :
      fr ≡ₚ (a, pc) :: fr' → dealloc_remote_access a spurious pc m h = (PushDone, m', h') →
      race_step base (mkRace m h lv fr d) (Some (RaFreeDone a)) (mkRace m' h' lv fr' d)
  (** The owner drains; a turn of the loop is one step. *)
  | race_drain_start m h lv fr cursor h' :
      drain_swap h = (cursor, h') →
      race_step base (mkRace m h lv fr None) (Some RaDrainStart) (mkRace m h' lv fr (Some (0, cursor)))
  | race_drain_turn m h lv fr count cursor m' h' count' cursor' :
      cursor ≠ 0 → drain_turn m h count cursor = (m', h', count', cursor') →
      race_step base (mkRace m h lv fr (Some (count, cursor))) None
        (mkRace m' h' lv fr (Some (count', cursor')))
  | race_drain_done m h lv fr count :
      race_step base (mkRace m h lv fr (Some (count, 0))) (Some (RaDrainDone count)) (mkRace m h lv fr None)
  | race_fully_free m h lv fr :
      race_step base (mkRace m h lv fr None) (Some (RaFullyFree (Slab_is_fully_free h))) (mkRace m h lv fr None)
  | race_pending m h lv fr d :
      race_step base (mkRace m h lv fr d) (Some (RaPending (Slab_has_pending_remote h))) (mkRace m h lv fr d)
  (** Any thread writes a byte of a slot the program holds. *)
  | race_write m h lv fr d a x b :
      a ∈ lv → a ≤ x < a + slot_size h →
      race_step base (mkRace m h lv fr d) (Some RaWrite) (mkRace (write_byte m x b) h lv fr d).

(** All slots of a state of the specification. *)
Definition rs_all (a : race_spec) : list Z :=
  rs_free a ++ rs_pending a ++ default [] (rs_draining a) ++ rs_live a ++ rs_freeing a.

Definition race_init (m : mem) (class heap : Z) : race_sys :=
  mkRace m (SlabHeader_init class heap) [] [] None.

(** ** The relation *)

(** A free in progress knows what the link of its own slot says. *)
Definition freeing_ok (m : mem) (f : Z * push_pc) : Prop := thread_ok m (mkThread [fst f] (snd f)).

Record race_rel (base : Z) (s : race_sys) (a : race_spec) (loc dr : list Z) : Prop := {
  rr_inv : slab_inv base (ra_mem s) (ra_header s) loc (rs_pending a) (ra_live s ++ (fst <$> ra_freeing s) ++ dr);
  rr_freeing : Forall (freeing_ok (ra_mem s)) (ra_freeing s);
  rr_drain :
    match ra_drain s, rs_draining a with
    | None, None => dr = []
    | Some (count, cursor), Some d =>
        chain (ra_mem s) cursor dr ∧ 0 ≤ count ∧ count + Z.of_nat (length dr) = Z.of_nat (length d) ∧
          Z.of_nat (length d) < 2 ^ 16
    | _, _ => False
    end;
  rr_free : default [] (rs_draining a) ++ rs_free a ≡ₚ loc ++ dr ++ fresh_slots base (ra_header s);
  rr_live : rs_live a = ra_live s;
  rr_frees : rs_freeing a ≡ₚ fst <$> ra_freeing s;
}.

(** ** Writes to one slot *)

(** [m'] differs from [m] at most inside the slot [a] of [sz] bytes. *)
Definition touches (sz a : Z) (m m' : mem) : Prop := ∀ x, ¬ a ≤ x < a + sz → read_byte m' x = read_byte m x.

Lemma touches_link sz m a v : 8 ≤ sz → touches sz a m (write_next m a v).
Proof. intros Hsz x Hx. unfold write_next. apply read_byte_write_le. cbn. lia. Qed.

Lemma touches_byte sz m a x b : a ≤ x < a + sz → touches sz a m (write_byte m x b).
Proof. intros Hx y Hy. rewrite read_byte_write. case_decide; [lia|done]. Qed.

Section race.
Context (base : Z).
Implicit Types (m : mem) (h : SlabHeader) (loc rem lv : list Z).

(** Writes to a slot that is not free leave the slab and the links of all other slots alone. *)
Lemma slab_touch m m' h loc rem lv a lv' :
  slab_inv base m h loc rem lv → lv ≡ₚ a :: lv' → touches (slot_size h) a m m' →
  slab_inv base m' h loc rem lv ∧ ∀ c, c ∈ loc ++ rem ++ lv' → read_next m' c = read_next m c.
Proof.
  intros Hi Hp Ht. split.
  { eapply slab_inv_agree; [exact Hi|]. intros x Hx _. apply Ht, Hx. rewrite Hp. by left. }
  intros c Hc. pose proof (static_geometry h (si_static _ _ _ _ _ _ Hi)) as Hg. pose proof (geo_size h Hg) as Hsz.
  pose proof (si_parts _ _ _ _ _ _ Hi) as Hparts. pose proof (carved_NoDup base h Hg) as Hnd.
  rewrite <- Hparts, Hp in Hnd.
  assert (NoDup (a :: loc ++ rem ++ lv')) as [Hnot _]%NoDup_cons by (eapply NoDup_Permutation_proper; [|exact Hnd]; perm).
  assert (c ∈ carved_slots base h ∧ a ∈ carved_slots base h) as [Hcc Hac].
  { rewrite <- Hparts, Hp. set_solver. }
  apply elem_of_carved in Hcc as (i & _ & ->). apply elem_of_carved in Hac as (j & _ & ->).
  destruct (decide (i = j)) as [->|Hne]; [done|].
  pose proof (slot_addr_inj_sep base h i j Hg Hne). apply read_le_ext. intros x Hx. apply Ht. lia.
Qed.

Lemma freeing_agree m m' f :
  read_next m' (fst f) = read_next m (fst f) → freeing_ok m f → freeing_ok m' f.
Proof.
  intros Ha [Hne Hpc]. split; [done|]. destruct f as [a pc]. cbn in *. destruct pc; try done; rewrite ?Ha; done.
Qed.

Lemma freeings_agree m m' fr :
  (∀ c, c ∈ fst <$> fr → read_next m' c = read_next m c) → Forall (freeing_ok m) fr → Forall (freeing_ok m') fr.
Proof.
  intros Ha. rewrite !Forall_forall. intros Hf f Hin. apply (freeing_agree m); [|by apply Hf].
  apply Ha. by apply list_elem_of_fmap_2.
Qed.

(** What an update of the memory must satisfy for the relation to survive. *)
Lemma race_rel_touch m m' h lv fr d a loc dr x lv' fr' :
  race_rel base (mkRace m h lv fr d) a loc dr →
  lv ++ (fst <$> fr) ≡ₚ x :: lv' ++ (fst <$> fr') → touches (slot_size h) x m m' →
  slab_inv base m' h loc (rs_pending a) (lv ++ (fst <$> fr) ++ dr) ∧
  (Forall (freeing_ok m) fr' → Forall (freeing_ok m') fr') ∧
  (∀ cursor, chain m cursor dr → chain m' cursor dr).
Proof.
  intros [Hi _ _ _ _ _] Hp Ht. cbn [ra_mem ra_header ra_live ra_freeing] in Hi.
  destruct (slab_touch m m' h loc (rs_pending a) _ x (lv' ++ (fst <$> fr') ++ dr) Hi) as [Hi' Hlk];
    [rewrite app_assoc, Hp; perm|done|].
  split; [done|]. split.
  - apply freeings_agree. intros c Hc. apply Hlk. set_solver.
  - intros cursor. apply chain_agree. intros c Hc. apply Hlk. set_solver.
Qed.

(** ** The steps *)

Definition race_related (s : race_sys) (a : race_spec) : Prop := ∃ loc dr, race_rel base s a loc dr.

Lemma alloc_related m h lv fr r h' a :
  race_related (mkRace m h lv fr None) a → Slab_alloc base m h = (r, h') →
  ∃ a', race_spec_step a (RaAlloc r) a' ∧
    race_related (mkRace m h' (match r with Some x => x :: lv | None => lv end) fr None) a'.
Proof.
  destruct a as [free p d lv' frs]. intros (loc & dr & [Hi Hfr Hd Hf Hlv Hfs]) Ha.
  cbn in Hi, Hfr, Hd, Hf, Hlv, Hfs. destruct d as [d|]; [done|]. subst dr lv'. cbn in Hf.
  pose proof (slab_alloc_ok base _ _ _ _ _ _ _ Hi Ha) as Hok.
  pose proof (alloc_fresh base _ _ _ _ _ _ _ Hi Ha) as Hfresh.
  assert (∀ x loc', r = Some x → slab_inv base m h' loc' p (x :: lv ++ (fst <$> fr) ++ []) →
    free ≡ₚ x :: loc' ++ fresh_slots base h' →
    ∃ a', race_spec_step (mkRaceSpec free p None lv frs) (RaAlloc (Some x)) a' ∧
      race_related (mkRace m h' (x :: lv) fr None) a') as Hsome.
  { intros x loc' -> Hi' Hx. exists (mkRaceSpec (loc' ++ fresh_slots base h') p None (x :: lv) frs).
    split; [by apply rspec_alloc|]. by exists loc', []. }
  destruct loc as [|x loc].
  - destruct (0 <? bump_remaining h); destruct Hok as [-> Hok].
    + apply (Hsome _ []); [done|done|]. by rewrite Hf, Hfresh.
    + subst h'. rewrite Hfresh in Hf. apply Permutation_nil_r in Hf as ->.
      eexists. split; [by apply rspec_alloc_none|]. exists [], []. split; try done. cbn. by rewrite Hfresh.
  - destruct Hok as [-> Hok]. apply (Hsome _ loc); [done|done|]. by rewrite Hf, Hfresh.
Qed.

(** Pushing a slot that is not free on the local list, by a free of the owner or by a drain. *)
Lemma push_related m h loc rem lv fr dr x dr' m' h' :
  slab_inv base m h loc rem (lv ++ (fst <$> fr) ++ dr) → Forall (freeing_ok m) fr →
  ∀ lv', lv ++ (fst <$> fr) ++ dr ≡ₚ x :: lv' ++ (fst <$> fr) ++ dr' →
  Slab_dealloc_local m h x = (m', h') →
  slab_inv base m' h' (x :: loc) rem (lv' ++ (fst <$> fr) ++ dr') ∧ Forall (freeing_ok m') fr ∧
  (∀ cursor, chain m cursor dr' → chain m' cursor dr') ∧ fresh_slots base h' = fresh_slots base h.
Proof.
  intros Hi Hfr lv' Hp E. split; [by eapply slab_dealloc_local_ok|].
  unfold Slab_dealloc_local, SlotFreeList_push in E. injection E as <- <-.
  pose proof (geo_size h (static_geometry h (si_static _ _ _ _ _ _ Hi))) as Hsz.
  destruct (slab_touch m (write_next m x (sfl_head (local h))) h _ _ _ _ _ Hi Hp) as [_ Hlk]; [apply touches_link; lia|].
  split; [eapply freeings_agree; [|exact Hfr]; intros c Hc; apply Hlk; set_solver|].
  split; [|done]. intros cursor. apply chain_agree. intros c Hc. apply Hlk. set_solver.
Qed.

Lemma free_related m h lv fr x lv' m' h' a :
  race_related (mkRace m h lv fr None) a → lv ≡ₚ x :: lv' → Slab_dealloc_local m h x = (m', h') →
  ∃ a', race_spec_step a (RaFree x) a' ∧ race_related (mkRace m' h' lv' fr None) a'.
Proof.
  destruct a as [free p d lv0 frs]. intros (loc & dr & [Hi Hfr Hd Hf Hlv Hfs]) Hx E.
  cbn in Hi, Hfr, Hd, Hf, Hlv, Hfs. destruct d as [d|]; [done|]. subst dr lv0. cbn in Hf.
  destruct (push_related _ _ _ _ _ _ _ x [] m' h' Hi Hfr lv') as (Hi' & Hfr' & _ & Hfresh); [by rewrite Hx|done|].
  exists (mkRaceSpec (x :: free) p None lv' frs). split; [by apply rspec_free|].
  exists (x :: loc), []. split; try done. cbn. by rewrite Hfresh, Hf.
Qed.

Lemma free_start_related m h lv fr d x lv' a :
  race_related (mkRace m h lv fr d) a → lv ≡ₚ x :: lv' →
  ∃ a', race_spec_step a (RaFreeStart x) a' ∧ race_related (mkRace m h lv' ((x, PushLoad) :: fr) d) a'.
Proof.
  destruct a as [free p ds lv0 frs]. intros (loc & dr & [Hi Hfr Hd Hf Hlv Hfs]) Hx.
  cbn in Hi, Hfr, Hd, Hf, Hlv, Hfs. subst lv0.
  exists (mkRaceSpec free p ds lv' (x :: frs)). split; [by apply rspec_free_start|].
  exists loc, dr. split; cbn; try done.
  - eapply slab_inv_live_perm; [|exact Hi]. rewrite Hx. perm.
  - constructor; [|done]. split; [done|]. cbn. by eexists.
  - by rewrite Hfs.
Qed.

(** An access that is not the successful CAS changes at most the link of its slot. *)
Lemma access_inv m h x spurious pc pc' m' h' rem :
  dealloc_remote_access x spurious pc m h = (pc', m', h') → pc' ≠ PushDone →
  freeing_ok m (x, pc) → chain m (remote h) rem →
  h' = h ∧ freeing_ok m' (x, pc') ∧ (m' = m ∨ ∃ v, m' = write_next m x v).
Proof.
  intros E Hpc [_ Hok] Hc%chain_uint. unfold dealloc_remote_access, TreiberStack_push_step in E.
  assert (with_remote h (remote h) = h) as Hh by by destruct h.
  cbn [fst snd th_pc th_chain linked] in Hok. destruct pc as [|v|v|]; [| | |done].
  - injection E as <- <- <-. split; [done|]. split; [|by left]. split; [done|]. cbn. split; [done|]. by eexists.
  - injection E as <- <- <-. destruct Hok as [Hv _]. split; [done|]. split; [|right; by eexists]. split; [done|].
    cbn [fst snd th_pc th_chain linked]. split; [done|]. exact (link_get_set_eq m x v Hv).
  - destruct ((remote h =? v) && negb spurious); injection E as <- <- <-; [done|].
    split; [done|]. split; [|by left]. split; [done|]. cbn. split; [done|]. by eexists.
Qed.

Lemma access_related m h lv fr d x pc spurious pc' m' h' fr' a :
  race_related (mkRace m h lv fr d) a → fr ≡ₚ (x, pc) :: fr' →
  dealloc_remote_access x spurious pc m h = (pc', m', h') → pc' ≠ PushDone →
  race_related (mkRace m' h' lv ((x, pc') :: fr') d) a.
Proof.
  intros (loc & dr & Hrel) Hp E Hpc. pose proof Hrel as [Hi Hfr Hd Hf Hlv Hfs].
  cbn in Hi, Hfr, Hd, Hf, Hlv, Hfs. rewrite Hp in Hfr. apply Forall_cons in Hfr as [Hx Hfr].
  destruct (access_inv _ _ _ _ _ _ _ _ _ E Hpc Hx (si_remote _ _ _ _ _ _ Hi)) as (-> & Hx' & Hm).
  pose proof (geo_size h (static_geometry h (si_static _ _ _ _ _ _ Hi))) as Hsz.
  assert (touches (slot_size h) x m m') as Ht by (destruct Hm as [->|[v ->]]; [done|apply touches_link; lia]).
  assert ((fst <$> fr) ≡ₚ x :: (fst <$> fr')) as Hpf by by rewrite Hp.
  destruct (race_rel_touch m m' h lv fr d a loc dr x lv fr' Hrel) as (Hi' & Hfr' & Hdr'); [rewrite Hpf; perm|done|].
  exists loc, dr. split; cbn; try done.
  - eapply slab_inv_live_perm; [|exact Hi']. rewrite Hpf. perm.
  - constructor; [done|by apply Hfr'].
  - destruct d as [[count cursor]|], (rs_draining a); try done. destruct Hd as [Hc Hd]. split; [by apply Hdr'|done].
  - by rewrite Hfs, Hpf.
Qed.

Lemma free_done_related m h lv fr d x pc spurious m' h' fr' a :
  race_related (mkRace m h lv fr d) a → fr ≡ₚ (x, pc) :: fr' →
  dealloc_remote_access x spurious pc m h = (PushDone, m', h') →
  ∃ a', race_spec_step a (RaFreeDone x) a' ∧ race_related (mkRace m' h' lv fr' d) a'.
Proof.
  destruct a as [free p ds lv0 frs]. intros (loc & dr & [Hi Hfr Hd Hf Hlv Hfs]) Hp E.
  cbn in Hi, Hfr, Hd, Hf, Hlv, Hfs. subst lv0. rewrite Hp in Hfr. apply Forall_cons in Hfr as [[_ Hx] Hfr].
  assert ((fst <$> fr) ≡ₚ x :: (fst <$> fr')) as Hpf by by rewrite Hp.
  destruct (slab_inv_sep base m h loc p _ x (loc ++ p ++ lv ++ (fst <$> fr') ++ dr) Hi) as [Hxok _]; [rewrite Hpf; perm|].
  unfold dealloc_remote_access, TreiberStack_push_step in E. destruct pc as [|v|v|]; [done|done| |done].
  destruct (Z.eqb_spec (remote h) v) as [<-|]; [|done]. destruct spurious; [done|]. injection E as <- <-.
  destruct Hx as [_ Hx]. cbn [th_chain linked fst] in Hx.
  exists (mkRaceSpec free (x :: p) ds lv (fst <$> fr')). split; [apply rspec_free_done; by rewrite Hfs, Hpf|].
  exists loc, dr. split; cbn; try done.
  destruct Hi as [Hb Hst Hbm Hcu Hl Hr Hparts]. split; cbn; try done.
  - split; [done|]. split; [done|]. cbn in Hx. by rewrite Hx.
  - change (carved_slots base (with_remote h x)) with (carved_slots base h). rewrite <- Hparts, Hpf. perm.
Qed.

Lemma drain_start_related m h lv fr cursor h' a :
  race_related (mkRace m h lv fr None) a → drain_swap h = (cursor, h') →
  ∃ a', race_spec_step a RaDrainStart a' ∧ race_related (mkRace m h' lv fr (Some (0, cursor))) a'.
Proof.
  destruct a as [free p ds lv0 frs]. intros (loc & dr & [Hi Hfr Hd Hf Hlv Hfs]) E.
  cbn in Hi, Hfr, Hd, Hf, Hlv, Hfs. destruct ds as [ds|]; [done|]. subst dr lv0. injection E as <- <-.
  exists (mkRaceSpec free [] (Some p) lv frs). split; [constructor|]. exists loc, p. split; cbn; try done.
  - destruct Hi as [Hb Hst Hbm Hcu Hl Hr Hparts]. split; cbn; try done.
    change (carved_slots base (with_remote h 0)) with (carved_slots base h). rewrite <- Hparts. perm.
  - split; [apply Hi|]. pose proof (slab_inv_length base _ _ _ _ _ Hi) as [Hl Hcv].
    pose proof (geo_count _ (static_geometry _ (si_static _ _ _ _ _ _ Hi))). lia.
  - cbn in Hf. rewrite Hf. change (fresh_slots base (with_remote h 0)) with (fresh_slots base h). perm.
Qed.

Lemma drain_turn_related m h lv fr count cursor m' h' count' cursor' a :
  race_related (mkRace m h lv fr (Some (count, cursor))) a → cursor ≠ 0 →
  drain_turn m h count cursor = (m', h', count', cursor') →
  race_related (mkRace m' h' lv fr (Some (count', cursor'))) a.
Proof.
  intros (loc & dr & [Hi Hfr Hd Hf Hlv Hfs]) Hne E. cbn in Hi, Hfr, Hd, Hf, Hlv, Hfs.
  destruct (rs_draining a) as [d|] eqn:Ed; [|done]. destruct Hd as (Hc & Hpos & Hlen).
  destruct (chain_nonnull _ _ _ Hc Hne) as (dr' & -> & Hc').
  unfold drain_turn in E. destruct (SlotFreeList_push m (local h) cursor) as [m1 fl] eqn:Hp. injection E as <- <- <- <-.
  destruct (push_related m h loc (rs_pending a) lv fr (cursor :: dr') cursor dr' m1 (with_local h fl) Hi Hfr lv)
    as (Hi' & Hfr' & Hch & Hfresh); [perm|by unfold Slab_dealloc_local; rewrite Hp|].
  exists (cursor :: loc), dr'. split; cbn; try done.
  - rewrite Ed. rewrite length_cons in Hlen. split; [by apply Hch|].
    rewrite wadd_small by (unfold uint; lia). lia.
  - rewrite Ed, Hf, Hfresh. cbn. perm.
Qed.

Lemma drain_done_related m h lv fr count a :
  race_related (mkRace m h lv fr (Some (count, 0))) a →
  ∃ a', race_spec_step a (RaDrainDone count) a' ∧ race_related (mkRace m h lv fr None) a'.
Proof.
  destruct a as [free p ds lv0 frs]. intros (loc & dr & [Hi Hfr Hd Hf Hlv Hfs]).
  cbn in Hi, Hfr, Hd, Hf, Hlv, Hfs. destruct ds as [d|]; [|done]. destruct Hd as (Hc & _ & Hlen).
  destruct dr as [|x dr]; [|destruct Hc as (<- & Hx & _); unfold ptr_ok in Hx; lia]. cbn in Hlen, Hf.
  exists (mkRaceSpec (d ++ free) p None lv0 frs). replace count with (Z.of_nat (length d)) by lia.
  split; [by constructor|]. by exists loc, [].
Qed.

Lemma write_related m h lv fr d x y b a :
  race_related (mkRace m h lv fr d) a → x ∈ lv → x ≤ y < x + slot_size h →
  race_related (mkRace (write_byte m y b) h lv fr d) a.
Proof.
  intros (loc & dr & Hrel) [l1 [l2 ->]]%list_elem_of_split Hy. pose proof Hrel as [Hi Hfr Hd Hf Hlv Hfs].
  cbn in Hi, Hfr, Hd, Hf, Hlv, Hfs.
  destruct (race_rel_touch m (write_byte m y b) h _ fr d a loc dr x (l1 ++ l2) fr Hrel) as (Hi' & Hfr' & Hdr');
    [perm|by apply touches_byte|].
  exists loc, dr. split; cbn; try done; [by apply Hfr'|].
  destruct d as [[count cursor]|], (rs_draining a); try done. destruct Hd as [Hc Hd]. split; [by apply Hdr'|done].
Qed.

Lemma race_sim_step s e s' a :
  race_related s a → race_step base s e s' →
  ∃ a', match e with None => a' = a | Some ev => race_spec_step a ev a' end ∧ race_related s' a'.
Proof.
  intros Hr Hstep. destruct Hstep; eauto using access_related, drain_turn_related.
  - by eapply alloc_related.
  - by eapply free_related.
  - by eapply free_start_related.
  - by eapply free_done_related.
  - by eapply drain_start_related.
  - by eapply drain_done_related.
  - exists a. split; [|done]. destruct a as [free p ds lv0 frs]. destruct Hr as (loc & dr & [Hi _ Hd _ Hlv Hfs]).
    cbn in Hi, Hd, Hlv, Hfs. destruct ds; [done|]. subst dr lv0. apply rspec_fully_free.
    assert (frs = [] ↔ fst <$> fr = []) as Hnil by (rewrite <- !length_zero_iff_nil; by rewrite Hfs).
    rewrite (slab_fully_free base m h _ _ _ Hi), app_nil_r, app_nil. tauto.
  - exists a. split; [|done]. destruct Hr as (loc & dr & [Hi _ _ _ _ _]). cbn in Hi. apply rspec_pending.
    pose proof (si_remote _ _ _ _ _ _ Hi) as Hc. unfold Slab_has_pending_remote, TreiberStack_is_empty.
    rewrite negb_true_iff, Z.eqb_neq. destruct (rs_pending a) as [|x p]; cbn in Hc; [by rewrite Hc|].
    destruct Hc as (-> & Hx & _). unfold ptr_ok in Hx. split; [done|lia].
  - exists a. split; [constructor|]. by eapply write_related.
Qed.

Lemma race_related_init m class heap :
  slab_base_ok base → 0 ≤ class < NUM_CLASSES →
  race_related (race_init m class heap) (mkRaceSpec (all_slots base class) [] None [] []).
Proof.
  intros Hb Hc. exists [], []. split; try done; [by apply slab_init_inv|].
  cbn. unfold fresh_slots, all_slots, carved. cbn [SlabHeader_init slot_count bump_remaining]. by rewrite Z.sub_diag.
Qed.
End race.

Lemma race_spec_parts a e a' : race_spec_step a e a' → rs_all a' ≡ₚ rs_all a.
Proof.
  unfold rs_all. destruct 1 as [a free free' p lv fr Hp|p lv fr|a free free' p lv lv' fr Hl Hf|a free p d lv lv' fr Hl
    |a free p d lv fr fr' Hf|free p lv fr|free free' p d lv fr Hf|free p lv fr b _|s b _|s];
    cbn [rs_free rs_pending rs_draining rs_live rs_freeing default from_option id]; try done;
    rewrite ?Hp, ?Hf, ?Hl; perm.
Qed.

(** ** Schedules

    [race_exec] runs a schedule, which names the thread that moves next. *)

Inductive race_action :=
  | DoAlloc
  | DoFreeStart (a : Z)
  | DoAccess (a : Z) (spurious : bool)
  | DoDrain
  | DoTurn.

(** The first element that passes the test, and the others. *)
Fixpoint pick {A} (f : A → bool) (l : list A) : option (A * list A) :=
  match l with
  | [] => None
  | x :: l => if f x then Some (x, l) else '(y, l') ← pick f l; Some (y, x :: l')
  end.

Lemma pick_perm {A} (f : A → bool) l x l' : pick f l = Some (x, l') → l ≡ₚ x :: l' ∧ f x = true.
Proof.
  revert x l'. induction l as [|y l IH]; intros x l'; cbn; [done|].
  destruct (f y) eqn:Hy; [by intros [= <- <-]|]. intros ([z l1] & E & [= -> <-])%bind_Some.
  destruct (IH _ _ E) as [-> Hf]. split; [apply Permutation_swap|done].
Qed.

Definition race_act (base : Z) (act : race_action) (s : race_sys) : option (option race_event * race_sys) :=
  let '(mkRace m h lv fr d) := s in
  match act, d with
  | DoAlloc, None =>
      let '(r, h) := Slab_alloc base m h in
      Some (Some (RaAlloc r), mkRace m h (match r with Some a => a :: lv | None => lv end) fr None)
  | DoFreeStart a, _ =>
      '(a, lv) ← pick (Z.eqb a) lv; Some (Some (RaFreeStart a), mkRace m h lv ((a, PushLoad) :: fr) d)
  | DoAccess a spurious, _ =>
      '((a, pc), fr) ← pick (λ f, fst f =? a) fr;
      let '(pc, m, h) := dealloc_remote_access a spurious pc m h in
      if decide (pc = PushDone) then Some (Some (RaFreeDone a), mkRace m h lv fr d)
      else Some (None, mkRace m h lv ((a, pc) :: fr) d)
  | DoDrain, None =>
      let '(cursor, h) := drain_swap h in Some (Some RaDrainStart, mkRace m h lv fr (Some (0, cursor)))
  | DoTurn, Some (count, cursor) =>
      if cursor =? 0 then Some (Some (RaDrainDone count), mkRace m h lv fr None) else
      let '(m, h, count, cursor) := drain_turn m h count cursor in
      Some (None, mkRace m h lv fr (Some (count, cursor)))
  | _, _ => None
  end.

Fixpoint race_exec (base : Z) (acts : list race_action) (s : race_sys) : option (list (option race_event) * race_sys) :=
  match acts with
  | [] => Some ([], s)
  | act :: acts => '(e, s) ← race_act base act s; '(es, s) ← race_exec base acts s; Some (e :: es, s)
  end.

Lemma race_act_sound base act s e s' : race_act base act s = Some (e, s') → race_step base s e s'.
Proof.
  destruct s as [m h lv fr d]. destruct act as [|a|a spurious| |]; cbn [race_act].
  - destruct d; [done|]. destruct (Slab_alloc base m h) as [r h'] eqn:E. intros [= <- <-]. by constructor.
  - intros ([x lv'] & [Hp _]%pick_perm & [= <- <-])%bind_Some. by constructor.
  - intros ([[x pc] fr'] & [Hp _]%pick_perm & E)%bind_Some.
    destruct (dealloc_remote_access x spurious pc m h) as [[pc' m'] h'] eqn:Ea.
    case_decide; injection E as <- <-; [subst pc'; by eapply race_free_done|by eapply race_free_access].
  - destruct d; [done|]. destruct (drain_swap h) as [cursor h'] eqn:E. intros [= <- <-]. by constructor.
  - destruct d as [[count cursor]|]; [|done]. destruct (Z.eqb_spec cursor 0) as [->|Hne]; [intros [= <- <-]; constructor|].
    destruct (drain_turn m h count cursor) as [[[m' h'] count'] cursor'] eqn:E. intros [= <- <-]. by constructor.
Qed.

Lemma race_exec_sound base acts : ∀ s es s', race_exec base acts s = Some (es, s') → run (race_step base) s es s'.
Proof.
  induction acts as [|act acts IH]; intros s es s'; cbn [race_exec]; [intros [= <- <-]; constructor|].
  intros ([e s1] & H1%race_act_sound & ([es1 s2] & H2%IH & [= <- <-])%bind_Some)%bind_Some. by eapply run_cons.
Qed.

(** ** Calls that nothing interrupts *)

Lemma drain_turns base h lv fr fuel : ∀ m fl count cursor m' fl' n,
  drain_loop fuel m fl count cursor = Ok (m', fl', n) →
  ∃ k, run (race_step base) (mkRace m (with_local h fl) lv fr (Some (count, cursor))) (replicate k None)
         (mkRace m' (with_local h fl') lv fr (Some (n, 0))).
Proof.
  induction fuel as [|fuel IH]; intros m fl count cursor m' fl' n; cbn [drain_loop];
    (destruct (Z.eqb_spec cursor 0) as [->|Hne]; [intros [= <- <- <-]; exists 0%nat; constructor|]); [done|].
  destruct (SlotFreeList_push m fl cursor) as [m1 fl1] eqn:Hp. intros E.
  destruct (IH _ _ _ _ _ _ _ E) as [k Hk]. exists (S k). eapply run_cons; [|exact Hk].
  apply race_drain_turn; [done|]. unfold drain_turn. cbn [local with_local]. by rewrite Hp.
Qed.

(** [Slab_drain_remote] is the swap and the turns of the loop, with nothing between them. *)
Lemma drain_uninterrupted base m h lv fr m' h' n :
  Slab_drain_remote m h = Ok (m', h', n) →
  ∃ k, run (race_step base) (mkRace m h lv fr None)
    (Some RaDrainStart :: replicate k None ++ [Some (RaDrainDone n)]) (mkRace m' h' lv fr None).
Proof.
  unfold Slab_drain_remote. destruct (TreiberStack_swap_drain (remote h)) as [chain top] eqn:Es. intros E.
  bind_inv E as [[m1 fl] c] Hd. injection E as <- <- <-.
  destruct (drain_turns base (with_remote h top) lv fr _ _ _ _ _ _ _ _ Hd) as [k Hk]. exists k.
  eapply run_cons; [apply race_drain_start; unfold drain_swap; by rewrite Es|].
  eapply run_app; [|eapply run_cons; [apply race_drain_done|constructor]].
  replace (with_remote h top) with (with_local (with_remote h top) (local h)) by by destruct h. exact Hk.
Qed.

(** [SlabRef_dealloc_remote] is the three accesses of a free whose CAS succeeds. *)
Lemma dealloc_remote_uninterrupted base m h lv lv' fr a m' h' :
  lv ≡ₚ a :: lv' → SlabRef_dealloc_remote m h a = (m', h') →
  run (race_step base) (mkRace m h lv fr None) [Some (RaFreeStart a); None; None; Some (RaFreeDone a)]
    (mkRace m' h' lv' fr None).
Proof.
  intros Hlv. unfold SlabRef_dealloc_remote, TreiberStack_push, TreiberStack_push_chain. cbn. rewrite Z.eqb_refl. cbn.
  intros [= <- <-]. assert (with_remote h (remote h) = h) as Hh by by destruct h.
  eapply run_cons; [by apply race_free_start|].
  eapply run_cons; [eapply (race_free_access _ _ _ _ _ _ _ _ false); [done|unfold dealloc_remote_access; cbn; by rewrite Hh|done]|].
  eapply run_cons; [eapply (race_free_access _ _ _ _ _ _ _ _ false); [done|unfold dealloc_remote_access; cbn; by rewrite Hh|done]|].
  eapply run_cons; [|constructor]. eapply (race_free_done _ _ _ _ _ _ _ _ false); [done|].
  unfold dealloc_remote_access. cbn. by rewrite Z.eqb_refl.
Qed.

(** ** Properties *)

(** C15. Under every interleaving of the accesses of the owner's operations and
    of any number of [dealloc_remote] calls (spurious CAS failures included),
    with writes into the slots the program holds, a slab behaves as the pool of
    slots of [race_spec]: a free of another thread takes effect at one instant
    between its call and its return, a drain returns the number of slots that
    were pending when it started and frees exactly them, no slot is handed out
    while it is live, pending, being drained or being freed, and
    [is_fully_free] and [has_pending_remote] answer exactly. *)
Theorem slab_race_refines (base class heap : Z) (m : mem) es s :
  slab_base_ok base → 0 ≤ class < NUM_CLASSES →
  run (race_step base) (race_init m class heap) es s →
  ∃ a, run race_spec_step (mkRaceSpec (all_slots base class) [] None [] []) (omap id es) a ∧
    rs_live a = ra_live s ∧ rs_freeing a ≡ₚ fst <$> ra_freeing s ∧
    chain (ra_mem s) (remote (ra_header s)) (rs_pending a) ∧ rs_all a ≡ₚ all_slots base class ∧
    match ra_drain s, rs_draining a with
    | None, None => True
    | Some (count, cursor), Some d =>
        0 ≤ count ≤ Z.of_nat (length d) ∧ (cursor = 0 ↔ count = Z.of_nat (length d))
    | _, _ => False
    end.
Proof.
  intros Hb Hc Hrun.
  destruct (run_weak_simulation (race_step base) race_spec_step _ (race_sim_step base) _ _ _ _
    (race_related_init base m class heap Hb Hc) Hrun) as (a & Hr & loc & dr & [Hi _ Hd _ Hl Hf]).
  exists a. split; [done|]. split; [done|]. split; [done|]. split; [apply Hi|]. split.
  { pattern a. refine (run_invariant race_spec_step _ _ _ _ _ _ Hr).
    - intros a1 e a2 Ha ?%race_spec_parts. by etrans.
    - unfold rs_all. cbn. by rewrite app_nil_r. }
  destruct (ra_drain s) as [[count cursor]|], (rs_draining a) as [d|]; try done.
  destruct Hd as (Hch & Hpos & Hlen & _). destruct dr as [|x dr]; cbn in Hch, Hlen; [lia|].
  destruct Hch as (-> & Hx & _). unfold ptr_ok in Hx. lia.
Qed.

(** ** Witness *)

(** Two slots are freed by two threads while the owner drains.  The first free
    has read an empty list; the second one completes and the owner takes the
    list, so the CAS of the first finds it empty again and succeeds in the
    middle of the drain.  The next drain takes that slot. *)
Definition race_demo_events : list (option race_event) :=
  [Some (RaAlloc (Some 262216)); Some (RaAlloc (Some 262224)); Some (RaFreeStart 262224); Some (RaFreeStart 262216);
   None; None; None; None; Some (RaFreeDone 262224); Some RaDrainStart; Some (RaFreeDone 262216);
   None; Some (RaDrainDone 1); Some RaDrainStart; None; Some (RaDrainDone 1)].

Definition race_demo_schedule : list race_action :=
  [DoAlloc; DoAlloc; DoFreeStart 262224; DoFreeStart 262216; DoAccess 262216 false; DoAccess 262216 false;
   DoAccess 262224 false; DoAccess 262224 false; DoAccess 262224 false; DoDrain; DoAccess 262216 false;
   DoTurn; DoTurn; DoDrain; DoTurn; DoTurn].

Lemma race_demo_run :
  ∃ s, run (race_step 262144) (race_init ∅ 0 7) race_demo_events s ∧ ra_live s = [] ∧ ra_freeing s = [].
Proof.
  pose proof (race_exec_sound 262144 race_demo_schedule (race_init ∅ 0 7)) as Hs.
  assert (∃ s, race_exec 262144 race_demo_schedule (race_init ∅ 0 7) = Some (race_demo_events, s) ∧
    ra_live s = [] ∧ ra_freeing s = []) as (s & E & Hd).
  { eexists. split; [vm_compute; reflexivity|done]. }
  exists s. split; [|exact Hd]. apply Hs. exact E.
Qed.

Lemma slab_race_refines_witness :
  ∃ s a, run (race_step 262144) (race_init ∅ 0 7) race_demo_events s ∧
    run race_spec_step (mkRaceSpec (all_slots 262144 0) [] None [] []) (omap id race_demo_events) a ∧
    rs_live a = [] ∧ rs_all a ≡ₚ all_slots 262144 0.
Proof.
  destruct race_demo_run as (s & Hrun & Hl & _).
  destruct (slab_race_refines 262144 0 7 ∅ race_demo_events s) as (a & Hr & Hla & _ & _ & Hall & _).
  - exact base_ok_262144.
  - by vm_compute.
  - exact Hrun.
  - exists s, a. split; [exact Hrun|]. split; [exact Hr|]. split; [by rewrite Hla|exact Hall].
Defined.
