(* ===== verification/SlabList.v ===== *)
(** * Slab queues ([src/src/slab.rs], [SlabList])

    The doubly linked list of slabs behind the full and partial queues of a
    heap.  Each header stores the next slab and a pointer to the predecessor's
    [next_link] field or to the list head, so a slab is removed in O(1) without
    knowing its list.  The store holds every slab header and every list head,
    and a [LinkPtr] is written through as the code does.

    [lists_ok st L] says that the head of each cell [c] leads through exactly
    the slabs [L c], with consistent back pointers, and that no slab is in two
    lists.  The operations are specified as updates of [L]. *)

From stdpp Require Import functions base numbers list gmap.
From Stdlib Require Import ZArith Lia.
From S2P Require Import Prelude SizeClass LinkMem FreeList Treiber Slab.

Local Open Scope Z_scope.

(** ** State *)

#[export] Instance list_kind_countable : Countable list_kind.
Proof.
  refine (inj_countable' (λ k, match k with FullList => true | PartialList => false end)
    (λ b, if b : bool then FullList else PartialList) _). by intros [].
Defined.

#[export] Instance HeadCell_countable : Countable HeadCell.
Proof.
  refine (inj_countable' (λ c, (hc_heap c, hc_kind c, hc_class c))
    (λ '(h, k, c), mkHeadCell h k c) _). by intros [].
Defined.

(** Slab headers by base address, and list heads; an absent head is [None]. *)
Record lstore := mkStore { ls_hdrs : gmap Z SlabHeader; ls_heads : gmap HeadCell Z }.

(** ** Operations *)

Definition get_header (st : lstore) (b : Z) : res SlabHeader :=
  res_of_option InvalidPointer (ls_hdrs st !! b).

Definition put_header (st : lstore) (b : Z) (h : SlabHeader) : lstore :=
  mkStore (<[b := h]> (ls_hdrs st)) (ls_heads st).

Definition update_header (st : lstore) (b : Z) (f : SlabHeader → SlabHeader) : res lstore :=
  h ← get_header st b; Ok (put_header st b (f h)).

Definition set_head (st : lstore) (c : HeadCell) (v : option Z) : lstore :=
  mkStore (ls_hdrs st) (partial_alter (λ _, v) c (ls_heads st)).

(** [*prev = v]. *)
Definition write_link (st : lstore) (p : LinkPtr) (v : option Z) : res lstore :=
  match p with
  | LinkNull => Panic InvalidPointer
  | LinkHead c => Ok (set_head st c v)
  | LinkNext b => update_header st b (λ h, Slab_set_next_link h v)
  end.

Definition slab_list_push (st : lstore) (c : HeadCell) (b : Z) : res lstore :=
  let head := ls_heads st !! c in
  st ← update_header st b (λ h, Slab_set_next_link h head);
  st ← update_header st b (λ h, Slab_set_prev_link h (LinkHead c));
  st ← match head with
       | Some old => update_header st old (λ h, Slab_set_prev_link h (LinkNext b))
       | None => Ok st
       end;
  Ok (set_head st c (Some b)).

Definition slab_list_pop (st : lstore) (c : HeadCell) : res (option Z * lstore) :=
  match ls_heads st !! c with
  | None => Ok (None, st)
  | Some b =>
      h ← get_header st b;
      let st := set_head st c (next_link h) in
      st ← match next_link h with
           | Some new_head =>
               update_header st new_head (λ h, Slab_set_prev_link h (LinkHead c))
           | None => Ok st
           end;
      st ← update_header st b (λ h, Slab_set_next_link h None);
      st ← update_header st b (λ h, Slab_set_prev_link h LinkNull);
      Ok (Some b, st)
  end.

Definition slab_list_remove (st : lstore) (b : Z) : res lstore :=
  h ← get_header st b;
  let prev := prev_link h in
  let next := next_link h in
  st ← write_link st prev next;
  st ← match next with
       | Some next_base => update_header st next_base (λ h, Slab_set_prev_link h prev)
       | None => Ok st
       end;
  st ← update_header st b (λ h, Slab_set_next_link h None);
  update_header st b (λ h, Slab_set_prev_link h LinkNull).

(** ** The abstraction *)

(** The nodes [l], whose first has back pointer [prev] and whose last links to [z]. *)
Fixpoint dl_seg (st : lstore) (prev : LinkPtr) (l : list Z) (z : option Z) : Prop :=
  match l with
  | [] => True
  | b :: l =>
      (∃ h, ls_hdrs st !! b = Some h ∧ prev_link h = prev ∧
        next_link h = match l with [] => z | b' :: _ => Some b' end) ∧
      dl_seg st (LinkNext b) l z
  end.

Definition dlist (st : lstore) (c : HeadCell) (l : list Z) : Prop :=
  ls_heads st !! c = head l ∧ NoDup l ∧ dl_seg st (LinkHead c) l None.

Definition lists_ok (st : lstore) (L : HeadCell → list Z) : Prop :=
  (∀ c, dlist st c (L c)) ∧ (∀ c c' b, b ∈ L c → b ∈ L c' → c = c').

(** A header without its links: what list operations must not touch. *)
Definition erase_links (h : SlabHeader) : SlabHeader :=
  Slab_set_prev_link (Slab_set_next_link h None) LinkNull.

Definition same_data (st st' : lstore) : Prop :=
  ∀ b, erase_links <$> ls_hdrs st' !! b = erase_links <$> ls_hdrs st !! b.

Definition unlinked (st : lstore) (b : Z) : Prop :=
  ∃ h, ls_hdrs st !! b = Some h ∧ next_link h = None ∧ prev_link h = LinkNull.

(** ** Lemmas on the store *)

Lemma update_header_ok st b h f :
  ls_hdrs st !! b = Some h → update_header st b f = Ok (put_header st b (f h)).
Proof. intros Hb. unfold update_header, get_header. by rewrite Hb. Qed.

Lemma same_data_refl st : same_data st st.
Proof. done. Qed.

Lemma same_data_trans st1 st2 st3 : same_data st1 st2 → same_data st2 st3 → same_data st1 st3.
Proof. intros H1 H2 b. by rewrite H2. Qed.

Lemma same_data_put st b h h' :
  ls_hdrs st !! b = Some h → erase_links h' = erase_links h → same_data st (put_header st b h').
Proof.
  intros Hb He x. cbn. rewrite lookup_insert. case_decide; [subst|done].
  by rewrite Hb; cbn; rewrite He.
Qed.

(** A segment only depends on the headers of its nodes. *)
Lemma dl_seg_ext st st' prev l z :
  (∀ b, b ∈ l → ls_hdrs st' !! b = ls_hdrs st !! b) →
  dl_seg st prev l z → dl_seg st' prev l z.
Proof.
  revert prev. induction l as [|b l IH]; intros prev Hx; cbn; [done|].
  intros [(h & Hh & ?) Hseg]. split.
  - exists h. rewrite Hx; [done|set_solver].
  - apply IH; [|done]. intros. apply Hx. set_solver.
Qed.

Lemma dlist_ext st st' c l :
  ls_heads st' !! c = ls_heads st !! c →
  (∀ b, b ∈ l → ls_hdrs st' !! b = ls_hdrs st !! b) →
  dlist st c l → dlist st' c l.
Proof. intros Hc Hx (? & ? & ?). split; [by rewrite Hc|]. eauto using dl_seg_ext. Qed.

Lemma dl_seg_lookup st prev l z b : dl_seg st prev l z → b ∈ l → ∃ h, ls_hdrs st !! b = Some h.
Proof.
  revert prev. induction l as [|x l IH]; intros prev; cbn; [set_solver|].
  intros [(h & ? & _) Hseg] [->|Hb]%elem_of_cons; eauto.
Qed.

(** The link pointer that leads to the node after [l]. *)
Definition seg_ptr (prev : LinkPtr) (l : list Z) : LinkPtr :=
  match last l with Some b => LinkNext b | None => prev end.

Definition first_or (l : list Z) (z : option Z) : option Z :=
  match l with [] => z | b :: _ => Some b end.

Lemma dl_seg_app st prev l1 l2 z :
  dl_seg st prev (l1 ++ l2) z ↔
  dl_seg st prev l1 (first_or l2 z) ∧ dl_seg st (seg_ptr prev l1) l2 z.
Proof.
  revert prev. induction l1 as [|b l1 IH]; intros prev; cbn; [naive_solver|].
  rewrite IH. replace (seg_ptr prev (b :: l1)) with (seg_ptr (LinkNext b) l1)
    by (unfold seg_ptr; rewrite last_cons; by destruct (last l1)).
  destruct l1 as [|b1 l1], l2 as [|b2 l2]; cbn; naive_solver.
Qed.

(** ** The operations *)

(** Only list [c] changes, and only by nodes that are in no other list. *)
Lemma lists_ok_update st st' L c l :
  lists_ok st L → dlist st' c l →
  (∀ c', c' ≠ c → ls_heads st' !! c' = ls_heads st !! c') →
  (∀ c' x, c' ≠ c → x ∈ L c' → ls_hdrs st' !! x = ls_hdrs st !! x) →
  (∀ x, x ∈ l → x ∈ L c ∨ ∀ c', x ∉ L c') →
  lists_ok st' (<[c := l]> L).
Proof.
  intros [HL Hdisj] Hl Hh Hx Hin. split.
  - intros c'. destruct (decide (c' = c)) as [->|Hne].
    + by rewrite fn_lookup_insert.
    + rewrite fn_lookup_insert_ne by done. eapply dlist_ext; [by apply Hh|by intros; eapply Hx|done].
  - assert (∀ c' x, c' ≠ c → x ∈ l → x ∈ L c' → False) as Hsep.
    { intros c' x Hne Hxl Hxc'. destruct (Hin x Hxl) as [Hxc|Hno]; [|by eapply Hno].
      by apply Hne, (Hdisj _ _ x). }
    intros c1 c2 x. destruct (decide (c1 = c)) as [->|], (decide (c2 = c)) as [->|];
      rewrite ?fn_lookup_insert, ?fn_lookup_insert_ne by done; intros; try done;
      [exfalso; by eapply (Hsep c2)|exfalso; by eapply (Hsep c1)|by eapply Hdisj].
Qed.

Ltac hdr := cbn; rewrite ?lookup_insert_ne by (done || congruence);
  rewrite ?lookup_insert_eq.

(** The first node of a segment takes a new back pointer. *)
Lemma dl_seg_set_prev st prev prev' b l z h st' :
  dl_seg st prev (b :: l) z → b ∉ l → ls_hdrs st !! b = Some h →
  ls_hdrs st' !! b = Some (Slab_set_prev_link h prev') →
  (∀ x, x ∈ l → ls_hdrs st' !! x = ls_hdrs st !! x) →
  dl_seg st' prev' (b :: l) z.
Proof.
  cbn. intros [(h0 & Hh0 & _ & Hn) Hseg] Hnot Hb Hb' Hx. rewrite Hb in Hh0.
  injection Hh0 as <-. split; [by eexists|]. by eapply dl_seg_ext.
Qed.

Lemma slab_list_push_ok st L c b h :
  lists_ok st L → (∀ c', b ∉ L c') → ls_hdrs st !! b = Some h →
  ∃ st', slab_list_push st c b = Ok st' ∧ lists_ok st' (<[c := b :: L c]> L) ∧
    same_data st st' ∧ (∀ x, x ≠ b → x ∉ L c → ls_hdrs st' !! x = ls_hdrs st !! x).
Proof.
  intros Hok Hnew Hb. pose proof Hok as [HL _]. pose proof (HL c) as (Hhead & Hnd & Hseg).
  pose proof (Hnew c) as Hbc. unfold slab_list_push. rewrite (update_header_ok st b h) by done.
  cbn [mbind res_bind]. erewrite update_header_ok by (hdr; done). cbn [mbind res_bind].
  rewrite Hhead. destruct (L c) as [|old l] eqn:HLc; cbn [head].
  - eexists. split; [done|]. split_and!.
    + eapply (lists_ok_update st); [done|..].
      * split; [by cbn; rewrite lookup_partial_alter_eq|]. split; [by repeat constructor; set_solver|].
        split; [|done]. eexists. hdr. done.
      * intros c' Hne. cbn. by rewrite lookup_partial_alter_ne.
      * intros c' x _ Hx. assert (x ≠ b) by (intros ->; by eapply Hnew). by hdr.
      * set_solver.
    + intros x. cbn. destruct (decide (x = b)) as [->|]; hdr; [by rewrite Hb|done].
    + intros x Hx _. by hdr.
  - pose proof (dl_seg_lookup _ _ _ _ old Hseg) as [ho Hho]; [set_solver|].
    assert (old ≠ b) as Hob by set_solver. apply NoDup_cons in Hnd as [Hol Hnd].
    erewrite update_header_ok by (hdr; done). cbn [mbind res_bind].
    eexists. split; [done|]. split_and!.
    + eapply (lists_ok_update st); [done|..].
      * split; [by cbn; rewrite lookup_partial_alter_eq|].
        split; [constructor; [set_solver|by constructor]|]. split; [eexists; by hdr|].
        eapply (dl_seg_set_prev st _ _ old l None ho); [done..|by hdr|].
        intros x Hx. assert (x ≠ b) by (intros ->; set_solver).
        assert (x ≠ old) by (by intros ->). by hdr.
      * intros c' Hne. cbn. by rewrite lookup_partial_alter_ne.
      * intros c' x Hne Hx. assert (x ≠ b) by (intros ->; by eapply Hnew).
        assert (x ≠ old). { intros ->. apply Hne. eapply (proj2 Hok); [done|]. rewrite HLc. set_solver. }
        by hdr.
      * intros x [->|Hx]%elem_of_cons; [by right|left]. by rewrite HLc.
    + intros x. cbn. destruct (decide (x = old)) as [->|]; [hdr; by rewrite Hho|].
      destruct (decide (x = b)) as [->|]; hdr; [by rewrite Hb|done].
    + intros x Hx Hxl. assert (x ≠ old) by set_solver. by hdr.
Qed.

Lemma slab_list_pop_ok st L c :
  lists_ok st L →
  match L c with
  | [] => slab_list_pop st c = Ok (None, st)
  | b :: l => ∃ st', slab_list_pop st c = Ok (Some b, st') ∧
      lists_ok st' (<[c := l]> L) ∧ unlinked st' b ∧ same_data st st' ∧
      (∀ x, x ∉ L c → ls_hdrs st' !! x = ls_hdrs st !! x)
  end.
Proof.
  intros Hok. pose proof Hok as [HL Hdisj]. pose proof (HL c) as (Hhead & Hnd & Hseg).
  unfold slab_list_pop. rewrite Hhead. destruct (L c) as [|b l] eqn:HLc; cbn [head]; [done|].
  destruct Hseg as [(h & Hb & Hprev & Hnext) Hseg]. apply NoDup_cons in Hnd as [Hbl Hnd].
  unfold get_header. rewrite Hb. cbn [res_of_option mbind res_bind]. rewrite Hnext.
  assert (∀ c' x, c' ≠ c → x ∈ L c' → x ∉ b :: l) as Hother.
  { intros c' x Hne Hx Hin. apply Hne, (Hdisj _ _ x); [done|]. by rewrite HLc. }
  destruct l as [|b' l]; cbn [mbind res_bind].
  - erewrite update_header_ok by (hdr; done). cbn [mbind res_bind].
    erewrite update_header_ok by (hdr; done). cbn [mbind res_bind].
    eexists. split; [done|]. split_and!.
    + eapply (lists_ok_update st); [done|..].
      * split; [by cbn; rewrite lookup_partial_alter_eq|done].
      * intros c' Hne. cbn. by rewrite lookup_partial_alter_ne.
      * intros c' x Hne Hx. specialize (Hother c' x Hne Hx). assert (x ≠ b) by set_solver. by hdr.
      * set_solver.
    + eexists. by hdr.
    + intros x. cbn. destruct (decide (x = b)) as [->|]; hdr; [by rewrite Hb|done].
    + intros x Hx. assert (x ≠ b) by set_solver. by hdr.
  - pose proof (dl_seg_lookup _ _ _ _ b' Hseg) as [h' Hb']; [set_solver|].
    assert (b ≠ b') as Hbb by set_solver. apply NoDup_cons in Hnd as [Hbl' Hnd].
    erewrite update_header_ok by (hdr; done). cbn [mbind res_bind].
    erewrite update_header_ok by (hdr; done). cbn [mbind res_bind].
    erewrite update_header_ok by (hdr; done). cbn [mbind res_bind].
    eexists. split; [done|]. split_and!.
    + eapply (lists_ok_update st); [done|..].
      * split; [by cbn; rewrite lookup_partial_alter_eq|]. split; [by constructor|].
        eapply (dl_seg_set_prev st _ _ b' l None h'); [done..|by hdr|].
        intros x Hx. assert (x ≠ b') by (by intros ->). assert (x ≠ b) by set_solver. by hdr.
      * intros c' Hne. cbn. by rewrite lookup_partial_alter_ne.
      * intros c' x Hne Hx. specialize (Hother c' x Hne Hx).
        assert (x ≠ b) by set_solver. assert (x ≠ b') by set_solver. by hdr.
      * intros x Hx. left. rewrite HLc. set_solver.
    + eexists. by hdr.
    + intros x. cbn. destruct (decide (x = b)) as [->|]; hdr; [by rewrite Hb|].
      destruct (decide (x = b')) as [->|]; hdr; [by rewrite Hb'|done].
    + intros x Hx. assert (x ≠ b) by set_solver. assert (x ≠ b') by set_solver. by hdr.
Qed.

(** The last node of a segment takes a new next link. *)
Lemma dl_seg_set_next st prev l p z z' h st' :
  dl_seg st prev (l ++ [p]) z → p ∉ l → ls_hdrs st !! p = Some h →
  ls_hdrs st' !! p = Some (Slab_set_next_link h z') →
  (∀ x, x ∈ l → ls_hdrs st' !! x = ls_hdrs st !! x) →
  dl_seg st' prev (l ++ [p]) z'.
Proof.
  rewrite !dl_seg_app. cbn. intros [Hl [(h0 & Hh0 & Hp & _) _]] Hnot Hb Hb' Hx.
  rewrite Hb in Hh0. injection Hh0 as <-. split; [by eapply dl_seg_ext|]. split; [|done].
  by eexists.
Qed.

(** [*prev = next] of a removal: the store in which [b] is bypassed. *)
Lemma write_link_bypass st c l1 b l2 :
  dlist st c (l1 ++ b :: l2) →
  ∃ st1, write_link st (seg_ptr (LinkHead c) l1) (first_or l2 None) = Ok st1 ∧
    ls_heads st1 !! c = head (l1 ++ l2) ∧
    (∀ c', c' ≠ c → ls_heads st1 !! c' = ls_heads st !! c') ∧
    dl_seg st1 (LinkHead c) l1 (first_or l2 None) ∧
    (∀ x, x ∉ l1 → ls_hdrs st1 !! x = ls_hdrs st !! x) ∧
    same_data st st1.
Proof.
  intros (Hhead & Hnd & Hseg). destruct l1 as [|p l1 _] using rev_ind.
  - eexists. split; [done|]. split_and!; try done.
    + cbn. rewrite lookup_partial_alter_eq. by destruct l2.
    + intros c' Hne. cbn. by rewrite lookup_partial_alter_ne.
  - unfold seg_ptr. rewrite last_snoc. cbn [write_link].
    apply NoDup_app in Hnd as (Hnd1 & _ & _). apply NoDup_app in Hnd1 as (_ & Hpl & _).
    apply dl_seg_app in Hseg as [Hseg1 _].
    pose proof (dl_seg_lookup _ _ _ _ p Hseg1) as [hp Hp]; [set_solver|].
    rewrite (update_header_ok st p hp) by done. eexists. split; [done|].
    assert (p ∉ l1) as Hpl1 by (intros Hin; apply (Hpl p Hin); set_solver).
    split_and!; try done.
    + cbn. rewrite Hhead. by destruct l1.
    + eapply (dl_seg_set_next st _ l1 p _ _ hp); [done..|by hdr|].
      intros x Hx. assert (x ≠ p) by (by intros ->). by hdr.
    + intros x Hx. assert (x ≠ p) by set_solver. by hdr.
    + eapply same_data_put; [done|done].
Qed.

(** Clearing the links of a slab that is on no list. *)
Lemma clear_links_ok st L b h :
  lists_ok st L → ls_hdrs st !! b = Some h → (∀ c, b ∉ L c) →
  ∃ st', (st ← update_header st b (λ h, Slab_set_next_link h None);
          update_header st b (λ h, Slab_set_prev_link h LinkNull)) = Ok st' ∧
    lists_ok st' L ∧ unlinked st' b ∧ same_data st st' ∧ (∀ x, x ≠ b → ls_hdrs st' !! x = ls_hdrs st !! x).
Proof.
  intros [HL Hdisj] Hb Hno. rewrite (update_header_ok st b h) by done. cbn [mbind res_bind].
  erewrite update_header_ok by (hdr; done).
  assert (∀ x, x ≠ b → ls_hdrs (put_header (put_header st b (Slab_set_next_link h None)) b
    (Slab_set_prev_link (Slab_set_next_link h None) LinkNull)) !! x = ls_hdrs st !! x) as Hx by (intros x Hne; by hdr).
  eexists. split; [done|]. split; [split; [|done]|split; [eexists; by hdr|split; [|exact Hx]]].
  - intros c. eapply (dlist_ext st); [done| |apply HL]. intros x Hin. apply Hx. intros ->. by apply (Hno c).
  - intros x. destruct (decide (x = b)) as [->|Hne]; [hdr; by rewrite Hb|by rewrite Hx].
Qed.

(** The slab taken out of its list, its own links not yet cleared. *)
Lemma bypass_ok st L c l1 b l2 :
  lists_ok st L → L c = l1 ++ b :: l2 →
  ∃ st', (st ← write_link st (seg_ptr (LinkHead c) l1) (first_or l2 None);
          match first_or l2 None with
          | Some next => update_header st next (λ h, Slab_set_prev_link h (seg_ptr (LinkHead c) l1))
          | None => Ok st
          end) = Ok st' ∧
    lists_ok st' (<[c := l1 ++ l2]> L) ∧ same_data st st' ∧ (∀ x, x ∉ l1 ++ l2 → ls_hdrs st' !! x = ls_hdrs st !! x).
Proof.
  intros Hok HLc. pose proof Hok as [HL Hdisj]. pose proof (HL c) as Hd. rewrite HLc in Hd.
  destruct (write_link_bypass st c l1 b l2 Hd) as (st1 & -> & Hh1 & Hho & Hs1 & Hx1 & Hsd1). cbn [mbind res_bind].
  destruct Hd as (Hhead & Hnd & Hseg). apply dl_seg_app in Hseg as [_ [_ Hseg2]].
  apply NoDup_app in Hnd as (Hnd1 & Hd12 & [Hbl2 Hnd2]%NoDup_cons).
  assert (∀ c' x, c' ≠ c → x ∈ L c' → x ∉ l1 ∧ x ∉ l2) as Hother.
  { intros c' x Hne Hx.
    assert (x ∉ l1 ++ b :: l2) by (rewrite <- HLc; intros Hin; by apply Hne, (Hdisj _ _ x)). set_solver. }
  assert (NoDup (l1 ++ l2)) as Hnd.
  { apply NoDup_app. split_and!; [done| |done]. intros x Hx Hx2. apply (Hd12 x Hx). set_solver. }
  assert (∀ x, x ∈ l1 ++ l2 → x ∈ L c ∨ ∀ c', x ∉ L c') as Hin by (intros x Hx; left; rewrite HLc; set_solver).
  destruct l2 as [|b' l2]; cbn [first_or].
  - exists st1. rewrite app_nil_r in *. split; [done|]. split; [|by split].
    eapply (lists_ok_update st); [done|by split|done| |done]. intros c' x Hne Hx. by apply Hx1, (Hother c').
  - pose proof (dl_seg_lookup _ _ _ _ b' Hseg2) as [h' Hb']; [by left|].
    assert (b' ∉ l1) as Hb'l1 by (intros Hx; apply (Hd12 b' Hx); set_solver). apply NoDup_cons in Hnd2 as [Hbl' Hnd2].
    erewrite update_header_ok by (by rewrite Hx1).
    eexists. split; [done|]. split; [|split].
    + eapply (lists_ok_update st); [done| |done| |done].
      * split; [exact Hh1|]. split; [done|]. apply dl_seg_app. split.
        -- eapply dl_seg_ext; [|exact Hs1]. intros x Hx. assert (x ≠ b') by (by intros ->). by hdr.
        -- eapply (dl_seg_set_prev st _ _ b' l2 None h'); [done..|by hdr|].
           intros x Hx. assert (x ≠ b') by (by intros ->). hdr. apply Hx1. intros Hx'. apply (Hd12 x Hx'). set_solver.
      * intros c' x Hne Hx. destruct (Hother c' x Hne Hx). assert (x ≠ b') by set_solver. hdr. by apply Hx1.
    + eapply same_data_trans; [exact Hsd1|]. apply (same_data_put _ _ h'); [by rewrite Hx1|done].
    + intros x Hx. assert (x ≠ b') by set_solver. hdr. apply Hx1. set_solver.
Qed.

Lemma slab_list_remove_ok st L c l1 b l2 :
  lists_ok st L → L c = l1 ++ b :: l2 →
  ∃ st', slab_list_remove st b = Ok st' ∧ lists_ok st' (<[c := l1 ++ l2]> L) ∧
    unlinked st' b ∧ same_data st st' ∧
    (∀ x, x ∉ L c → ls_hdrs st' !! x = ls_hdrs st !! x).
Proof.
  intros Hok HLc. destruct (bypass_ok st L c l1 b l2 Hok HLc) as (st1 & E1 & Hok1 & Hsd1 & Hx1).
  pose proof Hok as [HL Hdisj]. pose proof (HL c) as (_ & Hnd & Hseg). rewrite HLc in Hnd, Hseg.
  apply dl_seg_app in Hseg as [_ [(h & Hb & Hprev & Hnext) _]].
  assert (b ∉ l1 ++ l2) as Hnb.
  { apply NoDup_app in Hnd as (_ & Hd & [? _]%NoDup_cons). intros [Hin|?]%elem_of_app; [|done]. apply (Hd b Hin). by left. }
  destruct (clear_links_ok st1 (<[c := l1 ++ l2]> L) b h Hok1) as (st2 & E2 & Hok2 & Hu2 & Hsd2 & Hx2); [by rewrite Hx1| |].
  { intros c' Hin. destruct (decide (c' = c)) as [->|Hne]; [by rewrite fn_lookup_insert in Hin|].
    rewrite fn_lookup_insert_ne in Hin by done. apply Hne, (Hdisj _ _ b); [done|]. rewrite HLc. set_solver. }
  exists st2. split; [|split; [exact Hok2|split; [exact Hu2|split; [by eapply same_data_trans|]]]].
  - unfold slab_list_remove, get_header. rewrite Hb. cbn [res_of_option mbind res_bind]. rewrite Hprev, Hnext.
    change (match l2 with [] => None | b' :: _ => Some b' end) with (first_or l2 None).
    apply res_bind_ok in E1 as (st0 & -> & E1). cbn [mbind res_bind]. rewrite E1. exact E2.
  - intros x Hx. rewrite HLc in Hx. rewrite Hx2, Hx1; [done|set_solver..].
Qed.

(** ** Properties *)

(** C17. The pointer-linked queues implement lists: pushing conses, popping
    returns and drops the first slab (or [None] exactly on an empty queue), and
    removing takes a slab out from any position of whatever queue holds it,
    without being told which; popped and removed slabs end up unlinked, and no
    operation changes another queue or any other header field. *)
Theorem slab_list_refines (st : lstore) (L : HeadCell → list Z) (c : HeadCell) :
  lists_ok st L →
  (∀ b h, ls_hdrs st !! b = Some h → (∀ c', b ∉ L c') →
     ∃ st', slab_list_push st c b = Ok st' ∧ lists_ok st' (<[c := b :: L c]> L) ∧
       same_data st st') ∧
  match L c with
  | [] => slab_list_pop st c = Ok (None, st)
  | b :: l => ∃ st', slab_list_pop st c = Ok (Some b, st') ∧
      lists_ok st' (<[c := l]> L) ∧ unlinked st' b ∧ same_data st st'
  end ∧
  (∀ l1 b l2, L c = l1 ++ b :: l2 →
     ∃ st', slab_list_remove st b = Ok st' ∧ lists_ok st' (<[c := l1 ++ l2]> L) ∧
       unlinked st' b ∧ same_data st st').
Proof.
  intros Hok. split_and!.
  - intros b h Hb Hnew. destruct (slab_list_push_ok st L c b h) as (st' & ? & ? & ? & _); eauto.
  - pose proof (slab_list_pop_ok st L c Hok) as Hp. destruct (L c); [done|].
    destruct Hp as (st' & ? & ? & ? & ? & _). eauto.
  - intros l1 b l2 HLc.
    destruct (slab_list_remove_ok st L c l1 b l2 Hok HLc) as (st' & ? & ? & ? & ? & _). eauto 10.
Qed.

(** ** Witness *)

Definition demo_cell : HeadCell := mkHeadCell 1 FullList 0.
Definition demo_store : lstore :=
  mkStore {[ 65536 := SlabHeader_init 0 1; 131072 := SlabHeader_init 0 1 ]} ∅.

Lemma demo_store_ok : lists_ok demo_store (λ _, []).
Proof. split; [|set_solver]. intros c. split; [done|]. split; [constructor|done]. Qed.

Lemma slab_list_refines_witness :
  ∃ st1 st2, slab_list_push demo_store demo_cell 65536 = Ok st1 ∧
    slab_list_pop st1 demo_cell = Ok (Some 65536, st2) ∧ unlinked st2 65536.
Proof.
  destruct (slab_list_refines demo_store (λ _, []) demo_cell demo_store_ok) as (Hpush & _ & _).
  destruct (Hpush 65536 (SlabHeader_init 0 1)) as (st1 & Hst1 & Hok1 & _).
  - reflexivity.
  - intros c'. apply not_elem_of_nil.
  - destruct (slab_list_refines st1 _ demo_cell Hok1) as (_ & Hpop & _).
    rewrite fn_lookup_insert in Hpop. destruct Hpop as (st2 & Hst2 & _ & Hu & _).
    exists st1, st2. split; [exact Hst1|]. split; [exact Hst2|exact Hu].
Defined.
