(* ===== verification/Sys.v ===== *)
(** * Page allocation from the operating system ([src/src/sys.rs])

    [PageAllocator] is the trait of the source as a type class: the operations
    act on the backend's state and on the memory contents.  [PageAllocatorLaws]
    is the contract in the trait's documentation, stated with the list of blocks
    the client holds ([pa_owns]); the page pool is proved against it.

    [MmapAllocator] is the production backend.  The system calls it makes are
    the parameter [Kernel], with their documented (POSIX) behaviour as
    [KernelLaws]; [mmap_page_allocator_laws] shows that the backend meets the
    contract.  [DemoKernel] is a concrete kernel that satisfies the laws; the
    witnesses and counterexamples run on it. *)

From stdpp Require Import base numbers list gmap.
From Stdlib Require Import ZArith Znumtheory Lia.
From S2P Require Import Prelude LinkMem.

Local Open Scope Z_scope.
Local Open Scope clm_scope.

(** ** The trait *)

Class PageAllocator (P : Type) := {
  pa_alloc : P → mem → Layout → option Z * P * mem;
  pa_dealloc : P → mem → Z → Layout → P * mem;
  pa_purge : P → mem → Z → Z → P * mem;
}.

(** The operating system's page, the granularity of [mmap]. *)
Definition OS_PAGE : Z := 4096.

Definition block : Type := Z * Layout.

Definition in_block (b : block) (x : Z) : Prop := fst b ≤ x < fst b + size (snd b).

Definition block_ok (b : block) : Prop :=
  (align (snd b) | fst b) ∧ 0 < fst b ∧ fst b + size (snd b) < 2 ^ 64.

Definition blocks_disjoint : list block → Prop :=
  pairwise (λ b b', ∀ x, in_block b x → ¬ in_block b' x).

Definition bytes_of (L : list block) : Z := sum_Z ((λ b, size (snd b)) <$> L).

Lemma bytes_of_cons a l L : bytes_of ((a, l) :: L) = size l + bytes_of L.
Proof. done. Qed.

Lemma bytes_of_app L K : bytes_of (L ++ K) = bytes_of L + bytes_of K.
Proof. unfold bytes_of, sum_Z. induction L as [|b L IH]; [done|]. cbn in *. lia. Qed.

#[export] Instance bytes_of_perm : Proper ((≡ₚ) ==> (=)) bytes_of.
Proof. intros L K Hp. unfold bytes_of, sum_Z. induction Hp; cbn in *; lia. Qed.

(** The contents of the blocks of [L] are the same. *)
Definition keeps (L : list block) (m m' : mem) : Prop :=
  ∀ b x, b ∈ L → in_block b x → read_byte m' x = read_byte m x.

Class PageAllocatorLaws (P : Type) `{PageAllocator P} := {
  (** The backend's state is consistent with the client holding [L]. *)
  pa_owns : P → list block → Prop;
  pa_owns_perm p L L' : L ≡ₚ L' → pa_owns p L → pa_owns p L';
  pa_owns_ok p L : pa_owns p L → Forall block_ok L ∧ blocks_disjoint L;
  pa_alloc_some p m l L a p' m' :
    pa_owns p L → layout_valid l → 0 < size l → pa_alloc p m l = (Some a, p', m') →
    pa_owns p' ((a, l) :: L) ∧ keeps L m m' ∧
    (∀ x, in_block (a, l) x → read_byte m' x = 0);
  pa_alloc_none p m l L p' m' :
    pa_owns p L → layout_valid l → 0 < size l → pa_alloc p m l = (None, p', m') →
    pa_owns p' L ∧ keeps L m m';
  pa_dealloc_ok p m a l L p' m' :
    pa_owns p ((a, l) :: L) → pa_dealloc p m a l = (p', m') →
    pa_owns p' L ∧ keeps L m m';
  pa_purge_ok p m a len L p' m' b :
    pa_owns p L → b ∈ L → fst b ≤ a → a + len ≤ fst b + size (snd b) → 0 < len →
    (OS_PAGE | a) → (OS_PAGE | len) → pa_purge p m a len = (p', m') →
    pa_owns p' L ∧
    (∀ b' x, b' ∈ L → in_block b' x → ¬ a ≤ x < a + len → read_byte m' x = read_byte m x);
}.

(** ** The system calls *)

(** [mmap(NULL, len, PROT_READ|PROT_WRITE, MAP_ANONYMOUS|MAP_PRIVATE, -1, 0)]
    ([None] is [MAP_FAILED]), [munmap(addr, len)] and
    [madvise(addr, len, MADV_DONTNEED)]; the source ignores the results of the
    last two. *)
Class Kernel (K : Type) := {
  mmap : K → mem → Z → option Z * K * mem;
  munmap : K → mem → Z → Z → K * mem;
  madvise : K → mem → Z → Z → K * mem;
}.

(** The OS pages touched by [len] bytes at [a]. *)
Definition page_in (a len pg : Z) : Prop := a / OS_PAGE ≤ pg < div_ceil (a + len) OS_PAGE.

Class KernelLaws (K : Type) `{Kernel K} := {
  (** OS page [pg] is mapped. *)
  mapped : K → Z → Prop;
  mmap_some k m len r k' m' :
    0 < len → mmap k m len = (Some r, k', m') →
    (OS_PAGE | r) ∧ 0 < r ∧ r + len < 2 ^ 64 ∧
    (∀ pg, page_in r len pg → ¬ mapped k pg) ∧
    (∀ pg, mapped k' pg ↔ mapped k pg ∨ page_in r len pg) ∧
    (∀ x, mapped k (x / OS_PAGE) → read_byte m' x = read_byte m x) ∧
    (∀ x, page_in r len (x / OS_PAGE) → read_byte m' x = 0);
  mmap_none k m len k' m' :
    mmap k m len = (None, k', m') →
    (∀ pg, mapped k' pg ↔ mapped k pg) ∧
    (∀ x, mapped k (x / OS_PAGE) → read_byte m' x = read_byte m x);
  (** An address that is not page-aligned is refused ([EINVAL]). *)
  munmap_ok k m a len k' m' :
    0 < len → munmap k m a len = (k', m') →
    (∀ pg, mapped k' pg ↔ mapped k pg ∧ ¬ ((OS_PAGE | a) ∧ page_in a len pg)) ∧
    (∀ x, mapped k' (x / OS_PAGE) → read_byte m' x = read_byte m x);
  madvise_ok k m a len k' m' :
    madvise k m a len = (k', m') →
    (∀ pg, mapped k' pg ↔ mapped k pg) ∧
    (∀ x, ¬ page_in a len (x / OS_PAGE) → read_byte m' x = read_byte m x);
}.

(** ** [MmapAllocator] *)

Section MmapAllocator.
Context {K : Type} `{Kernel K}.

Definition MmapAllocator_alloc (k : K) (m : mem) (layout : Layout) : option Z * K * mem :=
  let size := size layout in
  let align := align layout in
  let alloc_size := size +[64] align in
  match mmap k m alloc_size with
  | (None, k, m) => (None, k, m)
  | (Some raw_addr, k, m) =>
      let aligned_addr := Z.land (raw_addr +[64] align -[64] 1) (not64 (align - 1)) in
      let leading := aligned_addr -[64] raw_addr in
      let '(k, m) := if 0 <? leading then munmap k m raw_addr leading else (k, m) in
      let trailing := (raw_addr +[64] alloc_size) -[64] (aligned_addr +[64] size) in
      let '(k, m) :=
        if 0 <? trailing then munmap k m (aligned_addr +[64] size) trailing else (k, m) in
      (if aligned_addr =? 0 then None else Some aligned_addr, k, m)
  end.

Definition MmapAllocator_dealloc (k : K) (m : mem) (ptr : Z) (layout : Layout) : K * mem :=
  munmap k m ptr (size layout).

(** The Linux branch. *)
Definition MmapAllocator_purge (k : K) (m : mem) (ptr len : Z) : K * mem := madvise k m ptr len.

#[global] Instance MmapAllocator : PageAllocator K := {
  pa_alloc := MmapAllocator_alloc;
  pa_dealloc := MmapAllocator_dealloc;
  pa_purge := MmapAllocator_purge;
}.
End MmapAllocator.

(** ** Address arithmetic *)

#[export] Instance Zdivide_decision (x y : Z) : Decision (x | y) := Znumtheory.Zdivide_dec x y.

Lemma lt_div_ceil x y n : 0 < y → n < div_ceil x y ↔ n * y < x.
Proof.
  intros Hy. pose proof (div_ceil_bounds x y Hy). split; intros.
  - assert (n + 1 ≤ div_ceil x y) by lia. nia.
  - nia.
Qed.

Lemma page_in_iff a len pg :
  page_in a len pg ↔ a / OS_PAGE ≤ pg ∧ pg * OS_PAGE < a + len.
Proof. unfold page_in. by rewrite lt_div_ceil. Qed.

Lemma page_in_addr a len x : a ≤ x < a + len → page_in a len (x / OS_PAGE).
Proof. rewrite page_in_iff. unfold OS_PAGE. intros. split; zdiv. Qed.

(** The address rounded up to the alignment. *)
Lemma align_up_spec raw al :
  pow2 al → (OS_PAGE | raw) → 0 < raw → raw + al < 2 ^ 64 →
  let a := Z.land (raw + al - 1) (not64 (al - 1)) in
  (al | a) ∧ (OS_PAGE | a) ∧ raw ≤ a < raw + al.
Proof.
  intros Hal Hraw Hpos Hlt a. pose proof (pow2_pos _ Hal) as Hal0. destruct Hal as (k & Hk & ->).
  assert (k ≤ 64) as Hk64.
  { destruct (Z.le_gt_cases k 64); [done|]. pose proof (Z.pow_lt_mono_r 2 64 k). lia. }
  assert (a = (raw + 2 ^ k - 1) - (raw + 2 ^ k - 1) mod 2 ^ k) as Ha
    by (apply land_align_down; unfold uint; lia).
  pose proof (Z.div_mod (raw + 2 ^ k - 1) (2 ^ k) ltac:(lia)) as Hdm.
  pose proof (Z.mod_pos_bound (raw + 2 ^ k - 1) (2 ^ k) ltac:(lia)) as Hmb.
  assert (2 ^ k | a) as Hdiv by (exists ((raw + 2 ^ k - 1) / 2 ^ k); lia).
  split; [done|]. split; [|lia].
  destruct (Z.le_gt_cases (2 ^ k) OS_PAGE) as [Hle|Hgt].
  - (* the mapping is already aligned *)
    assert (2 ^ k | raw) as [q Hq].
    { etrans; [|done]. apply pow2_divide; [by exists k| |done]. exists 12. done. }
    replace a with raw; [done|]. destruct Hdiv as [p Hp].
    assert (p = q); [|by subst]. nia.
  - etrans; [|done]. apply pow2_divide; [exists 12; done|by exists k|lia].
Qed.

(** ** The backend meets the contract *)

Section MmapAllocator_laws.
Context {K : Type} `{KernelLaws K}.
Implicit Types (k : K) (m : mem) (l : Layout).

(** Trimming the excess in front of the block. *)
Lemma trim_leading k m q p k' m' :
  q ≤ p →
  (if 0 <? p * OS_PAGE - q * OS_PAGE
   then munmap k m (q * OS_PAGE) (p * OS_PAGE - q * OS_PAGE) else (k, m)) = (k', m') →
  (∀ pg, mapped k' pg ↔ mapped k pg ∧ ¬ (q ≤ pg < p)) ∧
  (∀ x, mapped k' (x / OS_PAGE) → read_byte m' x = read_byte m x).
Proof.
  intros Hqp. unfold OS_PAGE in *. case_bool; intros Hlead.
  - apply munmap_ok in Hlead as [Hm Hk]; [|done]. split; [|done]. intros pg. rewrite Hm.
    rewrite page_in_iff. unfold OS_PAGE. rewrite Z.div_mul by done.
    assert (4096 | q * 4096) by (by exists q).
    split; intros [? Hn]; (split; [done|]); intros Hx; apply Hn; [split; [done|]|]; lia.
  - injection Hlead as <- <-. split; [|done]. intros pg.
    split; [intros; split; [done|lia]|by intros []].
Qed.

(** What is mapped once the excess behind the block is trimmed too: the block,
    and its last OS page or pages when its size is not a multiple of one,
    because the address to unmap is not aligned then. *)
Lemma trim_trailing k k1 k2 k3 m2 m3 q p sz al :
  0 < sz → q * OS_PAGE ≤ p * OS_PAGE < q * OS_PAGE + al →
  (∀ pg, page_in (q * OS_PAGE) (sz + al) pg → ¬ mapped k pg) →
  (∀ pg, mapped k1 pg ↔ mapped k pg ∨ page_in (q * OS_PAGE) (sz + al) pg) →
  (∀ pg, mapped k2 pg ↔ mapped k1 pg ∧ ¬ (q ≤ pg < p)) →
  let tr := q * OS_PAGE + (sz + al) - (p * OS_PAGE + sz) in
  munmap k2 m2 (p * OS_PAGE + sz) tr = (k3, m3) →
  (∀ pg, mapped k3 pg ↔
    mapped k pg ∨ page_in (p * OS_PAGE) (sz + if decide (OS_PAGE | sz) then 0 else tr) pg) ∧
  (∀ x, mapped k3 (x / OS_PAGE) →
    mapped k2 (x / OS_PAGE) ∧ read_byte m3 x = read_byte m2 x).
Proof.
  intros Hsz Hra Hfresh Hm1 Hm2 tr Htrail.
  apply munmap_ok in Htrail as [Hm3 Hkeep3]; [|unfold tr; lia].
  split; [|intros x Hx; split; [by apply Hm3|auto]].
  intros pg. rewrite Hm3, Hm2, Hm1, !page_in_iff, Z.div_mul by done.
  rewrite Z.div_mul by done. specialize (Hfresh pg). rewrite page_in_iff, Z.div_mul in Hfresh by done.
  case_decide as Hd.
  - destruct Hd as [s ->]. rewrite <- Z.mul_add_distr_r, Z.div_mul by done.
    assert (OS_PAGE | (p + s) * OS_PAGE) by (by exists (p + s)).
    unfold tr, OS_PAGE in *. split.
    + intros (([Hk|Hk] & Hn1) & Hn2); [by left|right].
      assert (¬ (p + s ≤ pg)) by (intros ?; apply Hn2; split; [done|lia]). lia.
    + intros [Hk|Hk]; [|split; [split; [right; lia|lia]|lia]].
      assert (¬ (q ≤ pg ∧ pg * 4096 < q * 4096 + (s * 4096 + al))) by tauto.
      split; [split; [by left|lia]|]. lia.
  - assert (¬ (OS_PAGE | p * OS_PAGE + sz)) as Hnd.
    { intros Hx. apply Hd. apply (Z.divide_add_cancel_r _ (p * OS_PAGE)); [by exists p|done]. }
    unfold tr, OS_PAGE in *. split.
    + intros (([Hk|Hk] & Hn1) & _); [by left|right; lia].
    + intros [Hk|Hk]; (split; [|tauto]).
      * assert (¬ (q ≤ pg ∧ pg * 4096 < q * 4096 + (sz + al))) by tauto. split; [by left|lia].
      * split; [right; lia|lia].
Qed.

Lemma MmapAllocator_alloc_some k m l a k' m' :
  layout_valid l → 0 < size l → MmapAllocator_alloc k m l = (Some a, k', m') →
  (OS_PAGE | a) ∧ block_ok (a, l) ∧
  (∀ pg, page_in a (size l) pg → ¬ mapped k pg) ∧
  (∃ extra, 0 ≤ extra ≤ align l ∧ ((OS_PAGE | size l) ↔ extra = 0) ∧
    (OS_PAGE ≤ align l → extra ≠ 0 → OS_PAGE ≤ extra) ∧
    ∀ pg, mapped k' pg ↔ mapped k pg ∨ page_in a (size l + extra) pg) ∧
  (∀ x, mapped k (x / OS_PAGE) → read_byte m' x = read_byte m x) ∧
  (∀ x, page_in a (size l) (x / OS_PAGE) → read_byte m' x = 0).
Proof.
  intros (Hpow & Hsz & Hmax) Hpos. pose proof (pow2_pos _ Hpow) as Hal.
  unfold isize_MAX in Hmax. unfold MmapAllocator_alloc. cbn zeta.
  rewrite (wadd_small 64 (size l)) by (unfold uint; lia).
  destruct (mmap k m (size l + align l)) as [[[raw|] k1] m1] eqn:Hmm; [|done].
  apply mmap_some in Hmm as (Hdiv & Hr0 & Hr64 & Hfresh & Hm1 & Hkeep1 & Hzero); [|lia].
  pose proof (align_up_spec raw (align l) Hpow Hdiv Hr0 ltac:(lia)) as (Ha & Hpa & Hra).
  rewrite (wadd_small 64 raw (align l)), (wsub_small 64 (raw + align l)) by (unfold uint; lia).
  set (A := Z.land _ _) in *. clearbody A.
  rewrite (wsub_small 64 A), (wadd_small 64 A), (wadd_small 64 raw), (wsub_small 64)
    by (unfold uint; lia).
  destruct Hdiv as [q ->], Hpa as [p ->].
  destruct (if 0 <? _ then munmap k1 m1 _ _ else _) as [k2 m2] eqn:Hlead.
  apply trim_leading in Hlead as [Hm2 Hkeep2]; [|unfold OS_PAGE in *; lia].
  case_bool; [|lia].
  destruct (munmap k2 m2 _ _) as [k3 m3] eqn:Htrail.
  apply (trim_trailing k k1) in Htrail as [Hm3 Hkeep3]; [|done..].
  case_bool; intros [= <- <- <-].
  split; [by exists p|]. split; [split; cbn; [done|lia]|].
  assert (∀ pg, page_in (p * OS_PAGE) (size l) pg → page_in (q * OS_PAGE) (size l + align l) pg)
    as Hsub by (intros pg; rewrite !page_in_iff, !Z.div_mul by done; unfold OS_PAGE in *; lia).
  split; [|split; [|split]].
  - intros pg Hp. by apply Hfresh, Hsub.
  - eexists. split; [|split; [|split; [|exact Hm3]]]; case_decide; [lia|lia|done| |done|].
    + split; [done|lia].
    + intros Hge _. destruct (pow2_divide OS_PAGE (align l)) as [w Hw]; [by exists 12|done|done|].
      rewrite Hw in *. unfold OS_PAGE in *. lia.
  - intros x Hx. destruct (Hkeep3 x) as [Hx2 ->]; [apply Hm3; by left|].
    rewrite Hkeep2 by done. by apply Hkeep1.
  - intros x Hx. destruct (Hkeep3 x) as [Hx2 ->].
    { apply Hm3. right. revert Hx. rewrite !page_in_iff. case_decide; lia. }
    rewrite Hkeep2 by done. by apply Hzero, Hsub.
Qed.

Lemma MmapAllocator_alloc_none k m l k' m' :
  layout_valid l → 0 < size l → MmapAllocator_alloc k m l = (None, k', m') →
  (∀ pg, mapped k' pg ↔ mapped k pg) ∧
  (∀ x, mapped k (x / OS_PAGE) → read_byte m' x = read_byte m x).
Proof.
  intros (Hpow & Hsz & Hmax) Hpos. pose proof (pow2_pos _ Hpow) as Hal.
  unfold isize_MAX in Hmax. unfold MmapAllocator_alloc. cbn zeta.
  rewrite (wadd_small 64 (size l)) by (unfold uint; lia).
  destruct (mmap k m (size l + align l)) as [[[raw|] k1] m1] eqn:Hmm.
  - apply mmap_some in Hmm as (Hdiv & Hr0 & Hr64 & _); [|lia].
    pose proof (align_up_spec raw (align l) Hpow Hdiv Hr0 ltac:(lia)) as (_ & _ & Hra).
    rewrite (wadd_small 64 raw (align l)), (wsub_small 64 (raw + align l)) by (unfold uint; lia).
    set (A := Z.land _ _) in *. destruct (if 0 <? A -[64] raw then _ else _) as [k2 m2].
    destruct (if 0 <? _ then _ else _) as [k3 m3]. case_bool; [lia|done].
  - intros [= <- <-]. by apply mmap_none in Hmm.
Qed.

(** The client's blocks are mapped, and no two of them touch the same OS page. *)
Definition mmap_owns (k : K) (L : list block) : Prop :=
  Forall (λ b, block_ok b ∧ 0 < size (snd b) ∧ (OS_PAGE | fst b)) L ∧
  (∀ b pg, b ∈ L → page_in (fst b) (size (snd b)) pg → mapped k pg) ∧
  pairwise (λ b b', ∀ pg, page_in (fst b) (size (snd b)) pg →
    ¬ page_in (fst b') (size (snd b')) pg) L.

Lemma mmap_owns_sub k k' L :
  (∀ pg, mapped k pg → mapped k' pg) → mmap_owns k L → mmap_owns k' L.
Proof. intros Hk (? & Hm & ?). split; [done|]. split; [|done]. eauto. Qed.

Lemma mmap_owns_keeps k L m m' :
  mmap_owns k L → (∀ x, mapped k (x / OS_PAGE) → read_byte m' x = read_byte m x) →
  keeps L m m'.
Proof.
  intros (_ & Hm & _) Hx b x Hb Hin. apply Hx. eapply Hm; [done|].
  apply page_in_addr. exact Hin.
Qed.

#[global] Instance mmap_page_allocator_laws : PageAllocatorLaws K.
Proof.
  refine {| pa_owns := mmap_owns |}.
  - intros k L L' Hp (Hf & Hm & Hd). split; [by rewrite <- Hp|]. split.
    + intros b pg. rewrite <- Hp. apply Hm.
    + eapply pairwise_perm; [|done..]. naive_solver.
  - intros k L (Hf & _ & Hd). split; [eapply Forall_impl; [done|naive_solver]|].
    eapply pairwise_impl; [|exact Hd]. intros b b' Hbb x Hb Hb'. unfold in_block in *.
    eapply Hbb; by apply page_in_addr.
  - intros k m l L a k' m' Ho Hl Hsz Ha. cbn in Ha.
    destruct (MmapAllocator_alloc_some _ _ _ _ _ _ Hl Hsz Ha)
      as (Hpa & Hok & Hfresh & (extra & Hex & _ & _ & Hm') & Hkeep & Hzero).
    pose proof Ho as (Hf & Hm & Hd). split; [|split].
    + split; [by constructor|]. split.
      * intros b pg [->|Hb]%elem_of_cons Hpg; apply Hm'; [right|left; eauto].
        revert Hpg. rewrite !page_in_iff. cbn. lia.
      * split; [|done]. apply Forall_forall. intros b Hb pg Hpg Hpg'.
        by eapply Hfresh, Hm.
    + by eapply mmap_owns_keeps.
    + intros x Hx. by apply Hzero, page_in_addr.
  - intros k m l L k' m' Ho Hl Hsz Ha. cbn in Ha.
    destruct (MmapAllocator_alloc_none _ _ _ _ _ Hl Hsz Ha) as [Hm' Hkeep].
    split; [|by eapply mmap_owns_keeps].
    eapply mmap_owns_sub; [|done]. intros pg. apply Hm'.
  - intros k m a l L k' m' (([_ [Hsz Hal]] & Hf)%Forall_cons & Hm & Hd & Hpw) Hde. cbn in *.
    unfold MmapAllocator_dealloc in Hde. apply munmap_ok in Hde as [Hm' Hkeep]; [|done].
    assert (mmap_owns k' L) as Ho'.
    { split; [done|]. split; [|done]. intros b pg Hb Hpg. apply Hm'.
      split; [eapply Hm; [by right|done]|]. intros [_ Hpg']. rewrite Forall_forall in Hd.
      by eapply Hd. }
    split; [done|by eapply mmap_owns_keeps].
  - intros k m a len L k' m' b Ho Hb Hlo Hhi Hlen Ha Hl Hp. cbn in Hp.
    apply madvise_ok in Hp as [Hm' Hkeep]. split; [eapply mmap_owns_sub; [|done]; intros; by apply Hm'|].
    intros b' x Hb' Hx Hout. apply Hkeep. rewrite page_in_iff. destruct Ha as [q ->], Hl as [n ->].
    rewrite Z.div_mul by done. unfold OS_PAGE in *. intros [? ?]. apply Hout. zdiv.
Defined.
End MmapAllocator_laws.

(** ** A concrete kernel *)

(** A first-fit kernel: pages at and above [dk_next] were never mapped or are
    free again; [dk_pages] says which of those below are mapped. *)
Record demo_kernel := mkDemo { dk_next : Z; dk_pages : Z → bool }.

Definition page_inb (a len pg : Z) : bool := (a / OS_PAGE <=? pg) && (pg * OS_PAGE <? a + len).

Definition zero_pages (m : mem) (a len : Z) : mem :=
  filter (λ '(x, _), page_inb a len (x / OS_PAGE) = false) m.

#[export] Instance DemoKernel : Kernel demo_kernel := {
  mmap k m len :=
    let a := dk_next k * OS_PAGE in
    if (0 <? a) && (a + len <? 2 ^ 47) then
      (Some a, mkDemo (div_ceil (a + len) OS_PAGE)
         (λ pg, page_inb a len pg || ((pg <? dk_next k) && dk_pages k pg)), zero_pages m a len)
    else (None, k, m);
  munmap k m a len :=
    if a mod OS_PAGE =? 0 then
      (mkDemo (if div_ceil (a + len) OS_PAGE =? dk_next k then a / OS_PAGE else dk_next k)
         (λ pg, dk_pages k pg && negb (page_inb a len pg)), m)
    else (k, m);
  madvise k m a len := (k, zero_pages m a len);
}.

Lemma page_inb_iff a len pg : page_inb a len pg = true ↔ page_in a len pg.
Proof. unfold page_inb. by rewrite page_in_iff, andb_true_iff, Z.leb_le, Z.ltb_lt. Qed.

Lemma read_zero_pages m a len x :
  read_byte (zero_pages m a len) x =
    if page_inb a len (x / OS_PAGE) then 0 else read_byte m x.
Proof.
  unfold read_byte, zero_pages. rewrite map_lookup_filter.
  destruct (m !! x) as [b|]; cbn; [|by case_match].
  destruct (page_inb a len (x / OS_PAGE)) eqn:E; [rewrite option_guard_False|rewrite option_guard_True]; by rewrite ?E.
Qed.

#[export] Instance DemoKernel_laws : KernelLaws demo_kernel.
Proof.
  refine {| mapped k pg := pg < dk_next k ∧ dk_pages k pg = true |}.
  - intros k m len r k' m' Hlen. cbn. destruct (Z.ltb_spec 0 (dk_next k * OS_PAGE)) as [H0|]; [|done].
    destruct (Z.ltb_spec (dk_next k * OS_PAGE + len) (2 ^ 47)) as [H47|]; [|done]. cbn [andb].
    intros [= <- <- <-]. cbn [dk_next dk_pages].
    assert (∀ pg, page_in (dk_next k * OS_PAGE) len pg → dk_next k ≤ pg) as Hge
      by (intros pg; rewrite page_in_iff, Z.div_mul by done; lia).
    split; [by exists (dk_next k)|]. split; [done|]. split; [lia|]. split; [|split; [|split]].
    + intros pg ?%Hge. lia.
    + intros pg. rewrite orb_true_iff, andb_true_iff, page_inb_iff, Z.ltb_lt, lt_div_ceil by done.
      rewrite page_in_iff, Z.div_mul by done. unfold OS_PAGE in *. split.
      * intros [? [?|?]]; tauto.
      * intros [[? ?]|[? ?]]; (split; [lia|tauto]).
    + intros x [Hx _]. rewrite read_zero_pages. destruct (page_inb _ _ _) eqn:E; [|done].
      apply page_inb_iff, Hge in E. lia.
    + intros x Hx. rewrite read_zero_pages. by apply page_inb_iff in Hx as ->.
  - intros k m len k' m'. cbn. by case_match; intros [= <- <-].
  - intros k m a len k' m' Hlen. cbn. destruct (Z.eqb_spec (a mod OS_PAGE) 0) as [Hm|Hm].
    + intros [= <- <-]. split; [|done]. intros pg. cbn.
      assert (OS_PAGE | a) as Hd by by apply Z.mod_divide.
      rewrite andb_true_iff, negb_true_iff, <- not_true_iff_false, page_inb_iff.
      destruct (Z.eqb_spec (div_ceil (a + len) OS_PAGE) (dk_next k)) as [<-|?]; [|tauto].
      pose proof (lt_div_ceil (a + len) OS_PAGE pg ltac:(done)) as Hlt.
      rewrite page_in_iff, Hlt. unfold OS_PAGE in *. split.
      * intros (? & ? & Hn). split; [split; [|done]|tauto]. zdiv.
      * intros ((? & ?) & Hn). split; [|split; [done|tauto]].
        destruct (Z.lt_ge_cases pg (a / 4096)); [done|]. exfalso. apply Hn. by split.
    + intros [= <- <-]. split; [|done]. intros pg.
      assert (¬ (OS_PAGE | a)) by (by rewrite <- Z.mod_divide). tauto.
  - intros k m a len k' m'. cbn. intros [= <- <-]. split; [done|].
    intros x Hx. rewrite read_zero_pages. destruct (page_inb _ _ _) eqn:E; [|done].
    by apply page_inb_iff in E.
Defined.

(** ** Properties *)

Section properties.
Context {K : Type} `{KernelLaws K}.

(** C27. [MmapAllocator::alloc], whose arithmetic on addresses never wraps,
    returns a block that is aligned for the layout, inside the address space,
    zeroed and disjoint from every block the client holds, or [None]; the
    contents of the blocks held are kept either way. *)
Theorem mmap_alloc_sound (k : K) (m : mem) (l : Layout) (L : list block) (r : option Z)
    (k' : K) (m' : mem) :
  mmap_owns k L → layout_valid l → 0 < size l → MmapAllocator_alloc k m l = (r, k', m') →
  keeps L m m' ∧
  match r with
  | Some a =>
      (align l | a) ∧ 0 < a ∧ a + size l < 2 ^ 64 ∧
      (∀ x, a ≤ x < a + size l → read_byte m' x = 0 ∧ ∀ b, b ∈ L → ¬ in_block b x) ∧
      mmap_owns k' ((a, l) :: L)
  | None => mmap_owns k' L
  end.
Proof.
  intros Ho Hl Hsz Ha. destruct r as [a|].
  - pose proof (pa_alloc_some (P:=K) k m l L a k' m') as Hs.
    destruct (Hs Ho Hl Hsz Ha) as (Ho' & Hk & Hz). split; [done|].
    pose proof (pa_owns_ok (P:=K) k' ((a, l) :: L)) as Hok. destruct (Hok Ho') as [[[Hal [? ?]] _]%Forall_cons [Hd _]]. cbn in *.
    do 3 (split; [done|]). split; [|done]. intros x Hx. split; [by apply Hz|].
    rewrite Forall_forall in Hd. intros b Hb Hin. by eapply (Hd b Hb x).
  - pose proof (pa_alloc_none (P:=K) k m l L k' m') as Hn. by destruct (Hn Ho Hl Hsz Ha).
Qed.

(** C28. Allocating maps exactly the pages of the block and deallocating unmaps
    exactly those, when the size is a multiple of the OS page, as it is for the
    pool's segments: trimming leaves nothing behind. *)
Theorem mmap_exact (k k1 k2 : K) (m m1 m2 : mem) (l : Layout) (a : Z) :
  layout_valid l → 0 < size l → (OS_PAGE | size l) →
  MmapAllocator_alloc k m l = (Some a, k1, m1) →
  MmapAllocator_dealloc k1 m1 a l = (k2, m2) →
  (∀ pg, mapped k1 pg ↔ mapped k pg ∨ page_in a (size l) pg) ∧
  (∀ pg, mapped k2 pg ↔ mapped k pg).
Proof.
  intros Hl Hsz Hpage Ha Hd.
  destruct (MmapAllocator_alloc_some _ _ _ _ _ _ Hl Hsz Ha)
    as (Hpa & _ & Hfresh & (extra & _ & Hex & _ & Hm1) & _).
  apply Hex in Hpage as ->. rewrite Z.add_0_r in Hm1. split; [done|].
  unfold MmapAllocator_dealloc in Hd. apply munmap_ok in Hd as [Hm2 _]; [|done].
  intros pg. rewrite Hm2, Hm1. specialize (Hfresh pg). tauto.
Qed.

(** A large allocation whose size is not a multiple of the OS page, with an
    alignment of at least one, leaks: the trailing [munmap] gets an unaligned
    address, is refused, and an OS page stays mapped after [dealloc]. *)
Theorem mmap_leaks_unaligned_tail (k k1 k2 : K) (m m1 m2 : mem) (l : Layout) (a : Z) :
  layout_valid l → 0 < size l → ¬ (OS_PAGE | size l) → OS_PAGE ≤ align l →
  MmapAllocator_alloc k m l = (Some a, k1, m1) →
  MmapAllocator_dealloc k1 m1 a l = (k2, m2) →
  mapped k2 (div_ceil (a + size l) OS_PAGE).
Proof.
  intros Hl Hsz Hpage Hal Ha Hd.
  destruct (MmapAllocator_alloc_some _ _ _ _ _ _ Hl Hsz Ha)
    as (Hpa & _ & _ & (extra & _ & Hex & Hbig & Hm1) & _).
  assert (OS_PAGE ≤ extra) by (apply Hbig; [done|tauto]).
  unfold MmapAllocator_dealloc in Hd. apply munmap_ok in Hd as [Hm2 _]; [|done].
  pose proof (div_ceil_bounds (a + size l) OS_PAGE ltac:(done)) as Hb.
  apply Hm2. split.
  - apply Hm1. right. rewrite page_in_iff. unfold OS_PAGE in *. split; [|lia]. zdiv.
  - intros [_ [_ Hlt]]. lia.
Qed.
End properties.

(** ** Witnesses *)

Definition demo0 : demo_kernel := mkDemo 100 (λ _, false).
Definition segment_layout : Layout := mkLayout (2 * 1024 * 1024) 65536.
Definition odd_layout : Layout := mkLayout 40000 4096.

Lemma segment_layout_valid : layout_valid segment_layout.
Proof. split; [by exists 16|by vm_compute]. Defined.
Lemma odd_layout_valid : layout_valid odd_layout.
Proof. split; [by exists 12|by vm_compute]. Defined.
Lemma demo0_owns : mmap_owns demo0 [].
Proof. split; [constructor|]. split; [intros b pg []%elem_of_nil|exact I]. Defined.

Lemma mmap_alloc_sound_witness :
  ∃ k' m', MmapAllocator_alloc demo0 ∅ segment_layout = (Some 458752, k', m') ∧
    (65536 | 458752) ∧ mmap_owns k' [(458752, segment_layout)].
Proof.
  destruct (MmapAllocator_alloc demo0 ∅ segment_layout) as [[r k'] m'] eqn:E.
  assert (r = Some 458752) as -> by (apply (f_equal (λ x, fst (fst x))) in E; cbn [fst] in E; rewrite <- E; vm_compute; reflexivity).
  exists k', m'. split; [reflexivity|].
  destruct (mmap_alloc_sound demo0 ∅ segment_layout [] _ k' m' demo0_owns
    segment_layout_valid ltac:(reflexivity) E) as (_ & Hal & _ & _ & _ & Ho).
  split; [exact Hal|exact Ho].
Defined.

Lemma mmap_exact_witness :
  ∃ k1 m1 k2 m2, MmapAllocator_alloc demo0 ∅ segment_layout = (Some 458752, k1, m1) ∧
    MmapAllocator_dealloc k1 m1 458752 segment_layout = (k2, m2) ∧
    ∀ pg, mapped k2 pg ↔ mapped demo0 pg.
Proof.
  destruct (MmapAllocator_alloc demo0 ∅ segment_layout) as [[r k1] m1] eqn:E1.
  assert (r = Some 458752) as -> by (apply (f_equal (λ x, fst (fst x))) in E1; cbn [fst] in E1; rewrite <- E1; vm_compute; reflexivity).
  destruct (MmapAllocator_dealloc k1 m1 458752 segment_layout) as [k2 m2] eqn:E2.
  exists k1, m1, k2, m2. split; [reflexivity|]. split; [exact E2|].
  eapply (mmap_exact demo0 k1 k2 ∅ m1 m2 segment_layout 458752 segment_layout_valid);
    [reflexivity|exists 512; reflexivity|exact E1|exact E2].
Defined.

Lemma mmap_leaks_unaligned_tail_witness :
  ∃ k1 m1 k2 m2, MmapAllocator_alloc demo0 ∅ odd_layout = (Some 409600, k1, m1) ∧
    MmapAllocator_dealloc k1 m1 409600 odd_layout = (k2, m2) ∧ mapped k2 110 ∧ ¬ mapped demo0 110.
Proof.
  destruct (MmapAllocator_alloc demo0 ∅ odd_layout) as [[r k1] m1] eqn:E1.
  assert (r = Some 409600) as -> by (apply (f_equal (λ x, fst (fst x))) in E1; cbn [fst] in E1; rewrite <- E1; vm_compute; reflexivity).
  destruct (MmapAllocator_dealloc k1 m1 409600 odd_layout) as [k2 m2] eqn:E2.
  exists k1, m1, k2, m2. split; [reflexivity|]. split; [exact E2|]. split.
  - eapply (mmap_leaks_unaligned_tail demo0 k1 k2 ∅ m1 m2 odd_layout 409600 odd_layout_valid);
      [reflexivity|intros Hd; apply Z.mod_divide in Hd; discriminate || (vm_compute in Hd; discriminate)
      |discriminate|exact E1|exact E2].
  - intros [_ Hm]. discriminate.
Defined.
