(* ===== verification/SysAlloc.v ===== *)
(** * The page allocator of the tests ([src/src/sys.rs], [SystemAllocator])

    [SystemAllocator] forwards to the functions of [std::alloc] and inherits
    the trait's default [purge].  The global allocator behind [std::alloc] is
    the parameter [StdAlloc], with its documented behaviour as [StdAllocLaws];
    [system_page_allocator_laws] shows that the backend meets the contract the
    pool is proved against.  [BumpAlloc] is a concrete global allocator. *)

From stdpp Require Import base numbers list gmap.
From Stdlib Require Import ZArith Lia.
From S2P Require Import Prelude LinkMem Sys.

Local Open Scope Z_scope.
Local Open Scope clm_scope.

(** ** [std::alloc] *)

(** [alloc_zeroed] answers null when it fails. *)
Class StdAlloc (G : Type) := {
  alloc_zeroed : G → mem → Layout → Z * G * mem;
  std_dealloc : G → mem → Z → Layout → G * mem;
}.

(** What the documentation of [GlobalAlloc] promises for layouts of nonzero
    size: a block is aligned, zeroed, inside the address space and apart from
    the blocks not yet freed; no call touches a block in use. *)
Class StdAllocLaws (G : Type) `{StdAlloc G} := {
  std_owns : G → list block → Prop;
  std_owns_perm g L L' : L ≡ₚ L' → std_owns g L → std_owns g L';
  std_alloc_ok g m l L p g' m' :
    std_owns g L → layout_valid l → 0 < size l → alloc_zeroed g m l = (p, g', m') →
    keeps L m m' ∧
    if p =? 0 then std_owns g' L else
    block_ok (p, l) ∧ (∀ x, in_block (p, l) x → read_byte m' x = 0 ∧ ∀ b, b ∈ L → ¬ in_block b x) ∧
    std_owns g' ((p, l) :: L);
  std_dealloc_ok g m p l L g' m' :
    std_owns g ((p, l) :: L) → std_dealloc g m p l = (g', m') → std_owns g' L ∧ keeps L m m';
}.

(** ** The backend *)

(** [PageAllocator::purge] where it is not overridden. *)
Definition PageAllocator_purge {P} (p : P) (m : mem) (_ptr _len : Z) : P * mem := (p, m).

(** The unit struct, over the global allocator of the process. *)
Record SystemAllocator (G : Type) := mkSystem { sa_global : G }.
Arguments mkSystem {G} _.
Arguments sa_global {G} _.

Section SystemAllocator.
Context {G : Type} `{StdAlloc G}.

Definition SystemAllocator_alloc (s : SystemAllocator G) (m : mem) (layout : Layout)
    : option Z * SystemAllocator G * mem :=
  let '(p, g, m) := alloc_zeroed (sa_global s) m layout in
  (if p =? 0 then None else Some p, mkSystem g, m).

Definition SystemAllocator_dealloc (s : SystemAllocator G) (m : mem) (ptr : Z) (layout : Layout)
    : SystemAllocator G * mem :=
  let '(g, m) := std_dealloc (sa_global s) m ptr layout in (mkSystem g, m).

#[global] Instance SystemAllocator_pages : PageAllocator (SystemAllocator G) := {
  pa_alloc := SystemAllocator_alloc;
  pa_dealloc := SystemAllocator_dealloc;
  pa_purge := PageAllocator_purge;
}.
End SystemAllocator.

(** ** The contract *)

Section laws.
Context {G : Type} `{StdAllocLaws G}.

(** The blocks of the client are those of the global allocator, and they are
    apart from each other. *)
Definition system_owns (s : SystemAllocator G) (L : list block) : Prop :=
  std_owns (sa_global s) L ∧ Forall block_ok L ∧ blocks_disjoint L.

#[global] Instance system_page_allocator_laws : PageAllocatorLaws (SystemAllocator G).
Proof.
  refine {| pa_owns := system_owns |}.
  - intros s L L' Hp (Ho & Hok & Hd). split; [by eapply std_owns_perm|]. split; [by rewrite <- Hp|].
    eapply pairwise_perm; [|done..]. naive_solver.
  - by intros s L (_ & Hok & Hd).
  - intros s m l L a s' m' (Ho & Hok & Hd) Hl Hsz E. cbn in E. unfold SystemAllocator_alloc in E.
    destruct (alloc_zeroed _ m l) as [[p g'] m1] eqn:Ha.
    destruct (std_alloc_ok _ _ _ _ _ _ _ Ho Hl Hsz Ha) as [Hk Hp]. destruct (p =? 0); [done|].
    injection E as <- <- <-. destruct Hp as (Hb & Hz & Ho'). split; [|split; [done|by intros x [Hx _]%Hz]].
    split; [exact Ho'|]. split; [by constructor|]. split; [|done].
    apply Forall_forall. intros b Hb' x Hx Hx'. by apply (Hz x Hx) in Hx'.
  - intros s m l L s' m' (Ho & Hok & Hd) Hl Hsz E. cbn in E. unfold SystemAllocator_alloc in E.
    destruct (alloc_zeroed _ m l) as [[p g'] m1] eqn:Ha.
    destruct (std_alloc_ok _ _ _ _ _ _ _ Ho Hl Hsz Ha) as [Hk Hp]. destruct (p =? 0); [|done].
    by injection E as <- <-.
  - intros s m a l L s' m' (Ho & [_ Hok]%Forall_cons & [_ Hd]) E. cbn in E. unfold SystemAllocator_dealloc in E.
    destruct (std_dealloc _ m a l) as [g' m1] eqn:Ha. injection E as <- <-.
    by destruct (std_dealloc_ok _ _ _ _ _ _ _ Ho Ha) as [Ho' Hk].
  - intros s m a len L s' m' b Ho _ _ _ _ _ _ E. cbn in E. injection E as <- <-. by split.
Defined.
End laws.

(** ** A concrete global allocator *)

(** Addresses are handed out upwards and not used twice. *)
Record bump := mkBump { bump_next : Z }.

Definition zero_range (m : mem) (a len : Z) : mem :=
  filter (λ '(x, _), (a <=? x) && (x <? a + len) = false) m.

Lemma read_zero_range m a len x :
  read_byte (zero_range m a len) x = if (a <=? x) && (x <? a + len) then 0 else read_byte m x.
Proof.
  unfold read_byte, zero_range. rewrite map_lookup_filter.
  destruct (m !! x) as [b|]; cbn; [|by case_match].
  destruct ((a <=? x) && (x <? a + len)) eqn:E; [rewrite option_guard_False|rewrite option_guard_True]; by rewrite ?E.
Qed.

#[export] Instance BumpAlloc : StdAlloc bump := {
  alloc_zeroed g m l :=
    let p := div_ceil (bump_next g) (align l) * align l in
    if (0 <? bump_next g) && (p + size l <? 2 ^ 47)
    then (p, mkBump (p + size l), zero_range m p (size l)) else (0, g, m);
  std_dealloc g m _ _ := (g, m);
}.

Definition bump_owns (g : bump) (L : list block) : Prop :=
  Forall (λ b, fst b + size (snd b) ≤ bump_next g) L.

#[export] Instance BumpAlloc_laws : StdAllocLaws bump.
Proof.
  refine {| std_owns := bump_owns |}.
  - intros g L L' Hp. unfold bump_owns. by rewrite Hp.
  - intros g m l L p g' m' Ho (Hpow & Hsz & Hmax) Hpos. cbn. pose proof (pow2_pos _ Hpow) as Hal.
    pose proof (div_ceil_bounds (bump_next g) (align l) Hal) as Hc.
    destruct (Z.ltb_spec 0 (bump_next g)) as [H0|]; cbn [andb]; [|by intros [= <- <- <-]].
    destruct (Z.ltb_spec (div_ceil (bump_next g) (align l) * align l + size l) (2 ^ 47)) as [H47|];
      [|by intros [= <- <- <-]].
    set (a := div_ceil _ _ * align l) in *. assert (bump_next g ≤ a) as Ha by (unfold a; lia).
    intros [= <- <- <-]. unfold bump_owns in *. rewrite Forall_forall in Ho. split.
    + intros b x Hb Hx. rewrite read_zero_range. specialize (Ho b Hb). unfold in_block in Hx.
      destruct (Z.leb_spec a x); [lia|done].
    + destruct (Z.eqb_spec a 0) as [?|_]; [lia|]. split; [|split].
      * split; cbn; [by eexists|]. lia.
      * intros x Hx. unfold in_block in Hx. cbn in Hx. split.
        -- rewrite read_zero_range. destruct (Z.leb_spec a x); [|lia]. by destruct (Z.ltb_spec x (a + size l)); [|lia].
        -- intros b Hb Hx'. specialize (Ho b Hb). unfold in_block in Hx'. lia.
      * constructor; [cbn; lia|]. apply Forall_forall. intros b Hb. specialize (Ho b Hb). cbn. lia.
  - intros g m p l L g' m' [_ Ho]%Forall_cons. cbn. by intros [= <- <-].
Defined.

(** Two blocks of the backend over it, the first of them given back. *)
Example bump_run :
  let '(r1, s, m) := SystemAllocator_alloc (mkSystem (mkBump 100)) ∅ (mkLayout 65536 65536) in
  let '(s, m) := SystemAllocator_dealloc s m 65536 (mkLayout 65536 65536) in
  let '(r2, s, m) := SystemAllocator_alloc s m (mkLayout 24 8) in
  (r1, r2) = (Some 65536, Some 131072).
Proof. by vm_compute. Qed.
