(* ===== verification/Metrics.v ===== *)
(** * Allocation metrics ([src/src/metrics.rs])

    The per-heap counters, the pool-level counters with the registry of live
    heaps, and the snapshot.  [HeapMetrics] objects are shared between their
    heap and the registry through pointers, so they live in a store indexed by
    address.  Counters are 64-bit; additions wrap as in the release profile.

    [registry_inv] is the invariant of the registry.  The theorems show that
    registration and swap-removal keep it, and that a snapshot counts every
    heap that ever lived exactly once. *)

From stdpp Require Import base numbers list gmap.
From Stdlib Require Import ZArith Lia.
From S2P Require Import Prelude SizeClass.

Local Open Scope Z_scope.
Local Open Scope clm_scope.
Arguments class_size : simpl never.

(** ** Per-heap counters *)

Definition MAX_HEAPS : Z := 1024.
Definition u32_MAX : Z := 2 ^ 32 - 1.

(** [inc]: load, add, store by the only writer. *)
Definition inc (a v : Z) : Z := a +[64] v.

Record HeapMetrics := mkHeapMetrics {
  registry_idx : Z;
  alloc_bytes : Z;
  free_bytes : Z;
  class_alloc_count : list Z;
  class_dealloc_count : list Z;
  class_alloc_bytes : list Z;
  class_free_bytes : list Z;
  remote_free_count : Z;
  large_alloc_count : Z;
  large_alloc_bytes : Z;
  large_dealloc_bytes : Z;
}.

Definition ZERO_ARRAY : list Z := replicate (Z.to_nat NUM_CLASSES) 0.

Definition HeapMetrics_ZERO : HeapMetrics :=
  mkHeapMetrics u32_MAX 0 0 ZERO_ARRAY ZERO_ARRAY ZERO_ARRAY ZERO_ARRAY 0 0 0 0.

Definition HeapMetrics_on_alloc (h : HeapMetrics) (idx class_size : Z) : res HeapMetrics :=
  counts ← arr_update (class_alloc_count h) idx (λ c, inc c 1);
  bytes ← arr_update (class_alloc_bytes h) idx (λ c, inc c class_size);
  Ok (mkHeapMetrics (registry_idx h) (inc (alloc_bytes h) class_size) (free_bytes h)
    counts (class_dealloc_count h) bytes (class_free_bytes h)
    (remote_free_count h) (large_alloc_count h) (large_alloc_bytes h) (large_dealloc_bytes h)).

Definition HeapMetrics_on_dealloc (h : HeapMetrics) (idx class_size : Z) : res HeapMetrics :=
  counts ← arr_update (class_dealloc_count h) idx (λ c, inc c 1);
  bytes ← arr_update (class_free_bytes h) idx (λ c, inc c class_size);
  Ok (mkHeapMetrics (registry_idx h) (alloc_bytes h) (inc (free_bytes h) class_size)
    (class_alloc_count h) counts (class_alloc_bytes h) bytes
    (remote_free_count h) (large_alloc_count h) (large_alloc_bytes h) (large_dealloc_bytes h)).

Definition HeapMetrics_on_large_alloc (h : HeapMetrics) (size : Z) : HeapMetrics :=
  mkHeapMetrics (registry_idx h) (inc (alloc_bytes h) size) (free_bytes h)
    (class_alloc_count h) (class_dealloc_count h) (class_alloc_bytes h) (class_free_bytes h)
    (remote_free_count h) (inc (large_alloc_count h) 1) (inc (large_alloc_bytes h) size)
    (large_dealloc_bytes h).

Definition HeapMetrics_on_large_dealloc (h : HeapMetrics) (size : Z) : HeapMetrics :=
  mkHeapMetrics (registry_idx h) (alloc_bytes h) (inc (free_bytes h) size)
    (class_alloc_count h) (class_dealloc_count h) (class_alloc_bytes h) (class_free_bytes h)
    (remote_free_count h) (large_alloc_count h) (large_alloc_bytes h)
    (inc (large_dealloc_bytes h) size).

Definition HeapMetrics_on_remote_free (h : HeapMetrics) (count : Z) : HeapMetrics :=
  mkHeapMetrics (registry_idx h) (alloc_bytes h) (free_bytes h)
    (class_alloc_count h) (class_dealloc_count h) (class_alloc_bytes h) (class_free_bytes h)
    (inc (remote_free_count h) count) (large_alloc_count h) (large_alloc_bytes h)
    (large_dealloc_bytes h).

(** The loops over the classes add the arrays pointwise. *)
Definition HeapMetrics_accumulate (h other : HeapMetrics) : HeapMetrics :=
  mkHeapMetrics (registry_idx h) (alloc_bytes h +[64] alloc_bytes other)
    (free_bytes h +[64] free_bytes other)
    (zip_with (wadd 64) (class_alloc_count h) (class_alloc_count other))
    (zip_with (wadd 64) (class_dealloc_count h) (class_dealloc_count other))
    (zip_with (wadd 64) (class_alloc_bytes h) (class_alloc_bytes other))
    (zip_with (wadd 64) (class_free_bytes h) (class_free_bytes other))
    (remote_free_count h +[64] remote_free_count other)
    (large_alloc_count h +[64] large_alloc_count other)
    (large_alloc_bytes h +[64] large_alloc_bytes other)
    (large_dealloc_bytes h +[64] large_dealloc_bytes other).

Definition set_registry_idx (h : HeapMetrics) (idx : Z) : HeapMetrics :=
  mkHeapMetrics idx (alloc_bytes h) (free_bytes h)
    (class_alloc_count h) (class_dealloc_count h) (class_alloc_bytes h) (class_free_bytes h)
    (remote_free_count h) (large_alloc_count h) (large_alloc_bytes h) (large_dealloc_bytes h).

(** ** Pool counters and the heap registry *)

Record PoolMetrics := mkPoolMetrics {
  abandon_count : list Z;
  adopt_count : list Z;
  segment_mmap_count : Z;
  segment_munmap_count : Z;
  slab_purge_count : Z;
  pool_lock_count : Z;
  heap_ptrs : list Z;
  heap_count : Z;
  dead : HeapMetrics;
}.

Definition PoolMetrics_new : PoolMetrics :=
  mkPoolMetrics ZERO_ARRAY ZERO_ARRAY 0 0 0 0 (replicate (Z.to_nat MAX_HEAPS) 0) 0 HeapMetrics_ZERO.

(** The live [HeapMetrics] objects, by address. *)
Abbreviation hm_store := (gmap Z HeapMetrics).

Definition with_registry (p : PoolMetrics) (ptrs : list Z) (count : Z) (d : HeapMetrics)
    : PoolMetrics :=
  mkPoolMetrics (abandon_count p) (adopt_count p) (segment_mmap_count p) (segment_munmap_count p)
    (slab_purge_count p) (pool_lock_count p) ptrs count d.

(** [unsafe { &*ptr }.registry_idx.store(idx as u32, R)] *)
Definition store_registry_idx (st : hm_store) (ptr idx : Z) : res hm_store :=
  h ← res_of_option InvalidPointer (st !! ptr);
  Ok (<[ptr := set_registry_idx h (wrap 32 idx)]> st).

Definition PoolMetrics_register_heap (st : hm_store) (p : PoolMetrics) (ptr : Z)
    : res (hm_store * PoolMetrics) :=
  if negb (heap_count p <? MAX_HEAPS) then Panic PanicAssert else
  let idx := heap_count p in
  ptrs ← arr_set (heap_ptrs p) idx ptr;
  st ← store_registry_idx st ptr idx;
  Ok (st, with_registry p ptrs (heap_count p +[64] 1) (dead p)).

Definition PoolMetrics_deregister_heap (st : hm_store) (p : PoolMetrics) (ptr : Z)
    : res (hm_store * PoolMetrics) :=
  metrics ← res_of_option InvalidPointer (st !! ptr);
  let idx := registry_idx metrics in
  let d := HeapMetrics_accumulate (dead p) metrics in
  let count := heap_count p -[64] 1 in
  '(st, ptrs) ←
    (if negb (idx =? count) then
       moved ← arr_get (heap_ptrs p) count;
       ptrs ← arr_set (heap_ptrs p) idx moved;
       st ← store_registry_idx st moved idx;
       Ok (st, ptrs)
     else Ok (st, heap_ptrs p));
  ptrs ← arr_set ptrs count 0;
  Ok (st, with_registry p ptrs count d).

(** ** Snapshots *)

Record MetricsSnapshot := mkSnapshot {
  ms_allocated : Z;
  ms_active : Z;
  ms_mapped : Z;
  ms_heaps : HeapMetrics;      (* the counters it shares with [HeapMetrics] *)
  class_live_count : list Z;
  class_live_bytes : list Z;
  ms_abandon_count : list Z;
  ms_adopt_count : list Z;
  ms_segment_mmap_count : Z;
  ms_segment_munmap_count : Z;
  ms_slab_purge_count : Z;
  ms_pool_lock_count : Z;
}.

Definition MetricsSnapshot_new : MetricsSnapshot :=
  mkSnapshot 0 0 0 (set_registry_idx HeapMetrics_ZERO 0) ZERO_ARRAY ZERO_ARRAY ZERO_ARRAY
    ZERO_ARRAY 0 0 0 0.

Definition MetricsSnapshot_accumulate_heap (s : MetricsSnapshot) (h : HeapMetrics)
    : MetricsSnapshot :=
  mkSnapshot (ms_allocated s) (ms_active s) (ms_mapped s)
    (HeapMetrics_accumulate (ms_heaps s) h) (class_live_count s) (class_live_bytes s)
    (ms_abandon_count s) (ms_adopt_count s) (ms_segment_mmap_count s)
    (ms_segment_munmap_count s) (ms_slab_purge_count s) (ms_pool_lock_count s).

(** The loop over [heap_ptrs[0..heap_count]]. *)
Fixpoint accumulate_live (st : hm_store) (ptrs : list Z) (s : MetricsSnapshot)
    : res MetricsSnapshot :=
  match ptrs with
  | [] => Ok s
  | ptr :: ptrs =>
      h ← res_of_option InvalidPointer (st !! ptr);
      accumulate_live st ptrs (MetricsSnapshot_accumulate_heap s h)
  end.

Definition PoolMetrics_aggregate_heap_metrics (st : hm_store) (p : PoolMetrics)
    (s : MetricsSnapshot) : res MetricsSnapshot :=
  let s := MetricsSnapshot_accumulate_heap s (dead p) in
  s ← accumulate_live st (take (Z.to_nat (heap_count p)) (heap_ptrs p)) s;
  Ok (mkSnapshot (ms_allocated s) (ms_active s) (ms_mapped s) (ms_heaps s)
    (class_live_count s) (class_live_bytes s) (abandon_count p) (adopt_count p)
    (segment_mmap_count p) (segment_munmap_count p) (slab_purge_count p) (pool_lock_count p)).

(** [i64] subtraction of the release profile, and [u64::saturating_sub]. *)
Definition live_diff (a b : Z) : Z := cast_signed 64 (cast_signed 64 a -[64] cast_signed 64 b).
Definition saturating_sub (a b : Z) : Z := Z.max 0 (a - b).

Definition MetricsSnapshot_finalize (s : MetricsSnapshot) : MetricsSnapshot :=
  let h := ms_heaps s in
  mkSnapshot (saturating_sub (alloc_bytes h) (free_bytes h)) (ms_active s) (ms_mapped s) h
    (zip_with live_diff (class_alloc_count h) (class_dealloc_count h))
    (zip_with live_diff (class_alloc_bytes h) (class_free_bytes h))
    (ms_abandon_count s) (ms_adopt_count s) (ms_segment_mmap_count s)
    (ms_segment_munmap_count s) (ms_slab_purge_count s) (ms_pool_lock_count s).

(** ** The registry *)

(** The addresses of the registered heaps, in registry order. *)
Definition registered (p : PoolMetrics) : list Z :=
  take (Z.to_nat (heap_count p)) (heap_ptrs p).

(** The registry of live heaps, and the counters of the dead ones. *)
Definition registry_of (pm : PoolMetrics) : list Z * Z * HeapMetrics :=
  (heap_ptrs pm, heap_count pm, dead pm).

Record registry_inv (st : hm_store) (p : PoolMetrics) : Prop := {
  ri_length : length (heap_ptrs p) = Z.to_nat MAX_HEAPS;
  ri_count : 0 ≤ heap_count p ≤ MAX_HEAPS;
  ri_nodup : NoDup (registered p);
  ri_idx i ptr : registered p !! i = Some ptr →
    ∃ h, st !! ptr = Some h ∧ registry_idx h = Z.of_nat i;
}.

(** Counters without the registry slot: what a snapshot adds up. *)
Definition counters (h : HeapMetrics) : HeapMetrics := set_registry_idx h 0.

(** The counters of the heaps at [ptrs]. *)
Definition live_counters (st : hm_store) (ptrs : list Z) : list HeapMetrics :=
  omap (λ ptr, counters <$> st !! ptr) ptrs.

(** Everything ever counted: the dead heaps and the live ones. *)
Definition total (st : hm_store) (p : PoolMetrics) : HeapMetrics :=
  foldr HeapMetrics_accumulate (counters (dead p)) (live_counters st (registered p)).

Definition class_arrays_ok (h : HeapMetrics) : Prop :=
  length (class_alloc_count h) = Z.to_nat NUM_CLASSES ∧
  length (class_dealloc_count h) = Z.to_nat NUM_CLASSES ∧
  length (class_alloc_bytes h) = Z.to_nat NUM_CLASSES ∧
  length (class_free_bytes h) = Z.to_nat NUM_CLASSES.

(** ** Algebra of the counters *)

Lemma wadd_comm w x y : wadd w x y = wadd w y x.
Proof. unfold wadd. by rewrite Z.add_comm. Qed.

Lemma wadd_assoc w x y z : wadd w x (wadd w y z) = wadd w (wadd w x y) z.
Proof. unfold wadd, wrap. rewrite Zplus_mod_idemp_r, Zplus_mod_idemp_l. f_equal. lia. Qed.

Lemma zip_with_comm {A B} (f : A → A → B) l k :
  (∀ x y, f x y = f y x) → zip_with f l k = zip_with f k l.
Proof. intros Hf. revert k. induction l as [|a l IH]; intros [|b k]; simpl; auto. by rewrite Hf, IH. Qed.

Lemma zip_with_assoc {A} (f : A → A → A) l k j :
  (∀ x y z, f x (f y z) = f (f x y) z) →
  zip_with f l (zip_with f k j) = zip_with f (zip_with f l k) j.
Proof.
  intros Hf. revert k j. induction l as [|a l IH]; intros [|b k] [|c j]; simpl; auto.
  by rewrite Hf, IH.
Qed.

Lemma accumulate_assoc a b c :
  HeapMetrics_accumulate a (HeapMetrics_accumulate b c) =
  HeapMetrics_accumulate (HeapMetrics_accumulate a b) c.
Proof.
  unfold HeapMetrics_accumulate; cbn [registry_idx alloc_bytes free_bytes class_alloc_count class_dealloc_count class_alloc_bytes class_free_bytes remote_free_count large_alloc_count large_alloc_bytes large_dealloc_bytes].
  f_equal; first [apply wadd_assoc|apply zip_with_assoc; intros; apply wadd_assoc].
Qed.

Lemma accumulate_comm a b :
  registry_idx a = registry_idx b → HeapMetrics_accumulate a b = HeapMetrics_accumulate b a.
Proof.
  unfold HeapMetrics_accumulate. intros ->.
  f_equal; first [apply wadd_comm|apply zip_with_comm; intros; apply wadd_comm].
Qed.

Lemma accumulate_counters_r a b :
  HeapMetrics_accumulate a (counters b) = HeapMetrics_accumulate a b.
Proof. done. Qed.

Lemma counters_accumulate a b :
  counters (HeapMetrics_accumulate a b) = HeapMetrics_accumulate (counters a) (counters b).
Proof. done. Qed.

(** Summing counters is insensitive to the order of the heaps. *)
Definition plain (h : HeapMetrics) : Prop := registry_idx h = 0.

Lemma accumulate_swap a b c :
  plain a → plain b →
  HeapMetrics_accumulate a (HeapMetrics_accumulate b c) =
  HeapMetrics_accumulate b (HeapMetrics_accumulate a c).
Proof.
  intros Ha Hb. rewrite accumulate_assoc, (accumulate_comm a b) by (by rewrite Ha, Hb).
  by rewrite accumulate_assoc.
Qed.

Lemma foldr_accumulate_perm z l k :
  Forall plain l → l ≡ₚ k → foldr HeapMetrics_accumulate z l = foldr HeapMetrics_accumulate z k.
Proof.
  intros Hl Hp. induction Hp as [|a l k Hp IH|a b l|l1 l2 l3 Hp1 IH1 _ IH2]; simpl; [done|..].
  - apply Forall_cons in Hl as [_ Hl]. by rewrite IH.
  - apply Forall_cons in Hl as [Hb [Ha _]%Forall_cons]. by apply accumulate_swap.
  - rewrite IH1 by done. apply IH2. by rewrite <- Hp1.
Qed.

Lemma foldr_accumulate_snoc z a l :
  plain z → plain a → Forall plain l →
  foldr HeapMetrics_accumulate (HeapMetrics_accumulate z a) l =
  HeapMetrics_accumulate a (foldr HeapMetrics_accumulate z l).
Proof.
  intros Hz Ha. induction 1 as [|b l Hb Hl IH]; simpl.
  - apply accumulate_comm. by rewrite Hz, Ha.
  - rewrite IH. by apply accumulate_swap.
Qed.

Lemma live_counters_plain st ptrs : Forall plain (live_counters st ptrs).
Proof.
  apply Forall_forall. intros h Hh. apply list_elem_of_omap in Hh as (ptr & _ & Hp).
  apply fmap_Some in Hp as (h' & _ & ->). done.
Qed.

Lemma live_counters_cons st ptr ptrs :
  live_counters st (ptr :: ptrs) =
    match counters <$> st !! ptr with
    | Some h => h :: live_counters st ptrs
    | None => live_counters st ptrs
    end.
Proof. done. Qed.

Lemma live_counters_ext st st' ptrs :
  (∀ ptr, ptr ∈ ptrs → counters <$> st' !! ptr = counters <$> st !! ptr) →
  live_counters st' ptrs = live_counters st ptrs.
Proof.
  induction ptrs as [|ptr ptrs IH]; intros Hx; [done|]. rewrite !live_counters_cons, (Hx ptr) by set_solver.
  rewrite IH; [done|]. intros. apply Hx. set_solver.
Qed.

(** ** The registry operations *)

(** Two stores that differ in registry slots only. *)
Definition same_counters (st st' : hm_store) : Prop :=
  ∀ ptr, counters <$> st' !! ptr = counters <$> st !! ptr.

Lemma store_registry_idx_ok st ptr h i :
  st !! ptr = Some h → (i < 1024)%nat →
  store_registry_idx st ptr (Z.of_nat i) = Ok (<[ptr := set_registry_idx h (Z.of_nat i)]> st) ∧
  same_counters st (<[ptr := set_registry_idx h (Z.of_nat i)]> st).
Proof.
  intros Hp Hi. unfold store_registry_idx. rewrite Hp. cbn [res_of_option mbind res_bind].
  split.
  - rewrite wrap_small; [done|]. unfold uint. lia.
  - intros ptr'. rewrite lookup_insert. case_decide; [subst|done]. by rewrite Hp.
Qed.

Lemma register_heap_ok st p ptr h :
  registry_inv st p → heap_count p < MAX_HEAPS → st !! ptr = Some h → ptr ∉ registered p →
  ∃ st' p', PoolMetrics_register_heap st p ptr = Ok (st', p') ∧ registry_inv st' p' ∧
    registered p' = registered p ++ [ptr] ∧ same_counters st st' ∧ dead p' = dead p.
Proof.
  intros [Hlen Hc Hnd Hidx] Hlt Hp Hnew. unfold MAX_HEAPS in *.
  unfold PoolMetrics_register_heap, MAX_HEAPS.
  destruct (Z.ltb_spec (heap_count p) 1024); [cbn [negb]|lia].
  assert (∃ n : nat, heap_count p = Z.of_nat n) as [n Hn] by (exists (Z.to_nat (heap_count p)); lia).
  rewrite Hn. rewrite arr_set_ok by (rewrite Hlen; lia). cbn [mbind res_bind].
  destruct (store_registry_idx_ok st ptr h n Hp ltac:(lia)) as [-> Hsame].
  cbn [mbind res_bind]. do 2 eexists. split; [done|].
  rewrite wadd_small by (unfold uint; lia).
  assert (registered (with_registry p (<[n := ptr]> (heap_ptrs p)) (Z.of_nat n + 1) (dead p)) =
    registered p ++ [ptr]) as Hreg.
  { unfold registered. cbn [heap_count heap_ptrs with_registry]. rewrite Hn.
    replace (Z.to_nat (Z.of_nat n + 1)) with (S n) by lia. rewrite Nat2Z.id.
    rewrite (take_S_r _ _ ptr).
    - by rewrite take_insert_ge.
    - rewrite list_lookup_insert_eq; [done|]. rewrite Hlen. lia. }
  split; [|done]. split; [..|intros i ptr'].
  - cbn. by rewrite length_insert.
  - cbn. unfold MAX_HEAPS. lia.
  - rewrite Hreg. apply NoDup_app. split; [done|]. split; [set_solver|apply NoDup_singleton].
  - rewrite Hreg. intros [Hi|[Hi Hx]]%lookup_snoc_Some.
    + destruct Hi as [_ Hi]. destruct (Hidx i ptr' Hi) as (h' & Hh' & ?). exists h'.
      rewrite lookup_insert_ne; [done|]. intros ->. apply Hnew. by eapply list_elem_of_lookup_2.
    + subst ptr'. exists (set_registry_idx h (Z.of_nat n)). rewrite lookup_insert_eq.
      split; [done|]. cbn. rewrite Hi. unfold registered. rewrite length_take, Hlen, Hn. lia.
Qed.

(** Moving the last entry into the freed slot. *)
Lemma deregister_arrays st p l1 ptr l2 y hy :
  length (heap_ptrs p) = Z.to_nat MAX_HEAPS → 0 < heap_count p ≤ MAX_HEAPS →
  registered p = l1 ++ ptr :: l2 → NoDup (registered p) →
  heap_ptrs p !! pred (Z.to_nat (heap_count p)) = Some y → st !! y = Some hy →
  let count := heap_count p - 1 in
  let idx := Z.of_nat (length l1) in
  ∃ st' ptrs, (if negb (idx =? count) then
       moved ← arr_get (heap_ptrs p) count;
       ptrs ← arr_set (heap_ptrs p) idx moved;
       st ← store_registry_idx st moved idx;
       Ok (st, ptrs)
     else Ok (st, heap_ptrs p)) = Ok (st', ptrs) ∧
    length ptrs = length (heap_ptrs p) ∧
    same_counters st st' ∧
    take (Z.to_nat count) (<[Z.to_nat count := 0]> ptrs) = l1 ++ swap_tail l2 ∧
    (l2 = [] → st' = st) ∧
    (∀ l2', l2 = l2' ++ [y] → st' = <[y := set_registry_idx hy idx]> st).
Proof.
  intros Hlen Hc Hreg Hnd Hy Hhy count idx. unfold MAX_HEAPS in *.
  assert (Z.to_nat count = pred (Z.to_nat (heap_count p))) as Hcount by lia.
  destruct (take_app_cons _ _ _ _ _ Hreg) as [_ Hl1].
  pose proof (swap_remove_take (heap_ptrs p) (Z.to_nat (heap_count p)) l1 ptr l2 y 0 Hreg
    ltac:(lia) Hy) as Htake. rewrite <- Hcount in Htake.
  assert (length l1 = Z.to_nat count ↔ l2 = []) as Hlast.
  { pose proof (f_equal length Hreg) as Hl. unfold registered in Hl.
    rewrite length_take, length_app, Hlen in Hl. simpl in Hl.
    rewrite <- length_zero_iff_nil. lia. }
  destruct (Z.eqb_spec idx count) as [Heq|Hne]; cbn [negb].
  - rewrite decide_True in Htake by lia. exists st, (heap_ptrs p).
    do 4 (split; [done|]). split; [done|]. intros l2' ->.
    assert (l2' ++ [y] = []) as Hbad by (apply Hlast; lia). by destruct l2'.
  - rewrite decide_False in Htake by lia.
    assert (arr_get (heap_ptrs p) count = Ok y) as ->.
    { rewrite <- (arr_get_ok _ _ _ Hy). f_equal. lia. }
    cbn [mbind res_bind]. unfold idx.
    rewrite arr_set_ok by lia. cbn [mbind res_bind].
    destruct (store_registry_idx_ok st y hy (length l1) Hhy ltac:(lia)) as [-> Hsame].
    do 2 eexists. split; [done|]. split; [by rewrite length_insert|]. split; [done|].
    split; [exact Htake|]. split; [|done]. intros ->. exfalso. apply Hne.
    assert (length l1 = Z.to_nat count) by by apply Hlast. lia.
Qed.

(** The moved heap, and only it, changes its registry slot. *)
Lemma registry_idx_swap st st' p l1 ptr l2 y hy :
  registry_inv st p → registered p = l1 ++ ptr :: l2 → last (l1 ++ ptr :: l2) = Some y →
  (l2 = [] → st' = st) →
  (∀ l2', l2 = l2' ++ [y] → st' = <[y := set_registry_idx hy (Z.of_nat (length l1))]> st) →
  ∀ i x, (l1 ++ swap_tail l2) !! i = Some x →
    ∃ h, st' !! x = Some h ∧ registry_idx h = Z.of_nat i.
Proof.
  intros [_ _ Hnd Hidx] Hreg Hlast Hst1 Hst2 i x Hx. rewrite Hreg in Hnd, Hidx.
  destruct l2 as [|z l2 _] using rev_ind.
  { rewrite Hst1 by done. apply Hidx. unfold swap_tail in Hx. cbn in Hx. rewrite app_nil_r in Hx.
    by apply lookup_app_l_Some. }
  rewrite app_comm_cons, app_assoc, last_snoc in Hlast. injection Hlast as ->.
  rewrite (Hst2 l2 eq_refl). rewrite swap_tail_snoc in Hx.
  assert (∀ a, a ∈ l1 ++ l2 → a ≠ y) as Hfar.
  { intros a Ha ->. rewrite app_comm_cons, app_assoc in Hnd.
    apply NoDup_app in Hnd as (_ & Hnd & _). apply (Hnd y); set_solver. }
  apply lookup_app_Some in Hx as [Hx|[Hge Hx]].
  - destruct (Hidx i x) as (hx & Hhx & ?); [by apply lookup_app_l_Some|].
    exists hx. rewrite lookup_insert_ne; [done|]. apply not_eq_sym, Hfar, elem_of_app.
    left. by eapply list_elem_of_lookup_2.
  - destruct (i - length l1)%nat as [|j] eqn:Hij; simpl in Hx.
    + injection Hx as <-. eexists. rewrite lookup_insert_eq. split; [done|]. cbn. lia.
    + destruct (Hidx i x) as (hx & Hhx & ?).
      { apply lookup_app_Some. right. split; [done|]. rewrite Hij. by apply lookup_app_l_Some. }
      exists hx. rewrite lookup_insert_ne; [done|]. apply not_eq_sym, Hfar, elem_of_app.
      right. by eapply list_elem_of_lookup_2.
Qed.

Lemma deregister_heap_ok st p ptr :
  registry_inv st p → ptr ∈ registered p →
  ∃ st' p', PoolMetrics_deregister_heap st p ptr = Ok (st', p') ∧ registry_inv st' p' ∧
    ptr :: registered p' ≡ₚ registered p ∧ same_counters st st' ∧
    ∃ h, st !! ptr = Some h ∧ dead p' = HeapMetrics_accumulate (dead p) h.
Proof.
  intros [Hlen Hc Hnd Hidx] Hin. apply list_elem_of_lookup in Hin as [i Hi].
  destruct (Hidx i ptr Hi) as (h & Hh & Hri).
  apply list_elem_of_split_length in Hi as (l1 & l2 & Hreg & ->).
  destruct (take_app_cons _ _ _ _ _ Hreg) as [_ Hl1].
  pose proof (f_equal length Hreg) as Hl. unfold registered in Hl.
  rewrite length_take, length_app, Hlen in Hl. simpl in Hl. unfold MAX_HEAPS in *.
  destruct (lookup_lt_is_Some_2 (heap_ptrs p) (pred (Z.to_nat (heap_count p)))) as [y Hy]; [lia|].
  destruct (Hidx (pred (Z.to_nat (heap_count p))) y) as (hy & Hhy & _).
  { unfold registered. rewrite lookup_take_lt by lia. exact Hy. }
  destruct (deregister_arrays st p l1 ptr l2 y hy) as (st' & ptrs & Hif & Hlp & Hsame & Htake & Hst1 & Hst2);
    [done|unfold MAX_HEAPS; lia|done..|].
  unfold PoolMetrics_deregister_heap. rewrite Hh. cbn [res_of_option mbind res_bind]. rewrite Hri.
  rewrite wsub_small by (unfold uint; lia). cbn zeta in Hif. rewrite Hif. cbn [mbind res_bind].
  assert (arr_set ptrs (heap_count p - 1) 0 = Ok (<[Z.to_nat (heap_count p - 1) := 0]> ptrs)) as ->.
  { rewrite <- arr_set_ok by lia. f_equal. lia. } cbn [mbind res_bind]. do 2 eexists. split; [done|].
  set (p' := with_registry _ _ _ _).
  assert (registered p' = l1 ++ swap_tail l2) as Hreg'.
  { unfold registered. cbn [p' heap_count heap_ptrs with_registry]. exact Htake. }
  assert (ptr :: registered p' ≡ₚ registered p) as Hperm.
  { rewrite Hreg', Hreg, swap_tail_perm. apply Permutation_middle. }
  split; [|split; [done|split; [done|by exists h]]]. split.
  - cbn. rewrite length_insert. unfold MAX_HEAPS. lia.
  - cbn. unfold MAX_HEAPS. lia.
  - rewrite <- Hperm in Hnd. by apply NoDup_cons in Hnd as [_ ?].
  - rewrite Hreg'. eapply registry_idx_swap; [by split|done| |done..].
    rewrite <- Hreg, last_lookup. unfold registered.
    rewrite length_take, Hlen, lookup_take_lt by lia. rewrite <- Hy. f_equal. lia.
Qed.

(** ** Every event is counted once *)

(** What a heap reports to its counters. *)
Inductive counter_event :=
  | CtAlloc (idx class_size : Z)
  | CtDealloc (idx class_size : Z)
  | CtLargeAlloc (size : Z)
  | CtLargeDealloc (size : Z)
  | CtRemoteFree (count : Z).

Definition apply_counter (h : HeapMetrics) (e : counter_event) : res HeapMetrics :=
  match e with
  | CtAlloc idx size => HeapMetrics_on_alloc h idx size
  | CtDealloc idx size => HeapMetrics_on_dealloc h idx size
  | CtLargeAlloc size => Ok (HeapMetrics_on_large_alloc h size)
  | CtLargeDealloc size => Ok (HeapMetrics_on_large_dealloc h size)
  | CtRemoteFree count => Ok (HeapMetrics_on_remote_free h count)
  end.

(** The contribution of one event. *)
Definition zero_counters : HeapMetrics := counters HeapMetrics_ZERO.
Definition delta (e : counter_event) : HeapMetrics :=
  match apply_counter zero_counters e with Ok d => d | Panic _ => zero_counters end.

(** Counters of 64 bits, one per class. *)
Definition hm_ok (h : HeapMetrics) : Prop :=
  class_arrays_ok h ∧
  Forall (uint 64) (class_alloc_count h) ∧ Forall (uint 64) (class_dealloc_count h) ∧
  Forall (uint 64) (class_alloc_bytes h) ∧ Forall (uint 64) (class_free_bytes h) ∧
  Forall (uint 64) [alloc_bytes h; free_bytes h; remote_free_count h; large_alloc_count h;
    large_alloc_bytes h; large_dealloc_bytes h].

Lemma hm_ok_zero : hm_ok HeapMetrics_ZERO.
Proof.
  assert (Forall (uint 64) ZERO_ARRAY) as Hz
    by (apply Forall_forall; intros x [-> _]%elem_of_replicate; by vm_compute).
  split; [done|]. do 4 (split; [done|]). cbn. repeat constructor; by vm_compute.
Qed.

Lemma wadd_zero_r x : uint 64 x → wadd 64 x 0 = x.
Proof. intros. rewrite wadd_small; rewrite Z.add_0_r; done. Qed.

Lemma wadd_inc x v : wadd 64 x (inc 0 v) = inc x v.
Proof. unfold inc, wadd, wrap. by rewrite Z.add_0_l, Zplus_mod_idemp_r. Qed.

Lemma zip_zero l :
  Forall (uint 64) l → length l = Z.to_nat NUM_CLASSES → zip_with (wadd 64) l ZERO_ARRAY = l.
Proof.
  unfold ZERO_ARRAY. generalize (Z.to_nat NUM_CLASSES) as n. intros n Hl. revert n.
  induction Hl as [|x l Hx Hl IH]; intros [|n] Hn; simpl in *; [done..|].
  by rewrite wadd_zero_r, IH by (done || lia).
Qed.

Lemma zip_insert l i x v :
  Forall (uint 64) l → length l = Z.to_nat NUM_CLASSES → l !! i = Some x →
  zip_with (wadd 64) l (<[i := inc 0 v]> ZERO_ARRAY) = <[i := inc x v]> l.
Proof.
  unfold ZERO_ARRAY. generalize (Z.to_nat NUM_CLASSES) as n. intros n Hl. revert n i.
  induction Hl as [|y l Hy Hl IH]; intros [|n] [|i] Hn Hi; simpl in *; try done.
  - injection Hi as ->. rewrite wadd_inc. f_equal.
    clear -Hl Hn. injection Hn as Hn. revert n Hn.
    induction Hl as [|z l Hz Hl IH]; intros [|n] Hn; simpl in *; [done..|].
    rewrite wadd_zero_r, IH by (done || lia). done.
  - rewrite wadd_zero_r by done. f_equal. apply IH; [lia|done].
Qed.

Lemma zip_uint l k : Forall (uint 64) (zip_with (wadd 64) l k).
Proof.
  apply Forall_forall. intros x Hx. apply list_elem_of_lookup in Hx as [i Hx].
  apply lookup_zip_with_Some in Hx as (a & b & -> & _). apply wrap_bound. lia.
Qed.

Lemma accumulate_ok a b : hm_ok a → class_arrays_ok b → hm_ok (HeapMetrics_accumulate a b).
Proof.
  intros ((? & ? & ? & ?) & _) (? & ? & ? & ?). split.
  - split_and!; cbn; rewrite length_zip_with; lia.
  - split_and!; cbn; auto using zip_uint. repeat constructor; apply wrap_bound; lia.
Qed.

Lemma delta_arrays e : class_arrays_ok (delta e).
Proof.
  assert (class_arrays_ok zero_counters) as Hz by done.
  unfold delta. destruct e; cbn; try done;
    unfold HeapMetrics_on_alloc, HeapMetrics_on_dealloc, arr_update, arr_set;
    destruct (arr_get _ idx) as [x|] eqn:E; cbn [mbind res_bind]; try done;
    destruct Hz as (? & ? & ? & ?);
    repeat (destruct (arr_get _ idx); cbn [mbind res_bind]; [|done]);
    split_and!; cbn [class_alloc_count class_dealloc_count class_alloc_bytes class_free_bytes];
    rewrite ?length_insert; done.
Qed.

Ltac hm_cbn :=
  unfold delta; cbn [apply_counter];
  unfold HeapMetrics_on_alloc, HeapMetrics_on_dealloc, HeapMetrics_on_large_alloc,
    HeapMetrics_on_large_dealloc, HeapMetrics_on_remote_free, HeapMetrics_accumulate,
    zero_counters, counters, set_registry_idx;
  cbn [registry_idx alloc_bytes free_bytes class_alloc_count class_dealloc_count
    class_alloc_bytes class_free_bytes remote_free_count large_alloc_count large_alloc_bytes
    large_dealloc_bytes HeapMetrics_ZERO].

(** An event adds its contribution, whatever the counters were. *)
Lemma apply_counter_delta h e h' :
  hm_ok h → apply_counter h e = Ok h' → h' = HeapMetrics_accumulate h (delta e).
Proof.
  intros ((Hl1 & Hl2 & Hl3 & Hl4) & Hu1 & Hu2 & Hu3 & Hu4 & Hu) He.
  repeat match goal with H : Forall _ (_ :: _) |- _ => apply Forall_cons in H as [? H] end.
  assert (∀ i v, 0 ≤ i → (Z.to_nat i < length (class_alloc_count h))%nat →
    arr_update ZERO_ARRAY i (λ c, inc c v) = Ok (<[Z.to_nat i := inc 0 v]> ZERO_ARRAY)) as Hz.
  { intros i v Hi Hlt. rewrite <- (Z2Nat.id i) at 1 by done. apply (arr_update_ok ZERO_ARRAY _ 0 (λ c, inc c v)).
    apply lookup_replicate. split; [done|]. lia. }
  destruct e; cbn [apply_counter] in He;
    unfold HeapMetrics_on_alloc, HeapMetrics_on_dealloc in He.
  3-5: injection He as <-; hm_cbn;
    by rewrite ?zip_zero, ?wadd_zero_r, ?wadd_inc.
  all: destruct (arr_update _ idx (λ c, inc c 1)) as [l1|] eqn:E1; cbn [mbind res_bind] in He; [|done];
    destruct (arr_update _ idx (λ c, inc c class_size)) as [l2|] eqn:E2;
    cbn [mbind res_bind] in He; [|done]; injection He as <-;
    apply arr_update_inv in E1 as (x1 & Hi & Hx1 & ->);
    apply arr_update_inv in E2 as (x2 & _ & Hx2 & ->);
    pose proof (lookup_lt_Some _ _ _ Hx1);
    hm_cbn; rewrite !Hz by lia; cbn [mbind res_bind]; hm_cbn;
    by rewrite (zip_insert _ _ x1), (zip_insert _ _ x2), ?zip_zero, ?wadd_zero_r, ?wadd_inc.
Qed.

Inductive metrics_event :=
  | MRegister (ptr : Z)
  | MDeregister (ptr : Z)
  | MCount (ptr : Z) (e : counter_event).

(** A heap is created at [ptr] with zero counters and registered; an exiting
    heap is deregistered and its memory freed; a live heap counts an event. *)
Definition metrics_exec (s : hm_store * PoolMetrics) (e : metrics_event)
    : res (hm_store * PoolMetrics) :=
  let '(st, p) := s in
  match e with
  | MRegister ptr =>
      match st !! ptr with
      | Some _ => Panic InvalidPointer
      | None => PoolMetrics_register_heap (<[ptr := HeapMetrics_ZERO]> st) p ptr
      end
  | MDeregister ptr =>
      '(st, p) ← PoolMetrics_deregister_heap st p ptr; Ok (delete ptr st, p)
  | MCount ptr e =>
      h ← res_of_option InvalidPointer (st !! ptr);
      h ← apply_counter h e; Ok (<[ptr := h]> st, p)
  end.

Fixpoint metrics_run (s : hm_store * PoolMetrics) (es : list metrics_event)
    : res (hm_store * PoolMetrics) :=
  match es with
  | [] => Ok s
  | e :: es => s ← metrics_exec s e; metrics_run s es
  end.

Definition metrics_init : hm_store * PoolMetrics := (∅, PoolMetrics_new).

Definition deltas (es : list metrics_event) : list HeapMetrics :=
  omap (λ e, match e with MCount _ e => Some (delta e) | _ => None end) es.

(** The sum of the dead and the live heaps' counters. *)
Definition total_counters (s : hm_store * PoolMetrics) : HeapMetrics :=
  let '(st, p) := s in
  foldr HeapMetrics_accumulate (HeapMetrics_accumulate zero_counters (dead p))
    (live_counters st (registered p)).

Record metrics_inv (s : hm_store * PoolMetrics) : Prop := {
  mi_registry : registry_inv (fst s) (snd s);
  mi_dom ptr : is_Some (fst s !! ptr) ↔ ptr ∈ registered (snd s);
  mi_ok ptr h : fst s !! ptr = Some h → hm_ok h;
  mi_dead : hm_ok (dead (snd s));
}.

Lemma same_counters_some st st' ptr h :
  same_counters st st' → st !! ptr = Some h → ∃ h', st' !! ptr = Some h' ∧ counters h' = counters h.
Proof.
  intros Hs Hp. specialize (Hs ptr). rewrite Hp in Hs. cbn in Hs.
  destruct (st' !! ptr) as [h'|]; cbn in Hs; [|done]. exists h'. by apply (inj Some) in Hs.
Qed.

Lemma same_counters_dom st st' ptr : same_counters st st' → is_Some (st' !! ptr) ↔ is_Some (st !! ptr).
Proof.
  intros Hs. specialize (Hs ptr). destruct (st' !! ptr), (st !! ptr); cbn in Hs; done.
Qed.

Lemma counters_ok h h' : counters h' = counters h → hm_ok h → hm_ok h'.
Proof. intros Hc Hok. change (hm_ok (counters h')). rewrite Hc. exact Hok. Qed.

Lemma same_counters_ok st st' ptr h' :
  same_counters st st' → (∀ ptr h, st !! ptr = Some h → hm_ok h) → st' !! ptr = Some h' → hm_ok h'.
Proof.
  intros Hs Hok Hh. specialize (Hs ptr). rewrite Hh in Hs. cbn in Hs.
  destruct (st !! ptr) as [h|] eqn:E; cbn in Hs; [|done]. apply (inj Some) in Hs.
  eapply (counters_ok h); [done|by eapply Hok].
Qed.

Lemma live_counters_app st l k :
  live_counters st (l ++ k) = live_counters st l ++ live_counters st k.
Proof. apply omap_app. Qed.

Lemma live_counters_perm st l k : l ≡ₚ k → live_counters st l ≡ₚ live_counters st k.
Proof. intros Hp. unfold live_counters. by rewrite Hp. Qed.

(** *** Each event keeps the invariant and adds its contribution *)

Lemma register_shape st pm ptr st' pm' :
  PoolMetrics_register_heap st pm ptr = Ok (st', pm') → ∃ a b c, pm' = with_registry pm a b c.
Proof.
  unfold PoolMetrics_register_heap. destruct (negb _); [done|]. intros E. bind_inv E as ptrs E1.
  bind_inv E as st1 E2. injection E as <- <-. by eexists _, _, _.
Qed.

Lemma deregister_shape st pm ptr st' pm' :
  PoolMetrics_deregister_heap st pm ptr = Ok (st', pm') → ∃ a b c, pm' = with_registry pm a b c.
Proof.
  unfold PoolMetrics_deregister_heap. intros E. bind_inv E as hm E1. bind_inv E as [st1 ptrs] E2.
  bind_inv E as ptrs' E3. injection E as <- <-. by eexists _, _, _.
Qed.

Lemma metrics_register_step st p ptr :
  metrics_inv (st, p) → st !! ptr = None → heap_count p < MAX_HEAPS →
  ∃ s', metrics_exec (st, p) (MRegister ptr) = Ok s' ∧ metrics_inv s' ∧
    total_counters s' = total_counters (st, p).
Proof.
  intros [Hr Hdom Hok Hd] Hnone Hlt. cbn in *.
  assert (ptr ∉ registered p) as Hnew by (rewrite <- Hdom, Hnone; by intros []).
  rewrite Hnone.
  destruct (register_heap_ok (<[ptr := HeapMetrics_ZERO]> st) p ptr HeapMetrics_ZERO)
    as (st' & p' & -> & Hr' & Hreg & Hsame & Hdead); [|done|apply lookup_insert_eq|done|].
  { destruct Hr as [? ? ? Hidx]. split; [done..|]. intros i x Hx.
    rewrite lookup_insert_ne; [by apply Hidx|]. intros ->. apply Hnew.
    by eapply list_elem_of_lookup_2. }
  exists (st', p'). split; [done|]. split.
  - split; cbn; [done| | |by rewrite Hdead].
    + intros x. rewrite Hreg, (same_counters_dom _ _ _ Hsame), elem_of_app, list_elem_of_singleton.
      rewrite <- Hdom. destruct (decide (x = ptr)) as [->|Hne].
      * rewrite lookup_insert_eq. split; eauto.
      * rewrite lookup_insert_ne by done. tauto.
    + intros x h. eapply same_counters_ok; [done|]. intros y hy. rewrite lookup_insert.
      case_decide; [intros [= <-]; apply hm_ok_zero|apply Hok].
  - unfold total_counters. rewrite Hreg, Hdead, live_counters_app.
    rewrite (live_counters_ext (<[ptr := HeapMetrics_ZERO]> st) st' [ptr]) by (intros; apply Hsame).
    rewrite live_counters_cons, lookup_insert_eq, foldr_app. cbn [fmap option_fmap option_map].
    change (live_counters _ []) with (@nil HeapMetrics). cbn [foldr]. f_equal.
    + change (counters HeapMetrics_ZERO) with zero_counters. by rewrite accumulate_assoc.
    + apply live_counters_ext. intros x Hx. rewrite (Hsame x). f_equal.
      apply lookup_insert_ne. by intros ->.
Qed.

Lemma foldr_plain_base d l :
  Forall plain l →
  foldr HeapMetrics_accumulate (HeapMetrics_accumulate zero_counters d) l =
  HeapMetrics_accumulate (foldr HeapMetrics_accumulate zero_counters l) d.
Proof.
  induction 1 as [|a l Ha Hl IH]; simpl; [done|]. by rewrite IH, accumulate_assoc.
Qed.

Lemma foldr_plain l : Forall plain l → plain (foldr HeapMetrics_accumulate zero_counters l).
Proof. destruct 1; done. Qed.

Lemma metrics_deregister_step st p ptr :
  metrics_inv (st, p) → ptr ∈ registered p →
  ∃ s', metrics_exec (st, p) (MDeregister ptr) = Ok s' ∧ metrics_inv s' ∧
    total_counters s' = total_counters (st, p).
Proof.
  intros [Hr Hdom Hok Hd] Hin. cbn in *.
  destruct (deregister_heap_ok st p ptr Hr Hin)
    as (st' & p' & -> & Hr' & Hperm & Hsame & h & Hh & Hdead).
  cbn [mbind res_bind]. eexists. split; [done|].
  assert (ptr ∉ registered p') as Hnot.
  { pose proof (ri_nodup _ _ Hr) as Hnd. rewrite <- Hperm in Hnd. by apply NoDup_cons in Hnd as [? _]. }
  split.
  - split; cbn.
    + destruct Hr' as [? ? ? Hidx]. split; [done..|]. intros i x Hx.
      rewrite lookup_delete_ne; [by apply Hidx|]. intros ->. apply Hnot.
      by eapply list_elem_of_lookup_2.
    + intros x. destruct (decide (x = ptr)) as [->|Hne].
      * rewrite lookup_delete_eq. split; [by intros []|done].
      * rewrite lookup_delete_ne by done. rewrite (same_counters_dom _ _ _ Hsame), Hdom, <- Hperm.
        set_solver.
    + intros x hx Hx. apply lookup_delete_Some in Hx as [_ Hx]. by eapply same_counters_ok.
    + rewrite Hdead. apply accumulate_ok; [done|]. apply (Hok ptr h Hh).
  - unfold total_counters.
    assert (live_counters (delete ptr st') (registered p') = live_counters st (registered p')) as ->.
    { apply live_counters_ext. intros x Hx. rewrite lookup_delete_ne; [apply Hsame|].
      by intros ->. }
    rewrite <- (foldr_accumulate_perm _ _ (live_counters st (registered p)) (live_counters_plain _ _)
      (live_counters_perm st _ _ Hperm)).
    rewrite live_counters_cons, Hh, Hdead. cbn [fmap option_fmap option_map foldr].
    rewrite !foldr_plain_base by apply live_counters_plain.
    set (X := foldr _ zero_counters _).
    assert (plain X) as HX by apply foldr_plain, live_counters_plain.
    rewrite (accumulate_swap (counters h) X) by done.
    change (HeapMetrics_accumulate X (HeapMetrics_accumulate (dead p) h)) with
      (HeapMetrics_accumulate X (HeapMetrics_accumulate (counters (dead p)) (counters h))).
    by rewrite (accumulate_comm (counters (dead p))).
Qed.

Lemma delta_plain e : counters (delta e) = delta e.
Proof.
  unfold delta. destruct e; cbn [apply_counter]; try done;
    unfold HeapMetrics_on_alloc, HeapMetrics_on_dealloc;
    (destruct (arr_update _ idx (λ c, inc c 1)); cbn [mbind res_bind]; [|done]);
    destruct (arr_update _ idx (λ c, inc c class_size)); done.
Qed.

Lemma metrics_count_step st p ptr e s' :
  metrics_inv (st, p) → metrics_exec (st, p) (MCount ptr e) = Ok s' →
  metrics_inv s' ∧ total_counters s' = HeapMetrics_accumulate (delta e) (total_counters (st, p)).
Proof.
  intros [Hr Hdom Hok Hd]. cbn in *.
  destruct (st !! ptr) as [h|] eqn:Hh; cbn [res_of_option mbind res_bind]; [|done].
  destruct (apply_counter h e) as [h'|] eqn:He; cbn [mbind res_bind]; [|done]. intros [= <-].
  pose proof (apply_counter_delta h e h' (Hok _ _ Hh) He) as ->.
  assert (ptr ∈ registered p) as Hin by (apply Hdom; eauto).
  split; [split; cbn|].
  - destruct Hr as [? ? ? Hidx]. split; [done..|]. intros i x Hx. rewrite lookup_insert.
    case_decide; [subst x|by apply Hidx]. eexists. split; [done|].
    destruct (Hidx i ptr Hx) as (hx & Hhx & <-). by rewrite Hh in Hhx; injection Hhx as ->.
  - intros x. rewrite <- Hdom, lookup_insert. case_decide; [subst x|done]. rewrite Hh. split; eauto.
  - intros x hx. rewrite lookup_insert. case_decide; [|apply Hok]. intros [= <-].
    apply accumulate_ok; [by eapply Hok|apply delta_arrays].
  - done.
  - unfold total_counters. apply list_elem_of_split in Hin as (l1 & l2 & Hreg).
    assert (registered p ≡ₚ ptr :: l1 ++ l2) as Hperm
      by (rewrite Hreg; symmetry; apply Permutation_middle).
    pose proof (ri_nodup _ _ Hr) as Hnd. rewrite Hperm in Hnd. apply NoDup_cons in Hnd as [Hnot _].
    rewrite (foldr_accumulate_perm _ _ _ (live_counters_plain _ _) (live_counters_perm _ _ _ Hperm)).
    rewrite (foldr_accumulate_perm _ (live_counters st _) _ (live_counters_plain _ _)
      (live_counters_perm _ _ _ Hperm)).
    rewrite !live_counters_cons, lookup_insert_eq, Hh. cbn [fmap option_fmap option_map foldr].
    rewrite (live_counters_ext st).
    + rewrite counters_accumulate, (accumulate_comm (counters h)), delta_plain by done.
      by rewrite <- accumulate_assoc.
    + intros x Hx. rewrite lookup_insert_ne; [done|]. by intros ->.
Qed.

(** ** Properties *)

Lemma metrics_inv_init : metrics_inv metrics_init.
Proof.
  split; cbn.
  - split; [done|done|constructor|]. intros i ptr Hi. by destruct i.
  - intros ptr. rewrite lookup_empty. split; [by intros []|set_solver].
  - intros ptr h Hh. by rewrite lookup_empty in Hh.
  - apply hm_ok_zero.
Qed.

Lemma total_init : total_counters metrics_init = zero_counters.
Proof. done. Qed.

Lemma accumulate_live_foldl st ptrs s :
  (∀ ptr, ptr ∈ ptrs → is_Some (st !! ptr)) →
  ∃ s', accumulate_live st ptrs s = Ok s' ∧
    ms_heaps s' = foldl HeapMetrics_accumulate (ms_heaps s) (live_counters st ptrs).
Proof.
  revert s. induction ptrs as [|ptr ptrs IH]; intros s Hs; cbn [accumulate_live].
  { by exists s. }
  destruct (Hs ptr) as [h Hh]; [set_solver|]. rewrite Hh. cbn [res_of_option mbind res_bind].
  destruct (IH (MetricsSnapshot_accumulate_heap s h)) as (s' & -> & Hs').
  { intros x Hx. apply Hs. set_solver. }
  exists s'. split; [done|]. by rewrite Hs', live_counters_cons, Hh.
Qed.

Lemma foldl_foldr_accumulate z l :
  plain z → Forall plain l →
  foldl HeapMetrics_accumulate z l = foldr HeapMetrics_accumulate z l.
Proof.
  intros Hz Hl. revert z Hz. induction Hl as [|a l Ha Hl IH]; intros z Hz; [done|].
  cbn [foldl foldr]. rewrite IH by done. by apply foldr_accumulate_snoc.
Qed.

Lemma aggregate_from st p s0 :
  metrics_inv (st, p) → ms_heaps s0 = zero_counters →
  ∃ s, PoolMetrics_aggregate_heap_metrics st p s0 = Ok s ∧ ms_heaps s = total_counters (st, p).
Proof.
  intros [Hr Hdom _ _] H0. cbn in *. unfold PoolMetrics_aggregate_heap_metrics.
  destruct (accumulate_live_foldl st (registered p)
    (MetricsSnapshot_accumulate_heap s0 (dead p))) as (s & Hs & Hh).
  { intros ptr Hin. by apply Hdom. }
  unfold registered in Hs at 1. rewrite Hs. cbn [mbind res_bind]. eexists. split; [done|].
  cbn [ms_heaps]. rewrite Hh. cbn [ms_heaps MetricsSnapshot_accumulate_heap]. rewrite H0.
  by rewrite foldl_foldr_accumulate; [| |apply live_counters_plain].
Qed.

Lemma aggregate_ok st p :
  metrics_inv (st, p) →
  ∃ s, PoolMetrics_aggregate_heap_metrics st p MetricsSnapshot_new = Ok s ∧
    ms_heaps s = total_counters (st, p).
Proof. intros Hi. by apply aggregate_from. Qed.

Lemma metrics_exec_ok s e s' :
  metrics_inv s → metrics_exec s e = Ok s' →
  metrics_inv s' ∧
  total_counters s' = foldr HeapMetrics_accumulate (total_counters s) (deltas [e]).
Proof.
  destruct s as [st p]. intros Hi He. destruct e as [ptr|ptr|ptr e].
  - cbn in He. destruct (st !! ptr) eqn:Hp; [done|].
    destruct (Z.lt_ge_cases (heap_count p) MAX_HEAPS) as [Hlt|Hge].
    + destruct (metrics_register_step st p ptr Hi Hp Hlt) as (s1 & He1 & ? & ?).
      cbn in He1. rewrite Hp, He in He1. injection He1 as ->. done.
    + unfold PoolMetrics_register_heap in He. destruct (Z.ltb_spec (heap_count p) MAX_HEAPS); [lia|done].
  - assert (ptr ∈ registered p) as Hin.
    { apply (mi_dom _ Hi). cbn in *. unfold PoolMetrics_deregister_heap in He.
      by destruct (st !! ptr). }
    destruct (metrics_deregister_step st p ptr Hi Hin) as (s1 & He1 & ? & ?).
    rewrite He in He1. by injection He1 as ->.
  - by apply (metrics_count_step st p ptr e).
Qed.

Lemma metrics_run_ok s es s' :
  metrics_inv s → plain (total_counters s) → metrics_run s es = Ok s' →
  metrics_inv s' ∧ total_counters s' = foldr HeapMetrics_accumulate (total_counters s) (deltas es).
Proof.
  revert s. induction es as [|e es IH]; intros s Hi Hp; cbn [metrics_run].
  { by intros [= <-]. }
  destruct (metrics_exec s e) as [s1|] eqn:He; cbn [mbind res_bind]; [|done].
  destruct (metrics_exec_ok s e s1 Hi He) as [Hi1 Ht1]. intros Hrun.
  assert (Forall plain (deltas es)) as Hpl.
  { apply Forall_forall. intros h Hh. apply list_elem_of_omap in Hh as (x & _ & Hx).
    destruct x; try done. injection Hx as <-. unfold plain. by rewrite <- delta_plain. }
  assert (deltas (e :: es) = deltas [e] ++ deltas es) as -> by (destruct e; done).
  rewrite foldr_app. destruct e as [| |ptr e]; cbn [deltas omap list_omap foldr] in *.
  1, 2: rewrite <- Ht1; apply IH; [done|by rewrite Ht1|done].
  assert (plain (delta e)) as Hde by (unfold plain; by rewrite <- delta_plain).
  destruct (IH s1) as [Hi' ->]; [done|by rewrite Ht1|done|]. split; [done|].
  rewrite Ht1, (accumulate_comm (delta e)) by (by rewrite Hp, Hde).
  by apply foldr_accumulate_snoc.
Qed.

(** C24. A snapshot counts every event of every heap that ever lived exactly
    once: whatever heaps were created, exited (their registry slot taken by the
    last heap) and whatever they counted, in any order, the snapshot's counters
    are the sum of the contributions of all events (modulo 2^64), and taking it
    touches no freed heap. *)
Theorem snapshot_counts_every_event (es : list metrics_event) (st : hm_store) (p : PoolMetrics) :
  metrics_run metrics_init es = Ok (st, p) →
  ∃ s, PoolMetrics_aggregate_heap_metrics st p MetricsSnapshot_new = Ok s ∧
    ms_heaps s = foldr HeapMetrics_accumulate zero_counters (deltas es).
Proof.
  intros Hrun. destruct (metrics_run_ok _ _ _ metrics_inv_init eq_refl Hrun) as [Hi Ht].
  destruct (aggregate_ok st p Hi) as (s & Hs & Hh). exists s. split; [done|].
  by rewrite Hh, Ht, total_init.
Qed.

(** C30. The registry never loses its balance: below its capacity a new heap is
    registered, a registered heap is always deregistered without a panic; at
    capacity, registering panics. *)
Theorem registry_total (es : list metrics_event) (st : hm_store) (p : PoolMetrics) (ptr : Z) :
  metrics_run metrics_init es = Ok (st, p) →
  (ptr ∈ registered p → ∃ s, metrics_exec (st, p) (MDeregister ptr) = Ok s) ∧
  (st !! ptr = None → heap_count p < MAX_HEAPS → ∃ s, metrics_exec (st, p) (MRegister ptr) = Ok s) ∧
  (st !! ptr = None → heap_count p = MAX_HEAPS →
     metrics_exec (st, p) (MRegister ptr) = Panic PanicAssert).
Proof.
  intros Hrun. destruct (metrics_run_ok _ _ _ metrics_inv_init eq_refl Hrun) as [Hi _].
  split; [|split].
  - intros Hin. destruct (metrics_deregister_step st p ptr Hi Hin) as (s & ? & _). eauto.
  - intros Hn Hlt. destruct (metrics_register_step st p ptr Hi Hn Hlt) as (s & ? & _). eauto.
  - intros Hn Hfull. cbn. rewrite Hn. unfold PoolMetrics_register_heap. by rewrite Hfull.
Qed.

(** Modular sums. *)
Lemma sum_zip l k :
  length l = length k → wrap 64 (sum_Z (zip_with (wadd 64) l k)) = wrap 64 (sum_Z l + sum_Z k).
Proof.
  revert k. induction l as [|x l IH]; intros [|y k] Hl; simpl in *; [done..|].
  unfold wadd. rewrite wrap_add, Z.add_comm, <- wrap_add, IH by lia.
  rewrite wrap_add. f_equal. lia.
Qed.

Definition bytes_consistent (h : HeapMetrics) : Prop :=
  alloc_bytes h = wrap 64 (sum_Z (class_alloc_bytes h) + large_alloc_bytes h) ∧
  free_bytes h = wrap 64 (sum_Z (class_free_bytes h) + large_dealloc_bytes h).

Lemma wadd_sum64 a b s t u v :
  a = wrap 64 (s + u) → b = wrap 64 (t + v) →
  ∀ r, wrap 64 r = wrap 64 (s + t) → wadd 64 a b = wrap 64 (r + wadd 64 u v).
Proof.
  unfold wadd, wrap. intros -> -> r Hr. rewrite <- Zplus_mod, Zplus_mod_idemp_r.
  rewrite <- (Zplus_mod_idemp_l r), Hr, Zplus_mod_idemp_l. f_equal. lia.
Qed.

Lemma consistent_accumulate a b :
  class_arrays_ok a → class_arrays_ok b → bytes_consistent a → bytes_consistent b →
  bytes_consistent (HeapMetrics_accumulate a b).
Proof.
  intros (_ & _ & ? & ?) (_ & _ & ? & ?) [Ha1 Ha2] [Hb1 Hb2].
  split; cbn [alloc_bytes free_bytes class_alloc_bytes class_free_bytes large_alloc_bytes
    large_dealloc_bytes HeapMetrics_accumulate];
    (eapply wadd_sum64; [done..|]; apply sum_zip; congruence).
Qed.

Lemma sum_insert_zero i v : (i < Z.to_nat NUM_CLASSES)%nat → sum_Z (<[i := v]> ZERO_ARRAY) = v.
Proof.
  unfold ZERO_ARRAY. generalize (Z.to_nat NUM_CLASSES) as n. intros n. revert i.
  assert (∀ k, sum_Z (replicate k 0) = 0) as Hz by (intros k; induction k; simpl; lia).
  induction n as [|n IH]; intros [|i] Hi; simpl; [lia..| |].
  - rewrite Hz. lia.
  - rewrite IH; lia.
Qed.

Lemma delta_consistent e : bytes_consistent (delta e).
Proof.
  assert (bytes_consistent zero_counters) as Hz by (split; vm_compute; reflexivity).
  assert (∀ v, inc 0 v = wrap 64 (inc 0 v + 0)) as Hw.
  { intros v. rewrite Z.add_0_r. unfold inc, wadd, wrap. by rewrite Zmod_mod. }
  unfold delta. destruct e as [idx v|idx v|v|v|v]; cbn [apply_counter].
  3-5: split; cbn [alloc_bytes free_bytes class_alloc_bytes class_free_bytes large_alloc_bytes
    large_dealloc_bytes HeapMetrics_on_large_alloc HeapMetrics_on_large_dealloc
    HeapMetrics_on_remote_free]; try apply Hz;
    change (sum_Z (class_alloc_bytes zero_counters)) with 0;
    change (sum_Z (class_free_bytes zero_counters)) with 0; rewrite Z.add_comm; apply Hw.
  all: unfold HeapMetrics_on_alloc, HeapMetrics_on_dealloc.
  all: destruct (arr_update _ idx (λ c, inc c 1)) as [l1|] eqn:E1; cbn [mbind res_bind]; [|done].
  all: destruct (arr_update _ idx (λ c, inc c v)) as [l2|] eqn:E2; cbn [mbind res_bind]; [|done].
  all: apply arr_update_inv in E2 as (x & ? & Hx & ->).
  all: apply lookup_replicate in Hx as [-> Hi].
  all: split; cbn [alloc_bytes free_bytes class_alloc_bytes class_free_bytes large_alloc_bytes
    large_dealloc_bytes]; try apply Hz; rewrite sum_insert_zero by done; apply Hw.
Qed.

Lemma foldr_consistent ds :
  Forall (λ d, class_arrays_ok d ∧ bytes_consistent d) ds →
  let h := foldr HeapMetrics_accumulate zero_counters ds in
  class_arrays_ok h ∧ bytes_consistent h.
Proof.
  induction 1 as [|d ds [Hd Hc] Hds [IHa IHc]].
  { split; [done|]. split; vm_compute; reflexivity. }
  cbn [foldr]. split; [|by apply consistent_accumulate].
  destruct Hd as (? & ? & ? & ?), IHa as (? & ? & ? & ?).
  split_and!; cbn; rewrite length_zip_with; lia.
Qed.

(** In every snapshot the bytes allocated are the bytes of the size classes
    plus the large bytes, likewise for the bytes freed (modulo 2^64). *)
Theorem snapshot_bytes_consistent (es : list metrics_event) (st : hm_store) (p : PoolMetrics)
    (s : MetricsSnapshot) :
  metrics_run metrics_init es = Ok (st, p) →
  PoolMetrics_aggregate_heap_metrics st p MetricsSnapshot_new = Ok s →
  alloc_bytes (ms_heaps s) =
    wrap 64 (sum_Z (class_alloc_bytes (ms_heaps s)) + large_alloc_bytes (ms_heaps s)) ∧
  free_bytes (ms_heaps s) =
    wrap 64 (sum_Z (class_free_bytes (ms_heaps s)) + large_dealloc_bytes (ms_heaps s)).
Proof.
  intros Hrun Hs. destruct (metrics_run_ok _ _ _ metrics_inv_init eq_refl Hrun) as [Hi Ht].
  destruct (aggregate_ok st p Hi) as (s' & Hs' & Hh). rewrite Hs in Hs'. injection Hs' as <-.
  rewrite Hh, Ht, total_init. apply foldr_consistent. apply Forall_forall. intros d Hd.
  apply list_elem_of_omap in Hd as (x & _ & Hx). destruct x as [| |ptr e]; try done.
  injection Hx as <-. split; [apply delta_arrays|apply delta_consistent].
Qed.

(** [finalize] reports the exact signed number of live objects of a class
    while fewer than 2^63 are, even when a snapshot sees more frees than
    allocations, and [allocated] never underflows. *)
Theorem finalize_live_exact (s : MetricsSnapshot) (i : nat) (a d : Z) :
  class_alloc_count (ms_heaps s) !! i = Some a →
  class_dealloc_count (ms_heaps s) !! i = Some d →
  uint 64 a → uint 64 d → - 2 ^ 63 ≤ a - d < 2 ^ 63 →
  class_live_count (MetricsSnapshot_finalize s) !! i = Some (a - d) ∧
  0 ≤ ms_allocated (MetricsSnapshot_finalize s).
Proof.
  intros Ha Hd Hua Hud Hr. split; [|cbn; unfold saturating_sub; lia].
  cbn [class_live_count MetricsSnapshot_finalize].
  erewrite lookup_zip_with, Ha, Hd. cbn. f_equal.
  unfold live_diff, cast_signed, wsub, wrap, uint in *. change (64 - 1) with 63.
  repeat case_bool; zdiv.
Qed.

(** ** Witnesses *)

(** Two heaps allocate; the first exits, so the second moves to its slot. *)
Definition demo_metrics : list metrics_event :=
  [MRegister 4096; MRegister 8192; MCount 4096 (CtAlloc 2 16); MCount 8192 (CtAlloc 2 16);
   MDeregister 4096; MCount 8192 (CtDealloc 2 16); MCount 8192 (CtLargeAlloc 65536)].

Definition demo_metrics_state : hm_store * PoolMetrics :=
  match metrics_run metrics_init demo_metrics with Ok s => s | Panic _ => metrics_init end.

Lemma snapshot_counts_every_event_witness :
  ∃ s, PoolMetrics_aggregate_heap_metrics (fst demo_metrics_state) (snd demo_metrics_state)
    MetricsSnapshot_new = Ok s ∧ alloc_bytes (ms_heaps s) = 65568.
Proof.
  destruct (snapshot_counts_every_event demo_metrics (fst demo_metrics_state)
    (snd demo_metrics_state)) as (s & Hs & Hh); [vm_compute; reflexivity|].
  exists s. split; [exact Hs|]. rewrite Hh. vm_compute. reflexivity.
Defined.

Lemma registry_total_witness :
  ∃ s, metrics_exec demo_metrics_state (MDeregister 8192) = Ok s.
Proof.
  destruct (registry_total demo_metrics (fst demo_metrics_state) (snd demo_metrics_state) 8192)
    as [Hd _]; [vm_compute; reflexivity|]. apply Hd. vm_compute. left.
Defined.

Lemma snapshot_bytes_consistent_witness :
  ∃ s, PoolMetrics_aggregate_heap_metrics (fst demo_metrics_state) (snd demo_metrics_state)
      MetricsSnapshot_new = Ok s ∧
    alloc_bytes (ms_heaps s) =
      wrap 64 (sum_Z (class_alloc_bytes (ms_heaps s)) + large_alloc_bytes (ms_heaps s)).
Proof.
  destruct (PoolMetrics_aggregate_heap_metrics (fst demo_metrics_state) (snd demo_metrics_state)
      MetricsSnapshot_new) as [s|] eqn:E; [|vm_compute in E; discriminate].
  exists s. split; [reflexivity|].
  eapply (snapshot_bytes_consistent demo_metrics); [|exact E]. vm_compute. reflexivity.
Defined.

Lemma finalize_live_exact_witness :
  class_live_count (MetricsSnapshot_finalize MetricsSnapshot_new) !! 0%nat = Some (0 - 0).
Proof.
  apply (finalize_live_exact MetricsSnapshot_new 0 0 0); vm_compute;
    first [reflexivity|split; congruence|split; reflexivity].
Defined.
