(* ===== verification/MetricsRace.v ===== *)
(** * Snapshots while the heaps count ([src/src/metrics.rs])

    A snapshot reads the counters of the registered heaps one by one, with
    [Relaxed] loads, while their owners go on counting with [inc], a load and a
    store: nothing makes the reads one instant.  [snap_step] interleaves the
    stores of any number of heaps with the reads, in the order of
    [accumulate_heap].  What a snapshot reports of each counter lies between the
    totals at its start and at its end ([snapshot_between]); but the counters of
    one snapshot belong to different instants ([snapshot_torn]). *)

From stdpp Require Import base numbers list gmap.
From Stdlib Require Import ZArith Lia.
From S2P Require Import Prelude SizeClass Metrics.

Local Open Scope Z_scope.
Local Open Scope clm_scope.

(** ** Counters by name *)

Inductive class_array := AllocCounts | DeallocCounts | AllocBytes | FreeBytes.

Inductive counter :=
  | CAllocBytes
  | CFreeBytes
  | CRemoteFree
  | CLargeCount
  | CLargeAlloc
  | CLargeDealloc
  | CClass (a : class_array) (i : nat).

#[export] Instance class_array_eq_dec : EqDecision class_array.
Proof. solve_decision. Defined.
#[export] Instance counter_eq_dec : EqDecision counter.
Proof. solve_decision. Defined.

Definition counter_ok (c : counter) : Prop :=
  match c with CClass _ i => (i < Z.to_nat NUM_CLASSES)%nat | _ => True end.

Definition array_of (h : HeapMetrics) (a : class_array) : list Z :=
  match a with
  | AllocCounts => class_alloc_count h
  | DeallocCounts => class_dealloc_count h
  | AllocBytes => class_alloc_bytes h
  | FreeBytes => class_free_bytes h
  end.

(** [load]. *)
Definition cell (h : HeapMetrics) (c : counter) : Z :=
  match c with
  | CAllocBytes => alloc_bytes h
  | CFreeBytes => free_bytes h
  | CRemoteFree => remote_free_count h
  | CLargeCount => large_alloc_count h
  | CLargeAlloc => large_alloc_bytes h
  | CLargeDealloc => large_dealloc_bytes h
  | CClass a i => default 0 (array_of h a !! i)
  end.

(** [store]. *)
Definition set_cell (h : HeapMetrics) (c : counter) (v : Z) : HeapMetrics :=
  let scalar c0 x := if decide (c = c0) then v else x in
  let array a0 l := match c with CClass a i => if decide (a = a0) then <[i := v]> l else l | _ => l end in
  mkHeapMetrics (registry_idx h) (scalar CAllocBytes (alloc_bytes h)) (scalar CFreeBytes (free_bytes h))
    (array AllocCounts (class_alloc_count h)) (array DeallocCounts (class_dealloc_count h))
    (array AllocBytes (class_alloc_bytes h)) (array FreeBytes (class_free_bytes h))
    (scalar CRemoteFree (remote_free_count h)) (scalar CLargeCount (large_alloc_count h))
    (scalar CLargeAlloc (large_alloc_bytes h)) (scalar CLargeDealloc (large_dealloc_bytes h)).

(** ** The interleaving *)

(** The calls of [inc] that an event makes, in order. *)
Definition event_incs (e : counter_event) : list (counter * Z) :=
  match e with
  | CtAlloc idx size => [(CAllocBytes, size); (CClass AllocCounts (Z.to_nat idx), 1); (CClass AllocBytes (Z.to_nat idx), size)]
  | CtDealloc idx size => [(CFreeBytes, size); (CClass DeallocCounts (Z.to_nat idx), 1); (CClass FreeBytes (Z.to_nat idx), size)]
  | CtLargeAlloc size => [(CAllocBytes, size); (CLargeCount, 1); (CLargeAlloc, size)]
  | CtLargeDealloc size => [(CFreeBytes, size); (CLargeDealloc, size)]
  | CtRemoteFree count => [(CRemoteFree, count)]
  end.

Definition do_inc (h : HeapMetrics) (w : counter * Z) : HeapMetrics :=
  set_cell h (fst w) (inc (cell h (fst w)) (snd w)).

(** The reads of [accumulate_heap], and one of them. *)
Definition read_order : list counter :=
  [CAllocBytes; CFreeBytes; CRemoteFree; CLargeCount; CLargeAlloc; CLargeDealloc] ++
  (i ← seq 0 (Z.to_nat NUM_CLASSES);
   [CClass AllocCounts i; CClass DeallocCounts i; CClass AllocBytes i; CClass FreeBytes i]).

Definition do_read (acc h : HeapMetrics) (c : counter) : HeapMetrics :=
  set_cell acc c (cell acc c +[64] cell h c).

(** The registered heaps, what each owner still has to store, what the snapshot
    still has to read and what it has added up.  The lock of the pool keeps the
    registry as it is. *)
Record snap_sys := mkSnap {
  sn_heaps : list HeapMetrics;
  sn_pending : list (list (counter * Z));
  sn_reads : list (nat * counter);
  sn_acc : HeapMetrics;
}.

Inductive snap_event := SnStore (c : counter) (v : Z) | SnOther.

Definition event_ok (e : counter_event) : Prop :=
  Forall (λ w, counter_ok (fst w) ∧ 0 ≤ snd w) (event_incs e).

Inductive snap_step : snap_sys → snap_event → snap_sys → Prop :=
  | snap_begin hs ps rs acc i e :
      ps !! i = Some [] → event_ok e →
      snap_step (mkSnap hs ps rs acc) SnOther (mkSnap hs (<[i := event_incs e]> ps) rs acc)
  | snap_store hs ps rs acc i h c v ws :
      hs !! i = Some h → ps !! i = Some ((c, v) :: ws) →
      snap_step (mkSnap hs ps rs acc) (SnStore c v) (mkSnap (<[i := do_inc h (c, v)]> hs) (<[i := ws]> ps) rs acc)
  | snap_read hs ps rs acc i h c :
      hs !! i = Some h →
      snap_step (mkSnap hs ps ((i, c) :: rs) acc) SnOther (mkSnap hs ps rs (do_read acc h c)).

(** The reads of [aggregate_heap_metrics] after the dead heaps. *)
Definition snapshot_reads (n : nat) : list (nat * counter) := i ← seq 0 n; (i,.) <$> read_order.

(** ** Cells *)

Lemma array_of_set h c v a :
  array_of (set_cell h c v) a =
  match c with CClass a' i => if decide (a' = a) then <[i := v]> (array_of h a) else array_of h a | _ => array_of h a end.
Proof. by destruct c, a. Qed.

Lemma cell_set_ne h c c' v : c ≠ c' → cell (set_cell h c v) c' = cell h c'.
Proof.
  intros Hne. destruct c' as [| | | | | |a' i']; cbn; try by rewrite decide_False by done.
  rewrite array_of_set. destruct c as [| | | | | |a i]; try done. case_decide; [|done]. subst a'.
  rewrite list_lookup_insert_ne by congruence. done.
Qed.

Lemma array_of_length h a : class_arrays_ok h → length (array_of h a) = Z.to_nat NUM_CLASSES.
Proof. intros (? & ? & ? & ?). by destruct a. Qed.

Lemma set_cell_arrays h c v : class_arrays_ok h → class_arrays_ok (set_cell h c v).
Proof.
  intros Hh. assert (∀ a, length (array_of (set_cell h c v) a) = Z.to_nat NUM_CLASSES) as Ha.
  { intros a. rewrite array_of_set. destruct c; try case_decide; rewrite ?length_insert; by apply array_of_length. }
  exact (conj (Ha AllocCounts) (conj (Ha DeallocCounts) (conj (Ha AllocBytes) (Ha FreeBytes)))).
Qed.

Lemma cell_set_eq h c v : class_arrays_ok h → counter_ok c → cell (set_cell h c v) c = v.
Proof.
  intros Hh Hc. destruct c as [| | | | | |a i]; try done. cbn. rewrite array_of_set, decide_True by done.
  rewrite list_lookup_insert_eq; [done|]. by rewrite array_of_length.
Qed.

Lemma hm_ext h h' :
  class_arrays_ok h → class_arrays_ok h' → registry_idx h = registry_idx h' →
  (∀ c, counter_ok c → cell h c = cell h' c) → h = h'.
Proof.
  intros Hh Hh' Hr Hc.
  assert (∀ a, array_of h a = array_of h' a) as Ha.
  { intros a. apply list_eq_same_length with (length (array_of h' a)); [done|by rewrite !array_of_length|].
    intros i x y Hi Hx Hy. specialize (Hc (CClass a i)). cbn in Hc. rewrite Hx, Hy in Hc. apply Hc.
    by rewrite array_of_length in Hi. }
  pose proof (Ha AllocCounts) as H1. pose proof (Ha DeallocCounts) as H2. pose proof (Ha AllocBytes) as H3. pose proof (Ha FreeBytes) as H4.
  pose proof (Hc CAllocBytes I) as H5. pose proof (Hc CFreeBytes I) as H6. pose proof (Hc CRemoteFree I) as H7.
  pose proof (Hc CLargeCount I) as H8. pose proof (Hc CLargeAlloc I) as H9. pose proof (Hc CLargeDealloc I) as H10.
  destruct h, h'. cbn in *. by subst.
Qed.

(** ** Calls that nothing interrupts *)

(** An event is the calls of [inc] it lists. *)
Lemma event_incs_exact h e h' : apply_counter h e = Ok h' → foldl do_inc h (event_incs e) = h'.
Proof.
  assert (∀ l z f (l' : list Z), arr_update l z f = Ok l' → l' = <[Z.to_nat z := f (default 0 (l !! Z.to_nat z))]> l) as Hup.
  { intros l z f l' (x & _ & Hx & ->)%arr_update_inv. by rewrite Hx. }
  destruct e as [idx size|idx size|size|size|n]; cbn [apply_counter event_incs]; intros E.
  3-5: injection E as <-; by destruct h.
  all: unfold HeapMetrics_on_alloc, HeapMetrics_on_dealloc in E; bind_inv E as l1 E1; bind_inv E as l2 E2;
    apply Hup in E1 as ->; apply Hup in E2 as ->; injection E as <-; by destruct h.
Qed.

Lemma read_order_complete c : counter_ok c → c ∈ read_order.
Proof.
  intros Hc. unfold read_order. apply elem_of_app. destruct c as [| | | | | |a i]; try (left; set_solver).
  right. apply list_elem_of_bind. exists i. split; [destruct a; set_solver|].
  apply elem_of_seq. cbn in Hc. lia.
Qed.

Lemma read_order_NoDup : NoDup read_order.
Proof. apply (bool_decide_unpack _). by vm_compute. Qed.

Lemma read_order_ok c : c ∈ read_order → counter_ok c.
Proof.
  unfold read_order. intros [Hc|Hc]%elem_of_app.
  - by repeat (apply elem_of_cons in Hc as [->|Hc]; [done|]); apply elem_of_nil in Hc.
  - apply list_elem_of_bind in Hc as (i & Hc & Hi%elem_of_seq).
    by repeat (apply elem_of_cons in Hc as [->|Hc]; [cbn; lia|]); apply elem_of_nil in Hc.
Qed.

Lemma cell_accumulate acc h c :
  class_arrays_ok acc → class_arrays_ok h → counter_ok c →
  cell (HeapMetrics_accumulate acc h) c = cell acc c +[64] cell h c.
Proof.
  intros Ha Hh Hc. destruct c as [| | | | | |a i]; try done. cbn.
  replace (array_of (HeapMetrics_accumulate acc h) a) with (zip_with (wadd 64) (array_of acc a) (array_of h a)) by by destruct a.
  destruct (lookup_lt_is_Some_2 (array_of acc a) i) as [x Hx]; [by rewrite array_of_length|].
  destruct (lookup_lt_is_Some_2 (array_of h a) i) as [y Hy]; [by rewrite array_of_length|].
  rewrite lookup_zip_with, Hx. cbn. by rewrite Hy.
Qed.

Lemma reads_cells h rs : ∀ acc,
  class_arrays_ok acc → NoDup rs → Forall counter_ok rs →
  class_arrays_ok (foldl (λ acc c, do_read acc h c) acc rs) ∧
  registry_idx (foldl (λ acc c, do_read acc h c) acc rs) = registry_idx acc ∧
  ∀ c, cell (foldl (λ acc c, do_read acc h c) acc rs) c = if decide (c ∈ rs) then cell acc c +[64] cell h c else cell acc c.
Proof.
  induction rs as [|c0 rs IH]; intros acc Ha Hnd Hok; [done|].
  apply NoDup_cons in Hnd as [Hnot Hnd]. apply Forall_cons in Hok as [Hok0 Hok]. cbn [foldl].
  destruct (IH (do_read acc h c0)) as (Ha' & Hr & Hc); [by apply set_cell_arrays|done|done|].
  split; [done|]. split; [by rewrite Hr|]. intros c. rewrite Hc. unfold do_read.
  destruct (decide (c = c0)) as [->|Hne].
  - rewrite decide_False by done. rewrite decide_True by by left. by rewrite cell_set_eq.
  - rewrite cell_set_ne by done. destruct (decide (c ∈ rs)).
    + by rewrite decide_True by by right.
    + rewrite decide_False; [done|]. set_solver.
Qed.

(** [accumulate_heap] is the reads in their order. *)
Lemma reads_exact acc h :
  class_arrays_ok acc → class_arrays_ok h →
  foldl (λ acc c, do_read acc h c) acc read_order = HeapMetrics_accumulate acc h.
Proof.
  intros Ha Hh.
  destruct (reads_cells h read_order acc Ha read_order_NoDup) as (Ha' & Hr & Hc); [apply Forall_forall; apply read_order_ok|].
  apply hm_ext; [done| |done|].
  - destruct Ha as (? & ? & ? & ?), Hh as (? & ? & ? & ?). split_and!; cbn; rewrite length_zip_with; lia.
  - intros c Hok. rewrite Hc, cell_accumulate by done. by rewrite decide_True by by apply read_order_complete.
Qed.

(** ** What a snapshot reports *)

Fixpoint sum_over {A} (f : A → Z) (l : list A) : Z :=
  match l with [] => 0 | x :: l => f x + sum_over f l end.

(** The heaps' total of a counter, and what of it the snapshot has yet to read. *)
Definition cells_total (hs : list HeapMetrics) (c : counter) : Z := sum_over (λ h, cell h c) hs.

Definition cell_of (hs : list HeapMetrics) (c : counter) (i : nat) : Z :=
  match hs !! i with Some h => cell h c | None => 0 end.

Definition unread (rs : list (nat * counter)) (c : counter) : list nat :=
  omap (λ r, if decide (snd r = c) then Some (fst r) else None) rs.

(** What the run stores into a counter. *)
Definition stored (es : list snap_event) (c : counter) : Z :=
  sum_over (λ e, match e with SnStore c' v => if decide (c' = c) then v else 0 | SnOther => 0 end) es.

Lemma sum_over_nonneg {A} (f : A → Z) l : (∀ x, x ∈ l → 0 ≤ f x) → 0 ≤ sum_over f l.
Proof.
  induction l as [|x l IH]; intros Hf; cbn; [lia|]. pose proof (Hf x ltac:(by left)).
  assert (0 ≤ sum_over f l) by (apply IH; intros y Hy; apply Hf; by right). lia.
Qed.

Lemma cells_total_insert hs c i h h' :
  hs !! i = Some h → cells_total (<[i := h']> hs) c = cells_total hs c - cell h c + cell h' c.
Proof.
  unfold cells_total. revert i. induction hs as [|h0 hs IH]; intros [|i] Hi; [done|done| |].
  - injection Hi as ->. change (<[0%nat := h']> (h :: hs)) with (h' :: hs). cbn [sum_over]. lia.
  - change (<[S i := h']> (h0 :: hs)) with (h0 :: <[i := h']> hs). cbn [sum_over]. rewrite (IH i Hi). lia.
Qed.

Lemma cell_le_total hs c i : Forall (λ h, 0 ≤ cell h c) hs → cell_of hs c i ≤ cells_total hs c.
Proof.
  unfold cell_of, cells_total. intros Hn. revert i. induction Hn as [|h hs Hh Hn IH]; intros i; [done|].
  assert (0 ≤ sum_over (λ h, cell h c) hs) by (apply sum_over_nonneg; by apply Forall_forall).
  destruct i as [|i]; cbn [sum_over].
  - change ((h :: hs) !! 0%nat) with (Some h). cbn. lia.
  - change ((h :: hs) !! S i) with (hs !! i). specialize (IH i). lia.
Qed.

(** A store to heap [i] is in the sum over the unread heaps if [i] is. *)
Lemma unread_insert hs c i h h' l :
  hs !! i = Some h → NoDup l → cell h c ≤ cell h' c →
  sum_over (cell_of hs c) l ≤ sum_over (cell_of (<[i := h']> hs) c) l ≤ sum_over (cell_of hs c) l + (cell h' c - cell h c).
Proof.
  intros Hi Hnd Hle. assert (∀ j, j ≠ i → cell_of (<[i := h']> hs) c j = cell_of hs c j) as Hne.
  { intros j Hj. unfold cell_of. by rewrite list_lookup_insert_ne. }
  assert (cell_of (<[i := h']> hs) c i = cell h' c ∧ cell_of hs c i = cell h c) as [E1 E2].
  { unfold cell_of. rewrite list_lookup_insert_eq by (by eapply lookup_lt_Some). by rewrite Hi. }
  assert (∀ l, i ∉ l → sum_over (cell_of (<[i := h']> hs) c) l = sum_over (cell_of hs c) l) as Hout.
  { induction l0 as [|j l0 IH]; [done|]. intros [Hj Hl]%not_elem_of_cons. cbn. rewrite Hne by done.
    specialize (IH Hl). lia. }
  induction Hnd as [|j l Hj Hnd IH]; cbn; [lia|]. destruct (decide (j = i)) as [->|Hji].
  - rewrite E1, E2. pose proof (Hout l Hj). lia.
  - rewrite Hne by done. lia.
Qed.

Lemma sum_over_seq hs c : sum_over (cell_of hs c) (seq 0 (length hs)) = cells_total hs c.
Proof.
  assert (∀ k l, (∀ i, hs !! (k + i)%nat = l !! i) → sum_over (cell_of hs c) (seq k (length l)) = cells_total l c) as Hk.
  { intros k l. revert k. induction l as [|h l IH]; intros k Hl; [done|]. cbn.
    assert (hs !! k = Some h) as Hh by (specialize (Hl 0%nat); by rewrite Nat.add_0_r in Hl).
    specialize (IH (S k)). unfold cells_total in *. unfold cell_of at 1. rewrite Hh, IH; [done|].
    intros i. specialize (Hl (S i)). by rewrite Nat.add_succ_r in Hl. }
  by apply Hk.
Qed.

Lemma unread_cons (i : nat) c' rs c : unread ((i, c') :: rs) c = if decide (c' = c) then i :: unread rs c else unread rs c.
Proof. unfold unread. cbn [omap list_omap fst snd]. by case_decide. Qed.

Lemma unread_one (k : nat) l c :
  NoDup l → unread ((k,.) <$> l) c = if decide (c ∈ l) then [k] else [].
Proof.
  induction l as [|c0 l IH]; intros Hnd; [done|]. apply NoDup_cons in Hnd as [Hnot Hnd].
  rewrite fmap_cons, unread_cons, (IH Hnd). destruct (decide (c0 = c)) as [->|Hne].
  - rewrite decide_False by done. by rewrite decide_True by by left.
  - destruct (decide (c ∈ l)); [by rewrite decide_True by by right|]. rewrite decide_False; [done|]. set_solver.
Qed.

Lemma unread_all n c : counter_ok c → unread (snapshot_reads n) c = seq 0 n.
Proof.
  intros Hc. unfold snapshot_reads. generalize 0%nat as k. induction n as [|n IH]; intros k; [done|].
  cbn [seq]. rewrite bind_cons. unfold unread. rewrite omap_app. fold (unread ((k,.) <$> read_order) c).
  rewrite (unread_one k _ c read_order_NoDup), decide_True by by apply read_order_complete.
  specialize (IH (S k)). unfold unread in IH. by rewrite IH.
Qed.

(** Between two steps of a run from [hs0] and [acc0], for one counter. *)
Record snap_inv (c : counter) (hs0 : list HeapMetrics) (acc0 : Z) (s : snap_sys) : Prop := {
  sn_cells_ok : Forall (λ h, class_arrays_ok h ∧ 0 ≤ cell h c) (sn_heaps s);
  sn_pending_ok : Forall (Forall (λ w, counter_ok (fst w) ∧ 0 ≤ snd w)) (sn_pending s);
  sn_acc_ok : class_arrays_ok (sn_acc s) ∧ 0 ≤ cell (sn_acc s) c;
  sn_reads_ok : Forall (λ r, counter_ok (snd r)) (sn_reads s);
  sn_unread_nodup : NoDup (unread (sn_reads s) c);
  sn_grow i : cell_of hs0 c i ≤ cell_of (sn_heaps s) c i;
  sn_low : acc0 + cells_total hs0 c ≤ cell (sn_acc s) c + sum_over (cell_of hs0 c) (unread (sn_reads s) c);
  sn_high : cell (sn_acc s) c + sum_over (cell_of (sn_heaps s) c) (unread (sn_reads s) c) ≤ acc0 + cells_total (sn_heaps s) c;
}.

Section bounds.
Context (c : counter) (Hc : counter_ok c) (hs0 : list HeapMetrics) (acc0 : Z) (Hacc0 : 0 ≤ acc0).

Lemma unread_nonneg hs rs : Forall (λ h, class_arrays_ok h ∧ 0 ≤ cell h c) hs → 0 ≤ sum_over (cell_of hs c) (unread rs c).
Proof.
  intros Hhs. apply sum_over_nonneg. intros i _. unfold cell_of. destruct (hs !! i) as [h|] eqn:Hi; [|done].
  rewrite Forall_lookup in Hhs. by apply (Hhs i h).
Qed.

Lemma cells_total_nonneg hs : Forall (λ h, class_arrays_ok h ∧ 0 ≤ cell h c) hs → 0 ≤ cells_total hs c.
Proof. intros Hhs. apply sum_over_nonneg. rewrite Forall_forall in Hhs. intros h Hh. by apply Hhs. Qed.

Lemma snap_inv_store hs ps rs acc i h c' v ws :
  snap_inv c hs0 acc0 (mkSnap hs ps rs acc) → hs !! i = Some h → ps !! i = Some ((c', v) :: ws) →
  acc0 + cells_total hs c + stored [SnStore c' v] c < 2 ^ 64 →
  snap_inv c hs0 acc0 (mkSnap (<[i := do_inc h (c', v)]> hs) (<[i := ws]> ps) rs acc) ∧
  cells_total (<[i := do_inc h (c', v)]> hs) c = cells_total hs c + stored [SnStore c' v] c ∧
  0 ≤ stored [SnStore c' v] c.
Proof.
  intros [Hcells Hps Hacc Hrs Hun Hgrow Hlow Hhigh] Hi Hp Hov. cbn [sn_heaps sn_pending sn_reads sn_acc] in *.
  pose proof (proj1 (Forall_lookup _ _) Hcells i h Hi) as [Harr Hpos].
  pose proof (proj1 (Forall_lookup _ _) Hps i _ Hp) as [[Hok Hv] Hws]%Forall_cons. cbn in Hok, Hv.
  pose proof (cell_le_total hs c i) as Hle. unfold cell_of in Hle. rewrite Hi in Hle.
  specialize (Hle ltac:(eapply Forall_impl; [exact Hcells|]; by intros ? [_ ?])).
  assert (cell (do_inc h (c', v)) c = cell h c + stored [SnStore c' v] c ∧ 0 ≤ stored [SnStore c' v] c) as [Hcell Hst].
  { unfold do_inc. cbn in Hov |- *. case_decide; [subst c'|rewrite cell_set_ne by done; lia].
    rewrite cell_set_eq by done. unfold inc. rewrite wadd_small by (unfold uint; lia). lia. }
  split; [|split; [rewrite (cells_total_insert hs c i h) by done; lia|done]].
  destruct (unread_insert hs c i h (do_inc h (c', v)) (unread rs c) Hi Hun ltac:(lia)) as [Hu1 Hu2].
  split; cbn [sn_heaps sn_pending sn_reads sn_acc]; try done.
  - apply Forall_insert; [done|]. split; [by apply set_cell_arrays|lia].
  - by apply Forall_insert.
  - intros j. specialize (Hgrow j). unfold cell_of in *. destruct (decide (j = i)) as [->|Hne].
    + rewrite list_lookup_insert_eq by (by eapply lookup_lt_Some). rewrite Hi in Hgrow. lia.
    + by rewrite list_lookup_insert_ne.
  - rewrite (cells_total_insert hs c i h) by done. lia.
Qed.

Lemma snap_inv_read hs ps rs acc i c' h :
  snap_inv c hs0 acc0 (mkSnap hs ps ((i, c') :: rs) acc) → hs !! i = Some h → acc0 + cells_total hs c < 2 ^ 64 →
  snap_inv c hs0 acc0 (mkSnap hs ps rs (do_read acc h c')).
Proof.
  intros [Hcells Hps [Harr Hpos] Hrs Hun Hgrow Hlow Hhigh] Hi Hov. cbn [sn_heaps sn_pending sn_reads sn_acc] in *.
  apply Forall_cons in Hrs as [Hok Hrs]. cbn in Hok. rewrite unread_cons in Hun, Hlow, Hhigh.
  pose proof (unread_nonneg hs rs Hcells) as Hrest. pose proof (proj1 (Forall_lookup _ _) Hcells i h Hi) as [_ Hh].
  specialize (Hgrow i) as Hg. unfold cell_of in Hg at 2. rewrite Hi in Hg. unfold do_read.
  destruct (decide (c' = c)) as [->|Hne].
  - apply NoDup_cons in Hun as [_ Hun]. cbn [sum_over] in Hlow, Hhigh. unfold cell_of at 1 in Hhigh. rewrite Hi in Hhigh.
    assert (cell (set_cell acc c (cell acc c +[64] cell h c)) c = cell acc c + cell h c) as Hcell.
    { rewrite cell_set_eq by done. apply wadd_small. unfold uint. lia. }
    split; cbn [sn_heaps sn_pending sn_reads sn_acc]; try done; rewrite ?Hcell; try lia. split; [by apply set_cell_arrays|lia].
  - assert (cell (set_cell acc c' (cell acc c' +[64] cell h c')) c = cell acc c) as Hcell by by apply cell_set_ne.
    split; cbn [sn_heaps sn_pending sn_reads sn_acc]; try done; rewrite ?Hcell; try done. split; [by apply set_cell_arrays|done].
Qed.

Lemma snap_inv_step s e s' :
  snap_inv c hs0 acc0 s → snap_step s e s' → acc0 + cells_total (sn_heaps s) c + stored [e] c < 2 ^ 64 →
  snap_inv c hs0 acc0 s' ∧ cells_total (sn_heaps s') c = cells_total (sn_heaps s) c + stored [e] c ∧ 0 ≤ stored [e] c.
Proof.
  intros Hinv Hstep. destruct Hstep as [hs ps rs acc i e Hp He|hs ps rs acc i h c' v ws Hi Hp|hs ps rs acc i h c' Hi]; cbn [sn_heaps]; intros Hov.
  - split; [|cbn; lia]. destruct Hinv. split; try done. by apply Forall_insert.
  - by eapply snap_inv_store.
  - split; [|cbn; lia]. eapply snap_inv_read; [exact Hinv|done|]. cbn in Hov. lia.
Qed.

Lemma stored_nonneg s es s' :
  run snap_step s es s' → Forall (Forall (λ w, counter_ok (fst w) ∧ 0 ≤ snd w)) (sn_pending s) → 0 ≤ stored es c.
Proof.
  induction 1 as [s|s1 e s2 es s3 Hstep _ IH]; intros Hps; [done|]. unfold stored in *. cbn [sum_over].
  destruct Hstep as [hs ps rs acc i e Hp He|hs ps rs acc i h c' v ws Hi Hp|hs ps rs acc i h c' Hi]; cbn [sn_pending] in *.
  - specialize (IH (Forall_insert _ _ _ _ Hps He)). lia.
  - pose proof (proj1 (Forall_lookup _ _) Hps i _ Hp) as [[_ Hv] Hws]%Forall_cons. cbn in Hv.
    specialize (IH (Forall_insert _ _ _ _ Hps Hws)). case_decide; lia.
  - specialize (IH Hps). lia.
Qed.

Lemma snap_inv_run s es s' :
  snap_inv c hs0 acc0 s → run snap_step s es s' → acc0 + cells_total (sn_heaps s) c + stored es c < 2 ^ 64 →
  snap_inv c hs0 acc0 s'.
Proof.
  intros Hinv Hrun. induction Hrun as [s|s1 e s2 es s3 Hstep Hrun IH]; intros Hov; [done|].
  assert (stored (e :: es) c = stored [e] c + stored es c) as Hst by (unfold stored; cbn [sum_over]; lia).
  pose proof (stored_nonneg _ _ _ (run_cons _ _ _ _ _ _ Hstep (run_nil _ s2)) (sn_pending_ok _ _ _ _ Hinv)) as He.
  assert (0 ≤ stored es c) as Hes.
  { eapply stored_nonneg; [exact Hrun|]. pose proof (sn_pending_ok _ _ _ _ Hinv) as Hps.
    destruct Hstep as [hs ps rs acc i e Hp Hev|hs ps rs acc i h c' v ws Hi Hp|]; cbn [sn_pending] in *; [by apply Forall_insert| |done].
    apply Forall_insert; [done|]. by pose proof (proj1 (Forall_lookup _ _) Hps i _ Hp) as [_ Hws]%Forall_cons. }
  destruct (snap_inv_step s1 e s2 Hinv Hstep) as (Hinv2 & Htot & _); [lia|]. apply IH; [done|lia].
Qed.
End bounds.

(** ** Schedules *)

Inductive snap_action := DoBegin (i : nat) (e : counter_event) | DoStore (i : nat) | DoRead.

Definition snap_act (act : snap_action) (s : snap_sys) : option (snap_event * snap_sys) :=
  let '(mkSnap hs ps rs acc) := s in
  match act with
  | DoBegin i e =>
      match ps !! i with Some [] => Some (SnOther, mkSnap hs (<[i := event_incs e]> ps) rs acc) | _ => None end
  | DoStore i =>
      h ← hs !! i;
      match ps !! i with
      | Some ((c, v) :: ws) => Some (SnStore c v, mkSnap (<[i := do_inc h (c, v)]> hs) (<[i := ws]> ps) rs acc)
      | _ => None
      end
  | DoRead =>
      match rs with
      | (i, c) :: rs => h ← hs !! i; Some (SnOther, mkSnap hs ps rs (do_read acc h c))
      | [] => None
      end
  end.

Definition action_ok (act : snap_action) : Prop := match act with DoBegin _ e => event_ok e | _ => True end.

Fixpoint snap_exec (acts : list snap_action) (s : snap_sys) : option (list snap_event * snap_sys) :=
  match acts with
  | [] => Some ([], s)
  | act :: acts => '(e, s) ← snap_act act s; '(es, s) ← snap_exec acts s; Some (e :: es, s)
  end.

Lemma snap_act_sound act s e s' : action_ok act → snap_act act s = Some (e, s') → snap_step s e s'.
Proof.
  destruct s as [hs ps rs acc]. intros Hok. destruct act as [i ev|i|]; cbn [snap_act].
  - destruct (ps !! i) as [[|w ws]|] eqn:Hp; [|done..]. intros [= <- <-]. by apply snap_begin.
  - intros (h & Hi & E)%bind_Some. destruct (ps !! i) as [[|[c v] ws]|] eqn:Hp; [done| |done].
    injection E as <- <-. by apply snap_store.
  - destruct rs as [|[i c] rs]; [done|]. intros (h & Hi & [= <- <-])%bind_Some. by apply snap_read.
Qed.

Lemma snap_exec_sound acts : ∀ s es s',
  Forall action_ok acts → snap_exec acts s = Some (es, s') → run snap_step s es s'.
Proof.
  induction acts as [|act acts IH]; intros s es s' Hok; cbn [snap_exec]; [intros [= <- <-]; constructor|].
  apply Forall_cons in Hok as [Hok1 Hok].
  intros ([e s1] & H1%snap_act_sound & ([es1 s2] & H2%IH & [= <- <-])%bind_Some)%bind_Some; [|done..]. by eapply run_cons.
Qed.

(** ** Properties *)

Lemma hm_ok_cell h c : hm_ok h → class_arrays_ok h ∧ 0 ≤ cell h c.
Proof.
  intros (Ha & H1 & H2 & H3 & H4 & Hs). split; [done|].
  repeat match goal with H : Forall _ (_ :: _) |- _ => apply Forall_cons in H as [[? _] H] end.
  destruct c as [| | | | | |a i]; try done. cbn. destruct (array_of h a !! i) as [x|] eqn:Hx; [|done]. cbn.
  destruct a; cbn in Hx; [eapply Forall_lookup_1 in H1 as [? _]|eapply Forall_lookup_1 in H2 as [? _]
    |eapply Forall_lookup_1 in H3 as [? _]|eapply Forall_lookup_1 in H4 as [? _]]; done.
Qed.

(** C29. A snapshot taken while any number of heaps count, each store and each
    read at any time: as long as nothing overflows, every counter it reports is
    at least the total of all heaps when it started to read and at most the
    total when it stopped, so that what does not change meanwhile is exact. *)
Theorem snapshot_between (hs : list HeapMetrics) (ps : list (list (counter * Z))) (acc : HeapMetrics) es s c :
  Forall hm_ok hs → hm_ok acc → Forall (Forall (λ w, counter_ok (fst w) ∧ 0 ≤ snd w)) ps →
  run snap_step (mkSnap hs ps (snapshot_reads (length hs)) acc) es s → sn_reads s = [] →
  counter_ok c → cell acc c + cells_total hs c + stored es c < 2 ^ 64 →
  cell acc c + cells_total hs c ≤ cell (sn_acc s) c ≤ cell acc c + cells_total (sn_heaps s) c.
Proof.
  intros Hhs Hacc Hps Hrun Hend Hc Hov. destruct (hm_ok_cell acc c Hacc) as [Harr Hpos].
  assert (snap_inv c hs (cell acc c) (mkSnap hs ps (snapshot_reads (length hs)) acc)) as Hinv.
  { split; cbn [sn_heaps sn_pending sn_reads sn_acc]; rewrite ?unread_all, ?sum_over_seq by done; try done; try lia.
    - eapply Forall_impl; [exact Hhs|]. intros h. apply hm_ok_cell.
    - apply Forall_forall. intros [i c'] (j & Hin & _)%list_elem_of_bind.
      apply list_elem_of_fmap in Hin as (c1 & [= -> ->] & Hin). by apply read_order_ok.
    - apply NoDup_seq. }
  destruct (snap_inv_run c hs (cell acc c) Hpos _ _ _ Hinv Hrun Hov) as [_ _ _ _ _ _ Hlow Hhigh].
  rewrite Hend in Hlow, Hhigh. cbn in Hlow, Hhigh. lia.
Qed.

(** ** One snapshot, several instants *)

(** A heap that has counted nothing allocates a block of the first class and
    frees it, between the snapshot's loads of the two counts. *)
Definition torn_schedule : list snap_action :=
  replicate 7 DoRead ++ [DoBegin 0 (CtAlloc 0 8); DoStore 0; DoStore 0; DoStore 0;
    DoBegin 0 (CtDealloc 0 8); DoStore 0; DoStore 0; DoStore 0] ++ replicate 195 DoRead.

Definition torn_init : snap_sys := mkSnap [zero_counters] [[]] (snapshot_reads 1) zero_counters.

(** What the snapshot then says of the live blocks of the class. *)
Definition torn_live (s : snap_sys) : Z :=
  live_diff (cell (sn_acc s) (CClass AllocCounts 0)) (cell (sn_acc s) (CClass DeallocCounts 0)).

Definition torn_run : option (list snap_event * snap_sys) := snap_exec torn_schedule torn_init.

Definition torn_test (r : option (list snap_event * snap_sys)) : bool :=
  match r with
  | Some (es, s) =>
      bool_decide (sn_reads s = []) && (torn_live s =? -1) &&
      (live_diff (cells_total (sn_heaps s) (CClass AllocCounts 0)) (cells_total (sn_heaps s) (CClass DeallocCounts 0)) =? 0)
  | None => false
  end.

Lemma torn_ok : Forall action_ok torn_schedule.
Proof.
  assert (event_ok (CtAlloc 0 8) ∧ event_ok (CtDealloc 0 8)) as [Ha Hd].
  { split; repeat constructor; cbn; try lia; by vm_compute. }
  unfold torn_schedule. rewrite !Forall_app. split_and!; try by apply Forall_replicate. by repeat constructor.
Qed.

(** A snapshot may report minus one live blocks: the free of the block is in it
    and its allocation is not. *)
Theorem snapshot_torn :
  ∃ es s, run snap_step torn_init es s ∧ sn_reads s = [] ∧ torn_live s = -1 ∧
    live_diff (cells_total (sn_heaps s) (CClass AllocCounts 0)) (cells_total (sn_heaps s) (CClass DeallocCounts 0)) = 0.
Proof.
  assert (torn_test torn_run = true) as Ht by (vm_compute; reflexivity). unfold torn_test in Ht.
  destruct torn_run as [[es s]|] eqn:E; [|done]. apply andb_true_iff in Ht as [[Hr%bool_decide_eq_true Hl%Z.eqb_eq]%andb_true_iff Hz%Z.eqb_eq].
  exists es, s. split; [|done]. exact (snap_exec_sound _ _ _ _ torn_ok E).
Qed.

(** ** Witness *)

Lemma snapshot_run :
  ∃ es s, run snap_step torn_init es s ∧ sn_reads s = [] ∧ stored es (CClass DeallocCounts 0) = 1.
Proof.
  assert ((match torn_run with Some (es, s) => bool_decide (sn_reads s = []) && (stored es (CClass DeallocCounts 0) =? 1) | None => false end) = true)
    as Ht by (vm_compute; reflexivity).
  destruct torn_run as [[es s]|] eqn:E; [|done]. apply andb_true_iff in Ht as [Hr%bool_decide_eq_true Hs%Z.eqb_eq].
  exists es, s. split; [|done]. exact (snap_exec_sound _ _ _ _ torn_ok E).
Qed.

Lemma zero_counters_ok : hm_ok zero_counters.
Proof. exact hm_ok_zero. Qed.

Lemma snapshot_between_witness :
  ∃ es s, run snap_step torn_init es s ∧
    0 ≤ cell (sn_acc s) (CClass DeallocCounts 0) ≤ cells_total (sn_heaps s) (CClass DeallocCounts 0).
Proof.
  destruct snapshot_run as (es & s & Hrun & Hend & Hst). exists es, s. split; [exact Hrun|].
  apply (snapshot_between [zero_counters] [[]] zero_counters es s (CClass DeallocCounts 0)).
  - constructor; [exact zero_counters_ok|constructor].
  - exact zero_counters_ok.
  - repeat constructor.
  - exact Hrun.
  - exact Hend.
  - change (0 < 49)%nat. lia.
  - rewrite Hst. by vm_compute.
Defined.
