(* ===== verification/PageList.v ===== *)
(** * Free lists of pages ([src/src/pool.rs], [PageFreeList])

    The dirty and clean lists of the pool: slab pages linked through their
    first word.  [page_list m fl l] says that [fl] is the list of pages [l] in
    memory [m]; push, pop and [remove_if] are specified as operations on [l]
    that write only to the links of pages of [l]. *)

From stdpp Require Import base numbers list gmap.
From Stdlib Require Import ZArith Lia.
From S2P Require Import Prelude SizeClass LinkMem FreeList Treiber Slab.

Local Open Scope Z_scope.
Local Open Scope clm_scope.

(** ** Definitions *)

Record PageFreeList := mkPageList { pfl_head : Z; pfl_len : Z }.

#[export] Instance PageFreeList_eq_dec : EqDecision PageFreeList.
Proof. solve_decision. Defined.

Definition PageFreeList_EMPTY : PageFreeList := mkPageList 0 0.

Definition PageFreeList_push (m : mem) (fl : PageFreeList) (slab : Z) : mem * PageFreeList :=
  (write_next m slab (pfl_head fl), mkPageList slab (pfl_len fl +[64] 1)).

Definition PageFreeList_pop (m : mem) (fl : PageFreeList) : option Z * PageFreeList :=
  if pfl_head fl =? 0 then (None, fl)
  else (Some (pfl_head fl), mkPageList (read_next m (pfl_head fl)) (pfl_len fl -[64] 1)).

(** [cursor: *mut Link]: the head field, or the link word of a page. *)
Inductive link_cell := HeadLink | PageLink (page : Z).

Definition read_cell (m : mem) (fl : PageFreeList) (c : link_cell) : Z :=
  match c with HeadLink => pfl_head fl | PageLink p => read_next m p end.

Definition write_cell (m : mem) (fl : PageFreeList) (c : link_cell) (v : Z) : mem * PageFreeList :=
  match c with
  | HeadLink => (m, mkPageList v (pfl_len fl))
  | PageLink p => (write_next m p v, fl)
  end.

Fixpoint remove_if_loop (fuel : nat) (pred : Z → bool) (m : mem) (fl : PageFreeList)
    (cursor : link_cell) : res (mem * PageFreeList) :=
  let slab := read_cell m fl cursor in
  if slab =? 0 then Ok (m, fl) else
  match fuel with
  | O => Panic OutOfFuel
  | S fuel =>
      if pred slab then
        let '(m, fl) := write_cell m fl cursor (read_next m slab) in
        remove_if_loop fuel pred m (mkPageList (pfl_head fl) (pfl_len fl -[64] 1)) cursor
      else remove_if_loop fuel pred m fl (PageLink slab)
  end.

(** The loop visits every page of the list once. *)
Definition PageFreeList_remove_if (m : mem) (fl : PageFreeList) (pred : Z → bool)
    : res (mem * PageFreeList) :=
  remove_if_loop (Z.to_nat (pfl_len fl)) pred m fl HeadLink.

(** ** The abstraction *)

Definition page_list (m : mem) (fl : PageFreeList) (l : list Z) : Prop :=
  chain m (pfl_head fl) l ∧ pfl_len fl = Z.of_nat (length l) ∧ pfl_len fl < 2 ^ 64.

(** Memory unchanged except for the links of the pages in [l]. *)
Definition only_links (l : list Z) (m m' : mem) : Prop :=
  ∀ x, (∀ a, a ∈ l → ¬ a ≤ x < a + 8) → read_byte m' x = read_byte m x.

(** Two distinct pages. *)
Definition page_sep (a b : Z) : Prop := 8 ≤ Z.abs (a - b).

Lemma only_links_refl l m : only_links l m m.
Proof. done. Qed.

Lemma only_links_trans l m1 m2 m3 : only_links l m1 m2 → only_links l m2 m3 → only_links l m1 m3.
Proof. intros H1 H2 x Hx. by rewrite H2, H1. Qed.

Lemma only_links_mono l k m m' : (∀ a, a ∈ l → a ∈ k) → only_links l m m' → only_links k m m'.
Proof. intros Hlk Hl x Hx. apply Hl. auto. Qed.

Lemma only_links_write m a v : only_links [a] m (write_next m a v).
Proof.
  intros x Hx. unfold write_next. rewrite read_byte_write_le; [done|].
  specialize (Hx a ltac:(set_solver)). lia.
Qed.

(** A list none of whose links is written stays. *)
Lemma chain_only_links l k m m' h :
  only_links l m m' → (∀ a b, a ∈ l → b ∈ k → page_sep a b) → chain m h k → chain m' h k.
Proof.
  intros Ho Hs. apply chain_ext. intros b x Hb Hx. apply Ho. intros a Ha.
  specialize (Hs a b Ha Hb). unfold page_sep in Hs. lia.
Qed.

Lemma page_list_frame l k m m' fl :
  only_links l m m' → (∀ a b, a ∈ l → b ∈ k → page_sep a b) →
  page_list m fl k → page_list m' fl k.
Proof. intros ? ? [? ?]. split; [by eapply chain_only_links|done]. Qed.

Lemma page_list_empty m : page_list m PageFreeList_EMPTY [].
Proof. done. Qed.

Lemma page_list_push m fl l a m' fl' :
  page_list m fl l → ptr_ok a → Forall (page_sep a) l → Z.of_nat (length l) < 2 ^ 64 - 1 →
  PageFreeList_push m fl a = (m', fl') →
  page_list m' fl' (a :: l) ∧ only_links [a] m m'.
Proof.
  intros (Hc & Hlen & Hlt) Ha Hs Hmax [= <- <-]. split; [|apply only_links_write].
  split; [by apply chain_push_next|]. cbn [pfl_len length].
  rewrite wadd_small by (unfold uint; lia). lia.
Qed.

Lemma page_list_pop m fl l :
  page_list m fl l →
  match l with
  | [] => PageFreeList_pop m fl = (None, fl)
  | a :: l => ∃ fl', PageFreeList_pop m fl = (Some a, fl') ∧ page_list m fl' l
  end.
Proof.
  intros (Hc & Hlen & Hlt). unfold PageFreeList_pop. destruct l as [|a l].
  - cbn in Hc. by rewrite Hc.
  - destruct Hc as (-> & Ha & Hc). destruct (Z.eqb_spec a 0); [unfold ptr_ok in Ha; lia|].
    eexists. split; [done|]. cbn [length] in Hlen. split; [done|]. cbn [pfl_len].
    rewrite wsub_small by (unfold uint; lia). lia.
Qed.

(** ** [remove_if] *)

Definition cell_pages (c : link_cell) : list Z :=
  match c with HeadLink => [] | PageLink p => [p] end.

(** Writing the successor into the cell unlinks the page behind it. *)
Lemma write_cell_bypass m fl c v rest m1 fl1 :
  chain m v rest → pairwise page_sep (cell_pages c ++ rest) →
  write_cell m fl c v = (m1, fl1) →
  chain m1 (read_cell m1 fl1 c) rest ∧ only_links (cell_pages c) m m1 ∧
  pfl_len fl1 = pfl_len fl ∧ (c ≠ HeadLink → pfl_head fl1 = pfl_head fl).
Proof.
  intros Hc Hs Hw. destruct c as [|p]; cbn [write_cell] in Hw; injection Hw as <- <-; [done|].
  cbn [read_cell]. split; [|split; [apply only_links_write|done]].
  pose proof (link_get_set_eq m p v) as Hg. cbn [link_get link_set byte_link_mem] in Hg.
  rewrite Hg by exact (chain_uint _ _ _ Hc).
  eapply chain_only_links; [apply only_links_write| |exact Hc].
  intros x y ->%list_elem_of_singleton. cbn in Hs. destruct Hs as [Hs _].
  rewrite Forall_forall in Hs. auto.
Qed.

(** The cell still leads to page [a] when only links from [a] on changed. *)
Lemma read_cell_only_links m m' fl fl' c a rest :
  only_links (a :: rest) m m' → pairwise page_sep (cell_pages c ++ a :: rest) →
  (c = HeadLink → pfl_head fl' = pfl_head fl) → read_cell m' fl' c = read_cell m fl c.
Proof.
  intros Ho Hs Hh. destruct c as [|p]; cbn [read_cell cell_pages app] in *; [by apply Hh|].
  unfold read_next. apply read_le_ext. intros x Hx. apply Ho. intros b Hb.
  destruct Hs as [Hs1 _]. rewrite Forall_forall in Hs1. specialize (Hs1 b Hb).
  unfold page_sep in Hs1. lia.
Qed.

(** The list that starts at cell [c] loses the pages [pred] accepts; only links
    from [c] on are written. *)
Lemma remove_if_loop_ok pred rest : ∀ fuel m fl c,
  chain m (read_cell m fl c) rest → (length rest ≤ fuel)%nat →
  pairwise page_sep (cell_pages c ++ rest) →
  Z.of_nat (length rest) ≤ pfl_len fl < 2 ^ 64 →
  ∃ m' fl', remove_if_loop fuel pred m fl c = Ok (m', fl') ∧
    chain m' (read_cell m' fl' c) (filter (λ a, pred a = false) rest) ∧
    (c ≠ HeadLink → pfl_head fl' = pfl_head fl) ∧
    pfl_len fl' =
      pfl_len fl - Z.of_nat (length rest - length (filter (λ a, pred a = false) rest)) ∧
    only_links (cell_pages c ++ rest) m m'.
Proof.
  induction rest as [|a rest IH]; intros fuel m fl c Hc Hf Hs Hlen.
  { cbn in Hc. exists m, fl. rewrite Hc. split; [by destruct fuel; cbn; rewrite Hc|].
    do 2 (split; [done|]). split; [|done]. cbn. lia. }
  destruct fuel as [|fuel]; [cbn in Hf; lia|]. cbn [length] in *.
  destruct Hc as (Hca & Ha & Hc). cbn [remove_if_loop]. rewrite Hca.
  destruct (Z.eqb_spec a 0); [unfold ptr_ok in Ha; lia|].
  rewrite filter_cons. pose proof (length_filter (λ b, pred b = false) rest).
  destruct (pred a) eqn:Hp.
  - rewrite decide_False by done.
    destruct (write_cell m fl c (read_next m a)) as [m1 fl1] eqn:Hw.
    assert (pairwise page_sep (cell_pages c ++ rest)) as Hs'.
    { destruct c as [|p]; cbn in Hs |- *; [tauto|].
      destruct Hs as [[? Hs1]%Forall_cons [? ?]]. done. }
    destruct (write_cell_bypass m fl c _ rest m1 fl1 Hc Hs' Hw) as (Hc1 & Hm1 & Hl1 & Hh1).
    destruct (IH fuel m1 (mkPageList (pfl_head fl1) (pfl_len fl1 -[64] 1)) c)
      as (m' & fl' & -> & Hc' & Hh' & Hl' & Ho'); [by destruct c|lia|done| |].
    { cbn [pfl_len]. rewrite wsub_small by (unfold uint; lia). lia. }
    exists m', fl'. split; [done|]. split; [done|]. cbn [pfl_len pfl_head] in *.
    rewrite wsub_small in Hl' by (unfold uint; lia).
    split; [intros; by rewrite Hh', Hh1|]. split; [lia|].
    eapply only_links_trans; eapply only_links_mono; [|exact Hm1| |exact Ho']; set_solver.
  - rewrite decide_True by done.
    assert (pairwise page_sep (a :: rest)) as Hs' by (destruct c; cbn in Hs; cbn; tauto).
    destruct (IH fuel m fl (PageLink a)) as (m' & fl' & -> & Hc' & Hh' & Hl' & Ho');
      [done|lia|done|lia|].
    exists m', fl'. split; [done|]. cbn [read_cell length] in Hc' |- *.
    assert (read_cell m' fl' c = a) as Hca'.
    { rewrite <- Hca. eapply read_cell_only_links; [exact Ho'|done|]. intros; by apply Hh'. }
    split; [rewrite Hca'; by split|]. split; [intros; by apply Hh'|]. split; [lia|].
    eapply only_links_mono; [|exact Ho']. set_solver.
Qed.

Lemma page_list_remove_if m fl l pred :
  page_list m fl l → pairwise page_sep l →
  ∃ m' fl', PageFreeList_remove_if m fl pred = Ok (m', fl') ∧
    page_list m' fl' (filter (λ a, pred a = false) l) ∧ only_links l m m'.
Proof.
  intros (Hc & Hlen & Hlt) Hs.
  destruct (remove_if_loop_ok pred l (Z.to_nat (pfl_len fl)) m fl HeadLink)
    as (m' & fl' & Hr & Hc' & _ & Hl' & Ho); [done|lia|done|lia|].
  exists m', fl'. split; [done|]. split; [|done]. pose proof (length_filter (λ a, pred a = false) l).
  split; [done|]. lia.
Qed.
