(* ===== verification/Pool.v ===== *)
(** * The page pool ([src/src/pool.rs])

    The pool maps segments of 2 MiB from the page allocator, carves them into
    slab pages and keeps the free pages on a dirty and a clean list, under one
    lock.  Here are its state and its operations.  Each critical section is one
    definition ([..._locked], [alloc_slab_install], [purge_take],
    [purge_finish]); the calls of the page allocator between sections are made
    without the lock, and [alloc_slab], [dealloc_slab] and [purge_excess]
    compose them in the order of the source.

    The lock-free cache of free pages is in [SlabCache], the interleaving of
    sections by several threads and the invariant in [PoolInv]. *)

From stdpp Require Import base numbers list gmap.
From Stdlib Require Import ZArith Lia.
From S2P Require Import Prelude SizeClass LinkMem FreeList Treiber Slab Sys Metrics PageList.

Local Open Scope Z_scope.
Local Open Scope clm_scope.

(** ** Constants *)

Definition SEGMENT_SIZE : Z := 2 * 1024 * 1024.
Definition MAX_SEGMENTS : Z := 4096.
Definition SLABS_PER_SEGMENT : Z := SEGMENT_SIZE / SLAB_SIZE.
Definition PURGE_HIGH_WATER : Z := 64.
Definition PURGE_LOW_WATER : Z := 32.

(** [Layout::new::<Segment>()] *)
Definition Segment_layout : Layout := mkLayout SEGMENT_SIZE SLAB_SIZE.

(** ** State *)

Record PoolState := mkPoolState {
  dirty_list : PageFreeList;
  clean_list : PageFreeList;
  segment_cursor : Z;
  segment_end : Z;
  carving_idx : Z;
  segments : list Z;
  segment_count : Z;
  seg_outstanding : list Z;
  outstanding_slabs : Z;
  large_mapped_bytes : Z;
  metrics : PoolMetrics;
}.

Definition PoolState_new : PoolState :=
  mkPoolState PageFreeList_EMPTY PageFreeList_EMPTY 0 0 0
    (replicate (Z.to_nat MAX_SEGMENTS) 0) 0 (replicate (Z.to_nat MAX_SEGMENTS) 0) 0 0
    PoolMetrics_new.

Definition set_dirty (s : PoolState) (fl : PageFreeList) : PoolState :=
  mkPoolState fl (clean_list s) (segment_cursor s) (segment_end s) (carving_idx s) (segments s)
    (segment_count s) (seg_outstanding s) (outstanding_slabs s) (large_mapped_bytes s) (metrics s).
Definition set_clean (s : PoolState) (fl : PageFreeList) : PoolState :=
  mkPoolState (dirty_list s) fl (segment_cursor s) (segment_end s) (carving_idx s) (segments s)
    (segment_count s) (seg_outstanding s) (outstanding_slabs s) (large_mapped_bytes s) (metrics s).
Definition set_carving (s : PoolState) (cursor cend idx : Z) : PoolState :=
  mkPoolState (dirty_list s) (clean_list s) cursor cend idx (segments s)
    (segment_count s) (seg_outstanding s) (outstanding_slabs s) (large_mapped_bytes s) (metrics s).
Definition set_segments (s : PoolState) (segs : list Z) (count : Z) (outs : list Z) : PoolState :=
  mkPoolState (dirty_list s) (clean_list s) (segment_cursor s) (segment_end s) (carving_idx s) segs
    count outs (outstanding_slabs s) (large_mapped_bytes s) (metrics s).
Definition set_seg_outstanding (s : PoolState) (outs : list Z) : PoolState :=
  set_segments s (segments s) (segment_count s) outs.
Definition set_outstanding_slabs (s : PoolState) (n : Z) : PoolState :=
  mkPoolState (dirty_list s) (clean_list s) (segment_cursor s) (segment_end s) (carving_idx s)
    (segments s) (segment_count s) (seg_outstanding s) n (large_mapped_bytes s) (metrics s).
Definition set_large_mapped (s : PoolState) (n : Z) : PoolState :=
  mkPoolState (dirty_list s) (clean_list s) (segment_cursor s) (segment_end s) (carving_idx s)
    (segments s) (segment_count s) (seg_outstanding s) (outstanding_slabs s) n (metrics s).
Definition set_metrics (s : PoolState) (pm : PoolMetrics) : PoolState :=
  mkPoolState (dirty_list s) (clean_list s) (segment_cursor s) (segment_end s) (carving_idx s)
    (segments s) (segment_count s) (seg_outstanding s) (outstanding_slabs s)
    (large_mapped_bytes s) pm.

(** The counters per class. *)
Definition set_abandon_counts (pm : PoolMetrics) (counts : list Z) : PoolMetrics :=
  mkPoolMetrics counts (adopt_count pm) (segment_mmap_count pm) (segment_munmap_count pm)
    (slab_purge_count pm) (pool_lock_count pm) (heap_ptrs pm) (heap_count pm) (dead pm).
Definition set_adopt_counts (pm : PoolMetrics) (counts : list Z) : PoolMetrics :=
  mkPoolMetrics (abandon_count pm) counts (segment_mmap_count pm) (segment_munmap_count pm)
    (slab_purge_count pm) (pool_lock_count pm) (heap_ptrs pm) (heap_count pm) (dead pm).

(** The four event counters of [state.metrics]. *)
Definition count_events (s : PoolState) (lock mmaps munmaps purges : Z) : PoolState :=
  let pm := metrics s in
  set_metrics s (mkPoolMetrics (abandon_count pm) (adopt_count pm)
    (segment_mmap_count pm +[64] mmaps) (segment_munmap_count pm +[64] munmaps)
    (slab_purge_count pm +[64] purges) (pool_lock_count pm +[64] lock)
    (heap_ptrs pm) (heap_count pm) (dead pm)).

(** [state.seg_outstanding[seg] += d], an [u8]. *)
Definition add_seg_outstanding (s : PoolState) (seg d : Z) : res PoolState :=
  outs ← arr_update (seg_outstanding s) seg (λ c, c +[8] d);
  Ok (set_seg_outstanding s outs).

(** ** Segments *)

Definition in_segment (base addr : Z) : bool :=
  (base <=? addr) && (addr <? base +[64] SEGMENT_SIZE).

Fixpoint find_segment_loop (s : PoolState) (n : nat) (i addr : Z) : res Z :=
  match n with
  | O => Panic PanicUnreachable
  | S n =>
      base ← arr_get (segments s) i;
      if in_segment base addr then Ok i else find_segment_loop s n (i + 1) addr
  end.

Definition find_segment (s : PoolState) (addr : Z) : res Z :=
  find_segment_loop s (Z.to_nat (segment_count s)) 0 addr.

Definition segment_fully_carved (s : PoolState) (seg_idx : Z) : res bool :=
  seg_base ← arr_get (segments s) seg_idx;
  Ok (negb (in_segment seg_base (segment_cursor s))).

Definition remove_segment_slabs (m : mem) (s : PoolState) (seg_base : Z) : res (mem * PoolState) :=
  '(m, dirty) ← PageFreeList_remove_if m (dirty_list s) (in_segment seg_base);
  let s := set_dirty s dirty in
  '(m, clean) ← PageFreeList_remove_if m (clean_list s) (in_segment seg_base);
  Ok (m, set_clean s clean).

Definition swap_remove_segment (s : PoolState) (seg_idx : Z) : res PoolState :=
  let last := segment_count s -[64] 1 in
  s ← (if negb (seg_idx =? last) then
         seg ← arr_get (segments s) last;
         segs ← arr_set (segments s) seg_idx seg;
         n ← arr_get (seg_outstanding s) last;
         outs ← arr_set (seg_outstanding s) seg_idx n;
         let s := set_segments s segs (segment_count s) outs in
         Ok (if carving_idx s =? last
             then set_carving s (segment_cursor s) (segment_end s) seg_idx else s)
       else Ok s);
  segs ← arr_set (segments s) last 0;
  outs ← arr_set (seg_outstanding s) last 0;
  Ok (set_segments s segs last outs).

(** ** Critical sections *)

(** [alloc_slab] under the lock; [None] when no free page is left. *)
Definition alloc_slab_locked (m : mem) (s : PoolState) : res (option Z * PoolState) :=
  let s := count_events s 1 0 0 0 in
  let '(slab, dirty) := PageFreeList_pop m (dirty_list s) in
  let s := set_dirty s dirty in
  let '(slab, s) :=
    match slab with
    | Some _ => (slab, s)
    | None => let '(slab, clean) := PageFreeList_pop m (clean_list s) in (slab, set_clean s clean)
    end in
  match slab with
  | Some slab =>
      seg ← find_segment s slab;
      s ← add_seg_outstanding s seg 1;
      Ok (Some slab, set_outstanding_slabs s (outstanding_slabs s +[64] 1))
  | None =>
      if segment_cursor s <? segment_end s then
        let slab := segment_cursor s in
        let s := set_carving s (slab +[64] SLAB_SIZE) (segment_end s) (carving_idx s) in
        s ← add_seg_outstanding s (carving_idx s) 1;
        Ok (Some slab, set_outstanding_slabs s (outstanding_slabs s +[64] 1))
      else Ok (None, s)
  end.

(** [for i in (1..SLABS_PER_SEGMENT).rev()]: pages [n], ..., 1 of the segment. *)
Fixpoint push_clean_loop (n : nat) (m : mem) (s : PoolState) (base : Z) : mem * PoolState :=
  match n with
  | O => (m, s)
  | S n' =>
      let '(m, clean) := PageFreeList_push m (clean_list s) (base +[64] Z.of_nat n * SLAB_SIZE) in
      push_clean_loop n' m (set_clean s clean) base
  end.

(** The locked part of [alloc_slab_slow]; [None] when the segment table is full. *)
Definition alloc_slab_install (m : mem) (s : PoolState) (base : Z)
    : res (option Z * mem * PoolState) :=
  let s := count_events s 1 1 0 0 in
  if MAX_SEGMENTS <=? segment_count s then Ok (None, m, s) else
  let seg_idx := segment_count s in
  segs ← arr_set (segments s) seg_idx base;
  outs ← arr_set (seg_outstanding s) seg_idx 1;
  let s := set_segments s segs (seg_idx +[64] 1) outs in
  let s := set_outstanding_slabs s (outstanding_slabs s +[64] 1) in
  let '(m, s) :=
    if segment_cursor s <? segment_end s then
      push_clean_loop (Z.to_nat (SLABS_PER_SEGMENT - 1)) m s base
    else (m, set_carving s (base +[64] SLAB_SIZE) (base +[64] SEGMENT_SIZE) seg_idx) in
  Ok (Some base, m, s).

(** What [dealloc_slab] does after it drops the lock. *)
Inductive dealloc_outcome :=
  | ReleaseSegment (segment_ptr : Z)
  | Return (should_purge : bool).

Definition dealloc_slab_locked (m : mem) (s : PoolState) (slab : Z)
    : res (mem * PoolState * dealloc_outcome) :=
  let s := count_events s 1 0 0 0 in
  let '(m, dirty) := PageFreeList_push m (dirty_list s) slab in
  let s := set_dirty s dirty in
  seg ← find_segment s slab;
  s ← add_seg_outstanding s seg (-1);
  let s := set_outstanding_slabs s (outstanding_slabs s -[64] 1) in
  n ← arr_get (seg_outstanding s) seg;
  release ← (if n =? 0 then segment_fully_carved s seg else Ok false) : res bool;
  if (release : bool) then
    segment_ptr ← arr_get (segments s) seg;
    '(m, s) ← remove_segment_slabs m s segment_ptr;
    s ← swap_remove_segment s seg;
    Ok (m, count_events s 0 0 1 0, ReleaseSegment segment_ptr)
  else Ok (m, s, Return (PURGE_HIGH_WATER <? pfl_len (dirty_list s))).

(** The first section of [purge_excess]; [n] is the room left in the buffer. *)
Fixpoint purge_take_loop (n : nat) (m : mem) (s : PoolState) (buf : list Z)
    : res (PoolState * list Z) :=
  match n with
  | O => Ok (s, buf)
  | S n =>
      if PURGE_LOW_WATER <? pfl_len (dirty_list s) then
        let '(slab, dirty) := PageFreeList_pop m (dirty_list s) in
        let s := set_dirty s dirty in
        match slab with
        | Some ptr =>
            seg ← find_segment s ptr;
            s ← add_seg_outstanding s seg 1;
            purge_take_loop n m s (buf ++ [ptr])
        | None => Ok (s, buf)
        end
      else Ok (s, buf)
  end.

Definition purge_take (m : mem) (s : PoolState) : res (PoolState * list Z) :=
  let BATCH := PURGE_HIGH_WATER - PURGE_LOW_WATER in
  purge_take_loop (Z.to_nat BATCH) m (count_events s 1 0 0 0) [].

(** Its last section. *)
Fixpoint purge_finish_loop (buf : list Z) (m : mem) (s : PoolState) : res (mem * PoolState) :=
  match buf with
  | [] => Ok (m, s)
  | slab :: buf =>
      seg ← find_segment s slab;
      s ← add_seg_outstanding s seg (-1);
      let '(m, clean) := PageFreeList_push m (clean_list s) slab in
      purge_finish_loop buf m (set_clean s clean)
  end.

Definition purge_finish (m : mem) (s : PoolState) (buf : list Z) : res (mem * PoolState) :=
  purge_finish_loop buf m (count_events s 1 0 0 (Z.of_nat (length buf))).

(** ** The operations *)

Section pool_ops.
Context {P : Type} `{PageAllocator P}.

(** The pool with the memory it shares with its clients. *)
Record PagePool := mkPool { page_alloc : P; pool_mem : mem; state : PoolState }.

Definition alloc_slab_slow (w : PagePool) : res (option Z * PagePool) :=
  match pa_alloc (page_alloc w) (pool_mem w) Segment_layout with
  | (None, os, m) => Ok (None, mkPool os m (state w))
  | (Some base, os, m) =>
      '(r, m, s) ← alloc_slab_install m (state w) base;
      match r with
      | None =>
          let '(os, m) := pa_dealloc os m base Segment_layout in Ok (None, mkPool os m s)
      | Some slab => Ok (Some slab, mkPool os m s)
      end
  end.

Definition alloc_slab (w : PagePool) : res (option Z * PagePool) :=
  '(r, s) ← alloc_slab_locked (pool_mem w) (state w);
  let w := mkPool (page_alloc w) (pool_mem w) s in
  match r with Some slab => Ok (Some slab, w) | None => alloc_slab_slow w end.

(** The loop between the sections of [purge_excess]. *)
Fixpoint purge_pages (os : P) (m : mem) (buf : list Z) : P * mem :=
  match buf with
  | [] => (os, m)
  | slab :: buf => let '(os, m) := pa_purge os m slab SLAB_SIZE in purge_pages os m buf
  end.

Definition purge_excess (w : PagePool) : res PagePool :=
  '(s, buf) ← purge_take (pool_mem w) (state w);
  let '(os, m) := purge_pages (page_alloc w) (pool_mem w) buf in
  '(m, s) ← purge_finish m s buf;
  Ok (mkPool os m s).

Definition dealloc_slab (w : PagePool) (base : Z) : res PagePool :=
  '(m, s, outcome) ← dealloc_slab_locked (pool_mem w) (state w) base;
  match outcome with
  | ReleaseSegment segment_ptr =>
      let '(os, m) := pa_dealloc (page_alloc w) m segment_ptr Segment_layout in
      Ok (mkPool os m s)
  | Return should_purge =>
      let w := mkPool (page_alloc w) m s in
      if should_purge then purge_excess w else Ok w
  end.

Definition alloc_large (w : PagePool) (layout : Layout) : option Z * PagePool :=
  match pa_alloc (page_alloc w) (pool_mem w) layout with
  | (None, os, m) => (None, mkPool os m (state w))
  | (Some ptr, os, m) =>
      let s := state w in
      (Some ptr, mkPool os m (set_large_mapped s (large_mapped_bytes s +[64] size layout)))
  end.

Definition dealloc_large (w : PagePool) (ptr : Z) (layout : Layout) : PagePool :=
  let s := state w in
  let s := set_large_mapped s (large_mapped_bytes s -[64] size layout) in
  let '(os, m) := pa_dealloc (page_alloc w) (pool_mem w) ptr layout in mkPool os m s.

(** The counter update at the end of [abandon_slab]. *)
Definition inc_abandon_count (w : PagePool) (class_idx : Z) : res (PagePool) :=
  let s := state w in
  counts ← arr_update (abandon_count (metrics s)) class_idx (λ c, c +[64] 1);
  Ok (mkPool (page_alloc w) (pool_mem w) (set_metrics s (set_abandon_counts (metrics s) counts))).

Definition inc_adopt_count (w : PagePool) (class_idx : Z) : res (PagePool) :=
  let s := state w in
  counts ← arr_update (adopt_count (metrics s)) class_idx (λ c, c +[64] 1);
  Ok (mkPool (page_alloc w) (pool_mem w) (set_metrics s (set_adopt_counts (metrics s) counts))).

(** [register_heap] and [deregister_heap]: one section each. *)
Definition pool_register_heap (st : hm_store) (w : PagePool) (ptr : Z) : res (hm_store * PagePool) :=
  '(st, pm) ← PoolMetrics_register_heap st (metrics (state w)) ptr;
  Ok (st, mkPool (page_alloc w) (pool_mem w) (set_metrics (state w) pm)).

Definition pool_deregister_heap (st : hm_store) (w : PagePool) (ptr : Z) : res (hm_store * PagePool) :=
  '(st, pm) ← PoolMetrics_deregister_heap st (metrics (state w)) ptr;
  Ok (st, mkPool (page_alloc w) (pool_mem w) (set_metrics (state w) pm)).

(** [snapshot]; [st] holds the registered heaps' metrics. *)
Definition snapshot (w : PagePool) (st : hm_store) : res MetricsSnapshot :=
  let s := state w in
  let mapped := (segment_count s * SEGMENT_SIZE) +[64] large_mapped_bytes s in
  let new := MetricsSnapshot_new in
  let snap := mkSnapshot (ms_allocated new) (ms_active new) mapped (ms_heaps new)
    (class_live_count new) (class_live_bytes new) (ms_abandon_count new) (ms_adopt_count new)
    (ms_segment_mmap_count new) (ms_segment_munmap_count new) (ms_slab_purge_count new)
    (ms_pool_lock_count new) in
  snap ← PoolMetrics_aggregate_heap_metrics st (metrics s) snap;
  let snap := MetricsSnapshot_finalize snap in
  let large_live :=
    saturating_sub (large_alloc_bytes (ms_heaps snap)) (large_dealloc_bytes (ms_heaps snap)) in
  let active := (outstanding_slabs s * SLAB_SIZE) +[64] large_live in
  Ok (mkSnapshot (ms_allocated snap) active (ms_mapped snap) (ms_heaps snap)
    (class_live_count snap) (class_live_bytes snap) (ms_abandon_count snap) (ms_adopt_count snap)
    (ms_segment_mmap_count snap) (ms_segment_munmap_count snap) (ms_slab_purge_count snap)
    (ms_pool_lock_count snap)).

(** The end of [drop], after the cache is drained: every segment is unmapped. *)
Fixpoint drop_segments (n : nat) (i : Z) (w : PagePool) : res PagePool :=
  match n with
  | O => Ok w
  | S n =>
      segment ← arr_get (segments (state w)) i;
      let '(os, m) :=
        if segment =? 0 then (page_alloc w, pool_mem w)
        else pa_dealloc (page_alloc w) (pool_mem w) segment Segment_layout in
      drop_segments n (i + 1) (mkPool os m (state w))
  end.
End pool_ops.
Arguments PagePool : clear implicits.
