(* ===== verification/PoolCounters.v ===== *)
(** * The gauges and counters of the pool

    Which of the pool's counters a critical section moves: those of abandoned
    and adopted slabs, the registry of heaps and the bytes of large blocks only
    by their own operations, the number of pages out by one with every page. *)

From stdpp Require Import base numbers list gmap.
From Stdlib Require Import ZArith Lia.
From S2P Require Import Prelude SizeClass LinkMem FreeList Treiber Slab Sys Metrics PageList Pool.

Local Open Scope Z_scope.
Local Open Scope clm_scope.

Definition stats (s : PoolState) : list Z * list Z * (list Z * Z * HeapMetrics) * Z * Z :=
  (abandon_count (metrics s), adopt_count (metrics s), registry_of (metrics s), large_mapped_bytes s,
   outstanding_slabs s).

(** [outstanding_slabs] after a request for a page. *)
Definition page_out (r : option Z) (n : Z) : Z := if r then n +[64] 1 else n.

Lemma add_seg_outstanding_stats s seg d s' :
  add_seg_outstanding s seg d = Ok s' → stats s' = stats s.
Proof. unfold add_seg_outstanding. intros E. bind_inv E as outs E1. by injection E as <-. Qed.

(** [outstanding_slabs] is the one gauge that moves with the pages. *)
Lemma stats_outstanding (f : Z → Z) s s' :
  stats s' = stats s →
  stats (set_outstanding_slabs s' (f (outstanding_slabs s'))) =
  stats (set_outstanding_slabs s (f (outstanding_slabs s))).
Proof. unfold stats, registry_of. cbn. intros [=]. congruence. Qed.

Lemma alloc_slab_locked_stats m s r s' :
  alloc_slab_locked m s = Ok (r, s') →
  stats s' = stats (set_outstanding_slabs s (page_out r (outstanding_slabs s))).
Proof.
  unfold alloc_slab_locked. intros E.
  destruct (PageFreeList_pop _ _) as [[p|] fl] in E.
  2: destruct (PageFreeList_pop _ _) as [[p|] fl2] in E.
  3: destruct (_ <? _); [|by injection E as <- <-].
  1,2: bind_inv E as seg Es.
  all: bind_inv E as s1 E1; apply add_seg_outstanding_stats in E1; injection E as <- <-;
    apply (stats_outstanding (page_out (Some 0))) in E1; exact E1.
Qed.

Lemma push_clean_loop_stats n m s base m' s' :
  push_clean_loop n m s base = (m', s') → stats s' = stats s.
Proof.
  revert m s. induction n as [|n IH]; intros m s; cbn [push_clean_loop]; [by intros [= <- <-]|].
  destruct (PageFreeList_push _ _ _) as [m1 fl]. intros E%IH. etrans; [exact E|done].
Qed.

Lemma alloc_slab_install_stats m s base r m' s' :
  alloc_slab_install m s base = Ok (r, m', s') →
  stats s' = stats (set_outstanding_slabs s (page_out r (outstanding_slabs s))).
Proof.
  unfold alloc_slab_install. intros E. destruct (_ <=? _); [by injection E as <- <- <-|].
  bind_inv E as segs E1. bind_inv E as outs E2.
  destruct (_ <? _); [|by injection E as <- <- <-].
  destruct (push_clean_loop _ _ _ _) as [m1 s1] eqn:E3 in E. injection E as <- <- <-.
  apply push_clean_loop_stats in E3. etrans; [exact E3|done].
Qed.

Lemma swap_remove_segment_stats s i s' :
  swap_remove_segment s i = Ok s' → stats s' = stats s.
Proof.
  unfold swap_remove_segment. intros E. bind_inv E as s1 E1. bind_inv E as segs E2.
  bind_inv E as outs E3. injection E as <-. etrans; [|].
  { instantiate (1 := stats s1). done. }
  destruct (negb _); [|by injection E1 as <-].
  bind_inv E1 as seg E4. bind_inv E1 as segs' E5. bind_inv E1 as n E6. bind_inv E1 as outs' E7.
  injection E1 as <-. by destruct (_ =? _).
Qed.

Lemma dealloc_slab_locked_stats m s p m' s' o :
  dealloc_slab_locked m s p = Ok (m', s', o) →
  stats s' = stats (set_outstanding_slabs s (outstanding_slabs s -[64] 1)).
Proof.
  unfold dealloc_slab_locked. intros E. destruct (PageFreeList_push _ _ _) as [m1 fl].
  bind_inv E as seg E1. bind_inv E as s1 E2. bind_inv E as n E3. bind_inv E as release E4.
  apply add_seg_outstanding_stats, (stats_outstanding (λ n, n -[64] 1)) in E2. destruct release.
  - bind_inv E as ptr E5. bind_inv E as [m2 s2] E6. bind_inv E as s3 E7.
    unfold remove_segment_slabs in E6. bind_inv E6 as [m3 d] E8. bind_inv E6 as [m4 c] E9.
    injection E6 as <- <-. injection E as <- <- <-. apply swap_remove_segment_stats in E7.
    etrans; [exact E7|exact E2].
  - injection E as <- <- <-. exact E2.
Qed.

Lemma purge_take_loop_stats n m s buf s' buf' :
  purge_take_loop n m s buf = Ok (s', buf') → stats s' = stats s.
Proof.
  revert s buf. induction n as [|n IH]; intros s buf E; cbn [purge_take_loop] in E;
    [by injection E as <- <-|].
  destruct (_ <? _); [|by injection E as <- <-].
  destruct (PageFreeList_pop _ _) as [[p|] fl]; [|by injection E as <- <-].
  bind_inv E as seg E1. bind_inv E as s1 E2.
  apply add_seg_outstanding_stats in E2. apply IH in E. rewrite E. etrans; [exact E2|done].
Qed.

Lemma purge_finish_loop_stats buf m s m' s' :
  purge_finish_loop buf m s = Ok (m', s') → stats s' = stats s.
Proof.
  revert m s. induction buf as [|p buf IH]; intros m s E; cbn [purge_finish_loop] in E;
    [by injection E as <- <-|].
  bind_inv E as seg E1. bind_inv E as s1 E2. apply add_seg_outstanding_stats in E2.
  destruct (PageFreeList_push _ _ _) as [m1 fl]. apply IH in E. rewrite E. etrans; [exact E2|done].
Qed.

(** *** The counters under the lock *)

(** The registry and the arrays of counters are in order; [st] holds the
    counters of the registered heaps. *)
Record pool_counters_ok (st : hm_store) (s : PoolState) : Prop := {
  co_metrics : metrics_inv (st, metrics s);
  co_abandon : Z.of_nat (length (abandon_count (metrics s))) = NUM_CLASSES;
  co_adopt : Z.of_nat (length (adopt_count (metrics s))) = NUM_CLASSES;
}.

Lemma metrics_inv_same st pm pm' : registry_of pm' = registry_of pm → metrics_inv (st, pm) → metrics_inv (st, pm').
Proof.
  intros Hr [Hi Hdom Hok Hd]. assert (registered pm' = registered pm) as Hreg.
  { unfold registry_of, registered in *. by injection Hr as -> -> _. }
  unfold registry_of in Hr. injection Hr as E1 E2 E3. split; cbn [fst snd] in *; rewrite ?Hreg, ?E3; try done.
  destruct Hi as [Hl Hc Hn Hx]. split; rewrite ?Hreg, ?E1, ?E2; done.
Qed.

Lemma pool_counters_same st s s' : stats s' = stats s → pool_counters_ok st s → pool_counters_ok st s'.
Proof.
  unfold stats. intros [= E1 E2 E3 E4 E5 _ _] [Hm Ha Hd]. split; [|congruence..].
  eapply metrics_inv_same; [|exact Hm]. unfold registry_of. congruence.
Qed.

(** The number of pages out is no concern of theirs. *)
Lemma pool_counters_section st s s' n :
  stats s' = stats (set_outstanding_slabs s n) → pool_counters_ok st s → pool_counters_ok st s'.
Proof. intros Hs Hc. eapply pool_counters_same; [exact Hs|]. destruct Hc. by split. Qed.

(** Their own operations. *)
Lemma pool_counters_exec st s e st' pm' :
  metrics_exec (st, metrics s) e = Ok (st', pm') → pool_counters_ok st s → pool_counters_ok st' (set_metrics s pm').
Proof.
  intros E [Hm Ha Hd]. pose proof (metrics_exec_ok _ _ _ Hm E) as [Hm' _].
  assert (abandon_count pm' = abandon_count (metrics s) ∧ adopt_count pm' = adopt_count (metrics s)) as [Ea Ed].
  { destruct e as [ptr|ptr|ptr e]; cbn in E.
    - destruct (st !! ptr); [done|]. by apply register_shape in E as (? & ? & ? & ->).
    - bind_inv E as [st1 pm1] E1. injection E as <- <-. by apply deregister_shape in E1 as (? & ? & ? & ->).
    - bind_inv E as h E1. bind_inv E as h' E2. by injection E as <- <-. }
  split; cbn; [done|by rewrite Ea|by rewrite Ed].
Qed.

Lemma pool_counters_abandon st s c counts :
  arr_update (abandon_count (metrics s)) c (λ c, c +[64] 1) = Ok counts →
  pool_counters_ok st s → pool_counters_ok st (set_metrics s (set_abandon_counts (metrics s) counts)).
Proof.
  intros (x & _ & _ & ->)%arr_update_inv [Hm Ha Hd]. split; cbn; [by eapply metrics_inv_same, Hm| |done].
  by rewrite length_insert.
Qed.

Lemma pool_counters_adopt st s c counts :
  arr_update (adopt_count (metrics s)) c (λ c, c +[64] 1) = Ok counts →
  pool_counters_ok st s → pool_counters_ok st (set_metrics s (set_adopt_counts (metrics s) counts)).
Proof.
  intros (x & _ & _ & ->)%arr_update_inv [Hm Ha Hd]. split; cbn; [by eapply metrics_inv_same, Hm|done|].
  by rewrite length_insert.
Qed.

Lemma pool_counters_new : pool_counters_ok ∅ PoolState_new.
Proof. split; [apply metrics_inv_init|done|done]. Qed.

(** *** Their sections do not panic, but for one *)

(** [register_heap] panics exactly when the registry is full. *)
Lemma register_section {P} (w : PagePool P) st ptr :
  pool_counters_ok st (state w) → st !! ptr = None →
  if heap_count (metrics (state w)) <? MAX_HEAPS
  then ∃ r, pool_register_heap (<[ptr := HeapMetrics_ZERO]> st) w ptr = Ok r
  else pool_register_heap (<[ptr := HeapMetrics_ZERO]> st) w ptr = Panic PanicAssert.
Proof.
  intros [Hm _ _] Hnone. unfold pool_register_heap. destruct (Z.ltb_spec (heap_count (metrics (state w))) MAX_HEAPS) as [Hlt|Hge].
  - destruct (metrics_register_step _ _ ptr Hm Hnone Hlt) as ([st' pm'] & E & _). cbn in E. rewrite Hnone in E. rewrite E. by eexists.
  - unfold PoolMetrics_register_heap. by rewrite (proj2 (Z.ltb_ge _ _) Hge).
Qed.

Lemma deregister_section {P} (w : PagePool P) st ptr :
  pool_counters_ok st (state w) → is_Some (st !! ptr) → ∃ r, pool_deregister_heap st w ptr = Ok r.
Proof.
  intros [Hm _ _] Hs. unfold pool_deregister_heap. apply (mi_dom _ Hm) in Hs.
  destruct (metrics_deregister_step _ _ ptr Hm Hs) as (s' & E & _). cbn in E. bind_inv E as [st1 pm1] E1.
  rewrite E1. by eexists.
Qed.

Lemma count_sections {P} (w : PagePool P) st c :
  pool_counters_ok st (state w) → 0 ≤ c < NUM_CLASSES →
  (∃ r, inc_abandon_count w c = Ok r) ∧ (∃ r, inc_adopt_count w c = Ok r).
Proof.
  intros [_ Ha Hd] Hc. unfold inc_abandon_count, inc_adopt_count. split.
  - destruct (arr_update_total (abandon_count (metrics (state w))) c (λ c, c +[64] 1)) as (l & -> & _); [lia|by eexists].
  - destruct (arr_update_total (adopt_count (metrics (state w))) c (λ c, c +[64] 1)) as (l & -> & _); [lia|by eexists].
Qed.

Lemma snapshot_section {P} (w : PagePool P) st : pool_counters_ok st (state w) → ∃ r, snapshot w st = Ok r.
Proof.
  intros [Hm _ _]. unfold snapshot. match goal with |- context [PoolMetrics_aggregate_heap_metrics _ _ ?s0] =>
    destruct (aggregate_from st (metrics (state w)) s0 Hm eq_refl) as (snap & -> & _) end. by eexists.
Qed.
