(* ===== verification/PoolInv.v ===== *)
(** * Invariant of the page pool

    [pool_inv m s S D C held] says what the pool's state means: [S] are the
    registered segments, [D] and [C] the pages on the dirty and clean lists, and
    [held] the pages handed out or in a purge buffer.  Free, uncarved and held
    pages partition the pages of the segments, and [seg_outstanding] counts the
    held pages of each segment.  Every critical section is specified by what it
    does to these lists. *)

From stdpp Require Import base numbers list gmap.
From Stdlib Require Import ZArith Lia.
From S2P Require Import Prelude SizeClass LinkMem FreeList Treiber Slab Sys Metrics PageList Pool.

Local Open Scope Z_scope.
Local Open Scope clm_scope.
Arguments SEGMENT_SIZE : simpl never.
Arguments SLAB_SIZE : simpl never.

(** ** Segments and their pages *)

Definition seg_ok (b : Z) : Prop := (SLAB_SIZE | b) ∧ 0 < b ∧ b + SEGMENT_SIZE < 2 ^ 64.

Definition seg_disj (b b' : Z) : Prop := b + SEGMENT_SIZE ≤ b' ∨ b' + SEGMENT_SIZE ≤ b.

Definition segs_ok (S : list Z) : Prop := Forall seg_ok S ∧ pairwise seg_disj S.

Definition seg_pages (b : Z) : list Z := (λ i, b + i * SLAB_SIZE) <$> seqZ 0 SLABS_PER_SEGMENT.

Definition all_pages (S : list Z) : list Z := concat (seg_pages <$> S).

(** The pages of the carving segment behind the cursor. *)
Definition uncarved (s : PoolState) : list Z :=
  if segment_cursor s <? segment_end s then
    (λ i, segment_cursor s + i * SLAB_SIZE) <$>
      seqZ 0 ((segment_end s - segment_cursor s) / SLAB_SIZE)
  else [].

Definition carve_ok (s : PoolState) (S : list Z) : Prop :=
  segment_cursor s < segment_end s →
  ∃ (i : nat) b k, carving_idx s = Z.of_nat i ∧ S !! i = Some b ∧
    1 ≤ k < SLABS_PER_SEGMENT ∧
    segment_cursor s = b + k * SLAB_SIZE ∧ segment_end s = b + SEGMENT_SIZE.

(** The held pages of the segment at [b]. *)
Definition held_count (held : list Z) (b : Z) : Z :=
  Z.of_nat (length (filter (λ p, in_segment b p = true) held)).

(** The first entries of the table are the segments. *)
Definition tables_ok (s : PoolState) (S : list Z) : Prop :=
  segment_count s = Z.of_nat (length S) ∧ Z.of_nat (length S) ≤ MAX_SEGMENTS ∧
  Z.of_nat (length (segments s)) = MAX_SEGMENTS ∧ take (length S) (segments s) = S.

Definition outs_ok (s : PoolState) (S held : list Z) : Prop :=
  Z.of_nat (length (seg_outstanding s)) = MAX_SEGMENTS ∧
  take (length S) (seg_outstanding s) = held_count held <$> S.

Record pool_inv (m : mem) (s : PoolState) (S D C held : list Z) : Prop := {
  pi_segs : segs_ok S;
  pi_tables : tables_ok s S;
  pi_outs : outs_ok s S held;
  pi_carve : carve_ok s S;
  pi_dirty : page_list m (dirty_list s) D;
  pi_clean : page_list m (clean_list s) C;
  pi_parts : D ++ C ++ uncarved s ++ held ≡ₚ all_pages S;
}.

(** ** Facts on pages *)

Lemma in_segment_iff b p : seg_ok b → in_segment b p = true ↔ b ≤ p < b + SEGMENT_SIZE.
Proof.
  intros (_ & ? & ?). unfold in_segment.
  rewrite wadd_small by (unfold uint; unfold SEGMENT_SIZE in *; lia).
  rewrite andb_true_iff, Z.leb_le, Z.ltb_lt. done.
Qed.

Lemma elem_of_seg_pages b p :
  p ∈ seg_pages b ↔ ∃ i, 0 ≤ i < 32 ∧ p = b + i * SLAB_SIZE.
Proof.
  unfold seg_pages. rewrite list_elem_of_fmap. setoid_rewrite elem_of_seqZ.
  change SLABS_PER_SEGMENT with 32. split; intros (i & ? & ?); exists i; split; auto; lia.
Qed.

Lemma seg_pages_range b p : p ∈ seg_pages b → b ≤ p ∧ p + SLAB_SIZE ≤ b + SEGMENT_SIZE.
Proof.
  rewrite elem_of_seg_pages. intros (i & ? & ->).
  change SLAB_SIZE with 65536. change SEGMENT_SIZE with 2097152. lia.
Qed.

Lemma elem_of_all_pages S p : p ∈ all_pages S ↔ ∃ b, b ∈ S ∧ p ∈ seg_pages b.
Proof.
  induction S as [|b S IH]; [set_solver|].
  change (all_pages (b :: S)) with (seg_pages b ++ all_pages S).
  rewrite elem_of_app, IH. set_solver.
Qed.

Lemma length_seg_pages b : length (seg_pages b) = 32%nat.
Proof. unfold seg_pages. by rewrite length_fmap, length_seqZ. Qed.

Lemma seg_pages_NoDup b : NoDup (seg_pages b).
Proof.
  apply NoDup_fmap_2; [|apply NoDup_seqZ]. intros i j. change SLAB_SIZE with 65536. lia.
Qed.

Lemma pages_of_two b b' p :
  seg_disj b b' → p ∈ seg_pages b → p ∈ seg_pages b' → False.
Proof.
  intros Hd Hp%seg_pages_range Hp'%seg_pages_range. unfold seg_disj in Hd.
  change SLAB_SIZE with 65536 in *. lia.
Qed.

Lemma all_pages_NoDup S : segs_ok S → NoDup (all_pages S).
Proof.
  intros [_ Hd]. induction S as [|b S IH]; [constructor|].
  destruct Hd as [Hb Hd]. change (all_pages (b :: S)) with (seg_pages b ++ all_pages S).
  apply NoDup_app. split; [apply seg_pages_NoDup|]. split; [|by apply IH].
  intros p Hp (b' & Hb' & Hp')%elem_of_all_pages. rewrite Forall_forall in Hb.
  eapply (pages_of_two b b'); eauto.
Qed.

Lemma all_pages_aligned S p : segs_ok S → p ∈ all_pages S → slab_base_ok p.
Proof.
  intros [Hs _] (b & Hb & Hp)%elem_of_all_pages. rewrite Forall_forall in Hs.
  destruct (Hs b Hb) as (Hdiv & Hpos & Hmax). pose proof (seg_pages_range _ _ Hp).
  apply elem_of_seg_pages in Hp as (i & Hi & ->). change SLAB_SIZE with 65536 in *.
  change SEGMENT_SIZE with 2097152 in *. split; [|change SLAB_SIZE with 65536; lia].
  apply Z.divide_add_r; [done|]. by exists i.
Qed.

Lemma aligned_sep a b : slab_base_ok a → slab_base_ok b → a ≠ b → page_sep a b.
Proof.
  intros ([i ->] & _) ([j ->] & _) Hne. change SLAB_SIZE with 65536 in *. unfold page_sep. lia.
Qed.

(** A page inside the address range of a registered segment is one of its pages. *)
Lemma page_in_seg S b p :
  segs_ok S → b ∈ S → p ∈ all_pages S → in_segment b p = true → p ∈ seg_pages b.
Proof.
  intros Hs Hb (b' & Hb' & Hp)%elem_of_all_pages Hin. destruct (decide (b = b')) as [->|Hne]; [done|].
  destruct Hs as [Hok Hd]. rewrite Forall_forall in Hok.
  apply in_segment_iff in Hin; [|by apply Hok]. pose proof (seg_pages_range _ _ Hp).
  assert (seg_disj b b') as Hbb.
  { clear -Hd Hb Hb' Hne. induction S as [|x S IH]; [set_solver|]. destruct Hd as [Hx Hd].
    rewrite Forall_forall in Hx.
    apply elem_of_cons in Hb as [->|Hb], Hb' as [->|Hb']; [done|by apply Hx| |by apply IH].
    destruct (Hx b Hb); [by right|by left]. }
  unfold seg_disj in Hbb. change SLAB_SIZE with 65536 in *. lia.
Qed.

Lemma seg_pages_in S b p : segs_ok S → b ∈ S → p ∈ seg_pages b → in_segment b p = true.
Proof.
  intros [Hok _] Hb Hp. rewrite Forall_forall in Hok. apply in_segment_iff; [by apply Hok|].
  pose proof (seg_pages_range _ _ Hp). change SLAB_SIZE with 65536 in *. lia.
Qed.

Lemma segs_unique S b b' p :
  segs_ok S → b ∈ S → b' ∈ S → p ∈ seg_pages b → p ∈ seg_pages b' → b = b'.
Proof.
  intros [_ Hd] Hb Hb' Hp Hp'. destruct (decide (b = b')) as [|Hne]; [done|exfalso].
  induction S as [|x S IH]; [set_solver|]. destruct Hd as [Hx Hd]. rewrite Forall_forall in Hx.
  apply elem_of_cons in Hb as [->|Hb], Hb' as [->|Hb']; [done| | |by apply IH].
  - eapply (pages_of_two x b'); eauto.
  - eapply (pages_of_two x b); eauto.
Qed.

Lemma segment_unique S b b' p :
  segs_ok S → b ∈ S → b' ∈ S → p ∈ all_pages S →
  in_segment b p = true → in_segment b' p = true → b = b'.
Proof. intros Hs Hb Hb' Hp H1 H2. eapply segs_unique; eauto using page_in_seg. Qed.

(** The pages of one segment among all pages. *)
Lemma filter_all_pages S b :
  segs_ok S → b ∈ S → filter (λ p, in_segment b p = true) (all_pages S) ≡ₚ seg_pages b.
Proof.
  intros Hs Hb. apply NoDup_Permutation.
  - apply NoDup_filter. by apply all_pages_NoDup.
  - apply seg_pages_NoDup.
  - intros p. rewrite list_elem_of_filter. split.
    + intros [? ?]. by eapply page_in_seg.
    + intros Hp. split; [by eapply seg_pages_in|]. apply elem_of_all_pages. eauto.
Qed.

Lemma held_count_perm held held' b : held ≡ₚ held' → held_count held b = held_count held' b.
Proof. intros Hp. unfold held_count. by rewrite Hp. Qed.

Lemma held_count_app held held' b :
  held_count (held ++ held') b = held_count held b + held_count held' b.
Proof. unfold held_count. rewrite filter_app, length_app. lia. Qed.

Lemma held_count_cons p held b :
  held_count (p :: held) b = (if in_segment b p then 1 else 0) + held_count held b.
Proof.
  unfold held_count. rewrite filter_cons. destruct (in_segment b p) eqn:E.
  - rewrite decide_True by done. cbn [length]. lia.
  - rewrite decide_False by done. lia.
Qed.

Lemma held_count_nonneg held b : 0 ≤ held_count held b.
Proof. unfold held_count. lia. Qed.

(** No segment has more than 32 held pages. *)
Lemma held_count_bound S l held b :
  segs_ok S → b ∈ S → l ++ held ≡ₚ all_pages S → held_count held b ≤ 32.
Proof.
  intros Hs Hb Hp. pose proof (held_count_app l held b) as Ha.
  rewrite (held_count_perm _ _ _ Hp) in Ha.
  assert (held_count (all_pages S) b = 32) as Hall.
  { unfold held_count. by rewrite filter_all_pages, length_seg_pages. }
  pose proof (held_count_nonneg l b). lia.
Qed.

(** ** The segment tables *)

Lemma segs_NoDup S : segs_ok S → NoDup S.
Proof.
  intros [_ Hd]. induction S as [|b S IH]; [constructor|]. destruct Hd as [Hb Hd].
  apply NoDup_cons. split; [|by apply IH]. intros Hin. rewrite Forall_forall in Hb.
  destruct (Hb b Hin) as [H|H]; unfold SEGMENT_SIZE in H; lia.
Qed.

Lemma table_lookup s S i b :
  tables_ok s S → S !! i = Some b → arr_get (segments s) (Z.of_nat i) = Ok b.
Proof.
  intros (_ & _ & _ & Ht) Hi. apply arr_get_ok. rewrite <- Ht in Hi.
  by apply lookup_take_Some in Hi as [? _].
Qed.

Lemma find_segment_loop_ok s S n p : ∀ k,
  tables_ok s S → (k + n = length S)%nat →
  (∃ j b, (k ≤ j)%nat ∧ S !! j = Some b ∧ in_segment b p = true) →
  ∃ i b, find_segment_loop s n (Z.of_nat k) p = Ok (Z.of_nat i) ∧ S !! i = Some b ∧
    in_segment b p = true.
Proof.
  induction n as [|n IH]; intros k Ht Hk (j & b & Hkj & Hj & Hin).
  { pose proof (lookup_lt_Some _ _ _ Hj). lia. }
  destruct (lookup_lt_is_Some_2 S k) as [c Hc]; [lia|].
  cbn [find_segment_loop]. rewrite (table_lookup s S k c Ht Hc). cbn [mbind res_bind].
  destruct (in_segment c p) eqn:E; [by exists k, c|].
  replace (Z.of_nat k + 1) with (Z.of_nat (k + 1)%nat) by lia. apply IH; [done|lia|].
  exists j, b. split; [|done]. destruct (decide (j = k)) as [->|]; [congruence|lia].
Qed.

Lemma find_segment_ok s S p :
  segs_ok S → tables_ok s S → p ∈ all_pages S →
  ∃ i b, find_segment s p = Ok (Z.of_nat i) ∧ S !! i = Some b ∧ in_segment b p = true.
Proof.
  intros Hs Ht (b & Hb & Hp)%elem_of_all_pages. unfold find_segment.
  pose proof Ht as (Hc & _). rewrite Hc, Nat2Z.id.
  apply (find_segment_loop_ok s S (length S) p 0); [done|lia|].
  apply list_elem_of_lookup in Hb as [j Hj]. exists j, b. split; [lia|]. split; [done|].
  eapply seg_pages_in; [done| |done]. by eapply list_elem_of_lookup_2.
Qed.

(** The counter of a page's segment is the one that changes. *)
Lemma find_add_ok s S held held' p d :
  segs_ok S → tables_ok s S → outs_ok s S held → p ∈ all_pages S →
  (∀ b, b ∈ S → held_count held' b = held_count held b + (if in_segment b p then d else 0)) →
  (∀ b, b ∈ S → held_count held' b < 256) →
  ∃ i b outs, find_segment s p = Ok (Z.of_nat i) ∧ S !! i = Some b ∧ in_segment b p = true ∧
    add_seg_outstanding s (Z.of_nat i) d = Ok (set_seg_outstanding s outs) ∧
    outs_ok (set_seg_outstanding s outs) S held'.
Proof.
  intros Hs Ht [Hl Ho] Hp Hd Hmax.
  destruct (find_segment_ok s S p Hs Ht Hp) as (i & b & Hf & Hi & Hin).
  pose proof (list_elem_of_lookup_2 _ _ _ Hi) as Hb. pose proof (lookup_lt_Some _ _ _ Hi) as Hlt.
  assert (seg_outstanding s !! i = Some (held_count held b)) as Hx.
  { assert (take (length S) (seg_outstanding s) !! i = Some (held_count held b)) as Hx
      by by rewrite Ho, list_lookup_fmap, Hi.
    by apply lookup_take_Some in Hx as [? _]. }
  exists i, b, (<[i := held_count held' b]> (seg_outstanding s)).
  do 3 (split; [done|]). split.
  - unfold add_seg_outstanding. rewrite (arr_update_ok _ _ _ _ Hx). cbn [mbind res_bind].
    do 3 f_equal. pose proof (held_count_nonneg held' b). specialize (Hmax b Hb).
    specialize (Hd b Hb). rewrite Hin in Hd. rewrite wadd_small; [lia|]. unfold uint. lia.
  - split; cbn; [by rewrite length_insert|]. rewrite take_insert_lt, Ho by done.
    apply list_eq. intros j. rewrite list_lookup_insert, !list_lookup_fmap, length_fmap.
    case_decide as Hj; [destruct Hj as [-> _]; by rewrite Hi|].
    destruct (S !! j) as [c|] eqn:Hc; cbn; [|done]. f_equal.
    pose proof (list_elem_of_lookup_2 _ _ _ Hc) as Hcin.
    rewrite (Hd c Hcin). destruct (in_segment c p) eqn:E; [|lia]. exfalso.
    assert (b = c) as -> by (eapply segs_unique; [done..|by eapply page_in_seg|by eapply page_in_seg]).
    apply Hj. split; [|done]. eapply NoDup_lookup; [by apply segs_NoDup|done..].
Qed.

(** The partition bounds every counter. *)
Lemma held_bound_perm S l held :
  segs_ok S → l ++ held ≡ₚ all_pages S → ∀ b, b ∈ S → held_count held b < 256.
Proof. intros Hs Hp b Hb. pose proof (held_count_bound S l held b Hs Hb Hp). lia. Qed.

Lemma base_ptr_ok a : slab_base_ok a → ptr_ok a.
Proof. intros (_ & ? & ?). unfold ptr_ok. change SLAB_SIZE with 65536 in *. lia. Qed.

(** Pages of the pool are apart. *)
Lemma parts_sep S l a rest :
  segs_ok S → a :: rest ≡ₚ all_pages S → l ⊆ rest → ptr_ok a ∧ Forall (page_sep a) l.
Proof.
  intros Hs Hp Hl. pose proof (all_pages_NoDup S Hs) as Hnd. rewrite <- Hp in Hnd.
  assert (∀ x, x ∈ a :: rest → slab_base_ok x) as Hok.
  { intros x Hx. eapply all_pages_aligned; [done|]. by rewrite <- Hp. }
  split.
  - apply base_ptr_ok, Hok. set_solver.
  - apply Forall_forall. intros x Hx. apply NoDup_cons in Hnd as [Hnot _].
    apply aligned_sep; [apply Hok; set_solver..|]. intros <-. apply Hnot. by apply Hl.
Qed.

(** ** Allocation *)

Lemma pool_inv_count m s S D C held a b c d :
  pool_inv m s S D C held → pool_inv m (count_events s a b c d) S D C held.
Proof. intros []. by split. Qed.

Lemma uncarved_eq s b k :
  1 ≤ k ≤ 32 → segment_cursor s = b + k * SLAB_SIZE → segment_end s = b + SEGMENT_SIZE →
  uncarved s = (λ i, b + i * SLAB_SIZE) <$> seqZ k (32 - k).
Proof.
  intros Hk Hc He. unfold uncarved. rewrite Hc, He.
  change SEGMENT_SIZE with (32 * SLAB_SIZE). change SLAB_SIZE with 65536. case_bool.
  - replace ((b + 32 * 65536 - (b + k * 65536)) / 65536) with (32 - k) by zdiv.
    rewrite <- (Z.add_0_r k) at 2. rewrite <- fmap_add_seqZ, <- list_fmap_compose.
    apply list_fmap_ext. intros i x _. cbn. lia.
  - assert (k = 32) as -> by lia. done.
Qed.

Lemma uncarved_subset s S p : carve_ok s S → p ∈ uncarved s →
  ∃ (i : nat) b, carving_idx s = Z.of_nat i ∧ S !! i = Some b ∧ p ∈ seg_pages b.
Proof.
  intros Hc Hu. destruct (Z.lt_ge_cases (segment_cursor s) (segment_end s)) as [Hlt|Hge].
  2: { unfold uncarved in Hu. rewrite (proj2 (Z.ltb_ge _ _) Hge) in Hu. set_solver. }
  destruct (Hc Hlt) as (i & b & k & ? & ? & Hk & Hcur & Hend). change SLABS_PER_SEGMENT with 32 in Hk.
  exists i, b. do 2 (split; [done|]).
  rewrite (uncarved_eq s b k) in Hu by lia.
  apply list_elem_of_fmap in Hu as (j & -> & Hj%elem_of_seqZ). apply elem_of_seg_pages.
  exists j. split; [lia|done].
Qed.

(** Taking the page at the cursor. *)
Lemma uncarved_advance s S :
  carve_ok s S → segment_cursor s < segment_end s →
  let s' := set_carving s (segment_cursor s +[64] SLAB_SIZE) (segment_end s) (carving_idx s) in
  segs_ok S → uncarved s = segment_cursor s :: uncarved s' ∧ carve_ok s' S.
Proof.
  intros Hc Hlt s' [Hs _]. destruct (Hc Hlt) as (i & b & k & Hidx & Hi & Hk & Hcur & Hend).
  change SLABS_PER_SEGMENT with 32 in Hk. rewrite Forall_forall in Hs.
  destruct (Hs b (list_elem_of_lookup_2 _ _ _ Hi)) as (_ & Hb0 & Hbmax).
  assert (segment_cursor s' = b + (k + 1) * SLAB_SIZE) as Hcur'.
  { cbn. rewrite wadd_small; [lia|]. unfold uint. rewrite Hcur.
    change SLAB_SIZE with 65536. change SEGMENT_SIZE with 2097152 in *. lia. }
  split.
  - rewrite (uncarved_eq s b k), (uncarved_eq s' b (k + 1)) by (done || lia).
    rewrite seqZ_cons by lia. cbn [fmap list_fmap]. rewrite Hcur. f_equal.
    f_equal. f_equal; lia.
  - intros Hlt'. exists i, b, (k + 1). split; [done|]. split; [done|]. split; [|done].
    change SLABS_PER_SEGMENT with 32. rewrite Hcur' in Hlt'. cbn in Hlt'. rewrite Hend in Hlt'.
    change SLAB_SIZE with 65536 in *. change SEGMENT_SIZE with 2097152 in *. lia.
Qed.

Lemma held_cons_perm S l p held :
  segs_ok S → p :: l ++ held ≡ₚ all_pages S →
  p ∈ all_pages S ∧ (∀ b, b ∈ S → held_count (p :: held) b < 256) ∧
  (∀ b, b ∈ S → held_count (p :: held) b = held_count held b + (if in_segment b p then 1 else 0)).
Proof.
  intros Hs Hp. split; [rewrite <- Hp; set_solver|]. split.
  - apply (held_bound_perm S l); [done|]. rewrite <- Hp. symmetry. apply Permutation_middle.
  - intros b _. rewrite held_count_cons. lia.
Qed.

(** Allocation takes the first dirty page, else the first clean one, else the
    page at the cursor. *)
(** A page popped off one of the lists is counted for its segment. *)
Lemma popped_page_ok m s S D C held p :
  segs_ok S → tables_ok s S → outs_ok s S held → carve_ok s S →
  page_list m (dirty_list s) D → page_list m (clean_list s) C →
  p :: D ++ C ++ uncarved s ++ held ≡ₚ all_pages S →
  ∃ s', (seg ← find_segment s p; s ← add_seg_outstanding s seg 1;
         Ok (Some p, set_outstanding_slabs s (outstanding_slabs s +[64] 1))) = Ok (Some p, s') ∧
    pool_inv m s' S D C (p :: held) ∧ uncarved s' = uncarved s ∧ outstanding_slabs s' = outstanding_slabs s +[64] 1.
Proof.
  intros Hs Ht Ho Hcv Hd Hc Hp.
  destruct (held_cons_perm S (D ++ C ++ uncarved s) p held Hs) as (Hin & Hmax & Hcnt); [rewrite <- Hp; perm|].
  destruct (find_add_ok s S held (p :: held) p 1 Hs Ht Ho Hin Hcnt Hmax) as (i & b & outs & -> & Hib & Hseg & Hadd & Ho').
  cbn [mbind res_bind]. rewrite Hadd. cbn [mbind res_bind]. eexists. split; [done|]. split; [|done].
  split; try done. rewrite <- Hp. change (uncarved (set_outstanding_slabs _ _)) with (uncarved s). perm.
Qed.

(** The next page of the segment being carved, while there is one. *)
Lemma carved_page_ok m s S held :
  pool_inv m s S [] [] held → segment_cursor s < segment_end s →
  let p := segment_cursor s in
  let s1 := set_carving s (p +[64] SLAB_SIZE) (segment_end s) (carving_idx s) in
  ∃ s', (s ← add_seg_outstanding s1 (carving_idx s1) 1;
         Ok (Some p, set_outstanding_slabs s (outstanding_slabs s +[64] 1))) = Ok (Some p, s') ∧
    uncarved s = p :: uncarved s' ∧ pool_inv m s' S [] [] (p :: held) ∧
    outstanding_slabs s' = outstanding_slabs s +[64] 1.
Proof.
  intros [Hs Ht Ho Hcv Hd Hc Hp] Hlt p s1. subst p. destruct (uncarved_advance s S Hcv Hlt Hs) as [Hu Hcv']. fold s1 in Hu, Hcv'.
  destruct (Hcv Hlt) as (i & b & k & Hidx & Hi & Hk & Hcur & Hend).
  cbn [app] in Hp |- *. rewrite Hu in Hp |- *.
  destruct (held_cons_perm S _ _ held Hs Hp) as (Hin & Hmax & Hcnt).
  destruct (find_add_ok s1 S held (segment_cursor s :: held) (segment_cursor s) 1 Hs Ht Ho Hin Hcnt Hmax)
    as (i' & b' & outs & _ & Hi' & Hseg & Hadd & Ho').
  assert (i' = i) as ->.
  { assert (b' = b) as ->.
    { eapply segs_unique; [done|by eapply list_elem_of_lookup_2|by eapply list_elem_of_lookup_2| |].
      - eapply page_in_seg; [done| |done|done]. by eapply list_elem_of_lookup_2.
      - apply elem_of_seg_pages. exists k. change SLABS_PER_SEGMENT with 32 in Hk. split; [lia|done]. }
    eapply NoDup_lookup; [by apply segs_NoDup|done..]. }
  change (carving_idx s1) with (carving_idx s).
  rewrite Hidx, Hadd. cbn [mbind res_bind]. eexists. split; [done|]. split; [done|]. split; [|done].
  split; try done. rewrite <- Hp. cbn [app]. change (uncarved (set_outstanding_slabs _ _)) with (uncarved s1). perm.
Qed.

Lemma alloc_slab_locked_ok m s S D C held :
  pool_inv m s S D C held →
  ∃ r s', alloc_slab_locked m s = Ok (r, s') ∧ r = head (D ++ C ++ uncarved s) ∧
    match r with
    | Some p => ∃ D' C', pool_inv m s' S D' C' (p :: held) ∧
        D ++ C ++ uncarved s = p :: D' ++ C' ++ uncarved s' ∧
        outstanding_slabs s' = outstanding_slabs s +[64] 1 ∧ D' = tail D
    | None => pool_inv m s' S D C held ∧ outstanding_slabs s' = outstanding_slabs s
    end.
Proof.
  intros Hi. apply (pool_inv_count _ _ _ _ _ _ 1 0 0 0) in Hi. revert Hi.
  unfold alloc_slab_locked. change (uncarved s) with (uncarved (count_events s 1 0 0 0)).
  change (outstanding_slabs s) with (outstanding_slabs (count_events s 1 0 0 0)).
  generalize (count_events s 1 0 0 0). clear s. intros s Hi. pose proof Hi as [Hs Ht Ho Hcv Hd Hc Hp].
  pose proof (page_list_pop _ _ _ Hd) as Hpd. destruct D as [|p D].
  2: { destruct Hpd as (fl' & -> & Hd').
       destruct (popped_page_ok m (set_dirty s fl') S D C held p) as (s' & -> & Hi' & Hu & Hos); [done..|].
       exists (Some p), s'. do 2 (split; [done|]). exists D, C. by rewrite Hu. }
  rewrite Hpd. pose proof (page_list_pop _ _ _ Hc) as Hpc. destruct C as [|p C].
  2: { cbn [set_dirty clean_list]. destruct Hpc as (fl' & -> & Hc').
       destruct (popped_page_ok m (set_clean (set_dirty s (dirty_list s)) fl') S [] C held p) as (s' & -> & Hi' & Hu & Hos);
         [done..|]. exists (Some p), s'. do 2 (split; [done|]). exists [], C. by rewrite Hu. }
  cbn [set_dirty clean_list]. rewrite Hpc.
  cbn [set_dirty set_clean segment_cursor segment_end carving_idx].
  destruct (Z.ltb_spec (segment_cursor s) (segment_end s)) as [Hlt|Hge].
  - destruct (carved_page_ok m s S held Hi Hlt) as (s' & E & Hu & Hi' & Hos).
    exists (Some (segment_cursor s)), s'. split; [exact E|]. rewrite Hu. split; [done|]. by exists [], [].
  - do 2 eexists. split; [done|]. unfold uncarved.
    destruct (Z.ltb_spec (segment_cursor s) (segment_end s)); [lia|]. split; [done|].
    split; [|done]. by split.
Qed.

(** ** Installing a segment *)

Lemma length_all_pages S : length (all_pages S) = (32 * length S)%nat.
Proof.
  induction S as [|b S IH]; [done|]. change (all_pages (b :: S)) with (seg_pages b ++ all_pages S).
  rewrite length_app, IH, length_seg_pages. simpl. lia.
Qed.

Lemma seg_pages_cons b :
  seg_pages b = b :: ((λ i, b + i * SLAB_SIZE) <$> seqZ 1 31).
Proof.
  unfold seg_pages. change SLABS_PER_SEGMENT with 32. rewrite seqZ_cons by lia.
  cbn [fmap list_fmap]. f_equal. lia.
Qed.

Lemma all_pages_snoc S b : all_pages (S ++ [b]) = all_pages S ++ seg_pages b.
Proof. unfold all_pages. rewrite fmap_app, concat_app. cbn. by rewrite app_nil_r. Qed.

Lemma segs_ok_snoc S b : segs_ok (S ++ [b]) → seg_ok b ∧ segs_ok S.
Proof.
  intros [Hs Hd]. apply Forall_app in Hs as [Hs [Hb _]%Forall_cons]. split; [done|].
  split; [done|]. clear -Hd. induction S as [|x S IH]; [exact I|]. destruct Hd as [Hx Hd].
  split; [|by apply IH]. by apply Forall_app in Hx as [? _].
Qed.

(** Pages of a new segment are apart from those of the others. *)
Lemma new_pages_sep S base x y :
  segs_ok (S ++ [base]) → x ∈ seg_pages base → y ∈ all_pages S → page_sep x y.
Proof.
  intros Hs Hx Hy. pose proof (all_pages_NoDup _ Hs) as Hnd. rewrite all_pages_snoc in Hnd.
  apply NoDup_app in Hnd as (_ & Hnd & _).
  assert (x ∈ all_pages (S ++ [base]) ∧ y ∈ all_pages (S ++ [base])) as [? ?]
    by (rewrite all_pages_snoc, !elem_of_app; split; [by right|by left]).
  apply aligned_sep; [by eapply all_pages_aligned|by eapply all_pages_aligned|].
  intros <-. by eapply Hnd.
Qed.

(** Pages [n], ..., 1 of the segment end up in front of the clean list. *)
Lemma push_clean_loop_ok base segs n : ∀ m s C,
  segs_ok (segs ++ [base]) → (n ≤ 31)%nat → page_list m (clean_list s) C →
  C ⊆ all_pages segs ++ ((λ i, base + i * SLAB_SIZE) <$> seqZ (Z.of_nat n + 1) (31 - Z.of_nat n)) →
  Z.of_nat (length C) + Z.of_nat n < 2 ^ 63 →
  ∃ m' fl', push_clean_loop n m s base = (m', set_clean s fl') ∧
    page_list m' fl' (((λ i, base + i * SLAB_SIZE) <$> seqZ 1 (Z.of_nat n)) ++ C) ∧
    only_links (seg_pages base) m m'.
Proof.
  induction n as [|n IH]; intros m s C Hs Hn Hc Hsub Hlen.
  { exists m, (clean_list s). split; [by destruct s|]. split; [done|apply only_links_refl]. }
  pose proof (segs_ok_snoc segs base Hs) as [(_ & Hb0 & Hbmax) HsS].
  set (a := base + Z.of_nat (S n) * SLAB_SIZE).
  assert (a ∈ seg_pages base) as Ha by (apply elem_of_seg_pages; exists (Z.of_nat (S n)); split; [lia|done]).
  cbn [push_clean_loop].
  assert (base +[64] Z.of_nat (S n) * SLAB_SIZE = a) as ->.
  { apply wadd_small. unfold uint. change SLAB_SIZE with 65536.
    change SEGMENT_SIZE with 2097152 in *. lia. }
  destruct (PageFreeList_push m (clean_list s) a) as [m1 fl1] eqn:Hpush.
  assert (slab_base_ok a) as Hoka.
  { eapply all_pages_aligned; [exact Hs|]. rewrite all_pages_snoc. apply elem_of_app. by right. }
  assert (Forall (page_sep a) C) as Hsep.
  { apply Forall_forall. intros x Hx. pose proof (Hsub x Hx) as Hx'. apply elem_of_app in Hx' as [Hx'|Hx'].
    - by eapply new_pages_sep.
    - apply list_elem_of_fmap in Hx' as (i & -> & Hi%elem_of_seqZ). unfold page_sep, a.
      change SLAB_SIZE with 65536. lia. }
  destruct (page_list_push m (clean_list s) C a m1 fl1 Hc (base_ptr_ok a Hoka) Hsep ltac:(lia)
    Hpush) as [Hc1 Ho1].
  destruct (IH m1 (set_clean s fl1) (a :: C)) as (m' & fl' & -> & Hc' & Ho').
  - done.
  - lia.
  - done.
  - intros x [->|Hx]%elem_of_cons; apply elem_of_app.
    + right. apply list_elem_of_fmap. exists (Z.of_nat (S n)). split; [done|].
      apply elem_of_seqZ. lia.
    + pose proof (Hsub x Hx) as Hx'. apply elem_of_app in Hx' as [?|Hx']; [by left|right].
      apply list_elem_of_fmap in Hx' as (i & -> & Hi%elem_of_seqZ).
      apply list_elem_of_fmap. exists i. split; [done|]. apply elem_of_seqZ. lia.
  - cbn [length]. lia.
  - exists m', fl'. split; [done|]. split.
    + rewrite Nat2Z.inj_succ. unfold Z.succ. rewrite seqZ_app by lia. rewrite fmap_app, <- app_assoc.
      replace (1 + Z.of_nat n) with (Z.of_nat (S n)) by lia.
      change (seqZ (Z.of_nat (S n)) 1) with [0 + Z.of_nat (S n)]. cbn [fmap list_fmap app].
      rewrite Z.add_0_l. exact Hc'.
    + eapply only_links_trans; [|exact Ho']. eapply only_links_mono; [|exact Ho1]. set_solver.
Qed.

(** The new segment's counter. *)
Lemma held_count_install S base held :
  segs_ok (S ++ [base]) → held ⊆ all_pages S →
  held_count (base :: held) <$> (S ++ [base]) = (held_count held <$> S) ++ [1].
Proof.
  intros Hs Hheld. destruct (segs_ok_snoc S base Hs) as [Hb HsS].
  assert (base ∈ seg_pages base) as Hbase by (rewrite seg_pages_cons; set_solver).
  pose proof (all_pages_NoDup _ Hs) as Hnd. rewrite all_pages_snoc in Hnd.
  apply NoDup_app in Hnd as (_ & Hdisj & _).
  assert (∀ p c, c ∈ S ++ [base] → p ∈ all_pages (S ++ [base]) → in_segment c p = true → p ∈ seg_pages c)
    as Hin by exact (λ p c, page_in_seg _ c p Hs).
  rewrite fmap_app. f_equal.
  - apply list_fmap_ext. intros i c Hc. rewrite held_count_cons.
    apply list_elem_of_lookup_2 in Hc. destruct (in_segment c base) eqn:E; [|lia]. exfalso.
    apply (Hdisj base); [|done]. apply elem_of_all_pages. exists c. split; [done|].
    apply Hin; [set_solver| |done]. rewrite all_pages_snoc. set_solver.
  - cbn. f_equal. rewrite held_count_cons.
    rewrite (seg_pages_in (S ++ [base]) base base) by (done || set_solver).
    enough (held_count held base = 0) by lia. unfold held_count.
    enough (filter (λ p, in_segment base p = true) held = []) as -> by done.
    destruct (filter _ held) as [|p l] eqn:E; [done|exfalso].
    assert (p ∈ filter (λ p, in_segment base p = true) held) as Hp by (rewrite E; set_solver).
    apply list_elem_of_filter in Hp as [Hp1 Hp2]. apply (Hdisj p); [by apply Hheld|].
    apply Hin; [set_solver| |done]. rewrite all_pages_snoc. apply elem_of_app. left. by apply Hheld.
Qed.

Lemma install_tables s S base segs outs held :
  tables_ok s S → outs_ok s S held → Z.of_nat (length S) < MAX_SEGMENTS →
  segs_ok (S ++ [base]) → held ⊆ all_pages S →
  segs = <[length S := base]> (segments s) → outs = <[length S := 1]> (seg_outstanding s) →
  let s' := set_segments s segs (segment_count s +[64] 1) outs in
  tables_ok s' (S ++ [base]) ∧ outs_ok s' (S ++ [base]) (base :: held).
Proof.
  intros (Hc & Hm & Hl & Ht) (Hl' & Ho) Hlt Hs Hheld -> -> s'. unfold MAX_SEGMENTS in *.
  assert (∀ A (l : list A) x, Z.of_nat (length l) = 4096 →
    take (length (S ++ [base])) (<[length S := x]> l) = take (length S) l ++ [x]) as Htake.
  { intros A l x Hlen. rewrite length_app, Nat.add_1_r.
    rewrite (take_S_r _ _ x) by (apply list_lookup_insert_eq; lia). by rewrite take_insert_ge. }
  split.
  - split; [|split; [|split]]; cbn; rewrite ?length_insert, ?length_app; [|unfold MAX_SEGMENTS; simpl; lia|done|].
    + rewrite Hc, wadd_small by (unfold uint; lia). simpl. lia.
    + rewrite <- length_app, Htake by done. by rewrite Ht.
  - split; cbn; [by rewrite length_insert|]. by rewrite Htake, Ho, held_count_install.
Qed.

Lemma alloc_slab_install_ok m s S D C held base :
  pool_inv m s S D C held → segs_ok (S ++ [base]) →
  ∃ r m' s', alloc_slab_install m s base = Ok (r, m', s') ∧
    match r with
    | Some p => p = base ∧ (∃ C', pool_inv m' s' (S ++ [base]) D C' (base :: held)) ∧
        outstanding_slabs s' = outstanding_slabs s +[64] 1 ∧ only_links (seg_pages base) m m'
    | None => Z.of_nat (length S) = MAX_SEGMENTS ∧ m' = m ∧ pool_inv m s' S D C held ∧
        outstanding_slabs s' = outstanding_slabs s
    end.
Proof.
  intros Hi Hs'. apply (pool_inv_count _ _ _ _ _ _ 1 1 0 0) in Hi. revert Hi.
  unfold alloc_slab_install. change (outstanding_slabs s) with (outstanding_slabs (count_events s 1 1 0 0)).
  generalize (count_events s 1 1 0 0). clear s. intros s Hi.
  pose proof Hi as [Hs Ht Ho Hcv Hd Hc Hp]. pose proof Ht as (Hcnt & Hmax & Hlt & _).
  destruct (Z.leb_spec MAX_SEGMENTS (segment_count s)) as [Hfull|Hroom].
  { do 3 eexists. split; [done|]. split; [lia|done]. }
  pose proof (proj1 Ho) as Hlo. unfold MAX_SEGMENTS in *. rewrite Hcnt, !arr_set_ok by lia. cbn [mbind res_bind].
  assert (held ⊆ all_pages S) as Hheld by (intros x Hx; rewrite <- Hp, !elem_of_app; tauto).
  rewrite <- Hcnt.
  destruct (install_tables s S base _ _ held Ht Ho ltac:(unfold MAX_SEGMENTS; lia) Hs' Hheld eq_refl eq_refl) as [Ht' Ho'].
  pose proof (length_all_pages S) as Hlp. rewrite <- Hp, !length_app in Hlp.
  set (s1 := set_segments _ _ _ _) in *.
  change (segment_cursor _) with (segment_cursor s) at 1. change (segment_end _) with (segment_end s) at 1.
  destruct (Z.ltb_spec (segment_cursor s) (segment_end s)) as [Hlt'|Hge].
  - destruct (push_clean_loop_ok base S 31 m (set_outstanding_slabs s1 (outstanding_slabs s1 +[64] 1)) C)
      as (m' & fl' & Hpush & Hc' & Hol); [done|lia|done| |lia|].
    { intros x Hx. apply elem_of_app. left. rewrite <- Hp, !elem_of_app. tauto. }
    change (Z.to_nat (SLABS_PER_SEGMENT - 1)) with 31%nat. rewrite Hpush.
    do 3 eexists. split; [reflexivity|]. split; [reflexivity|].
    split; [|split; [reflexivity|exact Hol]].
    eexists. split; [exact Hs'|exact Ht'|exact Ho'|..].
    + intros _. destruct (Hcv Hlt') as (i & b & k & ? & Hi' & ?). exists i, b, k.
      split; [done|]. split; [by apply lookup_app_l_Some|done].
    + eapply page_list_frame; [exact Hol| |exact Hd]. intros x y Hx Hy.
      eapply new_pages_sep; [exact Hs'|exact Hx|]. rewrite <- Hp. apply elem_of_app. by left.
    + exact Hc'.
    + rewrite all_pages_snoc, <- Hp, seg_pages_cons.
      change (uncarved (set_clean _ _)) with (uncarved s). change (Z.of_nat 31) with 31. perm.
  - do 3 eexists. split; [reflexivity|]. split; [reflexivity|].
    split; [|split; [reflexivity|apply only_links_refl]].
    destruct (segs_ok_snoc S base Hs') as [(_ & Hb0 & Hbm) _].
    set (s2 := set_carving _ _ _ _).
    assert (segment_cursor s2 = base + 1 * SLAB_SIZE ∧ segment_end s2 = base + SEGMENT_SIZE) as [Hcur Hend].
    { cbn. rewrite !wadd_small; unfold uint; change SLAB_SIZE with 65536;
        change SEGMENT_SIZE with 2097152 in *; lia. }
    exists C. split; [exact Hs'|exact Ht'|exact Ho'| |exact Hd|exact Hc|].
    + intros _. exists (length S), base, 1. split; [exact Hcnt|]. split; [|done].
      apply lookup_app_Some. right. by rewrite Nat.sub_diag.
    + rewrite (uncarved_eq s2 base 1) by (done || lia). rewrite all_pages_snoc, <- Hp, seg_pages_cons.
      unfold uncarved. rewrite (proj2 (Z.ltb_ge _ _) Hge). change (32 - 1) with 31. perm.
Qed.

(** ** Releasing a segment *)

Lemma pages_pairwise_sep S l : segs_ok S → NoDup l → l ⊆ all_pages S → pairwise page_sep l.
Proof.
  intros Hs Hnd Hl. induction Hnd as [|p l Hp Hnd IH]; [exact I|]. split.
  - apply Forall_forall. intros x Hx.
    apply aligned_sep; [eapply all_pages_aligned; [done|]; apply Hl; set_solver..|].
    by intros ->.
  - apply IH. intros x Hx. apply Hl. set_solver.
Qed.

Lemma remove_segment_slabs_ok m s S D C b :
  segs_ok S → NoDup (D ++ C) → D ++ C ⊆ all_pages S →
  page_list m (dirty_list s) D → page_list m (clean_list s) C →
  ∃ m' d c, remove_segment_slabs m s b = Ok (m', set_clean (set_dirty s d) c) ∧
    page_list m' d (filter (λ p, in_segment b p = false) D) ∧
    page_list m' c (filter (λ p, in_segment b p = false) C) ∧
    only_links (D ++ C) m m'.
Proof.
  intros Hs Hnd Hsub Hd Hc. pose proof (pages_pairwise_sep S _ Hs Hnd Hsub) as Hsep.
  apply NoDup_app in Hnd as (HndD & Hdisj & HndC).
  assert (∀ x y, x ∈ D → y ∈ C → page_sep x y) as Hdc.
  { intros x y Hx Hy. clear -Hsep Hx Hy. induction D as [|p D IH]; [set_solver|].
    destruct Hsep as [Hp Hsep]. apply elem_of_cons in Hx as [->|Hx]; [|by apply IH].
    rewrite Forall_forall in Hp. apply Hp, elem_of_app. by right. }
  unfold remove_segment_slabs.
  destruct (page_list_remove_if m (dirty_list s) D (in_segment b) Hd) as (m1 & d & -> & Hd1 & Ho1).
  { eapply pages_pairwise_sep; [done|done|]. intros x Hx. apply Hsub, elem_of_app. by left. }
  cbn [mbind res_bind].
  assert (page_list m1 (clean_list s) C) as Hc1 by by eapply page_list_frame.
  destruct (page_list_remove_if m1 (clean_list s) C (in_segment b) Hc1) as (m2 & c & Hr & Hc2 & Ho2).
  { eapply pages_pairwise_sep; [done|done|]. intros x Hx. apply Hsub, elem_of_app. by right. }
  cbn [set_dirty clean_list]. rewrite Hr. cbn [mbind res_bind].
  exists m2, d, c. split; [done|]. split; [|split; [done|]].
  - eapply page_list_frame; [exact Ho2| |exact Hd1].
    intros x y Hx [_ Hy]%list_elem_of_filter. specialize (Hdc y x Hy Hx). unfold page_sep in *. lia.
  - eapply only_links_trans; (eapply only_links_mono; [|eassumption]); set_solver.
Qed.

(** The carving index follows the segment it points to. *)
Lemma carve_idx_swap l1 (b : Z) l2 (i : nat) (c : Z) :
  (l1 ++ b :: l2) !! i = Some c → c ≠ b → NoDup (l1 ++ b :: l2) →
  (l1 ++ swap_tail l2) !! (if decide (i = length l1 + length l2)%nat then length l1 else i) = Some c.
Proof.
  intros Hi Hcb _. apply lookup_app_Some in Hi as [Hi|[Hge Hi]].
  - pose proof (lookup_lt_Some _ _ _ Hi). rewrite decide_False by lia. by apply lookup_app_l_Some.
  - destruct (i - length l1)%nat as [|j] eqn:Hj; cbn in Hi; [congruence|].
    destruct l2 as [|y l2 _] using rev_ind; [done|].
    rewrite swap_tail_snoc, length_app. cbn [length].
    apply lookup_snoc_Some in Hi as [[Hlt Hi]|[Hjl ->]].
    + rewrite decide_False by lia. apply lookup_app_Some. right. split; [done|]. by rewrite Hj.
    + rewrite decide_True by lia. apply lookup_app_Some. right. split; [done|]. by rewrite Nat.sub_diag.
Qed.

Lemma swap_remove_segment_eq s n l1 y z :
  segment_count s = Z.of_nat (S n) → Z.of_nat (S n) ≤ MAX_SEGMENTS → (l1 ≤ n)%nat →
  Z.of_nat (length (segments s)) = MAX_SEGMENTS → Z.of_nat (length (seg_outstanding s)) = MAX_SEGMENTS →
  segments s !! n = Some y → seg_outstanding s !! n = Some z →
  swap_remove_segment s (Z.of_nat l1) =
    Ok (set_carving
      (set_segments s
        (<[n := 0]> (if decide (l1 = n) then segments s else <[l1 := y]> (segments s))) (Z.of_nat n)
        (<[n := 0]> (if decide (l1 = n) then seg_outstanding s else <[l1 := z]> (seg_outstanding s))))
      (segment_cursor s) (segment_end s)
      (if decide (l1 = n) then carving_idx s
       else if carving_idx s =? Z.of_nat n then Z.of_nat l1 else carving_idx s)).
Proof.
  intros Hc Hn Hl Hlen1 Hlen2 Hy Hz. unfold swap_remove_segment.
  unfold MAX_SEGMENTS in *. rewrite Hc, wsub_small by (unfold uint; lia).
  replace (Z.of_nat (S n) - 1) with (Z.of_nat n) by lia.
  destruct (Z.eqb_spec (Z.of_nat l1) (Z.of_nat n)) as [He|Hne]; cbn [negb].
  - rewrite !decide_True by lia. cbn [mbind res_bind]. rewrite !arr_set_ok by lia. done.
  - rewrite !decide_False by lia. rewrite (arr_get_ok _ _ _ Hy). cbn [mbind res_bind].
    rewrite arr_set_ok by lia. cbn [mbind res_bind]. rewrite (arr_get_ok _ _ _ Hz).
    cbn [mbind res_bind]. rewrite arr_set_ok by lia. cbn [mbind res_bind].
    cbn [set_segments carving_idx]. destruct (carving_idx s =? Z.of_nat n);
      cbn [set_segments set_carving segments seg_outstanding segment_cursor segment_end];
      rewrite !arr_set_ok by (rewrite length_insert; lia); done.
Qed.

Lemma swap_remove_segment_ok s S held l1 b l2 :
  tables_ok s S → outs_ok s S held → S = l1 ++ b :: l2 → segs_ok S → carve_ok s S →
  in_segment b (segment_cursor s) = false →
  let S' := l1 ++ swap_tail l2 in
  ∃ segs outs idx,
    let s' := set_carving (set_segments s segs (Z.of_nat (length S')) outs)
      (segment_cursor s) (segment_end s) idx in
    swap_remove_segment s (Z.of_nat (length l1)) = Ok s' ∧
    tables_ok s' S' ∧ outs_ok s' S' held ∧ carve_ok s' S'.
Proof.
  intros (Hcnt & Hmax & Hl1 & Ht) (Hl2 & Ho) HS Hs Hcv Hcur S'.
  set (n := (length l1 + length l2)%nat).
  assert (length S = Datatypes.S n) as Hlen by (rewrite HS, length_app; cbn; lia).
  assert (length S' = n) as HlenS'.
  { unfold S'. rewrite length_app, (Permutation_length (swap_tail_perm l2)). done. }
  rewrite Hlen in *. rewrite HS in Ht.
  destruct (lookup_lt_is_Some_2 (segments s) n) as [y Hy]; [lia|].
  destruct (lookup_lt_is_Some_2 (seg_outstanding s) n) as [z Hz]; [lia|].
  pose proof (swap_remove_take (segments s) (Datatypes.S n) l1 b l2 y 0 Ht ltac:(lia) Hy) as Htk1.
  rewrite HS, fmap_app, fmap_cons in Ho.
  pose proof (swap_remove_take (seg_outstanding s) (Datatypes.S n) _ _ _ z 0 Ho ltac:(lia) Hz) as Htk2.
  rewrite length_fmap in Htk2. cbn [pred] in Htk1, Htk2.
  rewrite (swap_remove_segment_eq s n (length l1) y z) by (done || lia).
  do 3 eexists. rewrite HlenS'. split; [reflexivity|]. split; [|split].
  - split; [by rewrite HlenS'|]. split; [lia|]. split.
    + cbn. rewrite length_insert. case_decide; rewrite ?length_insert; done.
    + rewrite HlenS'. exact Htk1.
  - split.
    + cbn. rewrite length_insert. case_decide; rewrite ?length_insert; done.
    + rewrite HlenS'. cbn [seg_outstanding set_carving set_segments]. rewrite Htk2.
      unfold S'. rewrite fmap_app. f_equal. destruct l2 as [|x l2 _] using rev_ind; [done|].
      rewrite fmap_app. cbn. rewrite !swap_tail_snoc. done.
  - intros Hlt. cbn in Hlt. destruct (Hcv Hlt) as (i & c & k & Hidx & Hi & Hk & Hc & He).
    assert (c ≠ b) as Hcb.
    { intros ->. destruct Hs as [Hok _]. rewrite Forall_forall in Hok.
      assert (in_segment b (segment_cursor s) = true); [|congruence].
      apply in_segment_iff; [apply Hok; by eapply list_elem_of_lookup_2|].
      rewrite Hc. change SLABS_PER_SEGMENT with 32 in Hk. change SLAB_SIZE with 65536.
      change SEGMENT_SIZE with 2097152. lia. }
    rewrite HS in Hi. pose proof (segs_NoDup S Hs) as Hnd. rewrite HS in Hnd.
    pose proof (carve_idx_swap l1 b l2 i c Hi Hcb Hnd) as Hsw. fold n in Hsw.
    eexists _, c, k. split; [|split; [exact Hsw|done]]. cbn [carving_idx set_carving].
    rewrite Hidx. destruct (decide (length l1 = n)) as [e1|e1], (decide (i = n)) as [e2|e2].
    + exfalso. assert (l2 = []) as -> by (apply length_zero_iff_nil; lia).
      apply lookup_app_Some in Hi as [Hi|[_ Hi]]; [apply lookup_lt_Some in Hi; lia|].
      rewrite e2, <- e1, Nat.sub_diag in Hi. cbn in Hi. congruence.
    + done.
    + by rewrite e2, Z.eqb_refl.
    + destruct (Z.eqb_spec (Z.of_nat i) (Z.of_nat n)) as [e|e]; [|done].
      by apply Nat2Z.inj in e.
Qed.

(** ** Deallocation *)

Lemma outs_lookup s S held i b :
  outs_ok s S held → S !! i = Some b →
  arr_get (seg_outstanding s) (Z.of_nat i) = Ok (held_count held b).
Proof.
  intros [_ Ho] Hi. apply arr_get_ok.
  assert (take (length S) (seg_outstanding s) !! i = Some (held_count held b)) as Hx
    by by rewrite Ho, list_lookup_fmap, Hi.
  by apply lookup_take_Some in Hx as [? _].
Qed.

Lemma held_uncons S l p held held' :
  segs_ok S → held ≡ₚ p :: held' → l ++ held ≡ₚ all_pages S →
  p ∈ all_pages S ∧
  (∀ b, b ∈ S → held_count held' b = held_count held b + (if in_segment b p then -1 else 0)) ∧
  (∀ b, b ∈ S → held_count held' b < 256).
Proof.
  intros Hs Hh Hp. split; [rewrite <- Hp, Hh; set_solver|].
  assert (∀ b, held_count held b = (if in_segment b p then 1 else 0) + held_count held' b) as Hc
    by (intros b; by rewrite (held_count_perm _ _ b Hh), held_count_cons).
  split; intros b Hb.
  - rewrite Hc. destruct (in_segment b p); lia.
  - pose proof (held_bound_perm S l held Hs Hp b Hb) as Hb'. rewrite Hc in Hb'.
    destruct (in_segment b p); lia.
Qed.

(** Dropping the pages of one segment from the partition. *)
Lemma filter_out_segment S S' b l :
  segs_ok S → S ≡ₚ b :: S' → l ≡ₚ all_pages S →
  filter (λ p, in_segment b p = false) l ≡ₚ all_pages S'.
Proof.
  intros Hs HS Hl.
  assert (all_pages S ≡ₚ seg_pages b ++ all_pages S') as Hall
    by (unfold all_pages; by rewrite HS).
  assert (b ∈ S) as Hb by (rewrite HS; set_solver).
  pose proof (all_pages_NoDup S Hs) as Hnd. rewrite Hall in Hnd.
  apply NoDup_app in Hnd as (_ & Hdisj & _).
  rewrite Hl, Hall, filter_app.
  assert (filter (λ p, in_segment b p = false) (seg_pages b) = []) as ->.
  { apply filter_none. intros p Hp. by rewrite (seg_pages_in S). }
  rewrite (filter_all _ (all_pages S')); [done|].
  intros p Hp. destruct (in_segment b p) eqn:E; [|done]. exfalso.
  eapply Hdisj; [eapply page_in_seg; [exact Hs|exact Hb| |exact E]|exact Hp].
  rewrite Hall. apply elem_of_app. by right.
Qed.

(** What [remove_segment_slabs] and [swap_remove_segment] do together. *)
Lemma release_segment_ok m s S D C held i b :
  pool_inv m s S D C held → S !! i = Some b → held_count held b = 0 →
  in_segment b (segment_cursor s) = false →
  ∃ m' s1 s' S', remove_segment_slabs m s b = Ok (m', s1) ∧
    swap_remove_segment s1 (Z.of_nat i) = Ok s' ∧ S ≡ₚ b :: S' ∧
    pool_inv m' s' S' (filter (λ q, in_segment b q = false) D)
      (filter (λ q, in_segment b q = false) C) held ∧ only_links (D ++ C) m m' ∧
    outstanding_slabs s' = outstanding_slabs s.
Proof.
  intros [Hs Ht Ho Hcv Hd Hc Hp] Hi Hzero Hcur.
  pose proof (all_pages_NoDup S Hs) as Hnd. rewrite <- Hp, app_assoc in Hnd.
  apply NoDup_app in Hnd as (HndDC & _).
  destruct (remove_segment_slabs_ok m s S D C b Hs HndDC) as (m' & d & c & Hr & Hd' & Hc' & Hol);
    [intros x Hx; rewrite <- Hp, app_assoc; apply elem_of_app; by left|done|done|].
  pose proof (list_elem_of_lookup_2 _ _ _ Hi) as Hb.
  apply list_elem_of_split_length in Hi as (l1 & l2 & HS & ->).
  destruct (swap_remove_segment_ok (set_clean (set_dirty s d) c) S held l1 b l2)
    as (segs & outs & idx & Hsw & Ht' & Ho' & Hcv'); [done..|].
  assert (S ≡ₚ b :: l1 ++ swap_tail l2) as HSp
    by (rewrite HS, swap_tail_perm; symmetry; apply Permutation_middle).
  do 4 eexists. split; [exact Hr|]. split; [exact Hsw|]. split; [exact HSp|].
  split; [|split; [exact Hol|reflexivity]].
  assert (segs_ok (l1 ++ swap_tail l2)) as Hs'.
  { destruct Hs as [Hf Hpw]. rewrite HSp in Hf. apply Forall_cons in Hf as [_ Hf].
    assert (pairwise seg_disj (b :: l1 ++ swap_tail l2)) as [_ ?]; [|done].
    eapply pairwise_perm; [|exact HSp|exact Hpw]. unfold seg_disj. lia. }
  split; [exact Hs'|exact Ht'|exact Ho'|exact Hcv'|exact Hd'|exact Hc'|].
  rewrite <- (filter_out_segment S (l1 ++ swap_tail l2) b (D ++ C ++ uncarved s ++ held)) by done.
  rewrite !filter_app. f_equiv. f_equiv.
  change (uncarved (set_carving _ _ _ _)) with (uncarved s). f_equiv.
  - rewrite filter_all; [done|]. intros p Hu.
    destruct (in_segment b p) eqn:E; [|done]. exfalso.
    destruct (uncarved_subset s S p Hcv Hu) as (j & c0 & Hj & HSj & Hpc).
    assert (segment_cursor s < segment_end s) as Hlt.
    { unfold uncarved in Hu. destruct (Z.ltb_spec (segment_cursor s) (segment_end s)); [done|].
      by apply elem_of_nil in Hu. }
    destruct (Hcv Hlt) as (j' & c1 & k & Hj' & HSj' & Hk & Hcc & _).
    assert (j' = j) as -> by lia. rewrite HSj in HSj'. injection HSj' as <-.
    assert (p ∈ seg_pages b) as Hpb.
    { eapply page_in_seg; [exact Hs|exact Hb| |exact E]. rewrite <- Hp, !elem_of_app. tauto. }
    pose proof (list_elem_of_lookup_2 _ _ _ HSj) as Hc0.
    pose proof (segs_unique S b c0 p Hs Hb Hc0 Hpb Hpc) as ->.
    assert (in_segment c0 (segment_cursor s) = true); [|congruence].
    eapply seg_pages_in; [exact Hs|exact Hb|]. apply elem_of_seg_pages. exists k.
    change SLABS_PER_SEGMENT with 32 in Hk. split; [lia|done].
  - rewrite filter_all; [done|]. intros p Hh. destruct (in_segment b p) eqn:E; [|done]. exfalso.
    unfold held_count in Hzero.
    destruct (filter (λ p, in_segment b p = true) held) as [|x l] eqn:Hf; [|cbn in Hzero; lia].
    assert (p ∈ filter (λ p, in_segment b p = true) held) as Hin by by apply list_elem_of_filter.
    rewrite Hf in Hin. by apply elem_of_nil in Hin.
Qed.

Lemma pool_list_push m s S D C held held' p fl m1 fl1 l :
  pool_inv m s S D C held → held ≡ₚ p :: held' → page_list m fl l → l ⊆ D ++ C →
  (length l ≤ length (D ++ C))%nat → PageFreeList_push m fl p = (m1, fl1) →
  page_list m1 fl1 (p :: l) ∧ only_links [p] m m1 ∧
  (∀ k fl', k ⊆ D ++ C → page_list m fl' k → page_list m1 fl' k).
Proof.
  intros [Hs Ht _ _ _ _ Hp] Hh Hl Hsub Hlen Hpush.
  pose proof (length_all_pages S) as Hcnt. rewrite <- Hp, !length_app in Hcnt.
  rewrite length_app in Hlen. destruct Ht as (_ & Hmax & _).
  assert (p :: D ++ C ++ uncarved s ++ held' ≡ₚ all_pages S) as Hp'
    by (rewrite <- Hp, Hh; perm).
  assert (∀ k, k ⊆ D ++ C → ptr_ok p ∧ Forall (page_sep p) k) as Hsep.
  { intros k Hk. eapply parts_sep; [exact Hs|exact Hp'|]. intros x Hx. specialize (Hk x Hx).
    rewrite !elem_of_app in *. tauto. }
  destruct (Hsep l Hsub) as [Hpp Hpl].
  destruct (page_list_push m fl l p m1 fl1 Hl Hpp Hpl) as [Hl1 Ho1];
    [unfold MAX_SEGMENTS in *; lia|done|]. split; [done|]. split; [done|].
  intros k fl' Hk Hkl. eapply page_list_frame; [exact Ho1| |exact Hkl].
  intros a b ->%list_elem_of_singleton Hb. destruct (Hsep k Hk) as [_ Hf].
  rewrite Forall_forall in Hf. by apply Hf.
Qed.

(** Returning a held page: it becomes the first dirty page, unless it was the
    last held page of a segment the cursor is not in, which is then dropped. *)
Lemma dealloc_slab_locked_ok m s S D C held held' p :
  pool_inv m s S D C held → held ≡ₚ p :: held' →
  ∃ m' s' o, dealloc_slab_locked m s p = Ok (m', s', o) ∧
    outstanding_slabs s' = outstanding_slabs s -[64] 1 ∧ only_links (p :: D ++ C) m m' ∧
    match o with
    | Return b =>
        pool_inv m' s' S (p :: D) C held' ∧
        b = (PURGE_HIGH_WATER <? Z.of_nat (length D) + 1) ∧
        (∀ b, b ∈ S → in_segment b p = true → held_count held' b = 0 →
           in_segment b (segment_cursor s) = true)
    | ReleaseSegment seg =>
        in_segment seg p = true ∧ held_count held' seg = 0 ∧
        ∃ S', S ≡ₚ seg :: S' ∧
          pool_inv m' s' S' (filter (λ q, in_segment seg q = false) (p :: D))
            (filter (λ q, in_segment seg q = false) C) held'
    end.
Proof.
  intros Hi Hh. apply (pool_inv_count _ _ _ _ _ _ 1 0 0 0) in Hi. revert Hi.
  unfold dealloc_slab_locked.
  change (outstanding_slabs s) with (outstanding_slabs (count_events s 1 0 0 0)).
  change (segment_cursor s) with (segment_cursor (count_events s 1 0 0 0)).
  generalize (count_events s 1 0 0 0). clear s. intros s Hi.
  pose proof Hi as [Hs Ht Ho Hcv Hd Hc Hp].
  destruct (PageFreeList_push m (dirty_list s) p) as [m1 d1] eqn:Hpush.
  destruct (pool_list_push m s S D C held held' p (dirty_list s) m1 d1 D)
    as (Hd1 & Ho1 & Hframe); [done..| | |done|]; [set_solver|rewrite length_app; lia|].
  destruct (held_uncons S (D ++ C ++ uncarved s) p held held' Hs Hh) as (Hin & Hcnt & Hmax);
    [rewrite <- Hp; by rewrite <- !app_assoc|].
  destruct (find_add_ok (set_dirty s d1) S held held' p (-1) Hs Ht Ho Hin Hcnt Hmax)
    as (i & b & outs & -> & Hib & Hseg & Hadd & Ho').
  cbn [mbind res_bind]. rewrite Hadd. cbn [mbind res_bind].
  set (s2 := set_outstanding_slabs _ _).
  assert (pool_inv m1 s2 S (p :: D) C held') as Hi2.
  { split; [exact Hs|exact Ht|exact Ho'|exact Hcv|exact Hd1| |].
    - apply Hframe; [set_solver|exact Hc].
    - rewrite <- Hp, Hh. change (uncarved s2) with (uncarved s). perm. }
  rewrite (outs_lookup s2 S held' i b) by done. cbn [mbind res_bind].
  assert (∀ b', b' ∈ S → in_segment b' p = true → b' = b) as Hsame.
  { intros b' Hb' Hpb'. eapply segment_unique; eauto. by eapply list_elem_of_lookup_2. }
  assert (only_links (p :: D ++ C) m m1) as Hol1
    by (eapply only_links_mono; [|exact Ho1]; set_solver).
  destruct (Z.eqb_spec (held_count held' b) 0) as [Hz|Hnz].
  - unfold segment_fully_carved. rewrite (table_lookup s2 S i b Ht Hib). cbn [mbind res_bind].
    change (segment_cursor s2) with (segment_cursor s).
    destruct (in_segment b (segment_cursor s)) eqn:Hcur; cbn [negb].
    + do 3 eexists. split; [done|]. split; [done|]. split; [done|]. split; [done|].
      split; [cbn; destruct Hd1 as (_ & -> & _); cbn [length]; f_equal; lia|].
      intros b' Hb' Hpb' _. by rewrite (Hsame b').
    + destruct (release_segment_ok m1 s2 S (p :: D) C held' i b Hi2 Hib Hz Hcur)
        as (m' & s3 & s' & S' & Hr & Hsw & HSp & Hi' & Hol & Hout).
      rewrite Hr. cbn [mbind res_bind]. rewrite Hsw. cbn [mbind res_bind].
      do 3 eexists. split; [done|]. split; [exact Hout|].
      split; [eapply only_links_trans; [exact Hol1|exact Hol]|].
      split; [done|]. split; [done|]. exists S'. split; [done|]. by apply pool_inv_count.
  - do 3 eexists. split; [done|]. split; [done|]. split; [done|]. split; [done|].
    split; [cbn; destruct Hd1 as (_ & -> & _); cbn [length]; f_equal; lia|].
    intros b' Hb' Hpb' Hz'. by rewrite (Hsame b') in Hz'.
Qed.

(** ** Purging *)

Lemma purge_take_loop_ok m S C n : ∀ s D buf held,
  pool_inv m s S D C (buf ++ held) →
  ∃ s' pages D', purge_take_loop n m s buf = Ok (s', buf ++ pages) ∧ D = pages ++ D' ∧
    pool_inv m s' S D' C (buf ++ pages ++ held) ∧
    length pages = (n `min` (length D - 32))%nat ∧
    outstanding_slabs s' = outstanding_slabs s.
Proof.
  induction n as [|n IH]; intros s D buf held Hi.
  { exists s, [], D. cbn. by rewrite app_nil_r. }
  pose proof Hi as [Hs Ht Ho Hcv Hd Hc Hp]. pose proof Hd as (_ & Hlen & _).
  cbn [purge_take_loop]. change PURGE_LOW_WATER with 32.
  destruct (Z.ltb_spec 32 (pfl_len (dirty_list s))) as [Hlt|Hge].
  2: { exists s, [], D. rewrite app_nil_r. do 3 (split; [done|]). split; [|done]. cbn [length]. lia. }
  pose proof (page_list_pop _ _ _ Hd) as Hpop. destruct D as [|p D]; [cbn in Hlen; lia|].
  destruct Hpop as (d' & -> & Hd').
  destruct (held_cons_perm S (D ++ C ++ uncarved s) p (buf ++ held) Hs) as (Hin & Hmax & Hcnt);
    [rewrite <- Hp; perm|].
  destruct (find_add_ok (set_dirty s d') S (buf ++ held) (p :: buf ++ held) p 1 Hs Ht Ho Hin Hcnt Hmax)
    as (i & b & outs & -> & Hib & Hseg & Hadd & Ho').
  cbn [mbind res_bind]. rewrite Hadd. cbn [mbind res_bind].
  destruct (IH (set_seg_outstanding (set_dirty s d') outs) D (buf ++ [p]) held)
    as (s' & pages & D' & -> & HD & Hi' & Hl & Hout).
  - destruct Ho' as [? Ho']. split; [exact Hs|exact Ht| |exact Hcv|exact Hd'|exact Hc|].
    + split; [done|]. rewrite Ho'. apply list_fmap_ext. intros j c _.
      apply held_count_perm. perm.
    + rewrite <- Hp. change (uncarved (set_seg_outstanding _ _)) with (uncarved s). perm.
  - exists s', (p :: pages), D'. rewrite <- !app_assoc in *. cbn [app] in *.
    split; [done|]. split; [by rewrite HD|]. split; [done|]. split; [|done].
    cbn [length] in *. lia.
Qed.

(** [purge_excess] takes dirty pages off the list until 32 are left, at most 32. *)
Lemma purge_take_ok m s S D C held :
  pool_inv m s S D C held →
  ∃ s' buf D', purge_take m s = Ok (s', buf) ∧ D = buf ++ D' ∧
    pool_inv m s' S D' C (buf ++ held) ∧ length buf = (32 `min` (length D - 32))%nat ∧
    outstanding_slabs s' = outstanding_slabs s.
Proof.
  intros Hi. apply (pool_inv_count _ _ _ _ _ _ 1 0 0 0) in Hi.
  destruct (purge_take_loop_ok m S C 32 _ D [] held Hi) as (s' & buf & D' & Hr & ?).
  exists s', buf, D'. split; [exact Hr|done].
Qed.

Lemma purge_finish_loop_ok S D buf : ∀ m s C held,
  pool_inv m s S D C (buf ++ held) →
  ∃ m' s', purge_finish_loop buf m s = Ok (m', s') ∧ pool_inv m' s' S D (rev buf ++ C) held ∧
    only_links buf m m' ∧ outstanding_slabs s' = outstanding_slabs s.
Proof.
  induction buf as [|p buf IH]; intros m s C held Hi.
  { exists m, s. by split. }
  pose proof Hi as [Hs Ht Ho Hcv Hd Hc Hp]. cbn [purge_finish_loop].
  cbn [app] in *.
  destruct (held_uncons S (D ++ C ++ uncarved s) p _ (buf ++ held) Hs (reflexivity _)) as (Hin & Hcnt & Hmax);
    [rewrite <- Hp; perm|].
  destruct (find_add_ok s S _ (buf ++ held) p (-1) Hs Ht Ho Hin Hcnt Hmax)
    as (i & b & outs & -> & Hib & Hseg & Hadd & Ho').
  cbn [mbind res_bind]. rewrite Hadd. cbn [mbind res_bind].
  destruct (PageFreeList_push m _ p) as [m1 c1] eqn:Hpush.
  destruct (pool_list_push m s S D C _ (buf ++ held) p (clean_list s) m1 c1 C Hi)
    as (Hc1 & Ho1 & Hframe); [done|done|set_solver|rewrite length_app; lia|done|].
  destruct (IH m1 (set_clean (set_seg_outstanding s outs) c1) (p :: C) held)
    as (m' & s' & Hr & Hi' & Hol & Hout).
  - split; [exact Hs|exact Ht|exact Ho'|exact Hcv| |exact Hc1|].
    + apply Hframe; [set_solver|exact Hd].
    + rewrite <- Hp. change (uncarved (set_clean _ _)) with (uncarved s). perm.
  - exists m', s'. split; [exact Hr|]. split; [|split; [|done]].
    + cbn [rev]. by rewrite <- app_assoc.
    + eapply only_links_trans; (eapply only_links_mono; [|eassumption]); set_solver.
Qed.

Lemma pool_inv_held_perm m s S D C held held' :
  held ≡ₚ held' → pool_inv m s S D C held → pool_inv m s S D C held'.
Proof.
  intros Hh [Hs Ht [Hl Ho] Hcv Hd Hc Hp]. split; [exact Hs|exact Ht| |exact Hcv|exact Hd|exact Hc|].
  - split; [done|]. rewrite Ho. apply list_fmap_ext. intros i b _. by apply held_count_perm.
  - by rewrite <- Hh.
Qed.

(** The purged pages become clean. *)
Lemma purge_finish_ok m s S D C buf held held' :
  pool_inv m s S D C held → held ≡ₚ buf ++ held' →
  ∃ m' s', purge_finish m s buf = Ok (m', s') ∧ pool_inv m' s' S D (rev buf ++ C) held' ∧
    only_links buf m m' ∧ outstanding_slabs s' = outstanding_slabs s.
Proof.
  intros Hi Hh. apply (pool_inv_held_perm _ _ _ _ _ _ _ Hh) in Hi.
  apply (pool_inv_count _ _ _ _ _ _ 1 0 0 (Z.of_nat (length buf))) in Hi.
  apply (purge_finish_loop_ok S D buf _ _ C held' Hi).
Qed.

(** The pool only relies on the links of its free pages. *)
Lemma pool_inv_agree m m' s S D C held :
  pool_inv m s S D C held →
  (∀ a x, a ∈ D ++ C → a ≤ x < a + SLAB_SIZE → read_byte m' x = read_byte m x) →
  pool_inv m' s S D C held.
Proof.
  intros [Hs Ht Ho Hcv Hd Hc Hp] Hx. change SLAB_SIZE with 65536 in Hx.
  split; [exact Hs|exact Ht|exact Ho|exact Hcv|destruct Hd as [Hd ?]|destruct Hc as [Hc ?]|exact Hp];
    (split; [|done]); (eapply chain_ext; [|eassumption]); intros a x Ha Hr;
    (apply (Hx a); [apply elem_of_app; tauto|lia]).
Qed.

Lemma pool_inv_new m : pool_inv m PoolState_new [] [] [] [].
Proof.
  split; [split; [constructor|exact I]|..].
  - split; [done|]. split; [done|]. split; [vm_compute; reflexivity|done].
  - split; [vm_compute; reflexivity|done].
  - intros Hlt. by vm_compute in Hlt.
  - apply page_list_empty.
  - apply page_list_empty.
  - done.
Qed.
