(* ===== verification/PoolSpec.v ===== *)
(** * The pool under concurrency

    [pool_step] interleaves any number of threads that allocate and return slab
    pages, large blocks, purge, register and deregister heaps, count abandoned
    and adopted slabs and take snapshots: one step is one critical section of
    [Pool], one call of the page allocator made between sections, a write of
    a client to a page it holds, or an event that a heap counts.  The state
    therefore records what is in flight: segments mapped and not yet installed,
    segments dropped from the tables and not yet unmapped, and purge buffers.

    The pool is proved against the interface [PageAllocatorLaws] and refines the
    abstract allocator [page_spec]; the last section runs it on the concrete
    backend of [Sys]. *)

From stdpp Require Import base numbers list gmap.
From Stdlib Require Import ZArith Lia.
From S2P Require Import Prelude SizeClass LinkMem FreeList Treiber Slab Sys Metrics PageList Pool PoolCounters PoolInv.

Local Open Scope Z_scope.
Local Open Scope clm_scope.
Arguments SEGMENT_SIZE : simpl never.
Arguments SLAB_SIZE : simpl never.

(** ** Specification: an allocator of pages *)

Inductive page_event :=
  | EvAllocSlab (p : Z)
  | EvDeallocSlab (p : Z)
  | EvInternal.

(** The state is the list of pages handed out. *)
Inductive page_spec : list Z → page_event → list Z → Prop :=
  | page_alloc_ev held p :
      slab_base_ok p → p ∉ held → page_spec held (EvAllocSlab p) (p :: held)
  | page_dealloc_ev held p held' :
      held ≡ₚ p :: held' → page_spec held (EvDeallocSlab p) held'
  | page_internal_ev held : page_spec held EvInternal held.

(** ** The system *)

Definition seg_block (b : Z) : block := (b, Segment_layout).

Section pool_sys.
Context {P : Type} `{PageAllocatorLaws P}.

Record pool_sys := mkPoolSys {
  ps_os : P;
  ps_mem : mem;
  ps_state : PoolState;
  ps_counters : hm_store;   (* the counters of the registered heaps *)
  ps_out : list Z;          (* pages handed out *)
  ps_new : list Z;          (* segments mapped, not yet installed *)
  ps_drop : list Z;         (* segments to be unmapped *)
  ps_bufs : list (list Z);  (* purge buffers *)
  ps_large : list block;    (* large blocks handed out *)
  ps_miss : nat;            (* threads that found no page and will map a segment *)
  ps_purge : nat;           (* threads that will purge *)
}.

Inductive pool_step : pool_sys → page_event → pool_sys → Prop :=
  | step_alloc os m s st out new drop bufs large miss prg p s' :
      alloc_slab_locked m s = Ok (Some p, s') →
      pool_step (mkPoolSys os m s st out new drop bufs large miss prg) (EvAllocSlab p)
                (mkPoolSys os m s' st (p :: out) new drop bufs large miss prg)
  | step_miss os m s st out new drop bufs large miss prg s' :
      alloc_slab_locked m s = Ok (None, s') →
      pool_step (mkPoolSys os m s st out new drop bufs large miss prg) EvInternal
                (mkPoolSys os m s' st out new drop bufs large (S miss) prg)
  | step_mmap os m s st out new drop bufs large miss prg b os' m' :
      pa_alloc os m Segment_layout = (Some b, os', m') →
      pool_step (mkPoolSys os m s st out new drop bufs large (S miss) prg) EvInternal
                (mkPoolSys os' m' s st out (b :: new) drop bufs large miss prg)
  | step_mmap_failed os m s st out new drop bufs large miss prg os' m' :
      pa_alloc os m Segment_layout = (None, os', m') →
      pool_step (mkPoolSys os m s st out new drop bufs large (S miss) prg) EvInternal
                (mkPoolSys os' m' s st out new drop bufs large miss prg)
  | step_install os m s st out new drop bufs large miss prg b new' p m' s' :
      new ≡ₚ b :: new' → alloc_slab_install m s b = Ok (Some p, m', s') →
      pool_step (mkPoolSys os m s st out new drop bufs large miss prg) (EvAllocSlab p)
                (mkPoolSys os m' s' st (p :: out) new' drop bufs large miss prg)
  | step_reject os m s st out new drop bufs large miss prg b new' m' s' :
      new ≡ₚ b :: new' → alloc_slab_install m s b = Ok (None, m', s') →
      pool_step (mkPoolSys os m s st out new drop bufs large miss prg) EvInternal
                (mkPoolSys os m' s' st out new' (b :: drop) bufs large miss prg)
  | step_dealloc os m s st out new drop bufs large miss prg p out' m' s' o :
      out ≡ₚ p :: out' → dealloc_slab_locked m s p = Ok (m', s', o) →
      pool_step (mkPoolSys os m s st out new drop bufs large miss prg) (EvDeallocSlab p)
        (mkPoolSys os m' s' st out' new
           (match o with ReleaseSegment b => b :: drop | Return _ => drop end) bufs large miss
           (match o with Return true => S prg | _ => prg end))
  | step_unmap os m s st out new drop bufs large miss prg b drop' os' m' :
      drop ≡ₚ b :: drop' → pa_dealloc os m b Segment_layout = (os', m') →
      pool_step (mkPoolSys os m s st out new drop bufs large miss prg) EvInternal
                (mkPoolSys os' m' s st out new drop' bufs large miss prg)
  | step_purge_take os m s st out new drop bufs large miss prg s' buf :
      purge_take m s = Ok (s', buf) →
      pool_step (mkPoolSys os m s st out new drop bufs large miss (S prg)) EvInternal
                (mkPoolSys os m s' st out new drop (buf :: bufs) large miss prg)
  | step_purge os m s st out new drop bufs large miss prg buf p os' m' :
      buf ∈ bufs → p ∈ buf → pa_purge os m p SLAB_SIZE = (os', m') →
      pool_step (mkPoolSys os m s st out new drop bufs large miss prg) EvInternal
                (mkPoolSys os' m' s st out new drop bufs large miss prg)
  | step_purge_finish os m s st out new drop bufs large miss prg buf bufs' m' s' :
      bufs ≡ₚ buf :: bufs' → purge_finish m s buf = Ok (m', s') →
      pool_step (mkPoolSys os m s st out new drop bufs large miss prg) EvInternal
                (mkPoolSys os m' s' st out new drop bufs' large miss prg)
  (** A client writes to a page it holds. *)
  | step_write os m s st out new drop bufs large miss prg p m' :
      p ∈ out → (∀ x, ¬ p ≤ x < p + SLAB_SIZE → read_byte m' x = read_byte m x) →
      pool_step (mkPoolSys os m s st out new drop bufs large miss prg) EvInternal
                (mkPoolSys os m' s st out new drop bufs large miss prg)
  | step_large os m s st out new drop bufs large miss prg l r os' m' s' :
      layout_valid l → 0 < size l →
      alloc_large (mkPool os m s) l = (r, mkPool os' m' s') →
      pool_step (mkPoolSys os m s st out new drop bufs large miss prg) EvInternal
        (mkPoolSys os' m' s' st out new drop bufs
           (match r with Some a => (a, l) :: large | None => large end) miss prg)
  | step_large_free os m s st out new drop bufs large miss prg a l large' os' m' s' :
      large ≡ₚ (a, l) :: large' →
      dealloc_large (mkPool os m s) a l = mkPool os' m' s' →
      pool_step (mkPoolSys os m s st out new drop bufs large miss prg) EvInternal
                (mkPoolSys os' m' s' st out new drop bufs large' miss prg)
  (** A new heap, and the end of one. *)
  | step_register os m s st out new drop bufs large miss prg ptr st' os' m' s' :
      st !! ptr = None →
      pool_register_heap (<[ptr := HeapMetrics_ZERO]> st) (mkPool os m s) ptr = Ok (st', mkPool os' m' s') →
      pool_step (mkPoolSys os m s st out new drop bufs large miss prg) EvInternal
                (mkPoolSys os' m' s' st' out new drop bufs large miss prg)
  | step_deregister os m s st out new drop bufs large miss prg ptr st' os' m' s' :
      pool_deregister_heap st (mkPool os m s) ptr = Ok (st', mkPool os' m' s') →
      pool_step (mkPoolSys os m s st out new drop bufs large miss prg) EvInternal
                (mkPoolSys os' m' s' (delete ptr st') out new drop bufs large miss prg)
  (** A heap counts, without the lock. *)
  | step_count os m s st out new drop bufs large miss prg ptr h e h' :
      st !! ptr = Some h → apply_counter h e = Ok h' →
      pool_step (mkPoolSys os m s st out new drop bufs large miss prg) EvInternal
                (mkPoolSys os m s (<[ptr := h']> st) out new drop bufs large miss prg)
  | step_abandoned os m s st out new drop bufs large miss prg c os' m' s' :
      inc_abandon_count (mkPool os m s) c = Ok (mkPool os' m' s') →
      pool_step (mkPoolSys os m s st out new drop bufs large miss prg) EvInternal
                (mkPoolSys os' m' s' st out new drop bufs large miss prg)
  | step_adopted os m s st out new drop bufs large miss prg c os' m' s' :
      inc_adopt_count (mkPool os m s) c = Ok (mkPool os' m' s') →
      pool_step (mkPoolSys os m s st out new drop bufs large miss prg) EvInternal
                (mkPoolSys os' m' s' st out new drop bufs large miss prg)
  | step_snapshot os m s st out new drop bufs large miss prg snap :
      snapshot (mkPool os m s) st = Ok snap →
      pool_step (mkPoolSys os m s st out new drop bufs large miss prg) EvInternal
                (mkPoolSys os m s st out new drop bufs large miss prg).

(** The pool at the start, when the allocator holds nothing of its client. *)
Definition pool_sys_init (os : P) (m : mem) : pool_sys :=
  mkPoolSys os m PoolState_new ∅ [] [] [] [] [] 0 0.

(** ** Invariant *)

Definition ps_held (w : pool_sys) : list Z := ps_out w ++ concat (ps_bufs w).

(** The blocks the pool and its clients hold. *)
Definition ps_blocks (w : pool_sys) (S : list Z) : list block :=
  (seg_block <$> (S ++ ps_new w ++ ps_drop w)) ++ ps_large w.

Definition sys_inv (w : pool_sys) (S D C : list Z) : Prop :=
  pool_inv (ps_mem w) (ps_state w) S D C (ps_held w) ∧
  pa_owns (ps_os w) (ps_blocks w S) ∧
  outstanding_slabs (ps_state w) = wrap 64 (Z.of_nat (length (ps_out w))).

Lemma Segment_layout_valid : layout_valid Segment_layout.
Proof. split; [by exists 16|by vm_compute]. Qed.

Lemma disjoint_blocks b b' :
  (∀ x, in_block (seg_block b) x → ¬ in_block (seg_block b') x) → seg_disj b b'.
Proof.
  unfold in_block, seg_disj. cbn. change SEGMENT_SIZE with 2097152. intros Hd.
  pose proof (Hd b) as H1. pose proof (Hd b') as H2. lia.
Qed.

Lemma owns_segs_ok os L large :
  pa_owns os ((seg_block <$> L) ++ large) → segs_ok L.
Proof.
  intros Ho. apply pa_owns_ok in Ho as [Hok Hd]. apply Forall_app in Hok as [Hok _]. split.
  - rewrite Forall_fmap in Hok. eapply Forall_impl; [exact Hok|]. done.
  - clear Hok. unfold blocks_disjoint in Hd.
    induction L as [|b L IH]; [exact I|]. cbn in Hd. destruct Hd as [Hb Hd].
    split; [|by apply IH]. apply Forall_app in Hb as [Hb _]. rewrite Forall_fmap in Hb.
    eapply Forall_impl; [exact Hb|]. intros b' Hbb. by apply disjoint_blocks.
Qed.

Lemma segs_ok_app_l S L : segs_ok (S ++ L) → segs_ok S.
Proof.
  induction L as [|b L IH] using rev_ind; [by rewrite app_nil_r|].
  rewrite app_assoc. intros Hs. apply IH. by apply segs_ok_snoc in Hs as [_ ?].
Qed.

Lemma segs_ok_perm S S' : S ≡ₚ S' → segs_ok S → segs_ok S'.
Proof.
  intros Hp [Hs Hd]. split; [by rewrite <- Hp|]. eapply pairwise_perm; [|done|done].
  unfold seg_disj. lia.
Qed.

(** A page of a registered segment lies in the segment's block. *)
Lemma page_in_block S a x :
  a ∈ all_pages S → a ≤ x < a + SLAB_SIZE → ∃ b, b ∈ S ∧ in_block (seg_block b) x.
Proof.
  intros (b & Hb & Ha)%elem_of_all_pages Hx. exists b. split; [done|].
  pose proof (seg_pages_range _ _ Ha). unfold in_block. cbn. lia.
Qed.

Lemma ps_blocks_in w S b : b ∈ S → seg_block b ∈ ps_blocks w S.
Proof.
  intros Hb. apply elem_of_app. left. apply list_elem_of_fmap. exists b. split; [done|].
  apply elem_of_app. by left.
Qed.

(** Keeping the contents of the segments keeps the invariant. *)
Lemma keeps_pool_inv m m' s S D C held L :
  pool_inv m s S D C held → (∀ b, b ∈ S → seg_block b ∈ L) → keeps L m m' →
  pool_inv m' s S D C held.
Proof.
  intros Hi HL Hk. eapply pool_inv_agree; [exact Hi|]. intros a x Ha Hx.
  assert (a ∈ all_pages S) as Hall.
  { rewrite <- (pi_parts _ _ _ _ _ _ Hi), app_assoc. apply elem_of_app. by left. }
  destruct (page_in_block S a x Hall Hx) as (b & Hb & Hin). eapply Hk; [by apply HL|done].
Qed.

(** Writes inside a held page leave the free pages alone. *)
Lemma held_write_pool_inv m m' s S D C held p :
  pool_inv m s S D C held → p ∈ held →
  (∀ a x, a ∈ all_pages S → a ≤ x < a + SLAB_SIZE → ¬ p ≤ x < p + SLAB_SIZE →
     read_byte m' x = read_byte m x) →
  pool_inv m' s S D C held.
Proof.
  intros Hi Hp Hx. eapply pool_inv_agree; [exact Hi|]. intros a x Ha Hr.
  pose proof Hi as [Hs _ _ _ _ _ Hparts].
  assert (a ∈ all_pages S ∧ p ∈ all_pages S) as [Hpa Hpp].
  { rewrite <- Hparts, !elem_of_app. rewrite elem_of_app in Ha. tauto. }
  apply (Hx a); [done|done|]. intros Hr'.
  pose proof (all_pages_NoDup S Hs) as Hnd. rewrite <- Hparts in Hnd.
  destruct (all_pages_aligned S a Hs Hpa) as [[i Hai] _].
  destruct (all_pages_aligned S p Hs Hpp) as [[j Hpj] _]. change SLAB_SIZE with 65536 in *.
  assert (a = p) as -> by lia. rewrite app_assoc in Hnd. apply NoDup_app in Hnd as (_ & Hnd & _).
  apply (Hnd p Ha). apply elem_of_app. by right.
Qed.

(** Purging a held page. *)
Lemma purge_page_ok os m s S D C held L p os' m' :
  pool_inv m s S D C held → p ∈ held → pa_owns os L → (∀ b, b ∈ S → seg_block b ∈ L) →
  pa_purge os m p SLAB_SIZE = (os', m') →
  pool_inv m' s S D C held ∧ pa_owns os' L.
Proof.
  intros Hi Hp Ho HL Ha. pose proof Hi as [Hs _ _ _ _ _ Hparts].
  assert (p ∈ all_pages S) as Hpp
    by (rewrite <- Hparts; do 3 (apply elem_of_app; right); exact Hp).
  pose proof Hpp as (b & HbS & Hpb)%elem_of_all_pages.
  pose proof (seg_pages_range _ _ Hpb) as Hr.
  destruct (all_pages_aligned S p Hs Hpp) as [Hal _].
  destruct (pa_purge_ok os m p SLAB_SIZE L os' m' (seg_block b) Ho (HL b HbS)) as [Ho' Hk];
    [cbn; lia|cbn; lia|done| |by exists 16|exact Ha|].
  { etrans; [|exact Hal]. by exists 16. }
  split; [|done]. eapply held_write_pool_inv; [exact Hi|exact Hp|].
  intros a x Hpa Hx Hnx. destruct (page_in_block S a x Hpa Hx) as (c & Hc & Hin).
  eapply Hk; [by apply HL|done|done].
Qed.

Lemma wrap_succ n : wrap 64 (Z.of_nat n) +[64] 1 = wrap 64 (Z.of_nat (S n)).
Proof. unfold wadd, wrap. rewrite Zplus_mod_idemp_l. f_equal. lia. Qed.

Lemma wrap_pred n : wrap 64 (Z.of_nat (S n)) -[64] 1 = wrap 64 (Z.of_nat n).
Proof. unfold wsub, wrap. rewrite Zminus_mod_idemp_l. f_equal. lia. Qed.

(** A page that becomes held was not held before, and is a slab page. *)
Lemma new_held_spec m s S D C p out rest :
  pool_inv m s S D C (p :: out ++ rest) → page_spec out (EvAllocSlab p) (p :: out).
Proof.
  intros [Hs _ _ _ _ _ Hp]. constructor.
  - eapply all_pages_aligned; [done|]. rewrite <- Hp, !elem_of_app. set_solver.
  - pose proof (all_pages_NoDup S Hs) as Hnd. rewrite <- Hp in Hnd.
    do 3 (apply NoDup_app in Hnd as (_ & _ & Hnd)). apply NoDup_cons in Hnd as [Hnot _].
    intros Hin. apply Hnot, elem_of_app. by left.
Qed.

Definition step_ok (w : pool_sys) (e : page_event) (w' : pool_sys) : Prop :=
  (∃ S D C, sys_inv w' S D C) ∧ page_spec (ps_out w) e (ps_out w').

(** The invariant does not depend on the counts of threads. *)
Lemma step_ok_threads w e os m s st out new drop bufs large a b c d :
  step_ok w e (mkPoolSys os m s st out new drop bufs large a b) →
  step_ok w e (mkPoolSys os m s st out new drop bufs large c d).
Proof. intros Hs. exact Hs. Qed.

Section step_lemmas.
Context (os : P) (m : mem) (s : PoolState) (st : hm_store) (out new drop : list Z) (bufs : list (list Z))
  (large : list block) (miss prg : nat) (S D C : list Z).
Context (Hinv : sys_inv (mkPoolSys os m s st out new drop bufs large miss prg) S D C).

Local Abbreviation w := (mkPoolSys os m s st out new drop bufs large miss prg).

Lemma alloc_step_ok p s' :
  alloc_slab_locked m s = Ok (Some p, s') →
  step_ok w (EvAllocSlab p) (mkPoolSys os m s' st (p :: out) new drop bufs large miss prg).
Proof.
  destruct Hinv as (Hi & Ho & Hn). cbn in Hi, Hn. intros Ha.
  destruct (alloc_slab_locked_ok m s S D C _ Hi) as (r & s1 & Ha' & _ & Hr).
  rewrite Ha in Ha'. injection Ha' as <- <-. destruct Hr as (D' & C' & Hi' & _ & Hout & _).
  split; [|by eapply new_held_spec]. exists S, D', C'. split; [exact Hi'|]. split; [exact Ho|].
  cbn. by rewrite Hout, Hn, wrap_succ.
Qed.

Lemma miss_step_ok s' :
  alloc_slab_locked m s = Ok (None, s') →
  step_ok w EvInternal (mkPoolSys os m s' st out new drop bufs large miss prg).
Proof.
  destruct Hinv as (Hi & Ho & Hn). cbn in Hi, Hn. intros Ha.
  destruct (alloc_slab_locked_ok m s S D C _ Hi) as (r & s1 & Ha' & _ & Hr).
  rewrite Ha in Ha'. injection Ha' as <- <-. destruct Hr as (Hi' & Hout).
  split; [|constructor]. exists S, D, C. split; [exact Hi'|]. split; [exact Ho|].
  cbn. by rewrite Hout, Hn.
Qed.

Lemma mmap_step_ok r os' m' :
  pa_alloc os m Segment_layout = (r, os', m') →
  step_ok w EvInternal
    (mkPoolSys os' m' s st out (match r with Some b => b :: new | None => new end) drop bufs large miss prg).
Proof.
  destruct Hinv as (Hi & Ho & Hn). intros Ha. split; [|constructor]. exists S, D, C.
  destruct r as [b|].
  - destruct (pa_alloc_some os m Segment_layout _ b os' m' Ho Segment_layout_valid) as (Ho' & Hk & _);
      [done|done|]. split; [by eapply keeps_pool_inv, Hk; [|apply ps_blocks_in]|]. split; [|done].
    eapply pa_owns_perm; [|exact Ho']. unfold ps_blocks. cbn [ps_new ps_drop ps_large].
    rewrite app_comm_cons. f_equiv. change (b, Segment_layout) with (seg_block b).
    rewrite <- fmap_cons. f_equiv. apply Permutation_middle.
  - destruct (pa_alloc_none os m Segment_layout _ os' m' Ho Segment_layout_valid) as (Ho' & Hk);
      [done|done|]. split; [by eapply keeps_pool_inv, Hk; [|apply ps_blocks_in]|]. split; [exact Ho'|done].
Qed.

Lemma new_segs_ok b new' : new ≡ₚ b :: new' → segs_ok (S ++ [b]).
Proof.
  intros Hnew. destruct Hinv as (_ & Ho & _). apply owns_segs_ok in Ho. cbn in Ho.
  apply (segs_ok_app_l _ (new' ++ drop)). eapply segs_ok_perm; [|exact Ho].
  rewrite Hnew. rewrite <- app_assoc. done.
Qed.

Lemma install_step_ok b new' r m' s' :
  new ≡ₚ b :: new' → alloc_slab_install m s b = Ok (r, m', s') →
  match r with
  | Some p => step_ok w (EvAllocSlab p) (mkPoolSys os m' s' st (p :: out) new' drop bufs large miss prg)
  | None => step_ok w EvInternal (mkPoolSys os m' s' st out new' (b :: drop) bufs large miss prg)
  end.
Proof.
  intros Hnew Ha. pose proof (new_segs_ok b new' Hnew) as Hs'.
  destruct Hinv as (Hi & Ho & Hn). cbn in Hi, Hn.
  destruct (alloc_slab_install_ok m s S D C _ b Hi Hs') as (r1 & m1 & s1 & Ha' & Hr).
  rewrite Ha in Ha'. injection Ha' as <- <- <-. destruct r as [p|].
  - destruct Hr as (-> & (C' & Hi') & Hout & _). split; [|by eapply new_held_spec].
    exists (S ++ [b]), D, C'. split; [exact Hi'|]. split; [|cbn; by rewrite Hout, Hn, wrap_succ].
    eapply pa_owns_perm; [|exact Ho]. unfold ps_blocks. cbn. f_equiv. f_equiv.
    rewrite Hnew, <- app_assoc. done.
  - destruct Hr as (_ & -> & Hi' & Hout). split; [|constructor].
    exists S, D, C. split; [exact Hi'|]. split; [|cbn; by rewrite Hout, Hn].
    eapply pa_owns_perm; [|exact Ho]. unfold ps_blocks. cbn. f_equiv. f_equiv. f_equiv.
    rewrite Hnew. cbn. apply Permutation_middle.
Qed.

Lemma dealloc_step_ok p out' m' s' o :
  out ≡ₚ p :: out' → dealloc_slab_locked m s p = Ok (m', s', o) →
  step_ok w (EvDeallocSlab p) (mkPoolSys os m' s' st out' new
    (match o with ReleaseSegment b => b :: drop | Return _ => drop end) bufs large miss prg).
Proof.
  intros Hout Ha. destruct Hinv as (Hi & Ho & Hn). cbn in Hi, Hn.
  assert (ps_held w ≡ₚ p :: out' ++ concat bufs) as Hh by (unfold ps_held; cbn; by rewrite Hout).
  destruct (dealloc_slab_locked_ok m s S D C _ _ p Hi Hh) as (m1 & s1 & o1 & Ha' & Hcnt & _ & Hr).
  rewrite Ha in Ha'. injection Ha' as <- <- <-. split; [|by constructor].
  assert (outstanding_slabs s' = wrap 64 (Z.of_nat (length out'))) as Hn'
    by (by rewrite Hcnt, Hn, Hout; cbn [length]; rewrite wrap_pred).
  destruct o as [b|purge].
  - destruct Hr as (_ & _ & S' & HS & Hi'). exists S'. do 2 eexists.
    split; [exact Hi'|]. split; [|exact Hn'].
    eapply pa_owns_perm; [|exact Ho]. unfold ps_blocks. cbn [ps_new ps_drop ps_large].
    f_equiv. f_equiv. rewrite HS. perm.
  - destruct Hr as (Hi' & _). exists S, (p :: D), C. split; [exact Hi'|]. by split.
Qed.

Lemma unmap_step_ok b drop' os' m' :
  drop ≡ₚ b :: drop' → pa_dealloc os m b Segment_layout = (os', m') →
  step_ok w EvInternal (mkPoolSys os' m' s st out new drop' bufs large miss prg).
Proof.
  intros Hdrop Ha. destruct Hinv as (Hi & Ho & Hn). split; [|constructor]. exists S, D, C.
  set (w' := mkPoolSys os' m' s st out new drop' bufs large miss prg).
  assert (pa_owns os ((b, Segment_layout) :: ps_blocks w' S)) as Ho1.
  { eapply pa_owns_perm; [|exact Ho]. unfold ps_blocks. cbn. rewrite Hdrop.
    change (b, Segment_layout) with (seg_block b). rewrite app_comm_cons, <- fmap_cons. f_equiv. f_equiv.
    rewrite !app_assoc. symmetry. apply Permutation_middle. }
  destruct (pa_dealloc_ok os m b Segment_layout _ os' m' Ho1 Ha) as [Ho' Hk].
  split; [|split; [exact Ho'|exact Hn]].
  eapply keeps_pool_inv; [exact Hi|apply (ps_blocks_in w')|exact Hk].
Qed.

Lemma purge_take_step_ok s' buf :
  purge_take m s = Ok (s', buf) →
  step_ok w EvInternal (mkPoolSys os m s' st out new drop (buf :: bufs) large miss prg).
Proof.
  intros Ha. destruct Hinv as (Hi & Ho & Hn). cbn in Hi, Hn. split; [|constructor].
  destruct (purge_take_ok m s S D C _ Hi) as (s1 & buf1 & D' & Ha' & HD & Hi' & _ & Hout).
  rewrite Ha in Ha'. injection Ha' as <- <-. exists S, D', C. split; [|split; [exact Ho|]].
  - eapply pool_inv_held_perm; [|exact Hi']. unfold ps_held. cbn. perm.
  - cbn. by rewrite Hout.
Qed.

Lemma purge_step_ok buf p os' m' :
  buf ∈ bufs → p ∈ buf → pa_purge os m p SLAB_SIZE = (os', m') →
  step_ok w EvInternal (mkPoolSys os' m' s st out new drop bufs large miss prg).
Proof.
  intros Hb Hp Ha. destruct Hinv as (Hi & Ho & Hn). cbn in Hi. split; [|constructor].
  exists S, D, C.
  assert (p ∈ ps_held w) as Hheld.
  { apply elem_of_app. right. cbn. clear -Hb Hp. induction bufs as [|x l IH]; [set_solver|].
    cbn. apply elem_of_app. apply elem_of_cons in Hb as [->|Hb]; auto. }
  destruct (purge_page_ok os m s S D C _ _ p os' m' Hi Hheld Ho (ps_blocks_in w S) Ha).
  by split.
Qed.

Lemma purge_finish_step_ok buf bufs' m' s' :
  bufs ≡ₚ buf :: bufs' → purge_finish m s buf = Ok (m', s') →
  step_ok w EvInternal (mkPoolSys os m' s' st out new drop bufs' large miss prg).
Proof.
  intros Hb Ha. destruct Hinv as (Hi & Ho & Hn). cbn in Hi, Hn. split; [|constructor].
  assert (ps_held w ≡ₚ buf ++ out ++ concat bufs') as Hh.
  { unfold ps_held. cbn. rewrite Hb. cbn. rewrite !app_assoc. f_equiv. apply Permutation_app_comm. }
  destruct (purge_finish_ok m s S D C buf _ _ Hi Hh) as (m1 & s1 & Ha' & Hi' & _ & Hout).
  rewrite Ha in Ha'. injection Ha' as <- <-. exists S, D, (rev buf ++ C).
  split; [exact Hi'|]. split; [exact Ho|]. cbn. by rewrite Hout.
Qed.

Lemma write_step_ok p m' :
  p ∈ out → (∀ x, ¬ p ≤ x < p + SLAB_SIZE → read_byte m' x = read_byte m x) →
  step_ok w EvInternal (mkPoolSys os m' s st out new drop bufs large miss prg).
Proof.
  intros Hp Hx. destruct Hinv as (Hi & Ho & Hn). split; [|constructor]. exists S, D, C.
  split; [|by split]. eapply held_write_pool_inv; [exact Hi| |].
  - apply elem_of_app. left. exact Hp.
  - intros a x _ _ Hnx. by apply Hx.
Qed.

Lemma large_step_ok l r os' m' s' :
  layout_valid l → 0 < size l → alloc_large (mkPool os m s) l = (r, mkPool os' m' s') →
  step_ok w EvInternal (mkPoolSys os' m' s' st out new drop bufs
    (match r with Some a => (a, l) :: large | None => large end) miss prg).
Proof.
  intros Hl Hsz Ha. destruct Hinv as (Hi & Ho & Hn). split; [|constructor]. exists S, D, C.
  unfold alloc_large in Ha. cbn in Ha.
  destruct (pa_alloc os m l) as [[[a|] os1] m1] eqn:Hpa; injection Ha as <- <- <- <-.
  - destruct (pa_alloc_some os m l _ a _ _ Ho Hl Hsz Hpa) as (Ho' & Hk & _).
    split; [|split; [|exact Hn]].
    + assert (pool_inv m1 s S D C (ps_held w)) as [] by (by eapply keeps_pool_inv, Hk; [|apply ps_blocks_in]). by split.
    + eapply pa_owns_perm; [|exact Ho']. unfold ps_blocks. cbn. apply Permutation_middle.
  - destruct (pa_alloc_none os m l _ _ _ Ho Hl Hsz Hpa) as (Ho' & Hk).
    split; [by eapply keeps_pool_inv, Hk; [|apply ps_blocks_in]|]. by split.
Qed.

Lemma large_free_step_ok a l large' os' m' s' :
  large ≡ₚ (a, l) :: large' → dealloc_large (mkPool os m s) a l = mkPool os' m' s' →
  step_ok w EvInternal (mkPoolSys os' m' s' st out new drop bufs large' miss prg).
Proof.
  intros Hlarge Ha. destruct Hinv as (Hi & Ho & Hn). split; [|constructor]. exists S, D, C.
  unfold dealloc_large in Ha. cbn in Ha.
  destruct (pa_dealloc os m a l) as [os1 m1] eqn:Hpa. injection Ha as <- <- <-.
  set (w' := mkPoolSys os m s st out new drop bufs large' miss prg).
  assert (pa_owns os ((a, l) :: ps_blocks w' S)) as Ho1.
  { eapply pa_owns_perm; [|exact Ho]. unfold ps_blocks. cbn. rewrite Hlarge.
    symmetry. apply Permutation_middle. }
  destruct (pa_dealloc_ok os m a l _ _ _ Ho1 Hpa) as [Ho' Hk].
  split; [|split; [exact Ho'|exact Hn]].
  assert (pool_inv m1 s S D C (ps_held w)) as []
    by (eapply keeps_pool_inv; [exact Hi|apply (ps_blocks_in w')|exact Hk]).
  by split.
Qed.

(** Sections that touch only the counters. *)
Lemma counters_step_ok pm st' :
  step_ok w EvInternal (mkPoolSys os m (set_metrics s pm) st' out new drop bufs large miss prg).
Proof.
  destruct Hinv as (Hi & Ho & Hn). split; [|constructor]. exists S, D, C.
  split; [|by split]. cbn in Hi |- *. destruct Hi. by split.
Qed.
End step_lemmas.

Lemma pool_step_ok w S D C e w' : sys_inv w S D C → pool_step w e w' → step_ok w e w'.
Proof.
  intros Hi Hstep. destruct Hstep.
  - by eapply alloc_step_ok.
  - by eapply step_ok_threads, miss_step_ok.
  - by eapply step_ok_threads, (mmap_step_ok _ _ _ _ _ _ _ _ _ _ _ _ _ _ Hi (Some b)).
  - by eapply step_ok_threads, (mmap_step_ok _ _ _ _ _ _ _ _ _ _ _ _ _ _ Hi None).
  - by eapply (install_step_ok _ _ _ _ _ _ _ _ _ _ _ _ _ _ Hi b new' (Some p)).
  - by eapply (install_step_ok _ _ _ _ _ _ _ _ _ _ _ _ _ _ Hi b new' None).
  - by eapply step_ok_threads, dealloc_step_ok.
  - by eapply unmap_step_ok.
  - by eapply step_ok_threads, purge_take_step_ok.
  - by eapply purge_step_ok.
  - by eapply purge_finish_step_ok.
  - by eapply write_step_ok.
  - by eapply large_step_ok.
  - by eapply large_free_step_ok.
  - match goal with E : pool_register_heap _ _ _ = Ok _ |- _ => unfold pool_register_heap in E; bind_inv E as [st1 pm] E1;
      injection E as <- <- <- <- end. by eapply counters_step_ok.
  - match goal with E : pool_deregister_heap _ _ _ = Ok _ |- _ => unfold pool_deregister_heap in E; bind_inv E as [st1 pm] E1;
      injection E as <- <- <- <- end. by eapply counters_step_ok.
  - assert (s = set_metrics s (metrics s)) as Heq by by destruct s. rewrite Heq at 2. by eapply counters_step_ok.
  - match goal with E : inc_abandon_count _ _ = Ok _ |- _ => unfold inc_abandon_count in E; bind_inv E as counts E1;
      injection E as <- <- <- end. by eapply counters_step_ok.
  - match goal with E : inc_adopt_count _ _ = Ok _ |- _ => unfold inc_adopt_count in E; bind_inv E as counts E1;
      injection E as <- <- <- end. by eapply counters_step_ok.
  - split; [by exists S, D, C|constructor].
Qed.

(** Every step keeps the counters in order. *)
Lemma pool_step_counters w e w' :
  pool_step w e w' → pool_counters_ok (ps_counters w) (ps_state w) → pool_counters_ok (ps_counters w') (ps_state w').
Proof.
  intros Hstep Hc. destruct Hstep; cbn [ps_counters ps_state] in *; try done.
  1, 2: eapply pool_counters_section; [by eapply alloc_slab_locked_stats|exact Hc].
  1, 2: eapply pool_counters_section; [by eapply alloc_slab_install_stats|exact Hc].
  - eapply pool_counters_section; [by eapply dealloc_slab_locked_stats|exact Hc].
  - apply (pool_counters_same st s); [|exact Hc]. etrans; [by eapply purge_take_loop_stats|done].
  - apply (pool_counters_same st s); [|exact Hc]. etrans; [by eapply purge_finish_loop_stats|done].
  - unfold alloc_large in *. cbn [page_alloc pool_mem state] in *. destruct (pa_alloc os m l) as [[[a|] os1] m1]; simplify_eq; [|done].
    destruct Hc. by split.
  - unfold dealloc_large in *. cbn [page_alloc pool_mem state] in *. destruct (pa_dealloc os m a l) as [os1 m1]; simplify_eq.
    destruct Hc. by split.
  - match goal with E : pool_register_heap _ _ _ = Ok _ |- _ => unfold pool_register_heap in E; bind_inv E as [st1 pm] E1;
      injection E as <- <- <- <- end. apply (pool_counters_exec st s (MRegister ptr)); [|done]. cbn. by case_match.
  - match goal with E : pool_deregister_heap _ _ _ = Ok _ |- _ => unfold pool_deregister_heap in E; bind_inv E as [st1 pm] E1;
      injection E as <- <- <- <- end. apply (pool_counters_exec st s (MDeregister ptr)); [|done]. cbn in *. by rewrite E1.
  - assert (s = set_metrics s (metrics s)) as -> by by destruct s. apply (pool_counters_exec st s (MCount ptr e)); [|done].
    cbn. match goal with E : st !! ptr = _, E' : apply_counter _ _ = _ |- _ => rewrite E; cbn; by rewrite E' end.
  - match goal with E : inc_abandon_count _ _ = Ok _ |- _ => unfold inc_abandon_count in E; bind_inv E as counts E1;
      injection E as <- <- <- end. by eapply pool_counters_abandon.
  - match goal with E : inc_adopt_count _ _ = Ok _ |- _ => unfold inc_adopt_count in E; bind_inv E as counts E1;
      injection E as <- <- <- end. by eapply pool_counters_adopt.
Qed.

Lemma sys_inv_init os m : pa_owns os [] → sys_inv (pool_sys_init os m) [] [] [].
Proof. intros Ho. split; [apply pool_inv_new|]. by split. Qed.

(** Every reachable state satisfies the invariant. *)
Lemma reachable_inv os m es w :
  pa_owns os [] → run pool_step (pool_sys_init os m) es w → ∃ S D C, sys_inv w S D C.
Proof.
  intros Ho Hrun. eapply (run_invariant pool_step (λ w, ∃ S D C, sys_inv w S D C)); [|by do 3 eexists; apply sys_inv_init|exact Hrun].
  intros s e s' (S & D & C & Hi) Hstep. by destruct (pool_step_ok s S D C e s' Hi Hstep).
Qed.

(** ** Running the system *)

(** The steps of the demonstrations, as an executable function. *)
Inductive pool_cmd :=
  | CmdAlloc | CmdMmap | CmdInstall (b : Z) | CmdDealloc (p : Z) | CmdUnmap (b : Z)
  | CmdPurgeTake | CmdPurgeFinish | CmdRegister (ptr : Z).

Definition pool_exec (w : pool_sys) (c : pool_cmd) : option (page_event * pool_sys) :=
  let '(mkPoolSys os m s st out new drop bufs large miss prg) := w in
  match c with
  | CmdAlloc =>
      match alloc_slab_locked m s with
      | Ok (Some p, s) =>
          Some (EvAllocSlab p, mkPoolSys os m s st (p :: out) new drop bufs large miss prg)
      | Ok (None, s) => Some (EvInternal, mkPoolSys os m s st out new drop bufs large (S miss) prg)
      | Panic _ => None
      end
  | CmdMmap =>
      match miss, pa_alloc os m Segment_layout with
      | S miss, (Some b, os, m) =>
          Some (EvInternal, mkPoolSys os m s st out (b :: new) drop bufs large miss prg)
      | _, _ => None
      end
  | CmdInstall b =>
      match take_out b new, alloc_slab_install m s b with
      | Some new, Ok (Some p, m, s) =>
          Some (EvAllocSlab p, mkPoolSys os m s st (p :: out) new drop bufs large miss prg)
      | _, _ => None
      end
  | CmdDealloc p =>
      match take_out p out, dealloc_slab_locked m s p with
      | Some out, Ok (m, s, o) =>
          Some (EvDeallocSlab p, mkPoolSys os m s st out new
            (match o with ReleaseSegment b => b :: drop | Return _ => drop end) bufs large miss
            (match o with Return true => S prg | _ => prg end))
      | _, _ => None
      end
  | CmdUnmap b =>
      match take_out b drop, pa_dealloc os m b Segment_layout with
      | Some drop, (os, m) => Some (EvInternal, mkPoolSys os m s st out new drop bufs large miss prg)
      | None, _ => None
      end
  | CmdPurgeTake =>
      match prg, purge_take m s with
      | S prg, Ok (s, buf) =>
          Some (EvInternal, mkPoolSys os m s st out new drop (buf :: bufs) large miss prg)
      | _, _ => None
      end
  | CmdPurgeFinish =>
      match bufs with
      | buf :: bufs =>
          match purge_finish m s buf with
          | Ok (m, s) => Some (EvInternal, mkPoolSys os m s st out new drop bufs large miss prg)
          | Panic _ => None
          end
      | [] => None
      end
  | CmdRegister ptr =>
      match st !! ptr, pool_register_heap (<[ptr := HeapMetrics_ZERO]> st) (mkPool os m s) ptr with
      | None, Ok (st, mkPool os m s) => Some (EvInternal, mkPoolSys os m s st out new drop bufs large miss prg)
      | _, _ => None
      end
  end.

Fixpoint pool_exec_all (w : pool_sys) (cs : list pool_cmd) : option (list page_event * pool_sys) :=
  match cs with
  | [] => Some ([], w)
  | c :: cs =>
      match pool_exec w c with
      | Some (e, w) =>
          match pool_exec_all w cs with Some (es, w) => Some (e :: es, w) | None => None end
      | None => None
      end
  end.

Lemma pool_exec_sound w c e w' : pool_exec w c = Some (e, w') → pool_step w e w'.
Proof.
  destruct w as [os m s st out new drop bufs large miss prg]. destruct c as [| |b|p|b| | |ptr]; cbn [pool_exec].
  - destruct (alloc_slab_locked m s) as [[[p|] s']|] eqn:E; intros [= <- <-];
      by constructor.
  - destruct miss as [|miss]; [done|].
    destruct (pa_alloc os m Segment_layout) as [[[b|] os'] m'] eqn:E; [|done].
    intros [= <- <-]. by constructor.
  - destruct (take_out b new) as [new'|] eqn:Hr; [|done].
    destruct (alloc_slab_install m s b) as [[[[p|] m'] s']|] eqn:E; [|done..].
    intros [= <- <-]. eapply step_install; [by apply take_out_Some|done].
  - destruct (take_out p out) as [out'|] eqn:Hr; [|done].
    destruct (dealloc_slab_locked m s p) as [[[m' s'] o]|] eqn:E; [|done].
    intros [= <- <-]. apply step_dealloc; [by apply take_out_Some|done].
  - destruct (take_out b drop) as [drop'|] eqn:Hr; [|done].
    destruct (pa_dealloc os m b Segment_layout) as [os' m'] eqn:E.
    intros [= <- <-]. eapply step_unmap; [by apply take_out_Some|done].
  - destruct prg as [|prg]; [done|]. destruct (purge_take m s) as [[s' buf]|] eqn:E; [|done].
    intros [= <- <-]. by constructor.
  - destruct bufs as [|buf bufs]; [done|].
    destruct (purge_finish m s buf) as [[m' s']|] eqn:E; [|done].
    intros [= <- <-]. by eapply step_purge_finish.
  - destruct (st !! ptr) eqn:Hn; [done|]. destruct (pool_register_heap _ _ _) as [[st' [os' m' s']]|] eqn:E; [|done].
    intros [= <- <-]. by eapply step_register.
Qed.

Lemma pool_exec_all_sound cs : ∀ w es w', pool_exec_all w cs = Some (es, w') → run pool_step w es w'.
Proof.
  induction cs as [|c cs IH]; intros w es w'; cbn [pool_exec_all].
  { intros [= <- <-]. constructor. }
  destruct (pool_exec w c) as [[e w1]|] eqn:He; [|done].
  destruct (pool_exec_all w1 cs) as [[es' w2]|] eqn:Hes; [|done].
  intros [= <- <-]. econstructor; [by apply pool_exec_sound in He|by apply IH].
Qed.

(** ** Properties *)

(** C20. Under every interleaving of allocating, returning and purging threads
    the pool refines the page allocator: a page is handed out only while no one
    holds it, it is aligned and inside the address space, and the pages handed
    out are exactly those not yet returned. *)
Theorem pool_refines (os : P) (m : mem) (es : list page_event) (w : pool_sys) :
  pa_owns os [] → run pool_step (pool_sys_init os m) es w → run page_spec [] es (ps_out w).
Proof.
  intros Ho Hrun.
  destruct (run_simulation pool_step page_spec
    (λ w a, a = ps_out w ∧ ∃ S D C, sys_inv w S D C)) with
    (c := pool_sys_init os m) (a := @nil Z) (es := es) (c' := w) as (a' & Ha & -> & _); [|..|done].
  - intros w1 e w2 a (-> & S & D & C & Hi) Hstep.
    destruct (pool_step_ok w1 S D C e w2 Hi Hstep) as [Hi' Hspec]. by exists (ps_out w2).
  - split; [done|]. do 3 eexists. by apply sys_inv_init.
  - done.
Qed.

(** C23. One critical section of the pool can panic, and only one: in every
    reachable state, whatever threads interleave, each section a thread may
    enter (to take, install and return pages, to purge, to deregister a heap,
    to count abandoned and adopted slabs, to read a snapshot) returns, and
    registering a new heap returns too unless 1024 heaps are registered, and
    then it panics, holding the lock.  (The sections of large blocks only add
    and subtract.) *)
Theorem pool_panics_only_at_capacity (os : P) (m : mem) (es : list page_event) (w : pool_sys) :
  pa_owns os [] → run pool_step (pool_sys_init os m) es w →
  let pool := mkPool (ps_os w) (ps_mem w) (ps_state w) in
  (∃ r, alloc_slab_locked (ps_mem w) (ps_state w) = Ok r) ∧
  (∀ b, b ∈ ps_new w → ∃ r, alloc_slab_install (ps_mem w) (ps_state w) b = Ok r) ∧
  (∀ p, p ∈ ps_out w → ∃ r, dealloc_slab_locked (ps_mem w) (ps_state w) p = Ok r) ∧
  (∃ r, purge_take (ps_mem w) (ps_state w) = Ok r) ∧
  (∀ buf, buf ∈ ps_bufs w → ∃ r, purge_finish (ps_mem w) (ps_state w) buf = Ok r) ∧
  (∀ ptr, is_Some (ps_counters w !! ptr) → ∃ r, pool_deregister_heap (ps_counters w) pool ptr = Ok r) ∧
  (∀ c, 0 ≤ c < NUM_CLASSES → (∃ r, inc_abandon_count pool c = Ok r) ∧ (∃ r, inc_adopt_count pool c = Ok r)) ∧
  (∃ r, snapshot pool (ps_counters w) = Ok r) ∧
  (∀ ptr, ps_counters w !! ptr = None →
     let r := pool_register_heap (<[ptr := HeapMetrics_ZERO]> (ps_counters w)) pool ptr in
     if heap_count (metrics (ps_state w)) <? MAX_HEAPS then ∃ x, r = Ok x else r = Panic PanicAssert).
Proof.
  intros Ho Hrun pool. destruct (reachable_inv _ _ _ _ Ho Hrun) as (S & D & C & Hinv).
  assert (pool_counters_ok (ps_counters w) (state pool)) as Hc.
  { apply (run_invariant pool_step (λ w, pool_counters_ok (ps_counters w) (ps_state w)) (pool_sys_init os m) es w);
      [|exact pool_counters_new|exact Hrun]. intros ? ? ? Hok Hstep. by eapply pool_step_counters. }
  pose proof Hinv as (Hi & _ & _). split; [|split; [|split; [|split; [|split]]]].
  6: { split; [intros ptr Hs; by apply deregister_section|]. split; [intros c Hx; exact (count_sections pool _ c Hc Hx)|].
       split; [by apply snapshot_section|]. intros ptr Hn. exact (register_section pool _ ptr Hc Hn). }
  - destruct (alloc_slab_locked_ok _ _ _ _ _ _ Hi) as (r & s' & -> & _). eauto.
  - intros b Hb. apply elem_of_Permutation in Hb as [new' Hnew]. destruct w.
    pose proof (new_segs_ok _ _ _ _ _ _ _ _ _ _ _ _ _ _ Hinv b new' Hnew) as Hs.
    destruct (alloc_slab_install_ok _ _ _ _ _ _ b Hi Hs) as (r & m' & s' & -> & _). eauto.
  - intros p Hp. apply elem_of_Permutation in Hp as [out' Hout].
    destruct (dealloc_slab_locked_ok _ _ _ _ _ _ (out' ++ concat (ps_bufs w)) p Hi)
      as (m' & s' & o & -> & _); [unfold ps_held; by rewrite Hout|eauto].
  - destruct (purge_take_ok _ _ _ _ _ _ Hi) as (s' & buf & D' & -> & _). eauto.
  - intros buf Hb. apply elem_of_Permutation in Hb as [bufs' Hbufs].
    destruct (purge_finish_ok _ _ _ _ _ buf _ (ps_out w ++ concat bufs') Hi)
      as (m' & s' & -> & _); [|eauto].
    unfold ps_held. rewrite Hbufs. cbn. rewrite !app_assoc. f_equiv. apply Permutation_app_comm.
Qed.

(** C21. Accounting: in every reachable state the pages of the registered
    segments are exactly the dirty, clean, uncarved, purged-in-flight and
    handed-out ones, each once; [seg_outstanding] is the number of the latter
    two in each segment and fits its byte, and [outstanding_slabs] counts the
    pages handed out. *)
Theorem pool_accounting (os : P) (m : mem) (es : list page_event) (w : pool_sys) :
  pa_owns os [] → run pool_step (pool_sys_init os m) es w →
  let s := ps_state w in
  let segs := take (Z.to_nat (segment_count s)) (segments s) in
  ∃ D C, page_list (ps_mem w) (dirty_list s) D ∧ page_list (ps_mem w) (clean_list s) C ∧
    D ++ C ++ uncarved s ++ ps_out w ++ concat (ps_bufs w) ≡ₚ all_pages segs ∧
    NoDup (all_pages segs) ∧
    (∀ i b, segs !! i = Some b →
       seg_outstanding s !! i = Some (held_count (ps_out w ++ concat (ps_bufs w)) b) ∧
       held_count (ps_out w ++ concat (ps_bufs w)) b ≤ 32) ∧
    outstanding_slabs s = wrap 64 (Z.of_nat (length (ps_out w))).
Proof.
  intros Ho Hrun s segs. destruct (reachable_inv _ _ _ _ Ho Hrun) as (S & D & C & Hi & _ & Hn).
  pose proof Hi as [Hs (Hcnt & Hmax & _ & Ht) [_ Houts] _ Hd Hc Hp].
  assert (segs = S) as Heq by (unfold segs, s; rewrite Hcnt, Nat2Z.id; exact Ht).
  clearbody segs. subst segs. exists D, C. do 3 (split; [done|]).
  split; [by apply all_pages_NoDup|]. split; [|done]. intros i b Hib. split.
  - assert (take (length S) (seg_outstanding s) !! i = Some (held_count (ps_held w) b)) as Hx
      by (unfold s; by rewrite Houts, list_lookup_fmap, Hib).
    by apply lookup_take_Some in Hx as [? _].
  - apply (held_count_bound S (D ++ C ++ uncarved s)); [done|by eapply list_elem_of_lookup_2|].
    rewrite <- Hp, <- !app_assoc. done.
Qed.

(** C22. A segment is given back to the system only when no page of it is handed
    out or being purged, and every page in use lies in a registered segment
    whose memory the pool still owns. *)
Theorem pool_unmap_safe (os : P) (m : mem) (es : list page_event) (w : pool_sys) (p : Z) :
  pa_owns os [] → run pool_step (pool_sys_init os m) es w →
  p ∈ ps_out w ++ concat (ps_bufs w) →
  let segs := take (Z.to_nat (segment_count (ps_state w))) (segments (ps_state w)) in
  (∃ b, b ∈ segs ∧ b ≤ p ∧ p + SLAB_SIZE ≤ b + SEGMENT_SIZE) ∧
  pa_owns (ps_os w) ((seg_block <$> (segs ++ ps_new w ++ ps_drop w)) ++ ps_large w) ∧
  (∀ b, b ∈ ps_drop w → p + SLAB_SIZE ≤ b ∨ b + SEGMENT_SIZE ≤ p).
Proof.
  intros Ho Hrun Hp segs. destruct (reachable_inv _ _ _ _ Ho Hrun) as (S & D & C & Hi & How & _).
  pose proof Hi as [Hs (Hcnt & _ & _ & Ht) _ _ _ _ Hparts].
  assert (segs = S) as Heq by (unfold segs; rewrite Hcnt, Nat2Z.id; exact Ht).
  clearbody segs. subst segs.
  assert (p ∈ all_pages S) as (b & Hb & Hpb)%elem_of_all_pages
    by (rewrite <- Hparts; do 3 (apply elem_of_app; right); exact Hp).
  pose proof (seg_pages_range _ _ Hpb) as Hr.
  split; [by exists b|]. split; [exact How|]. intros b' Hb'.
  apply owns_segs_ok in How as [_ Hd].
  apply elem_of_Permutation in Hb as [S' HS]. apply elem_of_Permutation in Hb' as [dr Hdr].
  assert (pairwise seg_disj (b :: b' :: S' ++ ps_new w ++ dr)) as [Hf _].
  { eapply pairwise_perm; [unfold seg_disj; lia| |exact Hd]. rewrite HS, Hdr. perm. }
  apply Forall_cons in Hf as [Hbb _]. unfold seg_disj in Hbb.
  change SLAB_SIZE with 65536 in *. lia.
Qed.
End pool_sys.
Arguments pool_sys : clear implicits.

(** ** Demonstrations on the concrete backend *)

Lemma demo0_pa_owns : pa_owns (P:=demo_kernel) demo0 [].
Proof. exact demo0_owns. Qed.

Definition pool_demo0 : pool_sys demo_kernel := pool_sys_init demo0 ∅.

(** A page is allocated from a new segment and returned. *)
Definition demo_cmds : list pool_cmd :=
  [CmdAlloc; CmdMmap; CmdInstall 458752; CmdAlloc; CmdDealloc 458752].
Definition demo_pool_events : list page_event :=
  [EvInternal; EvInternal; EvAllocSlab 458752; EvAllocSlab 524288; EvDeallocSlab 458752].

(** The state after some commands, and what a run shows of it. *)
Definition pool_after (cs : list pool_cmd) : pool_sys demo_kernel :=
  match pool_exec_all pool_demo0 cs with Some (_, w) => w | None => pool_demo0 end.

Definition events_of (cs : list pool_cmd) : option (list page_event) :=
  fst <$> pool_exec_all pool_demo0 cs.

Lemma pool_after_run cs es :
  events_of cs = Some es → run pool_step pool_demo0 es (pool_after cs).
Proof.
  unfold events_of, pool_after. destruct (pool_exec_all pool_demo0 cs) as [[es' w]|] eqn:E; [|done].
  intros [= <-]. by apply pool_exec_all_sound in E.
Qed.

Lemma pool_refines_witness :
  run page_spec [] demo_pool_events [524288] ∧ ps_out (pool_after demo_cmds) = [524288].
Proof.
  split; [|vm_compute; reflexivity].
  replace [524288] with (ps_out (pool_after demo_cmds)) by (vm_compute; reflexivity).
  apply (pool_refines demo0 ∅); [exact demo0_pa_owns|].
  apply pool_after_run. vm_compute. reflexivity.
Defined.

(** A page is held and the registry is full. *)
Definition full_cmds : list pool_cmd :=
  demo_cmds ++ ((λ i, CmdRegister (16 * Z.of_nat i)) <$> seq 1 1024).

Lemma pool_panics_only_at_capacity_witness :
  let w := pool_after full_cmds in
  (∃ r, dealloc_slab_locked (ps_mem w) (ps_state w) 524288 = Ok r) ∧
  pool_register_heap (<[8 := HeapMetrics_ZERO]> (ps_counters w)) (mkPool (ps_os w) (ps_mem w) (ps_state w)) 8 =
    Panic PanicAssert.
Proof.
  assert (∃ es, events_of full_cmds = Some es) as [es Hes] by (vm_compute; by eexists).
  destruct (pool_panics_only_at_capacity demo0 ∅ es (pool_after full_cmds) demo0_pa_owns)
    as (_ & _ & Hd & _ & _ & _ & _ & _ & Hr); [by apply pool_after_run|].
  split; [apply Hd; vm_compute; left|]. specialize (Hr 8).
  assert (heap_count (metrics (ps_state (pool_after full_cmds))) <? MAX_HEAPS = false) as Hfull by (vm_compute; reflexivity).
  rewrite Hfull in Hr. apply Hr. vm_compute. reflexivity.
Defined.

Lemma pool_accounting_witness :
  outstanding_slabs (ps_state (pool_after demo_cmds)) = 1 ∧
  ∃ D, page_list (ps_mem (pool_after demo_cmds)) (dirty_list (ps_state (pool_after demo_cmds))) D.
Proof.
  split; [vm_compute; reflexivity|].
  destruct (pool_accounting demo0 ∅ demo_pool_events (pool_after demo_cmds) demo0_pa_owns)
    as (D & _ & Hd & _); [apply pool_after_run; vm_compute; reflexivity|]. exists D. exact Hd.
Defined.

Lemma pool_unmap_safe_witness :
  ∃ b, b ≤ 524288 ∧ 524288 + SLAB_SIZE ≤ b + SEGMENT_SIZE.
Proof.
  destruct (pool_unmap_safe demo0 ∅ demo_pool_events (pool_after demo_cmds) 524288 demo0_pa_owns)
    as ((b & _ & Hb) & _); [apply pool_after_run; vm_compute; reflexivity|vm_compute; left|].
  exists b. exact Hb.
Defined.

(** Two threads find no page and map a segment each; the second one is adjacent
    behind the first.  The first segment is carved to its end, so the cursor is
    the base of the second, whose pages are then all returned. *)
Definition adjacent_cmds : list pool_cmd :=
  [CmdAlloc; CmdAlloc; CmdMmap; CmdMmap; CmdInstall 458752; CmdInstall 2555904] ++
  replicate 62 CmdAlloc ++ (CmdDealloc <$> seg_pages 2555904).

(** The release of a fully free segment can be missed: when carving of
    another segment ended exactly at its base, the exhausted cursor is taken to
    be inside it ([segment_fully_carved] does not look at [segment_end]), and
    the return of its last page leaves it mapped although nothing is left to
    carve. *)
Theorem release_missed_after_carving :
  ∃ es w, run pool_step pool_demo0 es w ∧ pa_owns (ps_os pool_demo0) [] ∧
    segments (ps_state w) !! 1%nat = Some 2555904 ∧ segment_count (ps_state w) = 2 ∧
    segment_cursor (ps_state w) = segment_end (ps_state w) ∧
    ps_drop w = [] ∧ ps_bufs w = [] ∧ Forall (λ p, in_segment 2555904 p = false) (ps_out w) ∧
    last es = Some (EvDeallocSlab 4587520).
Proof.
  destruct (events_of adjacent_cmds) as [es|] eqn:E; [|vm_compute in E; discriminate].
  exists es, (pool_after adjacent_cmds). split; [by apply pool_after_run|].
  split; [exact demo0_pa_owns|]. do 5 (split; [vm_compute; reflexivity|]).
  split; [apply (bool_decide_unpack _); vm_compute; exact I|].
  assert (es = default [] (events_of adjacent_cmds)) as -> by (by rewrite E).
  vm_compute. reflexivity.
Qed.

(** Three segments; 34 pages of the last two and 31 of the first are returned,
    which starts a purge; while its buffer holds the pages of the first segment
    the last page of that segment is returned. *)
Definition purge_cmds : list pool_cmd :=
  let get b := [CmdAlloc; CmdMmap; CmdInstall b] ++ replicate 31 CmdAlloc in
  get 458752 ++ get 2555904 ++ get 4653056 ++
  (CmdDealloc <$> take 17 (seg_pages 2555904) ++ take 17 (seg_pages 4653056) ++
     take 31 (seg_pages 458752)) ++
  [CmdPurgeTake; CmdDealloc 2490368; CmdPurgeFinish].

(** The release of a fully free segment can also be lost to a purge: its
    last page is returned while other pages of it are in a purge buffer, and
    [purge_excess], which then drops the count to zero, does not check it. *)
Theorem release_lost_to_purge :
  ∃ es w, run pool_step pool_demo0 es w ∧ pa_owns (ps_os pool_demo0) [] ∧
    segments (ps_state w) !! 0%nat = Some 458752 ∧ segment_count (ps_state w) = 3 ∧
    seg_outstanding (ps_state w) !! 0%nat = Some 0 ∧
    in_segment 458752 (segment_cursor (ps_state w)) = false ∧
    ps_drop w = [] ∧ ps_bufs w = [] ∧ ps_purge w = 0%nat.
Proof.
  destruct (events_of purge_cmds) as [es|] eqn:E; [|vm_compute in E; discriminate].
  exists es, (pool_after purge_cmds). split; [by apply pool_after_run|].
  split; [exact demo0_pa_owns|]. repeat (split; [vm_compute; reflexivity|]).
  vm_compute. reflexivity.
Qed.
