(* ===== verification/PoolSeq.v ===== *)
(** * Whole operations of the pool

    [alloc_slab] and [dealloc_slab] run without interference: they return,
    keep the invariant and the page allocator's ownership, and bound the number
    of dirty pages.  Other threads' segments in flight and large blocks are the
    blocks [others] that the operations leave alone. *)

From stdpp Require Import base numbers list gmap.
From Stdlib Require Import ZArith Lia.
From S2P Require Import Prelude SizeClass LinkMem FreeList Treiber Slab Sys Metrics PageList Pool PoolInv PoolSpec.

Local Open Scope Z_scope.
Local Open Scope clm_scope.
Arguments SEGMENT_SIZE : simpl never.
Arguments SLAB_SIZE : simpl never.

(** What the clients of the pool hold: slab pages and large blocks. *)
Definition page_block (p : Z) : block := (p, mkLayout SLAB_SIZE SLAB_SIZE).

Definition handed_out (pages : list Z) (larges : list block) : list block :=
  (page_block <$> pages) ++ larges.

Lemma keeps_refl L m : keeps L m m.
Proof. done. Qed.

Lemma keeps_trans L m1 m2 m3 : keeps L m1 m2 → keeps L m2 m3 → keeps L m1 m3.
Proof. intros H1 H2 b x Hb Hx. by rewrite (H2 b), (H1 b). Qed.

Section pool_seq.
Context {P : Type} `{PageAllocatorLaws P}.
Implicit Types (w : PagePool P) (others : list block).

(** The pool between operations: [S], [D], [C] and [held] as in [pool_inv]. *)
Definition pool_owns w (S D C held : list Z) others : Prop :=
  pool_inv (pool_mem w) (state w) S D C held ∧
  pa_owns (page_alloc w) ((seg_block <$> S) ++ others).

Lemma segments_in (S : list Z) others b : b ∈ S → seg_block b ∈ (seg_block <$> S) ++ others.
Proof. intros Hb. apply elem_of_app. left. by apply list_elem_of_fmap_2. Qed.

Lemma keeps_segments m m' s S D C held others :
  pool_inv m s S D C held → keeps ((seg_block <$> S) ++ others) m m' →
  pool_inv m' s S D C held.
Proof. intros Hi. eapply keeps_pool_inv; [exact Hi|apply segments_in]. Qed.

(** Both pages and blocks lie in what the page allocator keeps. *)
Lemma held_keeps S others held m m' :
  (∀ p, p ∈ held → p ∈ all_pages S) →
  keeps ((seg_block <$> S) ++ others) m m' → keeps (handed_out held others) m m'.
Proof.
  intros Hin Hk b x [(p & -> & Hp)%list_elem_of_fmap|Hb]%elem_of_app Hx.
  - destruct (page_in_block S p x (Hin p Hp) Hx) as (c & Hc & Hxc).
    eapply Hk; [by apply segments_in|done].
  - eapply Hk; [|exact Hx]. apply elem_of_app. by right.
Qed.

(** Links written into free pages are outside of what is handed out. *)
Lemma links_keeps os S others held l m m' :
  pa_owns os ((seg_block <$> S) ++ others) →
  (∀ a, a ∈ l ++ held → a ∈ all_pages S) → (∀ a, a ∈ l → a ∉ held) →
  only_links l m m' → keeps (handed_out held others) m m'.
Proof.
  intros Ho Hin Hsep Hl b x Hb Hx. apply Hl. intros a Ha Hax.
  pose proof (owns_segs_ok os S others Ho) as Hs.
  assert (a ∈ all_pages S) as Hpa by (apply Hin, elem_of_app; by left).
  assert (a ≤ x < a + SLAB_SIZE) as Hax' by (change SLAB_SIZE with 65536; lia).
  apply elem_of_app in Hb as [(p & -> & Hp)%list_elem_of_fmap|Hb].
  - destruct (all_pages_aligned S a Hs Hpa) as [[i ->] _].
    destruct (all_pages_aligned S p Hs) as [[j ->] _]; [apply Hin, elem_of_app; by right|].
    unfold in_block in Hx. cbn in Hx. change SLAB_SIZE with 65536 in *.
    assert (i = j) as -> by lia. by apply (Hsep (j * 65536)).
  - destruct (page_in_block S a x Hpa Hax') as (c & Hc & Hxc).
    apply pa_owns_ok in Ho as [_ Hd]. unfold blocks_disjoint in Hd.
    apply pairwise_app in Hd as (_ & _ & Hd).
    apply (Hd (seg_block c) b) with x; [by apply list_elem_of_fmap_2|done..].
Qed.

Lemma inv_held_in m s S D C held a : pool_inv m s S D C held → a ∈ held → a ∈ all_pages S.
Proof.
  intros Hi Ha. rewrite <- (pi_parts _ _ _ _ _ _ Hi). do 3 (apply elem_of_app; right). exact Ha.
Qed.

Lemma inv_free_in m s S D C held a :
  pool_inv m s S D C held → a ∈ D ++ C → a ∈ all_pages S ∧ a ∉ held.
Proof.
  intros Hi Ha. pose proof (all_pages_NoDup S (pi_segs _ _ _ _ _ _ Hi)) as Hnd.
  rewrite <- (pi_parts _ _ _ _ _ _ Hi), app_assoc in Hnd. split.
  - rewrite <- (pi_parts _ _ _ _ _ _ Hi), app_assoc. apply elem_of_app. by left.
  - apply NoDup_app in Hnd as (_ & Hnd & _). intros Hh. apply (Hnd a Ha). apply elem_of_app. by right.
Qed.

Lemma alloc_slab_slow_ok w S D C held others :
  pool_owns w S D C held others →
  ∃ r w', alloc_slab_slow w = Ok (r, w') ∧
    keeps (handed_out held others) (pool_mem w) (pool_mem w') ∧
    match r with
    | Some p => ∃ C', pool_owns w' (S ++ [p]) D C' (p :: held) others
    | None => pool_owns w' S D C held others ∧
        (Z.of_nat (length S) = MAX_SEGMENTS ∨
         fst (fst (pa_alloc (page_alloc w) (pool_mem w) Segment_layout)) = None)
    end.
Proof.
  intros [Hi Ho]. unfold alloc_slab_slow.
  pose proof (λ a, inv_held_in _ _ S D C held a Hi) as Hheld.
  destruct (pa_alloc (page_alloc w) (pool_mem w) Segment_layout) as [[[b|] os1] m1] eqn:Ha.
  - destruct (pa_alloc_some _ _ _ _ _ _ _ Ho Segment_layout_valid ltac:(done) Ha) as (Ho1 & Hk & _).
    pose proof (keeps_segments _ _ _ _ _ _ _ _ Hi Hk) as Hi1.
    pose proof (held_keeps S others held _ _ Hheld Hk) as Hkh.
    assert (pa_owns os1 ((seg_block <$> (S ++ [b])) ++ others)) as Ho2.
    { eapply pa_owns_perm; [|exact Ho1]. rewrite app_comm_cons. f_equiv.
      change (b, Segment_layout) with (seg_block b). rewrite <- fmap_cons. f_equiv.
      apply Permutation_cons_append. }
    pose proof (owns_segs_ok _ _ _ Ho2) as Hs.
    destruct (alloc_slab_install_ok m1 (state w) S D C held b Hi1 Hs) as (r & m2 & s2 & -> & Hr).
    cbn [mbind res_bind]. destruct r as [p|].
    + destruct Hr as (-> & (C' & Hi2) & _ & Hl). do 2 eexists. split; [done|].
      split; [|exists C'; by split]. eapply keeps_trans; [exact Hkh|].
      apply (links_keeps os1 (S ++ [b]) others held (seg_pages b)); [exact Ho2|..|exact Hl].
      * intros a [Hab|Hah%Hheld]%elem_of_app; apply elem_of_all_pages; [exists b; set_solver|].
        apply elem_of_all_pages in Hah as (c & ? & ?). exists c. set_solver.
      * intros a Hab (c & Hc & Hac)%Hheld%elem_of_all_pages.
        destruct Hs as [_ (_ & _ & Hd)%pairwise_app].
        eapply (pages_of_two c b); [apply Hd; set_solver|done..].
    + destruct Hr as (Hfull & -> & Hi2 & _).
      destruct (pa_dealloc os1 m1 b Segment_layout) as [os3 m3] eqn:Hd.
      destruct (pa_dealloc_ok os1 m1 b Segment_layout _ os3 m3 Ho1 Hd) as [Ho3 Hk3].
      do 2 eexists. split; [done|]. split; [|split; [|by left]].
      * eapply keeps_trans; [exact Hkh|]. by eapply held_keeps.
      * split; [by eapply keeps_segments|exact Ho3].
  - destruct (pa_alloc_none _ _ _ _ _ _ Ho Segment_layout_valid ltac:(done) Ha) as (Ho1 & Hk).
    do 2 eexists. split; [done|]. split; [by eapply held_keeps|]. split; [|by right].
    split; [by eapply keeps_segments|exact Ho1].
Qed.

(** Purging a page that is not handed out. *)
Lemma purge_keeps os m S others held p os' m' :
  pa_owns os ((seg_block <$> S) ++ others) → p ∈ all_pages S →
  (∀ q, q ∈ held → q ∈ all_pages S ∧ q ≠ p) →
  pa_purge os m p SLAB_SIZE = (os', m') → keeps (handed_out held others) m m'.
Proof.
  intros Ho Hp Hheld Ha. pose proof (owns_segs_ok os S others Ho) as Hs.
  pose proof Hp as (c & Hc & Hpc)%elem_of_all_pages. pose proof (seg_pages_range _ _ Hpc) as Hr.
  destruct (all_pages_aligned S p Hs Hp) as [Hal _].
  destruct (pa_purge_ok os m p SLAB_SIZE _ os' m' (seg_block c) Ho (segments_in S others c Hc))
    as [_ Hk]; [cbn; lia|cbn; lia|done| |by exists 16|exact Ha|].
  { etrans; [|exact Hal]. by exists 16. }
  assert (∀ x, p ≤ x < p + SLAB_SIZE → in_block (seg_block c) x) as Hxc
    by (intros x Hx; unfold in_block; cbn; lia).
  intros b x [(q & -> & Hq)%list_elem_of_fmap|Hb]%elem_of_app Hx.
  - destruct (Hheld q Hq) as [Hqs Hne]. destruct (all_pages_aligned S q Hs Hqs) as [[j ->] _].
    destruct (page_in_block S (j * SLAB_SIZE) x Hqs Hx) as (d & Hd & Hxd).
    eapply Hk; [by apply segments_in|exact Hxd|]. destruct Hal as [i ->].
    unfold in_block in Hx. cbn in Hx. change SLAB_SIZE with 65536 in *. intros Hx'. apply Hne. lia.
  - apply (Hk b); [apply elem_of_app; by right|done|]. intros Hx'%Hxc.
    apply pa_owns_ok in Ho as [_ Hd]. apply pairwise_app in Hd as (_ & _ & Hd).
    apply (Hd (seg_block c) b) with x; [by apply list_elem_of_fmap_2|done..].
Qed.

(** Purging keeps the invariant and the contents of the pages outside the buffer. *)
Lemma purge_pages_ok s S D C others hb held buf : ∀ os m,
  pool_inv m s S D C hb → (∀ p, p ∈ buf → p ∈ hb) → (∀ q, q ∈ held → q ∈ hb ∧ q ∉ buf) →
  pa_owns os ((seg_block <$> S) ++ others) →
  ∃ os' m', purge_pages os m buf = (os', m') ∧ pool_inv m' s S D C hb ∧
    pa_owns os' ((seg_block <$> S) ++ others) ∧ keeps (handed_out held others) m m'.
Proof.
  induction buf as [|p buf IH]; intros os m Hi Hbuf Hheld Ho; cbn [purge_pages]; [by exists os, m|].
  destruct (pa_purge os m p SLAB_SIZE) as [os1 m1] eqn:Ha.
  destruct (purge_page_ok os m s S D C hb _ p os1 m1 Hi (Hbuf p ltac:(set_solver)) Ho
    (segments_in S others) Ha) as [Hi1 Ho1].
  destruct (IH os1 m1 Hi1) as (os2 & m2 & -> & Hi2 & Ho2 & Hk2); [set_solver|set_solver|done|].
  exists os2, m2. do 3 (split; [done|]). eapply keeps_trans; [|exact Hk2].
  apply (purge_keeps os m S others held p os1 m1 Ho); [..|done].
  - eapply inv_held_in; [exact Hi|]. set_solver.
  - intros q Hq. destruct (Hheld q Hq) as [? ?]. split; [by eapply inv_held_in|set_solver].
Qed.

(** A purge that starts with at most 65 dirty pages leaves at most 33. *)
Lemma purge_excess_ok w S D C held others :
  pool_owns w S D C held others →
  ∃ w' C', purge_excess w = Ok w' ∧
    pool_owns w' S (drop (32 `min` (length D - 32)) D) C' held others ∧
    keeps (handed_out held others) (pool_mem w) (pool_mem w').
Proof.
  intros [Hi Ho]. unfold purge_excess.
  assert (∀ q, q ∈ held → q ∉ D) as Hsep.
  { intros q Hq Hd. destruct (inv_free_in _ _ _ _ _ _ q Hi) as [_ Hno]; [set_solver|done]. }
  destruct (purge_take_ok _ _ _ _ _ _ Hi) as (s1 & buf & D' & -> & HD & Hi1 & Hlen & _).
  cbn [mbind res_bind].
  destruct (purge_pages_ok s1 S D' C others _ held buf (page_alloc w) (pool_mem w) Hi1)
    as (os2 & m2 & -> & Hi2 & Ho2 & Hk2); [intros p Hp; apply elem_of_app; by left| |done|].
  { intros q Hq. split; [apply elem_of_app; by right|]. intros Hb. apply (Hsep q Hq).
    rewrite HD. apply elem_of_app. by left. }
  destruct (purge_finish_ok _ _ _ _ _ buf _ held Hi2) as (m3 & s3 & -> & Hi3 & Hl3 & _); [done|].
  cbn [mbind res_bind]. do 2 eexists. split; [done|]. split.
  - assert (drop (32 `min` (length D - 32)) D = D') as ->
      by (rewrite HD, <- HD, <- Hlen, HD; apply drop_app_length).
    by split.
  - eapply keeps_trans; [exact Hk2|].
    apply (links_keeps os2 S others held buf m2 m3 Ho2); [..|exact Hl3].
    + intros a Ha. exact (inv_held_in _ _ _ _ _ _ a Hi2 Ha).
    + intros a Ha Hh. apply (Hsep a Hh). rewrite HD. apply elem_of_app. by left.
Qed.

(** *** The whole calls *)

Lemma alloc_slab_ok w (S D C held : list Z) others :
  pool_owns w S D C held others →
  ∃ r w', alloc_slab w = Ok (r, w') ∧
    keeps (handed_out held others) (pool_mem w) (pool_mem w') ∧
    match r with
    | Some p =>
        slab_base_ok p ∧ p ∉ held ∧
        (∃ S' D' C', pool_owns w' S' D' C' (p :: held) others ∧ length D' ≤ length D)%nat ∧
        (∀ q, head (D ++ C ++ uncarved (state w)) = Some q → p = q)
    | None =>
        pool_owns w' S D C held others ∧ D ++ C ++ uncarved (state w) = [] ∧
        (Z.of_nat (length S) = MAX_SEGMENTS ∨
         fst (fst (pa_alloc (page_alloc w) (pool_mem w) Segment_layout)) = None)
    end.
Proof.
  intros [Hi Ho]. unfold alloc_slab.
  destruct (alloc_slab_locked_ok _ _ _ _ _ _ Hi) as (r & s1 & -> & Hr & Hcase).
  cbn [mbind res_bind]. destruct r as [p|].
  - destruct Hcase as (D' & C' & Hi' & _ & _ & HD'). do 2 eexists. split; [done|]. split; [done|].
    pose proof (new_held_spec _ _ _ _ _ p held [] ltac:(rewrite app_nil_r; exact Hi')) as Hsp.
    inversion Hsp; subst. do 2 (split; [done|]). split; [|intros q Hq; congruence].
    exists S, (tail D), C'. split; [by split|]. destruct D; cbn; lia.
  - destruct Hcase as [Hi' _].
    destruct (alloc_slab_slow_ok (mkPool (page_alloc w) (pool_mem w) s1) S D C held others)
      as (r & w' & -> & Hk & Hr'); [by split|].
    assert (D ++ C ++ uncarved (state w) = []) as Hnil by (by destruct (D ++ C ++ uncarved (state w))).
    rewrite Hnil. do 2 eexists. split; [done|]. split; [exact Hk|]. destruct r as [p|].
    + destruct Hr' as (C' & Hi2 & Ho2).
      pose proof (new_held_spec _ _ _ _ _ p held [] ltac:(rewrite app_nil_r; exact Hi2)) as Hsp.
      inversion Hsp; subst. do 2 (split; [done|]). split; [|done].
      exists (S ++ [p]), D, C'. split; [by split|done].
    + destruct Hr' as [? ?]. by split_and!.
Qed.

Lemma dealloc_slab_ok w (S D C held : list Z) others (p : Z) :
  pool_owns w S D C (p :: held) others → Z.of_nat (length D) ≤ PURGE_HIGH_WATER →
  ∃ w' S' D' C', dealloc_slab w p = Ok w' ∧ pool_owns w' S' D' C' held others ∧
    keeps (handed_out held others) (pool_mem w) (pool_mem w') ∧
    Z.of_nat (length D') ≤ PURGE_HIGH_WATER ∧
    (S' = S → Z.of_nat (length D) = PURGE_HIGH_WATER → length D' = 33%nat) ∧
    (S' = S ∨ ∃ b, S ≡ₚ b :: S' ∧ in_segment b p = true).
Proof.
  intros [Hi Ho] HD. change PURGE_HIGH_WATER with 64 in *. unfold dealloc_slab.
  destruct (dealloc_slab_locked_ok _ _ _ _ _ _ held p Hi) as (m1 & s1 & o & -> & _ & Hl & Hr); [done|].
  assert (keeps (handed_out held others) (pool_mem w) m1) as Hk1.
  { apply (links_keeps (page_alloc w) S others held (p :: D ++ C) _ _ Ho); [..|exact Hl].
    - intros a Ha. apply (elem_of_app (p :: D ++ C)) in Ha as [[->|Ha]%elem_of_cons|Ha].
      + apply (inv_held_in _ _ _ _ _ _ _ Hi). set_solver.
      + apply (inv_free_in _ _ _ _ _ _ a Hi Ha).
      + apply (inv_held_in _ _ _ _ _ _ _ Hi). set_solver.
    - pose proof (all_pages_NoDup S (pi_segs _ _ _ _ _ _ Hi)) as Hnd.
      rewrite <- (pi_parts _ _ _ _ _ _ Hi) in Hnd. rewrite !NoDup_app, NoDup_cons in Hnd.
      intros a [->|Ha]%elem_of_cons Hh; [naive_solver|].
      destruct (inv_free_in _ _ _ _ _ _ a Hi Ha) as [_ Hno]. apply Hno. set_solver. }
  cbn [mbind res_bind]. destruct o as [seg|b].
  - destruct Hr as (Hseg & _ & S' & HS & Hi').
    destruct (pa_dealloc (page_alloc w) m1 seg Segment_layout) as [os2 m2] eqn:Hd.
    assert (pa_owns (page_alloc w) ((seg, Segment_layout) :: (seg_block <$> S') ++ others)) as Ho1.
    { eapply pa_owns_perm; [|exact Ho]. by rewrite HS. }
    destruct (pa_dealloc_ok _ _ _ _ _ _ _ Ho1 Hd) as [Ho2 Hk].
    do 4 eexists. split; [done|]. split; [split; [by eapply keeps_segments|exact Ho2]|].
    split. { eapply keeps_trans; [exact Hk1|]. eapply held_keeps; [|exact Hk].
      intros a Ha. exact (inv_held_in _ _ _ _ _ _ a Hi' Ha). }
    rewrite filter_cons_False by (by rewrite Hseg).
    pose proof (length_filter (λ q, in_segment seg q = false) D).
    split; [lia|]. split; [|right; by exists seg].
    intros ->. apply Permutation_length in HS. cbn in HS. lia.
  - destruct Hr as (Hi' & -> & _).
    assert (pool_owns (mkPool (page_alloc w) m1 s1) S (p :: D) C held others) as Hw by by split.
    change PURGE_HIGH_WATER with 64. destruct (Z.ltb_spec 64 (Z.of_nat (length D) + 1)) as [Hlt|Hge].
    + destruct (purge_excess_ok _ _ _ _ _ _ Hw) as (w' & C' & -> & Hw' & Hk').
      do 4 eexists. split; [done|]. split; [exact Hw'|].
      split; [by eapply keeps_trans|]. rewrite length_drop. cbn [length].
      split; [lia|]. split; [lia|by left].
    + do 4 eexists. split; [done|]. split; [exact Hw|]. split; [exact Hk1|]. cbn [length].
      split; [lia|]. split; [lia|by left].
Qed.

(** ** Properties *)

(** C25. [alloc_slab] returns: a dirty page if there is one, else a clean one,
    else the next page of the carving segment, else the first page of a new
    segment; it is aligned and not held by anyone.  It fails only when no page
    is free and the page allocator or the segment table has no room.  Either way
    the contents of the pages and large blocks in use stay what they were. *)
Theorem alloc_slab_total w (S D C held : list Z) others :
  pool_owns w S D C held others →
  ∃ r w', alloc_slab w = Ok (r, w') ∧
    keeps (handed_out held others) (pool_mem w) (pool_mem w') ∧
    match r with
    | Some p =>
        slab_base_ok p ∧ p ∉ held ∧
        (∃ S' D' C', pool_owns w' S' D' C' (p :: held) others) ∧
        (∀ q, head (D ++ C ++ uncarved (state w)) = Some q → p = q)
    | None =>
        pool_owns w' S D C held others ∧ D ++ C ++ uncarved (state w) = [] ∧
        (Z.of_nat (length S) = MAX_SEGMENTS ∨
         fst (fst (pa_alloc (page_alloc w) (pool_mem w) Segment_layout)) = None)
    end.
Proof.
  intros Hw. destruct (alloc_slab_ok w S D C held others Hw) as ([p|] & w' & E & Hk & Hr);
    exists (Some p), w' || exists None, w'; naive_solver.
Qed.

(** C26. [dealloc_slab] returns, gives the page back, leaves the contents of the
    other pages and of the large blocks alone, and keeps at most
    [PURGE_HIGH_WATER] dirty pages; but a purge, which starts at one page more
    and takes a batch of [PURGE_HIGH_WATER - PURGE_LOW_WATER], leaves one page
    more than [PURGE_LOW_WATER]. *)
Theorem dealloc_slab_total w (S D C held : list Z) others (p : Z) :
  pool_owns w S D C (p :: held) others → Z.of_nat (length D) ≤ PURGE_HIGH_WATER →
  ∃ w' S' D' C', dealloc_slab w p = Ok w' ∧ pool_owns w' S' D' C' held others ∧
    keeps (handed_out held others) (pool_mem w) (pool_mem w') ∧
    Z.of_nat (length D') ≤ PURGE_HIGH_WATER ∧
    (S' = S → Z.of_nat (length D) = PURGE_HIGH_WATER → length D' = 33%nat) ∧
    (S' = S ∨ ∃ b, S ≡ₚ b :: S' ∧ in_segment b p = true).
Proof. apply dealloc_slab_ok. Qed.
End pool_seq.

(** ** Witnesses *)

Definition demo_pool : PagePool demo_kernel := mkPool demo0 ∅ PoolState_new.

Lemma demo_pool_owns : pool_owns demo_pool [] [] [] [] [].
Proof. split; [apply pool_inv_new|exact demo0_pa_owns]. Qed.

Lemma alloc_slab_total_witness :
  ∃ p w', alloc_slab demo_pool = Ok (Some p, w') ∧ slab_base_ok p.
Proof.
  destruct (alloc_slab_total demo_pool [] [] [] [] [] demo_pool_owns) as ([p|] & w' & Ha & _ & Hr).
  - exists p, w'. split; [exact Ha|]. apply Hr.
  - exfalso. destruct Hr as (_ & _ & [Hr|Hr]); vm_compute in Hr; discriminate.
Defined.

(** A page of a new segment is allocated and returned. *)
Lemma dealloc_slab_total_witness :
  ∃ p w1 w2, alloc_slab_slow demo_pool = Ok (Some p, w1) ∧ dealloc_slab w1 p = Ok w2.
Proof.
  destruct (alloc_slab_slow_ok demo_pool [] [] [] [] [] demo_pool_owns) as ([p|] & w1 & Ha & _ & Hr).
  - destruct Hr as (C' & Hw1).
    destruct (dealloc_slab_total w1 _ _ _ _ _ p Hw1) as (w2 & _ & _ & _ & Hd & _).
    { vm_compute. discriminate. }
    exists p, w1, w2. split; [exact Ha|exact Hd].
  - exfalso. destruct Hr as (_ & [Hr|Hr]); vm_compute in Hr; discriminate.
Defined.
