(* ===== verification/SlabCache.v ===== *)
(** * The lock-free slab cache ([src/src/pool.rs], [cache_slab], [uncache_slab])

    A Treiber stack of fully free slab pages in front of the pool's lock, with a
    length that bounds it.  Unlike the remote free lists, pages are popped one
    at a time by a compare-and-swap, while others push and pop.  [cache_step]
    interleaves any number of threads; one step is one atomic access.

    With at most one thread in [uncache_slab] at a time no page is lost or
    duplicated ([cache_conservation]).  Without that restriction the CAS of a
    pop can succeed although the stack changed in between and came back to the
    same head, and a page is handed out twice ([cache_aba]). *)

From stdpp Require Import base numbers list gmap relations.
From Stdlib Require Import ZArith Lia.
From S2P Require Import Prelude LinkMem Treiber.

Local Open Scope Z_scope.
Local Open Scope clm_scope.

(** ** Definitions *)

Definition SLAB_CACHE_MAX : Z := 512.

(** Where a thread is in [cache_slab]: before the length test, before the load,
    at the loop head with the last head seen, before the CAS, before
    [fetch_add], returned, and returned by way of [dealloc_slab]. *)
Inductive cache_pc :=
  | CacheCheck
  | CacheLoad
  | CacheWrite (current : Z)
  | CacheCas (current : Z)
  | CacheAdd
  | CacheDone
  | CacheFull.

(** The same for [uncache_slab]. *)
Inductive uncache_pc :=
  | UncacheLoad
  | UncacheRead (head : Z)
  | UncacheCas (head next : Z)
  | UncacheSub (head : Z)
  | UncacheDone (r : option Z).

#[export] Instance cache_pc_eq_dec : EqDecision cache_pc.
Proof. solve_decision. Defined.
#[export] Instance uncache_pc_eq_dec : EqDecision uncache_pc.
Proof. solve_decision. Defined.

Inductive cache_thread :=
  | Caching (base : Z) (pc : cache_pc)
  | Uncaching (pc : uncache_pc).

(** The list without one occurrence of [b]. *)
Fixpoint remove_one (b : Z) (l : list Z) : list Z :=
  match l with
  | [] => []
  | x :: l => if decide (x = b) then l else x :: remove_one b l
  end.

Section cache.
Context {M : Type} `{LinkMem M}.

(** The memory, [slab_cache] and [slab_cache_len]. *)
Definition cache_slab_step (base : Z) (spurious : bool) (pc : cache_pc) (s : M * Z * Z)
    : cache_pc * (M * Z * Z) :=
  let '(m, top, len) := s in
  match pc with
  | CacheCheck => (if SLAB_CACHE_MAX <=? len then CacheFull else CacheLoad, s)
  | CacheLoad => (CacheWrite top, s)
  | CacheWrite current => (CacheCas current, (link_set m base current, top, len))
  | CacheCas current =>
      if (top =? current) && negb spurious then (CacheAdd, (m, base, len))
      else (CacheWrite top, s)
  | CacheAdd => (CacheDone, (m, top, len +[64] 1))
  | CacheDone => (CacheDone, s)
  | CacheFull => (CacheFull, s)
  end.

Definition uncache_slab_step (spurious : bool) (pc : uncache_pc) (s : M * Z * Z)
    : uncache_pc * (M * Z * Z) :=
  let '(m, top, len) := s in
  match pc with
  | UncacheLoad => (UncacheRead top, s)
  | UncacheRead head =>
      if head =? 0 then (UncacheDone None, s) else (UncacheCas head (link_get m head), s)
  | UncacheCas head next =>
      if (top =? head) && negb spurious then (UncacheSub head, (m, next, len))
      else (UncacheRead top, s)
  | UncacheSub head => (UncacheDone (Some head), (m, top, len -[64] 1))
  | UncacheDone r => (UncacheDone r, s)
  end.

(** The calls without interference: at most five accesses. *)
Fixpoint cache_slab_run (n : nat) (base : Z) (pc : cache_pc) (s : M * Z * Z) : cache_pc * (M * Z * Z) :=
  match n with
  | O => (pc, s)
  | S n => let '(pc, s) := cache_slab_step base false pc s in cache_slab_run n base pc s
  end.

Fixpoint uncache_slab_run (n : nat) (pc : uncache_pc) (s : M * Z * Z) : uncache_pc * (M * Z * Z) :=
  match n with
  | O => (pc, s)
  | S n => let '(pc, s) := uncache_slab_step false pc s in uncache_slab_run n pc s
  end.

(** [true] when the page was cached, [false] when it goes to [dealloc_slab]. *)
Definition cache_push (base : Z) (s : M * Z * Z) : bool * (M * Z * Z) :=
  let '(pc, s) := cache_slab_run 5 base CacheCheck s in
  (match pc with CacheFull => false | _ => true end, s).

Definition uncache_slab (s : M * Z * Z) : option Z * (M * Z * Z) :=
  let '(pc, s) := uncache_slab_run 4 UncacheLoad s in
  (match pc with UncacheDone r => r | _ => None end, s).

(** All threads: those inside a call, the pages their callers hold, and the
    pages that went to [dealloc_slab]. *)
Record cache_sys := mkCache {
  c_mem : M;
  c_top : Z;
  c_len : Z;
  c_threads : list cache_thread;
  c_owned : list Z;
  c_pool : list Z;
}.

Inductive cache_step : cache_sys → cache_sys → Prop :=
  | cache_start m top len ths owned pool b owned' :
      owned ≡ₚ b :: owned' →
      cache_step (mkCache m top len ths owned pool)
                 (mkCache m top len (Caching b CacheCheck :: ths) owned' pool)
  | cache_access m top len ths1 b pc ths2 owned pool spurious pc' m' top' len' :
      cache_slab_step b spurious pc (m, top, len) = (pc', (m', top', len')) →
      cache_step (mkCache m top len (ths1 ++ Caching b pc :: ths2) owned pool)
                 (mkCache m' top' len' (ths1 ++ Caching b pc' :: ths2) owned pool)
  | cache_return m top len ths1 b ths2 owned pool :
      cache_step (mkCache m top len (ths1 ++ Caching b CacheDone :: ths2) owned pool)
                 (mkCache m top len (ths1 ++ ths2) owned pool)
  | cache_full m top len ths1 b ths2 owned pool :
      cache_step (mkCache m top len (ths1 ++ Caching b CacheFull :: ths2) owned pool)
                 (mkCache m top len (ths1 ++ ths2) owned (b :: pool))
  | uncache_start m top len ths owned pool :
      cache_step (mkCache m top len ths owned pool)
                 (mkCache m top len (Uncaching UncacheLoad :: ths) owned pool)
  | uncache_access m top len ths1 pc ths2 owned pool spurious pc' m' top' len' :
      uncache_slab_step spurious pc (m, top, len) = (pc', (m', top', len')) →
      cache_step (mkCache m top len (ths1 ++ Uncaching pc :: ths2) owned pool)
                 (mkCache m' top' len' (ths1 ++ Uncaching pc' :: ths2) owned pool)
  | uncache_return m top len ths1 r ths2 owned pool :
      cache_step (mkCache m top len (ths1 ++ Uncaching (UncacheDone r) :: ths2) owned pool)
        (mkCache m top len (ths1 ++ ths2) (match r with Some p => p :: owned | None => owned end) pool)
  (** A caller writes to a page it holds. *)
  | cache_write m top len ths owned pool a v :
      a ∈ owned →
      cache_step (mkCache m top len ths owned pool) (mkCache (link_set m a v) top len ths owned pool).

Definition cache_init (m : M) (nodes : list Z) : cache_sys := mkCache m 0 0 [] nodes [].

(** ** Invariant *)

(** The page a thread has taken out of circulation. *)
Definition th_page (t : cache_thread) : list Z :=
  match t with
  | Caching b CacheAdd | Caching b CacheDone => []
  | Caching b _ => [b]
  | Uncaching (UncacheSub h) | Uncaching (UncacheDone (Some h)) => [h]
  | Uncaching _ => []
  end.

Definition c_inflight (ths : list cache_thread) : list Z := concat (th_page <$> ths).

(** Pending corrections of the length. *)
Definition th_debt (t : cache_thread) : Z :=
  match t with
  | Caching _ CacheAdd => -1
  | Uncaching (UncacheSub _) => 1
  | _ => 0
  end.
Definition debt (ths : list cache_thread) : Z := foldr (λ t z, th_debt t + z) 0 ths.

(** What a thread relies on; [l] are the pages on the stack. *)
Definition th_ok (m : M) (l : list Z) (t : cache_thread) : Prop :=
  match t with
  | Caching b (CacheWrite cur) => uint 64 cur
  | Caching b (CacheCas cur) => uint 64 cur ∧ link_get m b = cur
  | Uncaching (UncacheRead h) => h = 0 ∨ h ∈ l
  | Uncaching (UncacheCas h next) => h ∈ l ∧ next = link_get m h
  | _ => True
  end.

Definition cache_inv (nodes : list Z) (s : cache_sys) : Prop :=
  ∃ l, chain (c_mem s) (c_top s) l ∧
    l ++ c_inflight (c_threads s) ++ c_owned s ++ c_pool s ≡ₚ nodes ∧
    Forall (th_ok (c_mem s) l) (c_threads s) ∧
    c_len s = wrap 64 (Z.of_nat (length l) + debt (c_threads s)).

Definition is_popper (t : cache_thread) : bool := match t with Uncaching _ => true | _ => false end.

(** At most one thread is inside [uncache_slab]. *)
Definition one_popper (s : cache_sys) : Prop :=
  (length (filter (λ t, is_popper t = true) (c_threads s)) ≤ 1)%nat.

(** Runs that keep to that discipline. *)
Definition cache_step1 (s s' : cache_sys) : Prop := cache_step s s' ∧ one_popper s'.

(** *** Schedules

    The thread that started last makes the next access. *)
Inductive cache_action := DoCache (b : Z) | DoUncache | DoAccess (spurious : bool) | DoReturn.

Definition cache_exec (a : cache_action) (s : cache_sys) : option cache_sys :=
  let '(mkCache m top len ths owned pool) := s in
  match a, ths with
  | DoCache b, _ =>
      if decide (b ∈ owned)
      then Some (mkCache m top len (Caching b CacheCheck :: ths) (remove_one b owned) pool) else None
  | DoUncache, _ => Some (mkCache m top len (Uncaching UncacheLoad :: ths) owned pool)
  | DoAccess f, Caching b pc :: ths =>
      let '(pc, (m, top, len)) := cache_slab_step b f pc (m, top, len) in
      Some (mkCache m top len (Caching b pc :: ths) owned pool)
  | DoAccess f, Uncaching pc :: ths =>
      let '(pc, (m, top, len)) := uncache_slab_step f pc (m, top, len) in
      Some (mkCache m top len (Uncaching pc :: ths) owned pool)
  | DoReturn, Caching b CacheDone :: ths => Some (mkCache m top len ths owned pool)
  | DoReturn, Caching b CacheFull :: ths => Some (mkCache m top len ths owned (b :: pool))
  | DoReturn, Uncaching (UncacheDone r) :: ths =>
      Some (mkCache m top len ths (match r with Some p => p :: owned | None => owned end) pool)
  | _, _ => None
  end.

Fixpoint cache_exec_run (l : list cache_action) (s : cache_sys) : option cache_sys :=
  match l with
  | [] => Some s
  | a :: l => s' ← cache_exec a s; cache_exec_run l s'
  end.

(** The number of poppers never exceeds one along a schedule. *)
Fixpoint lone_popper (l : list cache_action) (s : cache_sys) : bool :=
  match l with
  | [] => true
  | a :: l =>
      match cache_exec a s with
      | Some s' => bool_decide (one_popper s') && lone_popper l s'
      | None => true
      end
  end.

(** A whole [cache_slab] call; a pop up to its CAS, and the rest of it. *)
Definition cache_calls (b : Z) : list cache_action :=
  DoCache b :: replicate 5 (DoAccess false) ++ [DoReturn].
Definition uncache_reads : list cache_action := [DoUncache; DoAccess false; DoAccess false].
Definition uncache_ends : list cache_action := [DoAccess false; DoAccess false; DoReturn].

(** The second [uncache_reads] to the fourth [cache_calls] run inside the first pop. *)
Definition aba_schedule : list cache_action :=
  cache_calls 8192 ++ cache_calls 4096 ++ uncache_reads ++
    (uncache_reads ++ uncache_ends ++ uncache_reads ++ uncache_ends ++ cache_calls 4096) ++
  uncache_ends ++ uncache_reads ++ uncache_ends.
End cache.
Arguments cache_sys : clear implicits.

Lemma remove_one_ok b l : b ∈ l → l ≡ₚ b :: remove_one b l.
Proof.
  induction l as [|x l IH]; intros Hb; [by apply elem_of_nil in Hb|]. cbn.
  destruct (decide (x = b)) as [->|Hne]; [done|].
  apply elem_of_cons in Hb as [<-|Hb]; [done|]. rewrite (IH Hb) at 1. perm.
Qed.

Lemma cache_exec_step `{LinkMem M} a (s s' : cache_sys M) : cache_exec a s = Some s' → cache_step s s'.
Proof.
  destruct s as [m top len ths owned pool]. cbn [cache_exec]. intros E.
  destruct a as [b| |f|].
  - case_decide; simplify_eq. apply cache_start. by apply remove_one_ok.
  - simplify_eq. apply uncache_start.
  - destruct ths as [|[b pc|pc] ths]; [done|..].
    + destruct (cache_slab_step b f pc _) as [pc' [[m' top'] len']] eqn:Es; simplify_eq.
      by apply (cache_access _ _ _ [] _ _ _ _ _ f).
    + destruct (uncache_slab_step f pc _) as [pc' [[m' top'] len']] eqn:Es; simplify_eq.
      by apply (uncache_access _ _ _ [] _ _ _ _ f).
  - destruct ths as [|[b []|[]] ths]; simplify_eq;
      [apply (cache_return _ _ _ [])|apply (cache_full _ _ _ [])|apply (uncache_return _ _ _ [])].
Qed.

Lemma cache_exec_sound `{LinkMem M} l (s s' : cache_sys M) :
  cache_exec_run l s = Some s' → rtc cache_step s s'.
Proof.
  revert s. induction l as [|a l IH]; intros s E; cbn in E; [by simplify_eq|].
  destruct (cache_exec a s) as [s1|] eqn:E1; [|done].
  eapply rtc_l; [by apply (cache_exec_step a)|by apply IH].
Qed.

Lemma cache_exec_default `{LinkMem M} l (s d : cache_sys M) :
  (if cache_exec_run l s then true else false) = true →
  rtc cache_step s (default d (cache_exec_run l s)).
Proof. intros E. destruct (cache_exec_run l s) eqn:E'; [by eapply cache_exec_sound|done]. Qed.

Lemma cache_exec_sound1 `{LinkMem M} l (s s' : cache_sys M) :
  cache_exec_run l s = Some s' → lone_popper l s = true → rtc cache_step1 s s'.
Proof.
  revert s. induction l as [|a l IH]; intros s E Hone; cbn in E, Hone; [by simplify_eq|].
  destruct (cache_exec a s) as [s1|] eqn:E1; [|done].
  apply andb_prop in Hone as [Hone%bool_decide_eq_true Hrest].
  eapply rtc_l; [split; [by apply (cache_exec_step a)|done]|by apply IH].
Qed.

(** ** Conservation with one popper *)

Section cache_proofs.
Context `{LinkMemLaws M}.
Context (nodes : list Z) (Hnodup : NoDup nodes) (Hok : Forall ptr_ok nodes)
  (Hregion : link_region M (.∈ nodes)).
Implicit Types (m : M) (ths : list cache_thread).

Lemma c_inflight_app ths1 t ths2 :
  c_inflight (ths1 ++ t :: ths2) ≡ₚ th_page t ++ c_inflight (ths1 ++ ths2).
Proof. unfold c_inflight. rewrite !fmap_app, fmap_cons, !concat_app. cbn. perm. Qed.

Lemma debt_app ths1 t ths2 : debt (ths1 ++ t :: ths2) = th_debt t + debt (ths1 ++ ths2).
Proof. unfold debt. induction ths1 as [|t1 ths1 IH]; cbn in *; [done|]. rewrite IH. lia. Qed.

(** Writing the link of a page that is not on the stack. *)
Lemma th_ok_set m l a v t :
  Forall (link_sep a) l → Forall (link_sep a) (th_page t) → th_ok m l t → th_ok (link_set m a v) l t.
Proof.
  intros Hl Hp. destruct t as [b []|[]]; cbn in *; try done.
  - intros [? <-]. apply Forall_cons in Hp as [Hp _]. by rewrite link_get_set_ne.
  - intros [Hh ->]. rewrite Forall_forall in Hl. by rewrite link_get_set_ne by auto.
Qed.

Lemma ths_ok_set m l a v ths :
  Forall (link_sep a) l → Forall (link_sep a) (c_inflight ths) →
  Forall (th_ok m l) ths → Forall (th_ok (link_set m a v) l) ths.
Proof.
  intros Hl Hs Hths. induction Hths as [|t ths Ht Hths IH]; [constructor|].
  unfold c_inflight in *. cbn in Hs. apply Forall_app in Hs as [? ?].
  constructor; [by apply th_ok_set|by apply IH].
Qed.

(** A push only adds pages; a pop needs that no one else is popping. *)
Lemma ths_ok_push m l b ths : Forall (th_ok m l) ths → Forall (th_ok m (b :: l)) ths.
Proof.
  intros Hths. eapply Forall_impl; [exact Hths|]. intros [c []|[]]; cbn; try done; set_solver.
Qed.

Lemma ths_ok_pop m l l' ths :
  Forall (λ t, is_popper t = false) ths → Forall (th_ok m l) ths → Forall (th_ok m l') ths.
Proof.
  intros Hn Hths. rewrite Forall_forall in *. intros t Ht. specialize (Hn t Ht).
  specialize (Hths t Ht). by destruct t.
Qed.

Lemma only_popper ths1 pc ths2 :
  (length (filter (λ t, is_popper t = true) (ths1 ++ Uncaching pc :: ths2)) ≤ 1)%nat →
  Forall (λ t, is_popper t = false) (ths1 ++ ths2).
Proof.
  rewrite filter_app, filter_cons_True, length_app by done. cbn [length]. intros Hlen.
  apply Forall_forall. intros t Ht. destruct (is_popper t) eqn:E; [exfalso|done].
  assert (t ∈ filter (λ t, is_popper t = true) (ths1 ++ ths2)) as Hin by by apply list_elem_of_filter.
  rewrite filter_app in Hin.
  destruct (filter _ ths1), (filter _ ths2); cbn in *; try lia. by apply elem_of_nil in Hin.
Qed.

Lemma cache_inv_access m top len ths1 b pc ths2 owned pool spurious pc' m' top' len' :
  cache_slab_step b spurious pc (m, top, len) = (pc', (m', top', len')) →
  cache_inv nodes (mkCache m top len (ths1 ++ Caching b pc :: ths2) owned pool) →
  cache_inv nodes (mkCache m' top' len' (ths1 ++ Caching b pc' :: ths2) owned pool).
Proof.
  intros Hstep (l & Hl & Hp & Hths & Hlen). cbn [c_mem c_top c_len c_threads c_owned c_pool] in *. rewrite c_inflight_app in Hp.
  rewrite debt_app in Hlen. rewrite Forall_app, Forall_cons in Hths. destruct Hths as (H1 & Ht & H2).
  assert (Forall (th_ok m l) (ths1 ++ ths2)) as Hrest by by apply Forall_app.
  assert (∀ pc1 l1 m1 top1 len1, chain m1 top1 l1 →
    l1 ++ th_page (Caching b pc1) ≡ₚ l ++ th_page (Caching b pc) →
    Forall (th_ok m1 l1) (ths1 ++ ths2) → th_ok m1 l1 (Caching b pc1) →
    len1 = wrap 64 (Z.of_nat (length l1) + (th_debt (Caching b pc1) + debt (ths1 ++ ths2))) →
    cache_inv nodes (mkCache m1 top1 len1 (ths1 ++ Caching b pc1 :: ths2) owned pool)) as Hnew.
  { intros pc1 l1 m1 top1 len1 Hl1 Hp1 Hths1 Ht1 Hlen1. exists l1. cbn [c_mem c_top c_len c_threads c_owned c_pool].
    rewrite c_inflight_app, debt_app. split; [done|]. split; [|split; [|done]].
    - rewrite <- Hp. rewrite !app_assoc. rewrite Hp1. done.
    - apply Forall_app in Hths1 as [? ?]. rewrite Forall_app, Forall_cons. done. }
  destruct pc as [| |cur|cur| | |]; cbn in Hstep.
  - case_match; injection Hstep as <- <- <- <-; by apply (Hnew _ l).
  - injection Hstep as <- <- <- <-. apply (Hnew _ l); try done. by eapply chain_uint.
  - injection Hstep as <- <- <- <-. cbn in Ht, Hp.
    assert (Forall (link_sep b) (l ++ c_inflight (ths1 ++ ths2) ++ owned ++ pool)) as Hs
      by (apply (part_sep nodes); [done..|]; rewrite <- Hp; perm).
    rewrite !Forall_app in Hs. destruct Hs as (Hsl & Hsi & _).
    apply (Hnew _ l); try done; [by apply chain_set|by apply ths_ok_set|].
    split; [done|]. by apply link_get_set_eq.
  - cbn in Ht, Hp. destruct Ht as [Hcur Hlink].
    destruct (Z.eqb_spec top cur) as [->|Hne]; cbn [andb] in Hstep.
    + destruct spurious; cbn [negb] in Hstep; injection Hstep as <- <- <- <-;
        [by apply (Hnew _ l)|].
      assert (ptr_ok b) as Hb.
      { rewrite Forall_forall in Hok. apply Hok. rewrite <- Hp. set_solver. }
      apply (Hnew _ (b :: l)); [split; [done|]; split; [done|]; by rewrite Hlink| |by apply ths_ok_push|done|].
      * cbn. rewrite app_nil_r. apply Permutation_cons_append.
      * rewrite Hlen. cbn [th_debt length]. f_equal. lia.
    + injection Hstep as <- <- <- <-. apply (Hnew _ l); try done. by eapply chain_uint.
  - injection Hstep as <- <- <- <-. apply (Hnew _ l); try done.
    rewrite Hlen. cbn [th_debt]. unfold wadd, wrap. rewrite Zplus_mod_idemp_l. f_equal. lia.
  - injection Hstep as <- <- <- <-. by apply (Hnew _ l).
  - injection Hstep as <- <- <- <-. by apply (Hnew _ l).
Qed.

Lemma cache_inv_uncache m top len ths1 pc ths2 owned pool spurious pc' m' top' len' :
  uncache_slab_step spurious pc (m, top, len) = (pc', (m', top', len')) →
  Forall (λ t, is_popper t = false) (ths1 ++ ths2) →
  cache_inv nodes (mkCache m top len (ths1 ++ Uncaching pc :: ths2) owned pool) →
  cache_inv nodes (mkCache m' top' len' (ths1 ++ Uncaching pc' :: ths2) owned pool).
Proof.
  intros Hstep Hnp (l & Hl & Hp & Hths & Hlen). cbn [c_mem c_top c_len c_threads c_owned c_pool] in *. rewrite c_inflight_app in Hp.
  rewrite debt_app in Hlen. rewrite Forall_app, Forall_cons in Hths. destruct Hths as (H1 & Ht & H2).
  assert (Forall (th_ok m l) (ths1 ++ ths2)) as Hrest by by apply Forall_app.
  assert (∀ pc1 l1 top1 len1, chain m top1 l1 →
    l1 ++ th_page (Uncaching pc1) ≡ₚ l ++ th_page (Uncaching pc) → th_ok m l1 (Uncaching pc1) →
    len1 = wrap 64 (Z.of_nat (length l1) + (th_debt (Uncaching pc1) + debt (ths1 ++ ths2))) →
    cache_inv nodes (mkCache m top1 len1 (ths1 ++ Uncaching pc1 :: ths2) owned pool)) as Hnew.
  { intros pc1 l1 top1 len1 Hl1 Hp1 Ht1 Hlen1. exists l1. cbn [c_mem c_top c_len c_threads c_owned c_pool].
    rewrite c_inflight_app, debt_app. split; [done|]. split; [|split; [|done]].
    - rewrite <- Hp. rewrite !app_assoc. rewrite Hp1. done.
    - apply (ths_ok_pop m l l1) in Hrest as [? ?]%Forall_app; [|done].
      rewrite Forall_app, Forall_cons. done. }
  assert (top = 0 ∨ top ∈ l) as Htop.
  { destruct l as [|x l]; [by left|]. destruct Hl as (-> & _). right. set_solver. }
  destruct pc as [|h|h n|h|r]; cbn in Hstep.
  - injection Hstep as <- <- <- <-. by apply (Hnew _ l).
  - destruct (Z.eqb_spec h 0) as [->|Hh]; injection Hstep as <- <- <- <-; apply (Hnew _ l); try done.
    cbn in Ht. by destruct Ht.
  - destruct Ht as [Hin ->]. destruct (Z.eqb_spec top h) as [->|Hne]; cbn [andb] in Hstep.
    + destruct spurious; cbn [negb] in Hstep; injection Hstep as <- <- <- <-; [by apply (Hnew _ l)|].
      destruct l as [|x l]; [by apply elem_of_nil in Hin|]. destruct Hl as (-> & _ & Hl).
      apply (Hnew _ l); try done.
      * cbn. rewrite app_nil_r. symmetry. apply Permutation_cons_append.
      * rewrite Hlen. cbn [th_debt length]. f_equal. lia.
    + injection Hstep as <- <- <- <-. by apply (Hnew _ l).
  - injection Hstep as <- <- <- <-. apply (Hnew _ l); try done.
    rewrite Hlen. cbn [th_debt]. unfold wsub, wrap. rewrite Zminus_mod_idemp_l. f_equal. lia.
  - injection Hstep as <- <- <- <-. by apply (Hnew _ l).
Qed.

Lemma cache_inv_step s s' :
  one_popper s → cache_inv nodes s → cache_step s s' → cache_inv nodes s'.
Proof.
  intros Hone Hinv Hstep.
  destruct Hstep as [m top len ths owned pool b owned' Ho| |m top len ths1 b ths2 owned pool
    |m top len ths1 b ths2 owned pool|m top len ths owned pool|m top len ths1 pc ths2
    |m top len ths1 r ths2 owned pool|m top len ths owned pool a v Ha].
  - destruct Hinv as (l & Hl & Hp & Hths & Hlen). exists l. cbn in *. split; [done|].
    split; [|split; [by constructor|done]]. unfold c_inflight in *. cbn. rewrite <- Hp, Ho. perm.
  - by eapply cache_inv_access.
  - destruct Hinv as (l & Hl & Hp & Hths & Hlen). exists l. cbn [c_mem c_top c_len c_threads c_owned c_pool] in *.
    rewrite c_inflight_app in Hp. rewrite debt_app in Hlen. rewrite Forall_app, Forall_cons in Hths.
    split; [done|]. split; [done|]. split; [apply Forall_app; tauto|]. done.
  - destruct Hinv as (l & Hl & Hp & Hths & Hlen). exists l. cbn [c_mem c_top c_len c_threads c_owned c_pool] in *.
    rewrite c_inflight_app in Hp. rewrite debt_app in Hlen. rewrite Forall_app, Forall_cons in Hths.
    split; [done|]. split; [rewrite <- Hp; cbn; perm|]. split; [apply Forall_app; tauto|]. done.
  - destruct Hinv as (l & Hl & Hp & Hths & Hlen). exists l. cbn in *. split; [done|].
    split; [done|]. split; [by constructor|done].
  - eapply cache_inv_uncache; [done|by eapply only_popper|done].
  - destruct Hinv as (l & Hl & Hp & Hths & Hlen). exists l. cbn [c_mem c_top c_len c_threads c_owned c_pool] in *.
    rewrite c_inflight_app in Hp. rewrite debt_app in Hlen. rewrite Forall_app, Forall_cons in Hths.
    split; [done|]. split; [rewrite <- Hp; destruct r; cbn; perm|].
    split; [apply Forall_app; tauto|]. done.
  - destruct Hinv as (l & Hl & Hp & Hths & Hlen). cbn [c_mem c_top c_len c_threads c_owned c_pool] in *.
    apply list_elem_of_split in Ha as (o1 & o2 & ->).
    assert (Forall (link_sep a) (l ++ c_inflight ths ++ o1 ++ o2 ++ pool)) as Hs
      by (apply (part_sep nodes); [done..|]; rewrite <- Hp; perm).
    rewrite !Forall_app in Hs. destruct Hs as (? & ? & _).
    exists l. cbn. split; [by apply chain_set|]. split; [done|].
    split; [by apply ths_ok_set|done].
Qed.

Lemma cache_inv_init m : cache_inv nodes (cache_init m nodes).
Proof. exists []. cbn. split; [done|]. split; [by rewrite app_nil_r|]. by split. Qed.

Lemma cache_reachable_inv m s : rtc cache_step1 (cache_init m nodes) s → cache_inv nodes s.
Proof.
  intros Hrun. assert (one_popper s ∧ cache_inv nodes s) as [_ ?]; [|done].
  eapply (rtc_ind_r (λ s, one_popper s ∧ cache_inv nodes s)); [|..|exact Hrun].
  - split; [unfold one_popper; cbn; lia|apply cache_inv_init].
  - intros s1 s2 _ [Hstep Hone] [Hone1 Hinv]. split; [done|]. by eapply cache_inv_step.
Qed.

End cache_proofs.

(** ** Properties *)

(** C31. Conservation.  From an empty cache, with any number of threads caching
    pages, handing them to the pool and writing to the pages they hold, and at
    most one thread in [uncache_slab] at a time: every page is at all times in
    exactly one place (on the stack, in a call, held by a caller, or given to
    [dealloc_slab]), and the length counts the stack up to the updates that
    running calls still owe. *)
Theorem cache_conservation `{LinkMemLaws M} (nodes : list Z) (m : M) (s : cache_sys M) :
  NoDup nodes → Forall ptr_ok nodes → link_region M (.∈ nodes) →
  rtc cache_step1 (cache_init m nodes) s →
  ∃ l, chain (c_mem s) (c_top s) l ∧
    NoDup (l ++ c_inflight (c_threads s) ++ c_owned s ++ c_pool s) ∧
    l ++ c_inflight (c_threads s) ++ c_owned s ++ c_pool s ≡ₚ nodes ∧
    c_len s = wrap 64 (Z.of_nat (length l) + debt (c_threads s)).
Proof.
  intros Hnd Hok Hreg Hrun.
  destruct (cache_reachable_inv nodes Hnd Hok Hreg m s Hrun) as (l & Hl & Hp & _ & Hlen).
  exists l. split; [done|]. split; [by rewrite Hp|done].
Qed.

Lemma cache_len_uint z : 0 ≤ z ≤ SLAB_CACHE_MAX → uint 64 z.
Proof. unfold uint, SLAB_CACHE_MAX. change (2 ^ 64) with 18446744073709551616. lia. Qed.

Lemma cache_push_ok `{LinkMemLaws M} (m : M) top l b :
  chain m top l → ptr_ok b → Forall (link_sep b) l → Z.of_nat (length l) ≤ SLAB_CACHE_MAX →
  if bool_decide (Z.of_nat (length l) = SLAB_CACHE_MAX)
  then cache_push b (m, top, Z.of_nat (length l)) = (false, (m, top, Z.of_nat (length l)))
  else cache_push b (m, top, Z.of_nat (length l))
         = (true, (link_set m b top, b, Z.of_nat (length (b :: l))))
       ∧ chain (link_set m b top) b (b :: l).
Proof.
  intros Hl Hb Hs Hlen. unfold cache_push. cbn [cache_slab_run cache_slab_step].
  destruct (Z.leb_spec SLAB_CACHE_MAX (Z.of_nat (length l))) as [Hfull|Hfull];
    case_bool_decide; try lia; [done|].
  cbn [cache_slab_step]. rewrite Z.eqb_refl. cbn [andb negb cache_slab_step].
  split; [|by apply chain_push]. rewrite wadd_small by (apply cache_len_uint; lia).
  rewrite length_cons, Nat2Z.inj_succ. done.
Qed.

Lemma uncache_slab_ok `{LinkMemLaws M} (m : M) top l :
  chain m top l → Z.of_nat (length l) ≤ SLAB_CACHE_MAX →
  match l with
  | [] => uncache_slab (m, top, Z.of_nat (length l)) = (None, (m, top, Z.of_nat (length l)))
  | x :: l' => uncache_slab (m, top, Z.of_nat (length l))
                 = (Some x, (m, link_get m x, Z.of_nat (length l'))) ∧ chain m (link_get m x) l'
  end.
Proof.
  intros Hl Hlen. destruct l as [|x l'].
  - cbn in Hl. subst top. done.
  - cbn [chain] in Hl. destruct Hl as (-> & Hx & Hl). split; [|done].
    unfold uncache_slab. cbn [uncache_slab_run uncache_slab_step].
    assert (x =? 0 = false) as -> by (unfold ptr_ok in Hx; lia).
    cbn [uncache_slab_step]. rewrite Z.eqb_refl. cbn [andb negb uncache_slab_step].
    rewrite length_cons, Nat2Z.inj_succ in *.
    rewrite wsub_small by (apply cache_len_uint; lia).
    do 3 f_equal. lia.
Qed.

(** A call that runs alone does what a bounded stack does: [cache_slab]
    pushes the page unless the length has reached 512, in which case the page
    goes to [dealloc_slab] and nothing changes; [uncache_slab] pops the page
    pushed last, and misses exactly on the empty stack.  Neither changes the
    memory of a page that is not the one pushed. *)
Theorem cache_lifo `{LinkMemLaws M} (m : M) (top : Z) (l rest : list Z) :
  NoDup (l ++ rest) → Forall ptr_ok (l ++ rest) → link_region M (.∈ l ++ rest) → chain m top l → Z.of_nat (length l) ≤ SLAB_CACHE_MAX →
  (∀ b rest', rest = b :: rest' →
     if bool_decide (Z.of_nat (length l) = SLAB_CACHE_MAX)
     then cache_push b (m, top, Z.of_nat (length l)) = (false, (m, top, Z.of_nat (length l)))
     else cache_push b (m, top, Z.of_nat (length l))
            = (true, (link_set m b top, b, Z.of_nat (length (b :: l))))
          ∧ chain (link_set m b top) b (b :: l)) ∧
  match l with
  | [] => uncache_slab (m, top, Z.of_nat (length l)) = (None, (m, top, Z.of_nat (length l)))
  | x :: l' => uncache_slab (m, top, Z.of_nat (length l))
                 = (Some x, (m, link_get m x, Z.of_nat (length l'))) ∧ chain m (link_get m x) l'
  end.
Proof.
  intros Hnd Hok Hreg Hl Hlen. split; [|by apply uncache_slab_ok].
  intros b rest' ->. apply cache_push_ok; try done.
  - rewrite Forall_forall in Hok. apply Hok. set_solver.
  - assert (Forall (link_sep b) (l ++ rest')) as Hs
      by (apply (part_sep (l ++ b :: rest')); [done..|perm]).
    by apply Forall_app in Hs as [? _].
Qed.

(** *** The compare-and-swap of a pop *)

(** Without the restriction to one popper, [uncache_slab] can hand out a page
    that a caller already holds.  A thread is preempted in [uncache_slab] between
    reading the link of the head [A] and its CAS; meanwhile others pop [A] and [B]
    and push [A] back.  The CAS then sees the head it expects and installs [B],
    so the next pop returns [B] although it was never pushed again. *)
Theorem cache_aba :
  ∃ s : cache_sys mem,
    rtc cache_step (cache_init ∅ [4096; 8192]) s ∧
    c_threads s = [] ∧ c_owned s = [8192; 4096; 8192].
Proof.
  exists (default (cache_init ∅ []) (cache_exec_run aba_schedule (cache_init ∅ [4096; 8192]))).
  split; [apply cache_exec_default; by vm_compute|]. split; by vm_compute.
Qed.

(** ** Witnesses *)

Lemma region_4096_8192 : link_region mem (.∈ [4096; 8192]).
Proof. intros a b Ha Hb Hne. cbn. set_unfold in Ha. set_unfold in Hb. lia. Qed.

(** Two pages cached, and one taken out again by the only popper. *)
Definition lone_schedule : list cache_action :=
  cache_calls 8192 ++ cache_calls 4096 ++ uncache_reads ++ uncache_ends.

Definition lone_end : cache_sys mem :=
  default (cache_init ∅ []) (cache_exec_run lone_schedule (cache_init ∅ [4096; 8192])).

Lemma cache_conservation_witness :
  ∃ l, chain (c_mem lone_end) (c_top lone_end) l ∧
    NoDup (l ++ c_inflight (c_threads lone_end) ++ c_owned lone_end ++ c_pool lone_end) ∧
    l ++ c_inflight (c_threads lone_end) ++ c_owned lone_end ++ c_pool lone_end ≡ₚ [4096; 8192] ∧
    c_len lone_end = wrap 64 (Z.of_nat (length l) + debt (c_threads lone_end)).
Proof.
  apply (cache_conservation [4096; 8192] ∅ lone_end).
  - apply (bool_decide_unpack _). by vm_compute.
  - apply (bool_decide_unpack _). by vm_compute.
  - exact region_4096_8192.
  - apply (cache_exec_sound1 lone_schedule); by vm_compute.
Defined.

Lemma cache_lifo_witness :
  cache_push 8192 (write_next ∅ 4096 0, 4096, 1)
    = (true, (write_next (write_next ∅ 4096 0) 8192 4096, 8192, 2)) ∧
  uncache_slab (write_next ∅ 4096 0, 4096, 1) = (Some 4096, (write_next ∅ 4096 0, 0, 0)).
Proof.
  destruct (cache_lifo (write_next ∅ 4096 0) 4096 [4096] [8192]) as [Hpush [Hpop _]].
  - apply (bool_decide_unpack _). by vm_compute.
  - apply (bool_decide_unpack _). by vm_compute.
  - exact region_4096_8192.
  - by vm_compute.
  - by vm_compute.
  - split; [by apply (Hpush 8192 [])|exact Hpop].
Defined.
