(* ===== verification/PagePort.v ===== *)
(** * What the heaps need from the page pool

    [PagePort] is the interface between the heaps and the page pool
    ([src/src/pool.rs]): slab pages, large blocks and the two per-class counters
    the heaps touch.  [PagePortLaws] is the contract: [pp_ok w pages larges]
    says that the pool counts exactly these pages and large blocks as handed
    out; every operation returns and leaves the contents of what is handed out
    alone.  The heaps are proved against the contract, and [pool_page_port_laws]
    discharges it for the page pool over any lawful page allocator. *)

From stdpp Require Import base numbers list gmap.
From Stdlib Require Import ZArith Lia.
From S2P Require Import Prelude SizeClass LinkMem FreeList Treiber Slab Sys Metrics PageList Pool PoolCounters PoolInv PoolSpec PoolSeq.

Local Open Scope Z_scope.
Local Open Scope clm_scope.
Arguments SEGMENT_SIZE : simpl never.
Arguments SLAB_SIZE : simpl never.

(** ** The interface *)

Class PagePort (W : Type) := {
  pp_mem : W → mem;
  pp_set_mem : W → mem → W;
  pp_alloc_slab : W → res (option Z * W);
  pp_dealloc_slab : W → Z → res W;
  pp_alloc_large : W → Layout → option Z * W;
  pp_dealloc_large : W → Z → Layout → W;
  pp_inc_abandon_count : W → Z → res W;
  pp_inc_adopt_count : W → Z → res W;
}.

(** The registry of live heaps, kept in the pool's metrics. *)
Class HeapRegistry (W : Type) := {
  hr_metrics : W → PoolMetrics;
  hr_set_metrics : W → PoolMetrics → W;
}.

Class PagePortLaws (W : Type) `{PagePort W} := {
  pp_ok : W → list Z → list block → Prop;
  pp_ok_perm w pages pages' larges larges' :
    pages ≡ₚ pages' → larges ≡ₚ larges' → pp_ok w pages larges → pp_ok w pages' larges';
  pp_ok_blocks w pages larges :
    pp_ok w pages larges →
    Forall slab_base_ok pages ∧ Forall block_ok larges ∧ blocks_disjoint (handed_out pages larges);
  pp_mem_set w m : pp_mem (pp_set_mem w m) = m;
  pp_set_mem_id w : pp_set_mem w (pp_mem w) = w;
  pp_set_mem_ok w pages larges m :
    pp_ok w pages larges →
    (∀ x, (∀ b, b ∈ handed_out pages larges → ¬ in_block b x) →
          read_byte m x = read_byte (pp_mem w) x) →
    pp_ok (pp_set_mem w m) pages larges;
  pp_alloc_slab_ok w pages larges :
    pp_ok w pages larges →
    ∃ r w', pp_alloc_slab w = Ok (r, w') ∧
      keeps (handed_out pages larges) (pp_mem w) (pp_mem w') ∧
      pp_ok w' (match r with Some p => p :: pages | None => pages end) larges;
  pp_dealloc_slab_ok w p pages larges :
    pp_ok w (p :: pages) larges →
    ∃ w', pp_dealloc_slab w p = Ok w' ∧
      keeps (handed_out pages larges) (pp_mem w) (pp_mem w') ∧ pp_ok w' pages larges;
  pp_alloc_large_ok w pages larges l r w' :
    pp_ok w pages larges → layout_valid l → 0 < size l → pp_alloc_large w l = (r, w') →
    keeps (handed_out pages larges) (pp_mem w) (pp_mem w') ∧
    pp_ok w' pages (match r with Some a => (a, l) :: larges | None => larges end);
  pp_dealloc_large_ok w pages larges a l :
    pp_ok w pages ((a, l) :: larges) →
    keeps (handed_out pages larges) (pp_mem w) (pp_mem (pp_dealloc_large w a l)) ∧
    pp_ok (pp_dealloc_large w a l) pages larges;
  pp_inc_ok w pages larges (c : Z) inc :
    pp_ok w pages larges → 0 ≤ c < NUM_CLASSES →
    inc = pp_inc_abandon_count ∨ inc = pp_inc_adopt_count →
    ∃ w', inc w c = Ok w' ∧ pp_mem w' = pp_mem w ∧ pp_ok w' pages larges;
}.

(** Only the registry operations touch the registry. *)
Class HeapRegistryLaws (W : Type) `{PagePortLaws W, HeapRegistry W} := {
  hr_get_set w pm : hr_metrics (hr_set_metrics w pm) = pm;
  hr_mem w pm : pp_mem (hr_set_metrics w pm) = pp_mem w;
  hr_ok w pages larges ptrs count d :
    pp_ok w pages larges → pp_ok (hr_set_metrics w (with_registry (hr_metrics w) ptrs count d)) pages larges;
  hr_set_mem w m : hr_metrics (pp_set_mem w m) = hr_metrics w;
  hr_alloc_slab w r w' :
    pp_alloc_slab w = Ok (r, w') → registry_of (hr_metrics w') = registry_of (hr_metrics w);
  hr_dealloc_slab w p w' :
    pp_dealloc_slab w p = Ok w' → registry_of (hr_metrics w') = registry_of (hr_metrics w);
  hr_alloc_large w l r w' :
    pp_alloc_large w l = (r, w') → registry_of (hr_metrics w') = registry_of (hr_metrics w);
  hr_dealloc_large w a l : registry_of (hr_metrics (pp_dealloc_large w a l)) = registry_of (hr_metrics w);
  hr_inc w c inc w' :
    inc = pp_inc_abandon_count ∨ inc = pp_inc_adopt_count → inc w c = Ok w' →
    registry_of (hr_metrics w') = registry_of (hr_metrics w);
}.

(** ** The page pool as an instance *)

Section instance.
Context {P : Type} `{PageAllocator P}.

#[export] Instance pool_page_port : PagePort (PagePool P) := {
  pp_mem := pool_mem;
  pp_set_mem w m := mkPool (page_alloc w) m (state w);
  pp_alloc_slab := alloc_slab;
  pp_dealloc_slab := dealloc_slab;
  pp_alloc_large := alloc_large;
  pp_dealloc_large := dealloc_large;
  pp_inc_abandon_count := inc_abandon_count;
  pp_inc_adopt_count := inc_adopt_count;
}.

#[export] Instance pool_registry : HeapRegistry (PagePool P) := {
  hr_metrics w := metrics (state w);
  hr_set_metrics w pm := mkPool (page_alloc w) (pool_mem w) (set_metrics (state w) pm);
}.
End instance.

(** ** The gauges *)

(** What the counters read when [pages] and [larges] are handed out. *)
Record stats_ok (s : PoolState) (pages : list Z) (larges : list block) : Prop := {
  st_abandon : Z.of_nat (length (abandon_count (metrics s))) = NUM_CLASSES;
  st_adopt : Z.of_nat (length (adopt_count (metrics s))) = NUM_CLASSES;
  st_pages : outstanding_slabs s = wrap 64 (Z.of_nat (length pages));
  st_larges : large_mapped_bytes s = wrap 64 (bytes_of larges);
}.

Section stats.

Lemma stats_ok_same s s' pages larges : stats s' = stats s → stats_ok s pages larges → stats_ok s' pages larges.
Proof. unfold stats. intros [= E1 E2 _ _ _ E3 E4] []. split; congruence. Qed.

(** The gauges follow the pages and the large blocks. *)
Lemma stats_ok_out s r pages larges :
  stats_ok s pages larges →
  stats_ok (set_outstanding_slabs s (page_out r (outstanding_slabs s)))
    (match r with Some p => p :: pages | None => pages end) larges.
Proof.
  intros [? ? Hp ?]. destruct r as [p|]; split; try done; cbn [outstanding_slabs set_outstanding_slabs page_out length].
  rewrite Hp. unfold wadd. rewrite wrap_add. f_equal. lia.
Qed.

Lemma stats_ok_back s p pages larges :
  stats_ok s (p :: pages) larges → stats_ok (set_outstanding_slabs s (outstanding_slabs s -[64] 1)) pages larges.
Proof.
  intros [? ? Hp ?]. split; try done. cbn [outstanding_slabs set_outstanding_slabs]. rewrite Hp.
  unfold wsub. rewrite wrap_sub. f_equal. cbn [length]. lia.
Qed.

Lemma stats_ok_large s pages larges larges' n :
  stats_ok s pages larges → n = wrap 64 (bytes_of larges') → stats_ok (set_large_mapped s n) pages larges'.
Proof. intros []. by split. Qed.

Lemma stats_ok_large_more s pages larges a l :
  stats_ok s pages larges →
  stats_ok (set_large_mapped s (large_mapped_bytes s +[64] size l)) pages ((a, l) :: larges).
Proof.
  intros Hs. eapply stats_ok_large; [exact Hs|]. rewrite (st_larges _ _ _ Hs). unfold wadd.
  rewrite wrap_add, bytes_of_cons. f_equal. lia.
Qed.

Lemma stats_ok_large_less s pages larges a l :
  stats_ok s pages ((a, l) :: larges) →
  stats_ok (set_large_mapped s (large_mapped_bytes s -[64] size l)) pages larges.
Proof.
  intros Hs. eapply stats_ok_large; [exact Hs|]. rewrite (st_larges _ _ _ Hs). unfold wsub.
  rewrite wrap_sub, bytes_of_cons. f_equal. lia.
Qed.

Lemma stats_ok_perm s pages pages' larges larges' :
  pages ≡ₚ pages' → larges ≡ₚ larges' → stats_ok s pages larges → stats_ok s pages' larges'.
Proof. intros Hp Hl []. split; try done; by rewrite <- ?Hp, <- ?Hl. Qed.
End stats.

(** *** Whole operations *)

Section whole.
Context {P : Type} `{PageAllocator P}.
Implicit Types w : PagePool P.

Lemma alloc_slab_stats w r w' :
  alloc_slab w = Ok (r, w') →
  stats (state w') = stats (set_outstanding_slabs (state w) (page_out r (outstanding_slabs (state w)))).
Proof.
  unfold alloc_slab. intros E. bind_inv E as [r1 s1] E1. apply alloc_slab_locked_stats in E1.
  destruct r1 as [p|]; [by injection E as <- <-|]. unfold alloc_slab_slow in E.
  destruct (pa_alloc _ _ _) as [[[b|] os] m] in E; [|by injection E as <- <-].
  bind_inv E as [[r2 m2] s2] E2. apply alloc_slab_install_stats in E2.
  apply (stats_outstanding (page_out r2)) in E1. destruct r2 as [p|].
  - injection E as <- <-. etrans; [exact E2|exact E1].
  - destruct (pa_dealloc _ _ _ _) as [os2 m3]. injection E as <- <-. etrans; [exact E2|exact E1].
Qed.

Lemma dealloc_slab_stats w p w' :
  dealloc_slab w p = Ok w' →
  stats (state w') = stats (set_outstanding_slabs (state w) (outstanding_slabs (state w) -[64] 1)).
Proof.
  unfold dealloc_slab. intros E. bind_inv E as [[m1 s1] o] E1.
  apply dealloc_slab_locked_stats in E1. destruct o as [seg|b].
  - destruct (pa_dealloc _ _ _ _) as [os2 m2]. by injection E as <-.
  - destruct b; [|by injection E as <-]. unfold purge_excess in E.
    bind_inv E as [s2 buf] E2. apply purge_take_loop_stats in E2.
    destruct (purge_pages _ _ _) as [os2 m2]. bind_inv E as [m3 s3] E3.
    apply purge_finish_loop_stats in E3. injection E as <-.
    etrans; [exact E3|]. etrans; [exact E2|]. exact E1.
Qed.
End whole.

(** ** The contract holds *)

Section laws.
Context {P : Type} `{PageAllocatorLaws P}.
Implicit Types w : PagePool P.

Definition pool_ok w (pages : list Z) (larges : list block) : Prop :=
  (∃ S D C, pool_owns w S D C pages larges ∧ Z.of_nat (length D) ≤ PURGE_HIGH_WATER) ∧
  stats_ok (state w) pages larges.

Lemma pool_owns_perm w S D C pages pages' larges larges' :
  pages ≡ₚ pages' → larges ≡ₚ larges' →
  pool_owns w S D C pages larges → pool_owns w S D C pages' larges'.
Proof.
  intros Hp Hl [Hi Ho]. split.
  - by eapply pool_inv_held_perm.
  - eapply pa_owns_perm; [|exact Ho]. by rewrite Hl.
Qed.

Lemma pool_ok_blocks w pages larges :
  pool_ok w pages larges →
  Forall slab_base_ok pages ∧ Forall block_ok larges ∧ blocks_disjoint (handed_out pages larges).
Proof.
  intros [(S & D & C & [Hi Ho] & _) _]. pose proof (owns_segs_ok _ _ _ Ho) as Hs.
  pose proof (λ a, inv_held_in _ _ _ _ _ _ a Hi) as Hin.
  pose proof (pa_owns_ok _ _ Ho) as [Hok Hd]. apply Forall_app in Hok as [_ Hok].
  assert (Forall slab_base_ok pages) as Hal.
  { apply Forall_forall. intros p Hp. by eapply all_pages_aligned, Hin. }
  split; [exact Hal|]. split; [exact Hok|].
  apply pairwise_app in Hd as (_ & Hdl & Hd). apply pairwise_app. split; [|split; [exact Hdl|]].
  - assert (NoDup pages) as Hnd.
    { pose proof (all_pages_NoDup S Hs) as Hnd. rewrite <- (pi_parts _ _ _ _ _ _ Hi) in Hnd.
      by rewrite !NoDup_app in Hnd; decompose_Forall; naive_solver. }
    clear -Hal Hnd. induction Hal as [|p pages Hp Hal IH]; [exact I|].
    apply NoDup_cons in Hnd as [Hnot Hnd]. cbn. split; [|by apply IH].
    rewrite Forall_fmap. rewrite Forall_forall in Hal |- *. intros q Hq x Hx Hx'.
    destruct Hp as [[i ->] _], (Hal q Hq) as [[j ->] _]. unfold in_block in *. cbn in *.
    change SLAB_SIZE with 65536 in *. apply Hnot. replace i with j by lia. done.
  - intros b b' (p & -> & Hp)%list_elem_of_fmap Hb' x Hx.
    destruct (page_in_block S p x (Hin p Hp) Hx) as (c & Hc & Hxc).
    apply (Hd (seg_block c) b'); [by apply list_elem_of_fmap_2|done..].
Qed.

Lemma pool_set_mem_ok w pages larges m :
  pool_ok w pages larges →
  (∀ x, (∀ b, b ∈ handed_out pages larges → ¬ in_block b x) →
        read_byte m x = read_byte (pool_mem w) x) →
  pool_ok (pp_set_mem w m) pages larges.
Proof.
  intros [(S & D & C & [Hi Ho] & HD) Hc] Hx. split; [|exact Hc].
  exists S, D, C. split; [|exact HD]. split; [|exact Ho]. eapply pool_inv_agree; [exact Hi|].
  intros a x Ha Hr. apply Hx. intros b Hb Hbx.
  destruct (inv_free_in _ _ _ _ _ _ a Hi Ha) as [Hpa Hno].
  pose proof (owns_segs_ok _ _ _ Ho) as Hs. destruct (all_pages_aligned S a Hs Hpa) as [[i ->] _].
  apply elem_of_app in Hb as [(p & -> & Hp)%list_elem_of_fmap|Hb].
  - pose proof (inv_held_in _ _ _ _ _ _ p Hi Hp) as Hpp.
    destruct (all_pages_aligned S p Hs Hpp) as [[j ->] _]. unfold in_block in Hbx. cbn in Hbx.
    change SLAB_SIZE with 65536 in *. apply Hno. by replace i with j by lia.
  - destruct (page_in_block S (i * SLAB_SIZE) x Hpa Hr) as (c & Hcs & Hxc).
    pose proof (pa_owns_ok _ _ Ho) as [_ Hd]. apply pairwise_app in Hd as (_ & _ & Hd).
    apply (Hd (seg_block c) b) with x; [by apply list_elem_of_fmap_2|done..].
Qed.

Lemma pool_inv_large m s S D C held n :
  pool_inv m s S D C held → pool_inv m (set_large_mapped s n) S D C held.
Proof. intros []. by split. Qed.

Lemma pool_owns_metrics w pages larges pm :
  (∃ S D C, pool_owns w S D C pages larges ∧ Z.of_nat (length D) ≤ PURGE_HIGH_WATER) →
  ∃ S D C, pool_owns (mkPool (page_alloc w) (pool_mem w) (set_metrics (state w) pm)) S D C pages larges ∧
    Z.of_nat (length D) ≤ PURGE_HIGH_WATER.
Proof.
  intros (S & D & C & [[] Ho] & HD). exists S, D, C. split; [|done]. split; [by split|exact Ho].
Qed.

Lemma pool_inc_ok w pages larges (c : Z) inc :
  pool_ok w pages larges → 0 ≤ c < NUM_CLASSES →
  inc = pp_inc_abandon_count ∨ inc = pp_inc_adopt_count →
  ∃ w', inc w c = Ok w' ∧ pp_mem w' = pp_mem w ∧ pool_ok w' pages larges.
Proof.
  intros [Hp Hst] Hc [-> | ->]; cbn [pp_inc_abandon_count pp_inc_adopt_count pool_page_port];
    unfold inc_abandon_count, inc_adopt_count; destruct Hst as [Ha Hd ? ?].
  - destruct (arr_update_total (abandon_count (metrics (state w))) c (λ c, c +[64] 1)) as (l & -> & Hl);
      [lia|]. eexists. split; [done|]. split; [done|]. split; [by apply pool_owns_metrics|].
    split; cbn; first [done|lia].
  - destruct (arr_update_total (adopt_count (metrics (state w))) c (λ c, c +[64] 1)) as (l & -> & Hl);
      [lia|]. eexists. split; [done|]. split; [done|]. split; [by apply pool_owns_metrics|].
    split; cbn; first [done|lia].
Qed.

Lemma pool_alloc_slab_ok w pages larges :
  pool_ok w pages larges →
  ∃ r w', alloc_slab w = Ok (r, w') ∧ keeps (handed_out pages larges) (pool_mem w) (pool_mem w') ∧
    pool_ok w' (match r with Some p => p :: pages | None => pages end) larges.
Proof.
  intros [(S & D & C & Ho & HD) Hc].
  destruct (alloc_slab_ok w S D C pages larges Ho) as (r & w' & E & Hk & Hr).
  exists r, w'. split; [exact E|]. split; [exact Hk|].
  split; [|eapply stats_ok_same; [by eapply alloc_slab_stats|by apply stats_ok_out]]. destruct r as [p|].
  - destruct Hr as (_ & _ & (S' & D' & C' & Ho' & HD') & _). exists S', D', C'. split; [exact Ho'|lia].
  - destruct Hr as (Ho' & _). by exists S, D, C.
Qed.

Lemma pool_dealloc_slab_ok w p pages larges :
  pool_ok w (p :: pages) larges →
  ∃ w', dealloc_slab w p = Ok w' ∧ keeps (handed_out pages larges) (pool_mem w) (pool_mem w') ∧
    pool_ok w' pages larges.
Proof.
  intros [(S & D & C & Ho & HD) Hc].
  destruct (dealloc_slab_ok w S D C pages larges p Ho HD) as (w' & S' & D' & C' & E & Ho' & Hk & HD' & _).
  exists w'. split; [exact E|]. split; [exact Hk|]. split; [by exists S', D', C'|].
  eapply stats_ok_same; [by eapply dealloc_slab_stats|by eapply stats_ok_back].
Qed.

Lemma pool_alloc_large_ok w pages larges l r w' :
  pool_ok w pages larges → layout_valid l → 0 < size l → alloc_large w l = (r, w') →
  keeps (handed_out pages larges) (pool_mem w) (pool_mem w') ∧
  pool_ok w' pages (match r with Some a => (a, l) :: larges | None => larges end).
Proof.
  intros [(S & D & C & [Hi Ho] & HD) Hc] Hl Hpos E. unfold alloc_large in E.
  pose proof (λ a, inv_held_in _ _ _ _ _ _ a Hi) as Hin.
  destruct (pa_alloc (page_alloc w) (pool_mem w) l) as [[[a|] os] m] eqn:Ha; injection E as <- <-.
  - destruct (pa_alloc_some _ _ _ _ _ _ _ Ho Hl Hpos Ha) as (Ho' & Hk & _).
    split; [by eapply held_keeps|]. split; [|by apply stats_ok_large_more]. exists S, D, C. split; [|exact HD].
    split; [by eapply pool_inv_large, keeps_segments|]. eapply pa_owns_perm; [|exact Ho']. by rewrite Permutation_middle.
  - destruct (pa_alloc_none _ _ _ _ _ _ Ho Hl Hpos Ha) as (Ho' & Hk).
    split; [by eapply held_keeps|]. split; [|exact Hc]. exists S, D, C. split; [|exact HD].
    split; [by eapply keeps_segments|exact Ho'].
Qed.

Lemma pool_dealloc_large_ok w pages larges a l :
  pool_ok w pages ((a, l) :: larges) →
  keeps (handed_out pages larges) (pool_mem w) (pool_mem (dealloc_large w a l)) ∧
  pool_ok (dealloc_large w a l) pages larges.
Proof.
  intros [(S & D & C & [Hi Ho] & HD) Hc]. unfold dealloc_large.
  destruct (pa_dealloc (page_alloc w) (pool_mem w) a l) as [os m] eqn:Ha.
  assert (pa_owns (page_alloc w) ((a, l) :: (seg_block <$> S) ++ larges)) as Ho1.
  { eapply pa_owns_perm; [|exact Ho]. by rewrite Permutation_middle. }
  destruct (pa_dealloc_ok _ _ _ _ _ _ _ Ho1 Ha) as [Ho' Hk].
  pose proof (λ a, inv_held_in _ _ _ _ _ _ a Hi) as Hin.
  split; [by eapply held_keeps|]. split; [|by eapply stats_ok_large_less].
  exists S, D, C. split; [|exact HD]. split; [by eapply pool_inv_large, keeps_segments|exact Ho'].
Qed.

Lemma pool_ok_perm w pages pages' larges larges' :
  pages ≡ₚ pages' → larges ≡ₚ larges' → pool_ok w pages larges → pool_ok w pages' larges'.
Proof.
  intros Hp Hl [(S & D & C & Ho & HD) Hc]. split; [|by eapply stats_ok_perm].
  exists S, D, C. split; [|exact HD]. by eapply pool_owns_perm.
Qed.

Lemma pool_set_mem_id w : pp_set_mem w (pp_mem w) = w.
Proof. by destruct w. Qed.

#[export] Instance pool_page_port_laws : PagePortLaws (PagePool P) := {
  pp_ok := pool_ok;
  pp_ok_perm := pool_ok_perm;
  pp_ok_blocks := pool_ok_blocks;
  pp_mem_set _ _ := eq_refl;
  pp_set_mem_id := pool_set_mem_id;
  pp_set_mem_ok := pool_set_mem_ok;
  pp_alloc_slab_ok := pool_alloc_slab_ok;
  pp_dealloc_slab_ok := pool_dealloc_slab_ok;
  pp_alloc_large_ok := pool_alloc_large_ok;
  pp_dealloc_large_ok := pool_dealloc_large_ok;
  pp_inc_ok := pool_inc_ok;
}.

Lemma stats_registry (s s' : PoolState) n :
  stats s' = stats (set_outstanding_slabs s n) → registry_of (metrics s') = registry_of (metrics s).
Proof. unfold stats, registry_of. cbn. intros [=]. congruence. Qed.

Lemma pool_registry_ok w pages larges ptrs count d :
  pool_ok w pages larges →
  pool_ok (hr_set_metrics w (with_registry (hr_metrics w) ptrs count d)) pages larges.
Proof. intros [Hp []]. split; [by apply pool_owns_metrics|by split]. Qed.

#[export] Instance pool_registry_laws : HeapRegistryLaws (PagePool P).
Proof.
  split; try done.
  - exact pool_registry_ok.
  - intros w r w' E. exact (stats_registry _ _ _ (alloc_slab_stats _ _ _ E)).
  - intros w p w' E. exact (stats_registry _ _ _ (dealloc_slab_stats _ _ _ E)).
  - intros w l r w' E. cbn [pp_alloc_large pool_page_port] in E. unfold alloc_large in E.
    destruct (pa_alloc _ _ _) as [[[a|] os] m] in E; by injection E as <- <-.
  - intros w a l. cbn [pp_dealloc_large pool_page_port]. unfold dealloc_large. by destruct (pa_dealloc _ _ _ _).
  - intros w c inc w' [-> | ->]; intros E; cbn [pp_inc_abandon_count pp_inc_adopt_count pool_page_port] in E;
      unfold inc_abandon_count, inc_adopt_count in E; bind_inv E as l El; by injection E as <-.
Qed.
End laws.
