(* ===== verification/Heap.v ===== *)
(** * Heaps ([src/src/heap.rs], and the shared lists of [src/src/pool.rs])

    A heap is the allocator of one thread.  Per size class it has an active
    slab and two queues of further slabs, the full and the partial one.  Slabs
    of exited threads wait on the abandoned lists of the pool until a heap
    adopts them.

    The [world] is what all heaps share: the page pool behind [PagePort], the
    slab headers with the list heads ([lstore]), the abandoned lists and the
    slab cache.  Every method of [Heap] is a definition that takes the heap and
    the world and returns the new ones; a panic or a dereference of a slab that
    does not exist is a [Panic].  Frees by other threads of a heap's slots may
    land while the heap is in the middle of a call, at the points where it reads
    a remote list ([interfere]).  Otherwise a call is one step: the interleaving
    of the pool's sections and of the lock-free lists is the subject of
    [PoolSpec], [Treiber] and [SlabCache].
    The model is the crate with the feature [metrics] and without [pprof],
    whose hooks are in [Pprof]. *)

From stdpp Require Import base numbers list gmap.
From Stdlib Require Import ZArith Lia.
From S2P Require Import Prelude SizeClass LinkMem FreeList Treiber Slab SlabList Metrics SlabCache PagePort.

Local Open Scope Z_scope.
Local Open Scope clm_scope.

(** ** State *)

(** [bins] are the active slabs, by base address. *)
Record Heap := mkHeap {
  hp_id : Z;
  hp_bins : list (option Z);
  hp_metrics : HeapMetrics;
}.

Definition with_bins (h : Heap) (b : list (option Z)) : Heap := mkHeap (hp_id h) b (hp_metrics h).
Definition with_metrics (h : Heap) (hm : HeapMetrics) : Heap := mkHeap (hp_id h) (hp_bins h) hm.

(** [&mut self.full_heads[class_idx]] and [&mut self.partial_heads[class_idx]]. *)
Definition full_heads (h : Heap) (class_idx : Z) : HeadCell :=
  mkHeadCell (hp_id h) FullList class_idx.
Definition partial_heads (h : Heap) (class_idx : Z) : HeadCell :=
  mkHeadCell (hp_id h) PartialList class_idx.

Definition Heap_new (id : Z) : Heap :=
  mkHeap id (replicate (Z.to_nat NUM_CLASSES) None) HeapMetrics_ZERO.

(** [NEXT_HEAP_ID.fetch_add(1)]: the id and the counter's new value. *)
Definition next_heap_id (next : Z) : Z * Z := (next, next +[64] 1).

Section heap.
Context {W : Type} `{PagePort W}.

(** [w_flight] are the slots, with their classes, that other threads are about
    to push on the remote lists of their slabs; [w_sched] says which of these
    pushes land at the next points where a heap reads a remote list. *)
Record world := mkWorld {
  w_pool : W;
  w_slabs : lstore;
  w_abandoned : list Z;
  w_cache : Z;
  w_cache_len : Z;
  w_flight : list (Z * Z);
  w_sched : list (list Z);
}.

Definition w_mem (w : world) : mem := pp_mem (w_pool w).
Definition set_pool (w : world) (p : W) : world :=
  mkWorld p (w_slabs w) (w_abandoned w) (w_cache w) (w_cache_len w) (w_flight w) (w_sched w).
Definition set_slabs (w : world) (st : lstore) : world :=
  mkWorld (w_pool w) st (w_abandoned w) (w_cache w) (w_cache_len w) (w_flight w) (w_sched w).
Definition set_mem (w : world) (m : mem) : world := set_pool w (pp_set_mem (w_pool w) m).
Definition set_header (w : world) (b : Z) (h : SlabHeader) : world :=
  set_slabs w (put_header (w_slabs w) b h).
Definition set_abandoned (w : world) (ab : list Z) : world :=
  mkWorld (w_pool w) (w_slabs w) ab (w_cache w) (w_cache_len w) (w_flight w) (w_sched w).
Definition set_cache (w : world) (top len : Z) : world :=
  mkWorld (w_pool w) (w_slabs w) (w_abandoned w) top len (w_flight w) (w_sched w).
Definition set_flight (w : world) (fl : list (Z * Z)) : world :=
  mkWorld (w_pool w) (w_slabs w) (w_abandoned w) (w_cache w) (w_cache_len w) fl (w_sched w).
Definition set_sched (w : world) (s : list (list Z)) : world :=
  mkWorld (w_pool w) (w_slabs w) (w_abandoned w) (w_cache w) (w_cache_len w) (w_flight w) s.

(** The empty world over a pool. *)
Definition world_new (p : W) : world :=
  mkWorld p (mkStore ∅ ∅) (replicate (Z.to_nat NUM_CLASSES) 0) 0 0 [] [].

(** ** Slab methods at an address *)

Definition slab_alloc_at (w : world) (b : Z) : res (option Z * world) :=
  h ← get_header (w_slabs w) b;
  let '(r, h) := Slab_alloc b (w_mem w) h in
  Ok (r, set_header w b h).

Definition slab_dealloc_local_at (w : world) (b ptr : Z) : res world :=
  h ← get_header (w_slabs w) b;
  let '(m, h) := Slab_dealloc_local (w_mem w) h ptr in
  Ok (set_header (set_mem w m) b h).

Definition slab_dealloc_remote_at (w : world) (b ptr : Z) : res world :=
  h ← get_header (w_slabs w) b;
  let '(m, h) := SlabRef_dealloc_remote (w_mem w) h ptr in
  Ok (set_header (set_mem w m) b h).

(** ** Frees of other threads

    A free of another thread ends with a push on the remote list of the slab.
    The push may happen at once or any time later, also in the middle of a call
    of the heap that owns the slab ([PushLater]); a heap sees it where it reads
    a remote list, and those reads are where [interfere] lets pushes land. *)

Inductive push_mode := PushNow | PushLater.

Definition push_remote (mode : push_mode) (w : world) (b ptr class_idx : Z) : res world :=
  match mode with
  | PushNow => slab_dealloc_remote_at w b ptr
  | PushLater => Ok (set_flight w ((ptr, class_idx) :: w_flight w))
  end.

Fixpoint take_slot (ptr : Z) (fl : list (Z * Z)) : option (list (Z * Z)) :=
  match fl with
  | [] => None
  | s :: fl => if fst s =? ptr then Some fl else cons s <$> take_slot ptr fl
  end.

(** The push of [ptr], if it is in flight. *)
Definition land (w : world) (ptr : Z) : res world :=
  match take_slot ptr (w_flight w) with
  | None => Ok w
  | Some fl => w ← slab_dealloc_remote_at w (SlabHeader_from_ptr ptr) ptr; Ok (set_flight w fl)
  end.

Fixpoint land_all (w : world) (ptrs : list Z) : res world :=
  match ptrs with
  | [] => Ok w
  | ptr :: ptrs => w ← land w ptr; land_all w ptrs
  end.

Definition interfere (w : world) : res world :=
  match w_sched w with
  | [] => Ok w
  | ptrs :: s => land_all (set_sched w s) ptrs
  end.

(** The swap of the remote list and the walk over what it took. *)
Definition slab_drain_now (w : world) (b : Z) : res world :=
  h ← get_header (w_slabs w) b;
  '(m, h, _) ← Slab_drain_remote (w_mem w) h;
  Ok (set_header (set_mem w m) b h).

Definition slab_drain_at (w : world) (b : Z) : res world :=
  w ← interfere w; slab_drain_now w b.

(** ** The pool's lock-free lists, as calls *)

(** [into_raw] followed by [cache_slab]: the page has no header any more. *)
Definition PagePool_cache_slab (w : world) (b : Z) : res world :=
  let st := mkStore (delete b (ls_hdrs (w_slabs w))) (ls_heads (w_slabs w)) in
  let '(cached, (m, top, len)) := cache_push b (w_mem w, w_cache w, w_cache_len w) in
  let w := set_slabs w st in
  if (cached : bool) then Ok (set_cache (set_mem w m) top len)
  else p ← pp_dealloc_slab (w_pool w) b; Ok (set_pool w p).

Definition PagePool_uncache_slab (w : world) : option Z * world :=
  let '(r, (m, top, len)) := uncache_slab (w_mem w, w_cache w, w_cache_len w) in
  (r, set_cache (set_mem w m) top len).

(** [NonNull::new]. *)
Definition nonnull (p : Z) : option Z := if p =? 0 then None else Some p.

Definition PagePool_abandon_slab (w : world) (b : Z) : res world :=
  h ← get_header (w_slabs w) b;
  let class_idx := size_class_index h in
  current ← arr_get (w_abandoned w) class_idx;
  let w := set_header w b (Slab_set_next_link h (nonnull current)) in
  ab ← arr_set (w_abandoned w) class_idx b;
  p ← pp_inc_abandon_count (w_pool w) class_idx;
  Ok (set_pool (set_abandoned w ab) p).

Definition PagePool_adopt_all (w : world) (class_idx : Z) : res (option Z * world) :=
  head ← arr_get (w_abandoned w) class_idx;
  if head =? 0 then Ok (None, w) else
  ab ← arr_set (w_abandoned w) class_idx 0;
  Ok (nonnull head, set_abandoned w ab).

(** ** Heap methods *)

Definition set_bin (h : Heap) (idx : Z) (b : option Z) : res Heap :=
  l ← arr_set (hp_bins h) idx b; Ok (with_bins h l).

(** [self.metrics().on_alloc(idx, class_size)]. *)
Definition count_alloc (h : Heap) (idx : Z) : res Heap :=
  hm ← HeapMetrics_on_alloc (hp_metrics h) idx (class_size idx); Ok (with_metrics h hm).
Definition count_dealloc (h : Heap) (idx : Z) : res Heap :=
  hm ← HeapMetrics_on_dealloc (hp_metrics h) idx (class_size idx); Ok (with_metrics h hm).

Definition heap_list_push (w : world) (c : HeadCell) (b : Z) : res world :=
  st ← slab_list_push (w_slabs w) c b; Ok (set_slabs w st).
Definition heap_list_pop (w : world) (c : HeadCell) : res (option Z * world) :=
  '(r, st) ← slab_list_pop (w_slabs w) c; Ok (r, set_slabs w st).
Definition heap_list_remove (w : world) (b : Z) : res world :=
  st ← slab_list_remove (w_slabs w) b; Ok (set_slabs w st).

(** The active bin if it is empty, else the partial queue. *)
Definition promote (h : Heap) (w : world) (idx b : Z) : res (Heap * world) :=
  bin ← arr_get (hp_bins h) idx;
  match bin with
  | None => h ← set_bin h idx (Some b); Ok (h, w)
  | Some _ => w ← heap_list_push w (partial_heads h idx) b; Ok (h, w)
  end.

Definition retire_active (h : Heap) (w : world) (idx : Z) : res (Heap * world) :=
  bin ← arr_get (hp_bins h) idx;
  match bin with
  | None => Ok (h, w)
  | Some b =>
      h ← set_bin h idx None;
      w ← heap_list_push w (full_heads h idx) b;
      Ok (h, w)
  end.

Definition try_partial (h : Heap) (w : world) (idx : Z) : res (bool * Heap * world) :=
  '(r, w) ← heap_list_pop w (partial_heads h idx);
  match r with
  | Some b => h ← set_bin h idx (Some b); Ok (true, h, w)
  | None => Ok (false, h, w)
  end.

Definition reclaim_slab (w : world) (target : Z) : res world :=
  w ← heap_list_remove w target; PagePool_cache_slab w target.

(** Pushes may land before the test, and again before the drain. *)
Definition settle_at (w : world) (b : Z) : res world :=
  w ← interfere w;
  hd ← get_header (w_slabs w) b;
  if Slab_has_pending_remote hd then slab_drain_at w b else Ok w.

(** The body of the loop of [scan_full_list]. *)
Definition scan_one (h : Heap) (w : world) (idx b : Z) : res (Heap * world) :=
  w ← settle_at w b;
  hd ← get_header (w_slabs w) b;
  if Slab_is_fully_free hd then
    w ← heap_list_remove w b;
    w ← PagePool_cache_slab w b;
    Ok (h, w)
  else if 0 <? Slab_free_count hd then
    w ← heap_list_remove w b;
    promote h w idx b
  else Ok (h, w).

Fixpoint scan_loop (fuel : nat) (h : Heap) (w : world) (idx : Z) (current : option Z)
    : res (Heap * world) :=
  match current with
  | None => Ok (h, w)
  | Some b =>
      match fuel with
      | O => Panic OutOfFuel
      | S fuel =>
          hd ← get_header (w_slabs w) b;
          let current := next_link hd in
          '(h, w) ← scan_one h w idx b;
          scan_loop fuel h w idx current
      end
  end.

(** No list is longer than the number of slabs. *)
Definition slab_fuel (w : world) : nat := base.size (ls_hdrs (w_slabs w)).

Definition scan_full_list (h : Heap) (w : world) (idx : Z) : res (Heap * world) :=
  scan_loop (slab_fuel w) h w idx (ls_heads (w_slabs w) !! full_heads h idx).

(** The body of the loop of [try_adopt]; [result] is the slot served so far. *)
Definition adopt_one (h : Heap) (w : world) (idx b : Z) (result : option Z)
    : res (option Z * Heap * world) :=
  hd ← get_header (w_slabs w) b;
  let w := set_header w b (Slab_set_heap_id (Slab_set_prev_link (Slab_set_next_link hd None) LinkNull)
                             (hp_id h)) in
  w ← slab_drain_at w b;
  p ← pp_inc_adopt_count (w_pool w) idx;
  let w := set_pool w p in
  hd ← get_header (w_slabs w) b;
  if Slab_is_fully_free hd then
    w ← PagePool_cache_slab w b;
    Ok (result, h, w)
  else
    '(ptr, w) ← (match result with None => slab_alloc_at w b | Some _ => Ok (None, w) end);
    match ptr with
    | Some ptr => h ← set_bin h idx (Some b); Ok (Some ptr, h, w)
    | None =>
        hd ← get_header (w_slabs w) b;
        let cell := if 0 <? Slab_free_count hd then partial_heads h idx else full_heads h idx in
        w ← heap_list_push w cell b;
        Ok (result, h, w)
    end.

Fixpoint adopt_loop (fuel : nat) (h : Heap) (w : world) (idx : Z) (slab_opt result : option Z)
    : res (option Z * Heap * world) :=
  match slab_opt with
  | None => Ok (result, h, w)
  | Some b =>
      match fuel with
      | O => Panic OutOfFuel
      | S fuel =>
          hd ← get_header (w_slabs w) b;
          let next := next_link hd in
          '(result, h, w) ← adopt_one h w idx b result;
          adopt_loop fuel h w idx next result
      end
  end.

Definition try_adopt (h : Heap) (w : world) (idx : Z) : res (option Z * Heap * world) :=
  '(slab_opt, w) ← PagePool_adopt_all w idx;
  adopt_loop (slab_fuel w) h w idx slab_opt None.

Definition request_slab (h : Heap) (w : world) (idx : Z) : res (option Z * Heap * world) :=
  '(ptr, h, w) ← try_adopt h w idx;
  match ptr with
  | Some ptr => h ← count_alloc h idx; Ok (Some ptr, h, w)
  | None =>
      '(raw, w) ← (match PagePool_uncache_slab w with
                   | (Some raw, w) => Ok (Some raw, w)
                   | (None, w) => '(raw, p) ← pp_alloc_slab (w_pool w); Ok (raw, set_pool w p)
                   end);
      match raw with
      | None => Ok (None, h, w)
      | Some raw =>
          let w := set_header w raw (SlabHeader_init idx (hp_id h)) in
          '(ptr, w) ← slab_alloc_at w raw;
          h ← set_bin h idx (Some raw);
          h ← (match ptr with Some _ => count_alloc h idx | None => Ok h end);
          Ok (ptr, h, w)
      end
  end.

(** The active slab: allocate, else drain and allocate, else retire it. *)
Definition alloc_active (h : Heap) (w : world) (idx b : Z) : res (option Z * Heap * world) :=
  '(r, w) ← slab_alloc_at w b;
  match r with
  | Some ptr => h ← count_alloc h idx; Ok (Some ptr, h, w)
  | None =>
      w ← slab_drain_at w b;
      '(r, w) ← slab_alloc_at w b;
      match r with
      | Some ptr => h ← count_alloc h idx; Ok (Some ptr, h, w)
      | None => '(h, w) ← retire_active h w idx; Ok (None, h, w)
      end
  end.

(** [fuel] bounds the depth of the recursion. *)
Fixpoint Heap_alloc (fuel : nat) (h : Heap) (w : world) (layout : Layout)
    : res (option Z * Heap * world) :=
  match fuel with
  | O => Panic OutOfFuel
  | S fuel =>
      c ← class_index layout;
      match c with
      | None =>
          let '(r, p) := pp_alloc_large (w_pool w) layout in
          match r with
          | None => Ok (None, h, set_pool w p)
          | Some ptr =>
              let hm := HeapMetrics_on_large_alloc (hp_metrics h) (size layout) in
              Ok (Some ptr, with_metrics h hm, set_pool w p)
          end
      | Some idx =>
          bin ← arr_get (hp_bins h) idx;
          '(r, h, w) ← (match bin with
                        | Some b => alloc_active h w idx b
                        | None => Ok (None, h, w)
                        end);
          match r with
          | Some ptr => Ok (Some ptr, h, w)
          | None =>
              '(found, h, w) ← try_partial h w idx;
              if (found : bool) then Heap_alloc fuel h w layout else
              '(h, w) ← scan_full_list h w idx;
              bin ← arr_get (hp_bins h) idx;
              match bin with
              | Some _ => Heap_alloc fuel h w layout
              | None =>
                  '(found, h, w) ← try_partial h w idx;
                  if (found : bool) then Heap_alloc fuel h w layout else
                  request_slab h w idx
              end
          end
      end
  end.

(** [mode] says when a push on the list of another heap's slab happens. *)
Definition Heap_dealloc (mode : push_mode) (h : Heap) (w : world) (ptr : Z) (layout : Layout)
    : res (Heap * world) :=
  c ← class_index layout;
  match c with
  | None =>
      let hm := HeapMetrics_on_large_dealloc (hp_metrics h) (size layout) in
      Ok (with_metrics h hm, set_pool w (pp_dealloc_large (w_pool w) ptr layout))
  | Some idx =>
      h ← count_dealloc h idx;
      let slab_ref := SlabHeader_from_ptr ptr in
      bin ← arr_get (hp_bins h) idx;
      if match bin with Some active => SlabRef_header_eq active slab_ref | None => false end then
        w ← slab_dealloc_local_at w slab_ref ptr;
        Ok (h, w)
      else
        hd ← get_header (w_slabs w) slab_ref;
        if heap_id hd =? hp_id h then
          let slab_base := Z.land ptr SLAB_MASK in
          w ← slab_dealloc_local_at w slab_base ptr;
          hd ← get_header (w_slabs w) slab_base;
          if Slab_is_fully_free hd then
            w ← reclaim_slab w slab_base; Ok (h, w)
          else if Slab_free_count hd =? 1 then
            w ← heap_list_remove w slab_base;
            promote h w idx slab_base
          else Ok (h, w)
        else
          let hm := HeapMetrics_on_remote_free (hp_metrics h) 1 in
          w ← push_remote mode w slab_ref ptr idx;
          Ok (with_metrics h hm, w)
  end.

(** ** Thread exit *)

(** A slab of an exiting thread: drained, then cached or abandoned. *)
Definition release_slab (w : world) (b : Z) : res world :=
  w ← slab_drain_at w b;
  hd ← get_header (w_slabs w) b;
  if Slab_is_fully_free hd then PagePool_cache_slab w b else PagePool_abandon_slab w b.

Definition retire_slab (h : Heap) (w : world) (idx : Z) : res (Heap * world) :=
  bin ← arr_get (hp_bins h) idx;
  match bin with
  | None => Ok (h, w)
  | Some b => h ← set_bin h idx None; w ← release_slab w b; Ok (h, w)
  end.

Fixpoint drop_list (fuel : nat) (w : world) (c : HeadCell) : res world :=
  '(r, w) ← heap_list_pop w c;
  match r with
  | None => Ok w
  | Some b =>
      match fuel with
      | O => Panic OutOfFuel
      | S fuel => w ← release_slab w b; drop_list fuel w c
      end
  end.

(** [for idx in 0..NUM_CLASSES], with [n] classes left. *)
Fixpoint drop_classes (n : nat) (h : Heap) (w : world) (idx : Z) : res (Heap * world) :=
  match n with
  | O => Ok (h, w)
  | S n =>
      '(h, w) ← retire_slab h w idx;
      w ← drop_list (slab_fuel w) w (full_heads h idx);
      w ← drop_list (slab_fuel w) w (partial_heads h idx);
      drop_classes n h w (idx + 1)
  end.

Definition Heap_drop (h : Heap) (w : world) : res (Heap * world) :=
  drop_classes (Z.to_nat NUM_CLASSES) h w 0.

(** What a push and the bookkeeping of the flight leave alone, pushes that land leave alone. *)
Lemma land_all_same {A} (f : world → A) ptrs : ∀ w w',
  (∀ w b ptr w', slab_dealloc_remote_at w b ptr = Ok w' → f w' = f w) → (∀ w fl, f (set_flight w fl) = f w) →
  land_all w ptrs = Ok w' → f w' = f w.
Proof.
  induction ptrs as [|ptr ptrs IH]; intros w w' Hpush Hfl E; cbn [land_all] in E; [by injection E as <-|].
  apply res_bind_ok in E as (w1 & E1 & E%IH); [|done..]. rewrite E. unfold land in E1.
  destruct (take_slot ptr (w_flight w)) as [fl|]; [|by injection E1 as <-].
  apply res_bind_ok in E1 as (w2 & E2 & [= <-]). rewrite Hfl. by eapply Hpush.
Qed.

Lemma interfere_same {A} (f : world → A) w w' :
  (∀ w b ptr w', slab_dealloc_remote_at w b ptr = Ok w' → f w' = f w) →
  (∀ w fl, f (set_flight w fl) = f w) → (∀ w s, f (set_sched w s) = f w) →
  interfere w = Ok w' → f w' = f w.
Proof.
  intros Hpush Hfl Hs. unfold interfere. destruct (w_sched w) as [|ptrs s]; [by intros [= <-]|].
  intros E. apply (land_all_same f) in E; [|done..]. by rewrite E, Hs.
Qed.
End heap.
Arguments world : clear implicits.
