(* ===== verification/Abandon.v ===== *)
(** * The abandoned lists under interleaving ([src/src/pool.rs], [abandon_slab], [adopt_all])

    One abandoned list per size class, a stack of slabs linked through their
    headers.  A thread that exits pushes its slabs with a compare-and-swap loop;
    a thread that needs a slab takes the whole list with a swap and walks what
    it took, while others push and take.  [ab_step] interleaves any number of
    such threads access by access; [ab_spec_step] is the atomic stack that the
    heaps of [Heap] use.  The refinement shows that nothing is lost between the
    two, although no lock is held and headers are written all the time. *)

From stdpp Require Import base numbers list gmap.
From Stdlib Require Import ZArith Lia.
From S2P Require Import Prelude LinkMem Treiber Slab SlabList PagePort Heap.

Local Open Scope Z_scope.

(** ** Headers as a memory of links *)

#[export] Instance SlabHeader_inhabited : Inhabited SlabHeader := populate (SlabHeader_init 0 0).

Abbreviation headers := (gmap Z SlabHeader).

#[export] Instance header_links : LinkMem headers := {
  link_get st b := default 0 (next_link (st !!! b));
  link_set st b v := <[b := Slab_set_next_link (st !!! b) (nonnull v)]> st;
  link_sep a b := a ≠ b;
}.

#[export] Instance header_links_laws : LinkMemLaws headers.
Proof.
  split.
  - intros a b Hab. exact (not_eq_sym Hab).
  - intros st a v Hv. cbn. rewrite lookup_total_insert_eq. unfold nonnull. cbn.
    destruct (Z.eqb_spec v 0) as [->|]; done.
  - intros st a b v Hab. cbn. by rewrite lookup_total_insert_ne.
Qed.

(** ** The interleaved calls *)

(** One access of the loop of [abandon_slab]: the loop of [TreiberStack::push], on headers. *)
Definition abandon_slab_step (base : Z) (spurious : bool) (pc : push_pc) (s : headers * Z) : push_pc * (headers * Z) :=
  TreiberStack_push_step base base spurious pc s.

(** A thread outside of these calls, in [abandon_slab], in [adopt_all] after it
    has seen a list, and with a list it took, from the slab at [cursor]. *)
Inductive ab_thread :=
  | AbIdle
  | Abandoning (base : Z) (pc : push_pc)
  | AdoptSwap
  | Walking (cursor : Z).

(** The headers, the head of the list, the threads, and the slabs that belong
    to some heap. *)
Record ab_sys := mkAb {
  ab_hdrs : headers;
  ab_top : Z;
  ab_threads : list ab_thread;
  ab_owned : list Z;
}.

Inductive ab_event :=
  | EvAbandon (base : Z)
  | EvAdopt (i : nat)
  | EvTake (i : nat) (base : Z).

Inductive ab_step : ab_sys → option ab_event → ab_sys → Prop :=
  | ab_start st top ths owned owned' i b :
      ths !! i = Some AbIdle → owned ≡ₚ b :: owned' →
      ab_step (mkAb st top ths owned) None (mkAb st top (<[i := Abandoning b PushLoad]> ths) owned')
  | ab_access st top ths owned i b pc spurious pc' st' top' :
      ths !! i = Some (Abandoning b pc) →
      abandon_slab_step b spurious pc (st, top) = (pc', (st', top')) → pc' ≠ PushDone →
      ab_step (mkAb st top ths owned) None (mkAb st' top' (<[i := Abandoning b pc']> ths) owned)
  | ab_abandoned st top ths owned i b pc spurious st' top' :
      ths !! i = Some (Abandoning b pc) →
      abandon_slab_step b spurious pc (st, top) = (PushDone, (st', top')) →
      ab_step (mkAb st top ths owned) (Some (EvAbandon b)) (mkAb st' top' (<[i := AbIdle]> ths) owned)
  (** [adopt_all]: the test for null, then the swap. *)
  | ab_adopt_null st ths owned i :
      ths !! i = Some AbIdle →
      ab_step (mkAb st 0 ths owned) (Some (EvAdopt i)) (mkAb st 0 ths owned)
  | ab_adopt_seen st top ths owned i :
      ths !! i = Some AbIdle → top ≠ 0 →
      ab_step (mkAb st top ths owned) None (mkAb st top (<[i := AdoptSwap]> ths) owned)
  | ab_adopt_swap st top ths owned i :
      ths !! i = Some AdoptSwap →
      ab_step (mkAb st top ths owned) (Some (EvAdopt i)) (mkAb st 0 (<[i := Walking top]> ths) owned)
  (** The loop of [try_adopt]: the link is read, then reset. *)
  | ab_take st top ths owned i cursor :
      ths !! i = Some (Walking cursor) → cursor ≠ 0 →
      ab_step (mkAb st top ths owned) (Some (EvTake i cursor))
        (mkAb (link_set st cursor 0) top (<[i := Walking (link_get st cursor)]> ths) (cursor :: owned))
  | ab_end st top ths owned i :
      ths !! i = Some (Walking 0) →
      ab_step (mkAb st top ths owned) None (mkAb st top (<[i := AbIdle]> ths) owned)
  (** The heap that owns a slab writes anything to its header. *)
  | ab_write st top ths owned b h :
      b ∈ owned →
      ab_step (mkAb st top ths owned) None (mkAb (<[b := h]> st) top ths owned).

Definition ab_init (st : headers) (n : nat) (slabs : list Z) : ab_sys := mkAb st 0 (replicate n AbIdle) slabs.

(** ** The atomic stack *)

(** The list, and what each thread has left of the list it took. *)
Record ab_spec := mkAbSpec { sp_stack : list Z; sp_chains : list (list Z) }.

Inductive ab_spec_step : ab_spec → ab_event → ab_spec → Prop :=
  | spec_abandon st cs b : ab_spec_step (mkAbSpec st cs) (EvAbandon b) (mkAbSpec (b :: st) cs)
  | spec_adopt st cs i :
      cs !! i = Some [] → ab_spec_step (mkAbSpec st cs) (EvAdopt i) (mkAbSpec [] (<[i := st]> cs))
  | spec_take st cs i b c :
      cs !! i = Some (b :: c) → ab_spec_step (mkAbSpec st cs) (EvTake i b) (mkAbSpec st (<[i := c]> cs)).

(** ** The relation *)

Definition th_slabs (t : ab_thread) : list Z := match t with Abandoning b _ => [b] | _ => [] end.

Definition thread_rel (st : headers) (t : ab_thread) (c : list Z) : Prop :=
  match t with
  | AbIdle | AdoptSwap => c = []
  | Abandoning b pc => c = [] ∧ thread_ok st (mkThread [b] pc)
  | Walking cursor => chain st cursor c
  end.

(** The slabs in the hands of the threads, thread by thread. *)
Definition in_hand (ths : list ab_thread) (cs : list (list Z)) : list (list Z) := zip_with (λ t c, th_slabs t ++ c) ths cs.

Record ab_rel (slabs : list Z) (s : ab_sys) (a : ab_spec) : Prop := {
  ar_stack : chain (ab_hdrs s) (ab_top s) (sp_stack a);
  ar_len : length (ab_threads s) = length (sp_chains a);
  ar_threads i t c : ab_threads s !! i = Some t → sp_chains a !! i = Some c → thread_rel (ab_hdrs s) t c;
  ar_parts : sp_stack a ++ concat (in_hand (ab_threads s) (sp_chains a)) ++ ab_owned s ≡ₚ slabs;
}.

(** ** The refinement *)

Lemma concat_pick {A} (L : list (list A)) i x :
  L !! i = Some x →
  ∃ r, concat L ≡ₚ x ++ r ∧ (∀ y, concat (<[i := y]> L) ≡ₚ y ++ r) ∧
    ∀ j z a, j ≠ i → L !! j = Some z → a ∈ z → a ∈ r.
Proof.
  intros Hi. pose proof (lookup_lt_Some _ _ _ Hi) as Hlt. exists (concat (take i L) ++ concat (drop (S i) L)).
  assert (∀ y, concat (<[i := y]> L) ≡ₚ y ++ concat (take i L) ++ concat (drop (S i) L)) as Hy.
  { intros y. rewrite insert_take_drop by done. rewrite concat_app. cbn [concat]. solve_Permutation. }
  split; [|split; [exact Hy|]].
  - rewrite <- (Hy x). by rewrite list_insert_id.
  - intros j z a Hj Hz Ha. rewrite !list_elem_of_In, in_app_iff, !in_concat in *.
    destruct (decide (j < i)%nat) as [Hlt'|Hge].
    + left. exists z. split; [|done]. apply list_elem_of_In, (list_elem_of_lookup_2 _ j). by rewrite lookup_take_lt.
    + right. exists z. split; [|done]. apply list_elem_of_In, (list_elem_of_lookup_2 _ (j - S i)).
      rewrite lookup_drop. by replace (S i + (j - S i))%nat with j by lia.
Qed.

Lemma thread_rel_agree (st st' : headers) t c :
  (∀ x, x ∈ th_slabs t ++ c → link_get st' x = link_get st x) → thread_rel st t c → thread_rel st' t c.
Proof.
  intros Ha. destruct t as [|b pc| |cursor]; try done.
  - intros [-> [Hne Hpc]]. split; [done|]. split; [done|]. specialize (Ha b ltac:(set_solver)).
    cbn [th_chain th_pc linked] in *. destruct pc; try rewrite Ha; done.
  - apply chain_agree. intros x Hx. apply Ha. by apply elem_of_app; right.
Qed.

Section refinement.
Context (slabs : list Z) (Hnd : NoDup slabs) (Hok : Forall ptr_ok slabs).

(** A thread changes, and with it headers of slabs in its hands or its heap's. *)
Lemma ab_rel_thread st top ths owned stack cs i t c st' top' owned' stack' t' c' (changed : list Z) :
  ab_rel slabs (mkAb st top ths owned) (mkAbSpec stack cs) → ths !! i = Some t → cs !! i = Some c →
  (∀ x, x ∉ changed → link_get st' x = link_get st x) → changed ⊆ th_slabs t ++ c ++ owned →
  chain st' top' stack' → thread_rel st' t' c' →
  stack' ++ (th_slabs t' ++ c') ++ owned' ≡ₚ stack ++ (th_slabs t ++ c) ++ owned →
  ab_rel slabs (mkAb st' top' (<[i := t']> ths) owned') (mkAbSpec stack' (<[i := c']> cs)).
Proof.
  intros [Hs Hlen Ht Hp] Hi Hc Hag Hch Hs' Ht' Hp'. cbn [ab_hdrs ab_top ab_threads ab_owned sp_stack sp_chains] in *.
  destruct (concat_pick (in_hand ths cs) i (th_slabs t ++ c)) as (r & Hr & Hy & Hin).
  { unfold in_hand. rewrite lookup_zip_with, Hi. cbn. by rewrite Hc. }
  split; cbn [ab_hdrs ab_top ab_threads ab_owned sp_stack sp_chains]; [done|by rewrite !length_insert| |].
  - intros j u d Hu Hd. destruct (decide (j = i)) as [->|Hne].
    { rewrite list_lookup_insert_eq in Hu by (by eapply lookup_lt_Some).
      rewrite list_lookup_insert_eq in Hd by (by eapply lookup_lt_Some). by simplify_eq. }
    rewrite list_lookup_insert_ne in Hu by done. rewrite list_lookup_insert_ne in Hd by done. apply (thread_rel_agree st); [|by eapply Ht].
    intros x Hx. apply Hag. intros Hxc%Hch.
    assert (x ∈ r) as Hxr.
    { apply (Hin j (th_slabs u ++ d) x Hne); [|done]. unfold in_hand. rewrite lookup_zip_with, Hu. cbn. by rewrite Hd. }
    assert (NoDup ((th_slabs t ++ c ++ owned) ++ r ++ stack)) as Hnd'.
    { rewrite <- Hp, Hr in Hnd. eapply NoDup_Permutation_proper; [|exact Hnd]. solve_Permutation. }
    apply NoDup_app in Hnd' as (_ & Hno & _). apply (Hno x Hxc). apply elem_of_app. by left.
  - unfold in_hand. rewrite <- insert_zip_with. fold (in_hand ths cs). rewrite Hy, <- Hp, Hr.
    rewrite <- !(app_assoc _ r), !app_assoc. 
    transitivity ((stack' ++ (th_slabs t' ++ c') ++ owned') ++ r); [|rewrite Hp']; solve_Permutation.
Qed.

(** What one thread holds, the list and the heaps' slabs are apart. *)
Lemma ab_rel_apart st top ths owned stack cs i t c :
  ab_rel slabs (mkAb st top ths owned) (mkAbSpec stack cs) → ths !! i = Some t → cs !! i = Some c →
  NoDup (stack ++ (th_slabs t ++ c) ++ owned) ∧ Forall ptr_ok (stack ++ (th_slabs t ++ c) ++ owned).
Proof.
  intros [_ _ _ Hp] Hi Hc. cbn [ab_threads ab_owned sp_stack sp_chains] in Hp.
  destruct (concat_pick (in_hand ths cs) i (th_slabs t ++ c)) as (r & Hr & _).
  { unfold in_hand. rewrite lookup_zip_with, Hi. cbn. by rewrite Hc. }
  assert (slabs ≡ₚ (stack ++ (th_slabs t ++ c) ++ owned) ++ r) as Hs by (rewrite <- Hp, Hr; solve_Permutation).
  rewrite Hs in Hnd. pose proof Hok as Hok'. rewrite Hs in Hok'.
  apply NoDup_app in Hnd as (? & _ & _). by apply Forall_app in Hok' as [? _].
Qed.

Lemma ab_rel_write st top ths owned a b h :
  ab_rel slabs (mkAb st top ths owned) a → b ∈ owned → ab_rel slabs (mkAb (<[b := h]> st) top ths owned) a.
Proof.
  intros [Hs Hlen Ht Hp] Hb. cbn [ab_hdrs ab_top ab_threads ab_owned] in *.
  assert (∀ x, x ∈ sp_stack a ++ concat (in_hand ths (sp_chains a)) → link_get (<[b := h]> st) x = link_get st x) as Hag.
  { intros x Hx. cbn. rewrite lookup_total_insert_ne; [done|]. intros <-.
    rewrite <- Hp, app_assoc in Hnd. apply NoDup_app in Hnd as (_ & Hno & _). by apply (Hno b Hx). }
  split; cbn [ab_hdrs ab_top ab_threads ab_owned]; try done.
  - eapply chain_agree; [|exact Hs]. intros x Hx. apply Hag, elem_of_app. by left.
  - intros i t c Hi Hc. apply (thread_rel_agree st); [|by eapply Ht]. intros x Hx. apply Hag, elem_of_app. right.
    destruct (concat_pick (in_hand ths (sp_chains a)) i (th_slabs t ++ c)) as (r & -> & _).
    + unfold in_hand. rewrite lookup_zip_with, Hi. cbn. by rewrite Hc.
    + apply elem_of_app. by left.
Qed.

Lemma set_agrees (st : headers) b v x : x ∉ [b] → link_get (link_set st b v) x = link_get st x.
Proof. intros Hx. apply link_get_set_ne. cbn. set_solver. Qed.

Lemma ab_access_ok st top ths owned a i b pc spurious pc' st' top' :
  ab_rel slabs (mkAb st top ths owned) a → ths !! i = Some (Abandoning b pc) →
  abandon_slab_step b spurious pc (st, top) = (pc', (st', top')) → pc' ≠ PushDone →
  ab_rel slabs (mkAb st' top' (<[i := Abandoning b pc']> ths) owned) a.
Proof.
  destruct a as [stack cs]. intros Hr Hi E Hpc. pose proof Hr as [Hs Hlen Ht _]. cbn in Hs, Hlen, Ht.
  destruct (lookup_lt_is_Some_2 cs i) as [c Hc]; [rewrite <- Hlen; by eapply lookup_lt_Some|].
  destruct (Ht i _ c Hi Hc) as [-> [Hne Hok']]. cbn [th_pc th_chain linked] in Hok'.
  rewrite <- (list_insert_id cs i []) by done.
  destruct (ab_rel_apart _ _ _ _ _ _ _ _ _ Hr Hi Hc) as [Hnd' _]. cbn in Hnd'.
  unfold abandon_slab_step, TreiberStack_push_step in E. destruct pc as [|h|h|]; [| | |done].
  - injection E as <- <- <-. eapply (ab_rel_thread _ _ _ _ _ _ _ _ _ _ _ _ _ _ _ []); try done; [set_solver|].
    split; [done|]. split; [done|]. cbn. split; [by eapply chain_uint|by eexists].
  - injection E as <- <- <-. destruct Hok' as [Hu _].
    eapply (ab_rel_thread _ _ _ _ _ _ _ _ _ _ _ _ _ _ _ [b]); try done;
      [intros x; apply set_agrees|set_solver|..].
    + apply (chain_agree st); [|done]. intros x Hx. apply set_agrees. intros ->%list_elem_of_singleton.
      apply NoDup_app in Hnd' as (_ & Hno & _). apply (Hno b Hx). by left.
    + split; [done|]. split; [done|]. cbn [th_pc th_chain linked]. split; [done|]. exact (link_get_set_eq st b h Hu).
  - destruct ((top =? h) && negb spurious); injection E as <- <- <-; [done|].
    eapply (ab_rel_thread _ _ _ _ _ _ _ _ _ _ _ _ _ _ _ []); try done; [set_solver|].
    split; [done|]. split; [done|]. cbn. split; [by eapply chain_uint|by eexists].
Qed.

Lemma ab_sim_step s e s' a :
  ab_rel slabs s a → ab_step s e s' →
  ∃ a', match e with None => a' = a | Some ev => ab_spec_step a ev a' end ∧ ab_rel slabs s' a'.
Proof.
  destruct a as [stack cs]. intros Hr Hstep. destruct s as [st0 top0 ths0 owned0].
  pose proof Hr as [Hs Hlen Ht _]. cbn in Hs, Hlen, Ht.
  assert (∀ i t, ths0 !! i = Some t → ∃ c, cs !! i = Some c ∧ thread_rel st0 t c) as Hth.
  { intros i t Hi. destruct (lookup_lt_is_Some_2 cs i) as [c Hc]; [rewrite <- Hlen; by eapply lookup_lt_Some|].
    exists c. split; [done|]. by eapply Ht. }
  inversion Hstep as [st top ths owned owned' i b Hi Ho|st top ths owned i b pc sp pc' st' top' Hi E Hpc
    |st top ths owned i b pc sp st' top' Hi E|st ths owned i Hi|st top ths owned i Hi Htop|st top ths owned i Hi
    |st top ths owned i cur Hi Hcur|st top ths owned i Hi|st top ths owned b h Hb]; subst; clear Hstep.
  - destruct (Hth i _ Hi) as (c & Hc & ->). exists (mkAbSpec stack cs). split; [done|].
    rewrite <- (list_insert_id cs i []) by done.
    eapply (ab_rel_thread _ _ _ _ _ _ _ _ _ _ _ _ _ _ _ []); try done; [set_solver| |cbn; by rewrite Ho].
    split; [done|]. split; [done|]. cbn. by eexists.
  - eexists. split; [done|]. by eapply ab_access_ok.
  - destruct (Hth i _ Hi) as (c & Hc & -> & _ & Hpc).
    destruct (ab_rel_apart _ _ _ _ _ _ _ _ _ Hr Hi Hc) as [_ Hptr].
    unfold abandon_slab_step, TreiberStack_push_step in E. destruct pc as [|h|h|]; try done.
    destruct (Z.eqb_spec top0 h) as [->|]; [|done]. destruct sp; [done|]. injection E as <- <-.
    exists (mkAbSpec (b :: stack) cs). split; [constructor|]. rewrite <- (list_insert_id cs i []) by done.
    destruct Hpc as [_ Hl]. cbn [th_chain linked] in Hl.
    eapply (ab_rel_thread _ _ _ _ _ _ _ _ _ _ _ _ _ _ _ []); try done; [set_solver| |cbn; solve_Permutation].
    cbn [chain]. split; [done|]. split; [|by rewrite Hl]. rewrite Forall_forall in Hptr. apply Hptr. set_solver.
  - destruct (Hth i _ Hi) as (c & Hc & ->). destruct stack as [|x stack]; [|destruct Hs as (<- & Hx & _); unfold ptr_ok in Hx; lia].
    exists (mkAbSpec [] (<[i := []]> cs)). split; [by constructor|]. by rewrite list_insert_id.
  - destruct (Hth i _ Hi) as (c & Hc & ->). exists (mkAbSpec stack cs). split; [done|].
    rewrite <- (list_insert_id cs i []) by done.
    eapply (ab_rel_thread _ _ _ _ _ _ _ _ _ _ _ _ _ _ _ []); try done. set_solver.
  - destruct (Hth i _ Hi) as (c & Hc & ->). exists (mkAbSpec [] (<[i := stack]> cs)). split; [by constructor|].
    eapply (ab_rel_thread _ _ _ _ _ _ _ _ _ _ _ _ _ _ _ []); try done. set_solver.
  - destruct (Hth i _ Hi) as (c & Hc & Hch). destruct (chain_nonnull _ _ _ Hch Hcur) as (c' & -> & Hch').
    destruct (ab_rel_apart _ _ _ _ _ _ _ _ _ Hr Hi Hc) as [Hnd' _]. cbn [th_slabs app] in Hnd'.
    apply NoDup_app in Hnd' as (_ & Hno & [Hnot _]%NoDup_cons).
    exists (mkAbSpec stack (<[i := c']> cs)). split; [by constructor|].
    eapply (ab_rel_thread _ _ _ _ _ _ _ _ _ _ _ _ _ _ _ [cur]); try done;
      [intros x; apply set_agrees|set_solver|..|cbn; solve_Permutation].
    + apply (chain_agree st0); [|done]. intros x Hx. apply set_agrees. intros ->%list_elem_of_singleton.
      apply (Hno cur Hx). by left.
    + apply (chain_agree st0); [|done]. intros x Hx. apply set_agrees. intros ->%list_elem_of_singleton.
      apply Hnot. apply elem_of_app. by left.
  - destruct (Hth i _ Hi) as (c & Hc & Hch). destruct c as [|x c]; [|destruct Hch as (<- & Hx & _); unfold ptr_ok in Hx; lia].
    exists (mkAbSpec stack cs). split; [done|]. rewrite <- (list_insert_id cs i []) by done.
    eapply (ab_rel_thread _ _ _ _ _ _ _ _ _ _ _ _ _ _ _ []); try done. set_solver.
  - eexists. split; [done|]. by apply ab_rel_write.
Qed.

Lemma ab_rel_init st n : ab_rel slabs (ab_init st n slabs) (mkAbSpec [] (replicate n [])).
Proof.
  split; cbn [ab_init ab_hdrs ab_top ab_threads ab_owned sp_stack sp_chains]; [done|by rewrite !length_replicate| |].
  - by intros i t c [-> _]%lookup_replicate [-> _]%lookup_replicate.
  - induction n as [|n IH]; [done|exact IH].
Qed.
End refinement.

(** The call of the heap model, [PagePool_abandon_slab], is the loop run without
    interruption on the headers and the head of the class. *)
Lemma abandon_slab_uninterrupted {W} `{PagePort W} (w w' : world W) b h :
  ls_hdrs (w_slabs w) !! b = Some h → PagePool_abandon_slab w b = Ok w' →
  ∃ top, w_abandoned w !! Z.to_nat (size_class_index h) = Some top ∧
    TreiberStack_push (ls_hdrs (w_slabs w), top) b = (ls_hdrs (w_slabs w'), b) ∧
    w_abandoned w' = <[Z.to_nat (size_class_index h) := b]> (w_abandoned w).
Proof.
  intros Hh E. unfold PagePool_abandon_slab, get_header in E. rewrite Hh in E. cbn [res_of_option mbind res_bind] in E.
  run_inv. apply arr_get_inv in H0 as [_ Ht]. eexists. split; [exact Ht|].
  unfold arr_set in H1. run_inv. split; [|done].
  unfold TreiberStack_push, TreiberStack_push_chain. cbn. rewrite Z.eqb_refl. cbn. by rewrite (lookup_total_correct _ _ _ Hh).
Qed.

(** C32. Under every interleaving of the accesses of [abandon_slab] (spurious CAS
    failures included), [adopt_all] and the walk of [try_adopt] by any number of
    threads, with owners writing to the headers of their slabs at any time, the
    abandoned list of a class behaves as an atomic stack: a push adds one slab,
    a take gets the whole list and walks exactly it.  Every slab is always in
    exactly one place. *)
Theorem abandon_refines (slabs : list Z) (st : headers) (n : nat) es s :
  NoDup slabs → Forall ptr_ok slabs → run ab_step (ab_init st n slabs) es s →
  ∃ a, run ab_spec_step (mkAbSpec [] (replicate n [])) (omap id es) a ∧
    chain (ab_hdrs s) (ab_top s) (sp_stack a) ∧
    sp_stack a ++ concat (in_hand (ab_threads s) (sp_chains a)) ++ ab_owned s ≡ₚ slabs ∧
    ∀ i cursor, ab_threads s !! i = Some (Walking cursor) →
      ∃ c, sp_chains a !! i = Some c ∧ chain (ab_hdrs s) cursor c.
Proof.
  intros Hnd Hok Hrun.
  destruct (run_weak_simulation ab_step ab_spec_step _ (ab_sim_step slabs Hnd Hok) _ _ _ _ (ab_rel_init slabs st n) Hrun)
    as (a & Hr & [Hs Hlen Ht Hp]). exists a. do 3 (split; [done|]).
  intros i cursor Hi. destruct (lookup_lt_is_Some_2 (sp_chains a) i) as [c Hc]; [rewrite <- Hlen; by eapply lookup_lt_Some|].
  exists c. split; [done|]. exact (Ht i _ c Hi Hc).
Qed.

(** Two threads abandon a slab each; the first sees a stale head and its CAS
    fails once.  Then the second takes the list and its first slab. *)
Definition ab_demo_events : list (option ab_event) :=
  [None; None; None; None; None; Some (EvAbandon 131072); None; None; None; Some (EvAbandon 65536);
   None; Some (EvAdopt 1); Some (EvTake 1 65536)].

Definition ab_demo_headers : headers :=
  link_set (link_set (link_set (link_set ∅ 131072 0) 65536 0) 65536 131072) 65536 0.

Definition ab_demo : ab_sys := mkAb ab_demo_headers 0 [AbIdle; Walking 131072] [65536].

Lemma ab_demo_run : run ab_step (ab_init ∅ 2 [65536; 131072]) ab_demo_events ab_demo.
Proof.
  eapply run_cons; [by apply (ab_start _ _ _ _ [131072] 0 65536)|].
  eapply run_cons; [by eapply (ab_access _ _ _ _ 0 65536 _ false)|].
  eapply run_cons; [by apply (ab_start _ _ _ _ [] 1 131072)|].
  do 2 (eapply run_cons; [by eapply (ab_access _ _ _ _ 1 131072 _ false)|]).
  eapply run_cons; [by eapply (ab_abandoned _ _ _ _ 1 131072 _ false)|].
  do 3 (eapply run_cons; [by eapply (ab_access _ _ _ _ 0 65536 _ false)|]).
  eapply run_cons; [by eapply (ab_abandoned _ _ _ _ 0 65536 _ false)|].
  eapply run_cons; [by apply (ab_adopt_seen _ _ _ _ 1)|].
  eapply run_cons; [by apply (ab_adopt_swap _ _ _ _ 1)|].
  eapply run_cons; [by apply (ab_take _ _ _ _ 1)|].
  apply run_nil.
Qed.

Lemma abandon_refines_witness :
  ∃ a, run ab_spec_step (mkAbSpec [] [[]; []])
      [EvAbandon 131072; EvAbandon 65536; EvAdopt 1; EvTake 1 65536] a ∧
    chain ab_demo_headers 0 (sp_stack a) ∧
    sp_stack a ++ concat (in_hand [AbIdle; Walking 131072] (sp_chains a)) ++ [65536] ≡ₚ [65536; 131072] ∧
    ∀ i cursor, [AbIdle; Walking 131072] !! i = Some (Walking cursor) →
      ∃ c, sp_chains a !! i = Some c ∧ chain ab_demo_headers cursor c.
Proof.
  apply (abandon_refines [65536; 131072] ∅ 2 ab_demo_events ab_demo).
  - apply (bool_decide_unpack _). by vm_compute.
  - repeat constructor; unfold ptr_ok; lia.
  - exact ab_demo_run.
Defined.
