(* ===== verification/HeapInv.v ===== *)
(** * Invariant of the heaps

    [winv held larges w g] says what a [world] means: [held] are the slots in
    the hands of the program, with their classes, [larges] its large blocks.
    The ghost state [g] places every slab: active in a bin, on a queue, on an
    abandoned list, or loose in the hands of the running operation.  The lemmas
    say what the slab, list, cache and abandon primitives do to that picture;
    all of them leave the contents of the program's blocks alone. *)

From stdpp Require Import functions base numbers list gmap.
From Stdlib Require Import ZArith Lia.
From S2P Require Import Prelude SizeClass LinkMem FreeList Treiber Slab SlabSpec SlabList Sys Metrics PageList PoolSeq SlabCache PagePort Heap.

Local Open Scope Z_scope.
Local Open Scope clm_scope.
Arguments SLAB_SIZE : simpl never.
Arguments class_size : simpl never.
Arguments Z.div : simpl never.

(** ** What slab operations write *)

(** The fields the slab operations keep. *)
Definition same_slab (h h' : SlabHeader) : Prop :=
  size_class_index h' = size_class_index h ∧ heap_id h' = heap_id h ∧
  next_link h' = next_link h ∧ prev_link h' = prev_link h.

Lemma slab_alloc_same b m h r h' : Slab_alloc b m h = (r, h') → same_slab h h'.
Proof.
  unfold Slab_alloc. destruct (SlotFreeList_pop m (local h)) as [[p|] fl]; [by intros [= _ <-]|].
  case_match; by intros [= _ <-].
Qed.

Lemma slab_dealloc_local_same m h a m' h' :
  Slab_dealloc_local m h a = (m', h') → same_slab h h' ∧ only_links [a] m m'.
Proof.
  unfold Slab_dealloc_local, SlotFreeList_push. intros [= <- <-].
  split; [done|apply only_links_write].
Qed.

Lemma slab_dealloc_remote_same m h a m' h' :
  SlabRef_dealloc_remote m h a = (m', h') → same_slab h h' ∧ only_links [a] m m'.
Proof.
  unfold SlabRef_dealloc_remote, TreiberStack_push, TreiberStack_push_chain. cbn.
  rewrite Z.eqb_refl. cbn. intros [= <- <-]. split; [done|apply only_links_write].
Qed.

(** The loop of [drain_remote] writes only the slots it moves. *)
Lemma drain_loop_links fuel (P : Z → Prop) : ∀ m fl count cursor rem r,
  link_region mem P → Forall P rem → NoDup rem → chain m cursor rem →
  drain_loop fuel m fl count cursor = Ok r → only_links rem m (r.1.1).
Proof.
  intros m fl count cursor rem r HP. revert m fl count cursor rem.
  induction fuel as [|fuel IH]; intros m fl count cursor rem HF Hnd Hc Hd; cbn [drain_loop] in Hd;
    (destruct (Z.eqb_spec cursor 0) as [->|Hne]; [by injection Hd as <-|]); [done|].
  destruct (chain_nonnull _ _ _ Hc Hne) as (rem' & -> & Hc').
  apply Forall_cons in HF as [HPc HF]. apply NoDup_cons in Hnd as [Hnot Hnd].
  destruct (SlotFreeList_push m fl cursor) as [m1 fl1] eqn:Hp.
  assert (Forall (link_sep cursor) rem') as Hs by by apply (link_region_sep P).
  unfold SlotFreeList_push in Hp. simplify_eq.
  apply (IH _ _ _ _ rem') in Hd; [|done|done|by apply chain_write_next].
  apply (only_links_trans _ _ (write_next m cursor (sfl_head fl))).
  - eapply only_links_mono; [|apply only_links_write]. set_solver.
  - eapply only_links_mono; [|exact Hd]. set_solver.
Qed.

Lemma slab_drain_same b m h loc rem lv :
  slab_inv b m h loc rem lv →
  ∃ m' h' n, Slab_drain_remote m h = Ok (m', h', n) ∧ slab_inv b m' h' (rev rem ++ loc) [] lv ∧
    same_slab h h' ∧ only_links rem m m'.
Proof.
  intros Hi. destruct (slab_drain_ok b m h loc rem lv Hi) as (m' & h' & Hd & Hi').
  do 3 eexists. split; [exact Hd|]. split; [exact Hi'|]. unfold Slab_drain_remote in Hd.
  cbn [TreiberStack_swap_drain] in Hd. bind_inv Hd as [[m1 fl] c] E. simplify_eq. split; [done|].
  pose proof (static_geometry h (si_static _ _ _ _ _ _ Hi)) as Hg.
  apply (drain_loop_links _ (.∈ carved_slots b h) _ _ _ _ rem) in E; [exact E|..].
  - by apply carved_region.
  - apply Forall_forall. intros x Hx. rewrite <- (si_parts _ _ _ _ _ _ Hi). set_solver.
  - pose proof (carved_NoDup b h Hg) as Hnd. rewrite <- (si_parts _ _ _ _ _ _ Hi) in Hnd.
    by rewrite !NoDup_app in Hnd; destruct Hnd as (_ & _ & ? & _).
  - apply Hi.
Qed.

(** List links, the identity of the owner and the order of live slots do not matter to a slab. *)
Lemma slab_inv_header b m h h' loc rem lv :
  slab_inv b m h loc rem lv →
  (size_class_index h', slot_size h', slot_count h', slots_offset h', bump_cursor h',
   bump_remaining h', local h', remote h') =
  (size_class_index h, slot_size h, slot_count h, slots_offset h, bump_cursor h,
   bump_remaining h, local h, remote h) →
  slab_inv b m h' loc rem lv.
Proof.
  intros [Hb Hst Hbm Hcu Hl Hr Hp] [= E1 E2 E3 E4 E5 E6 E7 E8].
  unfold slab_static, carved_slots, slot_addr, carved in *.
  split; unfold slab_static, carved_slots, slot_addr, carved;
    rewrite ?E1, ?E2, ?E3, ?E4, ?E5, ?E6, ?E7, ?E8; done.
Qed.

Lemma slab_inv_erase b m h h' loc rem lv :
  erase_links h' = erase_links h → slab_inv b m h loc rem lv → slab_inv b m h' loc rem lv.
Proof.
  destruct h, h'. unfold erase_links, Slab_set_prev_link, Slab_set_next_link. cbn.
  intros [= -> -> -> -> -> -> -> -> ->] Hi. by eapply slab_inv_header.
Qed.

Lemma erase_fields h h' :
  erase_links h' = erase_links h →
  size_class_index h' = size_class_index h ∧ heap_id h' = heap_id h ∧
  Slab_free_count h' = Slab_free_count h.
Proof.
  destruct h, h'. unfold erase_links, Slab_set_prev_link, Slab_set_next_link. cbn.
  by intros [= -> -> -> -> -> -> -> -> ->].
Qed.

(** Where the slots of a slab are. *)
Lemma slab_slot_range b m h loc rem lv a :
  slab_inv b m h loc rem lv → a ∈ loc ++ rem ++ lv →
  b + 72 ≤ a ∧ a + slot_size h ≤ b + 65536 ∧ 8 ≤ slot_size h.
Proof.
  intros Hi Ha. pose proof (static_geometry h (si_static _ _ _ _ _ _ Hi)) as Hg.
  rewrite (si_parts _ _ _ _ _ _ Hi) in Ha. apply elem_of_carved in Ha as (i & Hr & ->).
  pose proof (si_bump _ _ _ _ _ _ Hi). unfold carved in Hr.
  pose proof (slot_addr_range b h i Hg ltac:(lia)). pose proof (geo_size h Hg). lia.
Qed.

(** Two slots of a slab do not overlap. *)
Lemma slab_slot_disjoint b m h loc rem lv a c rest x :
  slab_inv b m h loc rem lv → a :: rest ≡ₚ loc ++ rem ++ lv → c ∈ rest →
  a ≤ x < a + slot_size h → ¬ c ≤ x < c + slot_size h.
Proof.
  intros Hi Hp Hc Hx Hx'. pose proof (static_geometry h (si_static _ _ _ _ _ _ Hi)) as Hg.
  rewrite (si_parts _ _ _ _ _ _ Hi) in Hp. pose proof (carved_NoDup b h Hg) as Hnd.
  rewrite <- Hp in Hnd. apply NoDup_cons in Hnd as [Hnot _].
  assert (a ∈ carved_slots b h) as (i & _ & ->)%elem_of_carved by (rewrite <- Hp; set_solver).
  assert (c ∈ carved_slots b h) as (j & _ & ->)%elem_of_carved by (rewrite <- Hp; set_solver).
  destruct (decide (i = j)) as [->|Hne]; [done|].
  pose proof (slot_addr_inj_sep b h i j Hg Hne). pose proof (geo_size h Hg). lia.
Qed.

(** ** The invariant *)

Inductive place :=
  | Loose
  | Active (heap idx : Z)
  | Queued (c : HeadCell)
  | Abandoned (idx : Z).

#[export] Instance place_eq_dec : EqDecision place.
Proof. solve_decision. Defined.

(** [g_alive] are the running heaps, all ids being below [g_next]; [g_spare]
    pages and the slab [g_exempt] are in the hands of the running operation. *)
Record ghost := mkGhost {
  g_alive : gset Z;
  g_next : Z;
  g_place : gmap Z place;
  g_lists : HeadCell → list Z;
  g_aband : Z → list Z;
  g_cached : list Z;
  g_spare : list Z;
  g_exempt : option Z;
}.

Definition set_places (g : ghost) (pl : gmap Z place) : ghost :=
  mkGhost (g_alive g) (g_next g) pl (g_lists g) (g_aband g) (g_cached g) (g_spare g) (g_exempt g).
Definition set_lists (g : ghost) (L : HeadCell → list Z) : ghost :=
  mkGhost (g_alive g) (g_next g) (g_place g) L (g_aband g) (g_cached g) (g_spare g) (g_exempt g).
Definition set_aband (g : ghost) (A : Z → list Z) : ghost :=
  mkGhost (g_alive g) (g_next g) (g_place g) (g_lists g) A (g_cached g) (g_spare g) (g_exempt g).
Definition set_pages (g : ghost) (cached spare : list Z) : ghost :=
  mkGhost (g_alive g) (g_next g) (g_place g) (g_lists g) (g_aband g) cached spare (g_exempt g).
Definition set_exempt (g : ghost) (ex : option Z) : ghost :=
  mkGhost (g_alive g) (g_next g) (g_place g) (g_lists g) (g_aband g) (g_cached g) (g_spare g) ex.
Definition put_place (g : ghost) (b : Z) (p : place) : ghost :=
  set_places g (<[b := p]> (g_place g)).

(** A slot in the hands of the program, with its class, and the block it is. *)
Abbreviation slot := (Z * Z)%type.

Definition slot_block (s : slot) : block := (fst s, mkLayout (class_size (snd s)) 1).

Definition user_blocks (held : list slot) (larges : list block) : list block :=
  (slot_block <$> held) ++ larges.

(** The live slots of the slab at [b]. *)
Definition live (b : Z) (held : list slot) : list Z :=
  fst <$> filter (λ s, SlabHeader_from_ptr (fst s) = b) held.

(** The slabs on a queue: exhausted ones on the full queue, others on the partial one. *)
Definition kind_ok (k : list_kind) (h : SlabHeader) : Prop :=
  match k with FullList => Slab_free_count h = 0 | PartialList => 0 < Slab_free_count h end.

Definition place_ok (alive : gset Z) (ex : option Z) (b : Z) (h : SlabHeader) (p : place) : Prop :=
  match p with
  | Loose => True
  | Active id idx => heap_id h = id ∧ size_class_index h = idx
  | Queued c =>
      heap_id h = hc_heap c ∧ size_class_index h = hc_class c ∧ (ex = Some b ∨ kind_ok (hc_kind c) h)
  | Abandoned idx => size_class_index h = idx ∧ heap_id h ∉ alive
  end.

(** The abandoned list from [top]: slabs linked through their headers. *)
Fixpoint hchain (st : lstore) (top : option Z) (l : list Z) : Prop :=
  match l with
  | [] => top = None
  | b :: l => top = Some b ∧ ∃ h, ls_hdrs st !! b = Some h ∧ hchain st (next_link h) l
  end.

Section winv.
Context {W : Type} `{PagePortLaws W}.
Implicit Types (w : world W) (g : ghost) (held : list slot) (larges : list block).

Definition slab_pages w : list Z := elements (dom (ls_hdrs (w_slabs w))).

Record winv held larges w g : Prop := {
  wi_dom b : is_Some (ls_hdrs (w_slabs w) !! b) ↔ is_Some (g_place g !! b);
  wi_slab b h : ls_hdrs (w_slabs w) !! b = Some h →
    heap_id h < g_next g ∧ ∃ loc rem, slab_inv b (w_mem w) h loc rem (live b held);
  wi_held s : s ∈ held →
    ∃ h, ls_hdrs (w_slabs w) !! SlabHeader_from_ptr (fst s) = Some h ∧ size_class_index h = snd s;
  wi_place b h p : ls_hdrs (w_slabs w) !! b = Some h → g_place g !! b = Some p →
    place_ok (g_alive g) (g_exempt g) b h p;
  wi_lists : lists_ok (w_slabs w) (g_lists g);
  wi_queued c b : b ∈ g_lists g c ↔ g_place g !! b = Some (Queued c);
  wi_aband_len : Z.of_nat (length (w_abandoned w)) = NUM_CLASSES;
  wi_aband (i : nat) top : w_abandoned w !! i = Some top →
    hchain (w_slabs w) (nonnull top) (g_aband g (Z.of_nat i)) ∧ NoDup (g_aband g (Z.of_nat i));
  wi_aband_place idx b : b ∈ g_aband g idx ↔ g_place g !! b = Some (Abandoned idx);
  wi_cache : chain (w_mem w) (w_cache w) (g_cached g);
  wi_cache_len : w_cache_len w = Z.of_nat (length (g_cached g)) ∧ w_cache_len w ≤ SLAB_CACHE_MAX;
  wi_pool : pp_ok (w_pool w) (slab_pages w ++ g_cached g ++ g_spare g) larges;
}.

(** ** Pages *)

Lemma elem_of_slab_pages w b : b ∈ slab_pages w ↔ is_Some (ls_hdrs (w_slabs w) !! b).
Proof. unfold slab_pages. by rewrite elem_of_elements, elem_of_dom. Qed.

Lemma page_blocks_NoDup pages larges : blocks_disjoint (handed_out pages larges) → NoDup pages.
Proof.
  intros [Hd _]%pairwise_app. induction pages as [|p pages IH]; [constructor|].
  destruct Hd as [Hp Hd]. apply NoDup_cons. split; [|by apply IH].
  intros Hin. rewrite Forall_fmap, Forall_forall in Hp. apply (Hp p Hin p); unfold in_block; cbn;
    change SLAB_SIZE with 65536; lia.
Qed.

Section facts.
Context held larges w g (Hw : winv held larges w g).

Lemma winv_page_ok b : b ∈ slab_pages w ++ g_cached g ++ g_spare g → slab_base_ok b.
Proof.
  intros Hb. pose proof (wi_pool _ _ _ _ Hw) as (Hok & _)%pp_ok_blocks.
  rewrite Forall_forall in Hok. by apply Hok.
Qed.

Lemma winv_pages_NoDup : NoDup (slab_pages w ++ g_cached g ++ g_spare g).
Proof.
  pose proof (wi_pool _ _ _ _ Hw) as (_ & _ & Hd)%pp_ok_blocks. by eapply page_blocks_NoDup.
Qed.

Lemma winv_page_large b x l :
  b ∈ slab_pages w ++ g_cached g ++ g_spare g → b ≤ x < b + 65536 → l ∈ larges → ¬ in_block l x.
Proof.
  intros Hb Hx Hl. pose proof (wi_pool _ _ _ _ Hw) as (_ & _ & Hd)%pp_ok_blocks.
  apply pairwise_app in Hd as (_ & _ & Hd). apply (Hd (page_block b) l); [|done|exact Hx].
  by apply list_elem_of_fmap_2.
Qed.
End facts.

(** Distinct pages do not overlap. *)
Lemma pages_apart a b x y :
  slab_base_ok a → slab_base_ok b → a ≠ b → a ≤ x < a + 65536 → b ≤ y < b + 65536 → x ≠ y.
Proof.
  intros ([i ->] & _) ([j ->] & _) Hne. change SLAB_SIZE with 65536 in *. intros ?? ->. apply Hne.
  assert (i = j) by lia. by subst.
Qed.

(** ** Live slots *)

Lemma elem_of_live b held a :
  a ∈ live b held ↔ ∃ s, s ∈ held ∧ fst s = a ∧ SlabHeader_from_ptr a = b.
Proof.
  unfold live. rewrite list_elem_of_fmap. setoid_rewrite list_elem_of_filter.
  split; [intros (s & -> & <- & ?)|intros (s & ? & <- & ?)]; exists s; auto.
Qed.

Lemma live_perm b held held' : held ≡ₚ held' → live b held ≡ₚ live b held'.
Proof. intros Hp. unfold live. by rewrite Hp. Qed.

Lemma live_cons_eq b s held : SlabHeader_from_ptr (fst s) = b → live b (s :: held) = fst s :: live b held.
Proof. intros Hs. unfold live. by rewrite filter_cons_True. Qed.

Lemma live_cons_ne b s held : SlabHeader_from_ptr (fst s) ≠ b → live b (s :: held) = live b held.
Proof. intros Hs. unfold live. by rewrite filter_cons_False. Qed.

(** ** The program's blocks *)

Lemma held_slab held larges w g s :
  winv held larges w g → s ∈ held →
  ∃ h loc rem, ls_hdrs (w_slabs w) !! SlabHeader_from_ptr (fst s) = Some h ∧
    slab_inv (SlabHeader_from_ptr (fst s)) (w_mem w) h loc rem (live (SlabHeader_from_ptr (fst s)) held) ∧
    slot_size h = class_size (snd s) ∧
    SlabHeader_from_ptr (fst s) + 72 ≤ fst s ∧
    fst s + class_size (snd s) ≤ SlabHeader_from_ptr (fst s) + 65536.
Proof.
  intros Hw Hs. destruct (wi_held _ _ _ _ Hw s Hs) as (h & Hh & Hcl).
  destruct (wi_slab _ _ _ _ Hw _ h Hh) as (_ & loc & rem & Hi). exists h, loc, rem.
  assert (slot_size h = class_size (snd s)) as Hsz
    by (destruct (si_static _ _ _ _ _ _ Hi) as (_ & -> & _); by rewrite Hcl).
  pose proof (slab_slot_range _ _ _ _ _ _ (fst s) Hi) as Hr.
  assert (fst s ∈ live (SlabHeader_from_ptr (fst s)) held) by (apply elem_of_live; exists s; auto).
  specialize (Hr ltac:(rewrite !elem_of_app; auto)). split_and!; [done|done|done|lia|lia].
Qed.

Lemma held_disjoint held larges w g s s' rest x :
  winv held larges w g → held ≡ₚ s :: s' :: rest → in_block (slot_block s) x →
  ¬ in_block (slot_block s') x.
Proof.
  intros Hw Hp Hx Hx'. unfold in_block, slot_block in *. cbn [fst snd size] in *.
  destruct (held_slab held larges w g s Hw) as (h & loc & rem & Hh & Hi & Hsz & Hlo & Hhi);
    [rewrite Hp; set_solver|].
  destruct (held_slab held larges w g s' Hw) as (h' & loc' & rem' & Hh' & Hi' & Hsz' & Hlo' & Hhi');
    [rewrite Hp; set_solver|].
  destruct (decide (SlabHeader_from_ptr (fst s') = SlabHeader_from_ptr (fst s))) as [Heq|Hne].
  - rewrite Heq in *. rewrite Hh in Hh'. injection Hh' as <-.
    pose proof (live_perm (SlabHeader_from_ptr (fst s)) _ _ Hp) as Hl.
    rewrite live_cons_eq in Hl by done. rewrite (live_cons_eq _ s') in Hl by done.
    eapply (slab_slot_disjoint _ _ _ _ _ _ (fst s) (fst s')
      (loc ++ rem ++ fst s' :: live (SlabHeader_from_ptr (fst s)) rest) x Hi); [|set_solver|lia|lia].
    rewrite Hl. perm.
  - eapply (pages_apart (SlabHeader_from_ptr (fst s')) (SlabHeader_from_ptr (fst s)) x x);
      [apply Hi'|apply Hi|done|lia|lia|done].
Qed.

Lemma user_disjoint held larges w g : winv held larges w g → blocks_disjoint (user_blocks held larges).
Proof.
  intros Hw. unfold blocks_disjoint, user_blocks. apply pairwise_app. split_and!.
  - assert (∀ l pre, held = pre ++ l →
      pairwise (λ b b', ∀ x, in_block b x → ¬ in_block b' x) (slot_block <$> l)) as Hl;
      [|by apply (Hl held [])].
    induction l as [|s l IH]; intros pre Hpre; [done|]. split; [|apply (IH (pre ++ [s])); by rewrite <- app_assoc].
    apply Forall_forall. intros b (s' & -> & Hs')%list_elem_of_fmap x. apply list_elem_of_split in Hs' as (l1 & l2 & ->).
    intros Hx. apply (held_disjoint held larges w g s s' (pre ++ l1 ++ l2) x Hw); [|exact Hx]. by rewrite Hpre, <- !Permutation_middle.
  - pose proof (wi_pool _ _ _ _ Hw) as (_ & _ & Hd)%pp_ok_blocks. by apply pairwise_app in Hd as (_ & ? & _).
  - intros b b' (s & -> & Hs)%list_elem_of_fmap Hb' x Hx.
    destruct (held_slab held larges w g s Hw Hs) as (h & loc & rem & Hh & Hi & _ & Hlo & Hhi).
    unfold in_block, slot_block in Hx. cbn [fst snd size] in Hx.
    eapply (winv_page_large _ _ _ _ Hw (SlabHeader_from_ptr (fst s)) x); [|lia|done].
    rewrite elem_of_app, elem_of_slab_pages. left. by eexists.
Qed.

Lemma winv_perm held held' larges larges' w g :
  held ≡ₚ held' → larges ≡ₚ larges' → winv held larges w g → winv held' larges' w g.
Proof.
  intros Hh Hl [Hdom Hslab Hheld Hplace Hls Hq Hal Ha Hap Hc Hcl Hp]. split; try done.
  - intros b h Hb. destruct (Hslab b h Hb) as (Hid & loc & rem & Hi). split; [done|]. exists loc, rem.
    eapply slab_inv_live_perm; [|exact Hi]. by apply live_perm.
  - intros s Hs. apply Hheld. by rewrite Hh.
  - eapply pp_ok_perm; [reflexivity|exact Hl|exact Hp].
Qed.

(** The program writes into its own blocks. *)
Lemma winv_user_write held larges w g m :
  winv held larges w g →
  (∀ x, (∀ b, b ∈ user_blocks held larges → ¬ in_block b x) → read_byte m x = read_byte (w_mem w) x) →
  winv held larges (set_mem w m) g.
Proof.
  intros Hw Hx. pose proof Hw as [Hdom Hslab Hheld Hplace Hls Hq Hal Ha Hap Hc Hcl Hp].
  assert (w_mem (set_mem w m) = m) as Hm by apply pp_mem_set.
  assert (∀ a x, a ∈ slab_pages w ++ g_cached g ++ g_spare g → a ≤ x < a + 65536 →
    (∀ s, s ∈ held → ¬ in_block (slot_block s) x) → read_byte m x = read_byte (w_mem w) x) as Hpg.
  { intros a x Hin Hr Hno. apply Hx. intros b [(s & -> & Hs)%list_elem_of_fmap|Hb]%elem_of_app.
    - by apply Hno.
    - intros Hbx. by eapply (winv_page_large _ _ _ _ Hw a x). }
  split; rewrite ?Hm; try done.
  - intros b h Hb. destruct (Hslab b h Hb) as (Hid & loc & rem & Hi). split; [done|].
    exists loc, rem. eapply slab_inv_agree; [exact Hi|]. intros x Hlv Hr.
    apply (Hpg b); [|lia|].
    + rewrite elem_of_app, elem_of_slab_pages. left. by eexists.
    + intros s Hs Hsx. destruct (held_slab held larges w g s Hw Hs) as (h' & l' & r' & Hh' & Hi' & Hsz & Hlo & Hhi).
      unfold in_block, slot_block in Hsx. cbn [fst snd size] in Hsx.
      assert (SlabHeader_from_ptr (fst s) = b) as Hsb.
      { apply (from_ptr_base b); [apply Hi|]. change SLAB_SIZE with 65536.
        destruct (decide (SlabHeader_from_ptr (fst s) = b)) as [<-|Hne]; [lia|]. exfalso.
        eapply (pages_apart (SlabHeader_from_ptr (fst s)) b x x); [apply Hi'|apply Hi|done|lia|lia|done]. }
      rewrite Hsb in Hh'. cbn in Hb. assert (h' = h) as -> by congruence.
      apply (Hlv (fst s)); [|lia]. apply elem_of_live. by exists s.
  - eapply chain_ext; [|exact Hc]. intros a x Hin Hr.
    assert (a ∈ slab_pages w ++ g_cached g ++ g_spare g) as Hpa by (rewrite !elem_of_app; auto).
    apply (Hpg a); [exact Hpa|lia|]. intros s Hs Hsx.
    destruct (held_slab held larges w g s Hw Hs) as (h' & l' & r' & Hh' & Hi' & Hsz & Hlo & Hhi).
    unfold in_block, slot_block in Hsx. cbn [fst snd size] in Hsx.
    eapply (pages_apart (SlabHeader_from_ptr (fst s)) a x x); [apply Hi'| | |lia|lia|done].
    + by eapply winv_page_ok.
    + intros Heq. pose proof (winv_pages_NoDup _ _ _ _ Hw) as (_ & Hno & _)%NoDup_app.
      apply (Hno a); [|rewrite elem_of_app; auto]. rewrite <- Heq, elem_of_slab_pages. by eexists.
  - apply pp_set_mem_ok; [done|]. intros x Hno. apply Hx.
    intros b [(s & -> & Hs)%list_elem_of_fmap|Hb]%elem_of_app; [|apply Hno, elem_of_app; by right].
    destruct (held_slab held larges w g s Hw Hs) as (h' & l' & r' & Hh' & Hi' & Hsz & Hlo & Hhi).
    intros Hsx. unfold in_block, slot_block in Hsx. cbn [fst snd size] in Hsx.
    apply (Hno (page_block (SlabHeader_from_ptr (fst s)))).
    + apply elem_of_app. left. apply list_elem_of_fmap_2. rewrite elem_of_app, elem_of_slab_pages.
      left. by eexists.
    + unfold in_block. cbn. change SLAB_SIZE with 65536. lia.
Qed.

(** ** Writing into a slab

    An operation on the slab at [b] that only writes links of its own slots:
    the other slabs, the cache, the pool and the program's blocks do not
    notice. *)

Definition inside (b : Z) (F : list Z) : Prop :=
  Forall (λ a, b + 72 ≤ a ∧ a + 8 ≤ b + 65536) F.

Lemma inside_links b F m m' x :
  inside b F → only_links F m m' → ¬ b + 72 ≤ x < b + 65536 → read_byte m' x = read_byte m x.
Proof.
  intros Hin Hl Hx. apply Hl. intros a Ha Hr. unfold inside in Hin. rewrite Forall_forall in Hin.
  destruct (Hin a Ha). lia.
Qed.

Lemma slab_keeps held larges w g b h m m' loc rem F held' :
  winv held larges w g → ls_hdrs (w_slabs w) !! b = Some h → m = w_mem w →
  slab_inv b m h loc rem (live b held) → only_links F m m' →
  (∀ a, a ∈ F → ∃ rest, a :: rest ≡ₚ loc ++ rem ++ live b held ∧ ∀ c, c ∈ live b held' → c ∈ rest) →
  (∀ s, s ∈ held' → s ∈ held) →
  keeps (user_blocks held' larges) m m'.
Proof.
  intros Hw Hb -> Hi Hl HF Hsub bl x [(s & -> & Hs)%list_elem_of_fmap|Hlg]%elem_of_app Hx;
    apply Hl; intros a Ha Hr; destruct (HF a Ha) as (rest & Hp & Hrest);
    pose proof (slab_slot_range b _ _ _ _ _ a Hi) as Hra; (rewrite <- Hp in Hra);
    specialize (Hra ltac:(set_solver)).
  - destruct (wi_held _ _ _ _ Hw s (Hsub s Hs)) as (hs & Hhs & Hcl).
    set (bs := SlabHeader_from_ptr (fst s)) in *.
    destruct (wi_slab _ _ _ _ Hw bs hs Hhs) as (_ & loc' & rem' & His).
    pose proof (slab_slot_range bs _ _ _ _ _ (fst s) His) as Hrs.
    assert (fst s ∈ live bs held) as Hin by (apply elem_of_live; exists s; auto).
    specialize (Hrs ltac:(rewrite !elem_of_app; auto)).
    assert (slot_size hs = class_size (snd s)) as Hsz
      by (destruct (si_static _ _ _ _ _ _ His) as (_ & -> & _); by rewrite Hcl).
    unfold in_block, slot_block in Hx. cbn [fst snd size] in Hx. rewrite <- Hsz in Hx.
    destruct (decide (bs = b)) as [Hbb|Hne].
    + rewrite Hbb in Hhs. rewrite Hb in Hhs. injection Hhs as <-.
      eapply (slab_slot_disjoint b _ _ _ _ _ a (fst s) rest x Hi Hp); [|lia|done].
      apply Hrest, elem_of_live. exists s. auto.
    + eapply (pages_apart bs b x x); [| |done| | |done]; [apply His|apply Hi|lia..].
  - eapply (winv_page_large _ _ _ _ Hw b x); [|lia|exact Hlg|exact Hx].
    rewrite elem_of_app, elem_of_slab_pages. left. by eexists.
Qed.

Lemma put_header_dom st b h h0 :
  ls_hdrs st !! b = Some h0 → dom (ls_hdrs (put_header st b h)) = dom (ls_hdrs st).
Proof. intros Hb. cbn. apply dom_insert_lookup_L. by eexists. Qed.

Lemma hchain_ext st st' top l :
  (∀ b, b ∈ l → next_link <$> ls_hdrs st' !! b = next_link <$> ls_hdrs st !! b) →
  hchain st top l → hchain st' top l.
Proof.
  revert top. induction l as [|b l IH]; intros top Hx; [done|]. cbn. intros (-> & h & Hh & Hc).
  split; [done|]. pose proof (Hx b ltac:(set_solver)) as Hb. rewrite Hh in Hb.
  destruct (ls_hdrs st' !! b) as [h'|]; [|done]. injection Hb as Hb. exists h'. split; [done|].
  rewrite Hb. apply IH; [|done]. intros. apply Hx. set_solver.
Qed.

(** Headers that keep their links keep the queues. *)
Lemma dl_seg_links st st' prev l z :
  (∀ b, b ∈ l → (λ h, (next_link h, prev_link h)) <$> ls_hdrs st' !! b =
                (λ h, (next_link h, prev_link h)) <$> ls_hdrs st !! b) →
  dl_seg st prev l z → dl_seg st' prev l z.
Proof.
  revert prev. induction l as [|b l IH]; intros prev Hx; [done|]. cbn.
  intros [(h & Hh & Hp & Hn) Hseg]. pose proof (Hx b ltac:(set_solver)) as Hb. rewrite Hh in Hb.
  destruct (ls_hdrs st' !! b) as [h'|]; [|done]. injection Hb as Hbn Hbp. split.
  - exists h'. by rewrite Hbn, Hbp.
  - apply IH; [|done]. intros. apply Hx. set_solver.
Qed.

Lemma lists_ok_put st L b h h' :
  lists_ok st L → ls_hdrs st !! b = Some h → next_link h' = next_link h →
  prev_link h' = prev_link h → lists_ok (put_header st b h') L.
Proof.
  intros [HL Hd] Hb Hn Hp. split; [|done]. intros c. destruct (HL c) as (? & ? & Hseg).
  split; [done|]. split; [done|]. eapply dl_seg_links; [|exact Hseg]. intros x _. cbn.
  rewrite lookup_insert. case_decide; [subst|done]. by rewrite Hb; cbn; rewrite Hn, Hp.
Qed.

Lemma live_other b held held' :
  (∀ s, SlabHeader_from_ptr (fst s) ≠ b → s ∈ held ↔ s ∈ held') →
  ∀ b', b' ≠ b → ∀ a, a ∈ live b' held ↔ a ∈ live b' held'.
Proof.
  intros Hs b' Hne a. rewrite !elem_of_live. split; intros (s & ? & <- & <-); exists s;
    split_and!; try done; by apply Hs.
Qed.

(** Writes inside the slots of a slab leave the links of the cached pages alone. *)
Lemma cache_untouched held larges w g b m' :
  winv held larges w g → b ∈ slab_pages w →
  (∀ x, ¬ b + 72 ≤ x < b + 65536 → read_byte m' x = read_byte (w_mem w) x) → chain m' (w_cache w) (g_cached g).
Proof.
  intros Hw Hpg Hx. eapply chain_ext; [|exact (wi_cache _ _ _ _ Hw)]. intros a x Ha Hr. apply Hx. intros Hrb.
  pose proof (winv_page_ok _ _ _ _ Hw) as Hok.
  eapply (pages_apart a b x x); [apply Hok; rewrite !elem_of_app; auto|apply Hok; rewrite elem_of_app; auto| |lia|lia|done].
  intros ->. pose proof (winv_pages_NoDup _ _ _ _ Hw) as (_ & Hno & _)%NoDup_app.
  apply (Hno b Hpg). rewrite elem_of_app. auto.
Qed.

Lemma winv_update held larges w g b h h' m' loc' rem' F held' ex' :
  winv held larges w g → ls_hdrs (w_slabs w) !! b = Some h → same_slab h h' →
  inside b F → only_links F (w_mem w) m' →
  slab_inv b m' h' loc' rem' (live b held') →
  (∀ b', b' ≠ b → live b' held' ≡ₚ live b' held) →
  (∀ s, s ∈ held' → SlabHeader_from_ptr (fst s) = b → snd s = size_class_index h) →
  (∀ s, s ∈ held' → SlabHeader_from_ptr (fst s) ≠ b → s ∈ held) →
  (∀ b', b' ≠ b → g_exempt g = Some b' → ex' = Some b') →
  (∀ c, g_place g !! b = Some (Queued c) → ex' = Some b ∨ kind_ok (hc_kind c) h') →
  winv held' larges (set_header (set_mem w m') b h') (set_exempt g ex').
Proof.
  intros Hw Hb (Ecl & Eid & Enx & Epv) HF Hl Hi' Hlive Hcls Hsub Hex Hk.
  assert (b ∈ slab_pages w) as Hpg by (apply elem_of_slab_pages; by eexists).
  assert (∀ x, ¬ b + 72 ≤ x < b + 65536 → read_byte m' x = read_byte (w_mem w) x) as Hx
    by (intros x; by eapply inside_links).
  assert (slab_pages (set_header (set_mem w m') b h') = slab_pages w) as Hpages
    by (unfold slab_pages; cbn; f_equal; by eapply put_header_dom).
  pose proof Hw as [Hdom Hslab Hheld Hplace Hlists Hqueued Hablen Hab Habp Hcache Hclen Hpool].
  assert (w_mem (set_header (set_mem w m') b h') = m') as Hmem by (cbn; apply pp_mem_set).
  split; rewrite ?Hmem, ?Hpages;
    cbn [set_header set_slabs set_mem set_pool w_slabs w_abandoned w_cache w_cache_len w_pool
      set_exempt g_alive g_next g_place g_lists g_aband g_cached g_spare g_exempt put_header ls_hdrs].
  - intros b'. rewrite lookup_insert. case_decide as Heq; [subst b'|apply Hdom].
    split; intros _; [|by eexists]. apply Hdom. by eexists.
  - intros b' h1. rewrite lookup_insert. case_decide as Heq; [subst b'|].
    + intros [= <-]. rewrite Eid. split; [by apply (Hslab b)|]. eauto.
    + intros Hh1. destruct (Hslab b' h1 Hh1) as (Hid & loc & rem & Hi). split; [done|].
      exists loc, rem. eapply slab_inv_live_perm; [symmetry; by apply Hlive|].
      eapply slab_inv_agree; [exact Hi|]. intros x _ Hr. apply Hx. intros Hrb.
      eapply (pages_apart b' b x x); [| |done| | |done]; [apply Hi|apply Hi'|lia..].
  - intros s Hs. rewrite lookup_insert. case_decide as Heq.
    + exists h'. split; [done|]. rewrite Ecl. symmetry. by apply Hcls.
    + apply Hheld, Hsub; [done|congruence].
  - intros b' h1 p. rewrite lookup_insert. case_decide as Heq; [subst b'|].
    + intros [= <-] Hp. pose proof (Hplace b h p Hb Hp) as Hok. destruct p; cbn in *;
        rewrite ?Ecl, ?Eid; try done. destruct Hok as (? & ? & _). auto.
    + intros Hh1 Hp. pose proof (Hplace b' h1 p Hh1 Hp) as Hok. destruct p; cbn in *; try done.
      destruct Hok as (? & ? & [He|?]); auto.
  - by eapply lists_ok_put.
  - apply Hqueued.
  - done.
  - intros i top Hi. destruct (Hab i top Hi) as [Hc ?]. split; [|done]. eapply hchain_ext; [|exact Hc].
    intros b' _. cbn. rewrite lookup_insert. case_decide as Heq; [subst b'|done].
    by rewrite Hb; cbn; rewrite Enx.
  - apply Habp.
  - by eapply cache_untouched.
  - done.
  - apply pp_set_mem_ok; [done|]. intros x Hxo. apply Hx. intros Hrb.
    apply (Hxo (page_block b)); [|unfold in_block; cbn; change SLAB_SIZE with 65536; lia].
    apply elem_of_app. left. apply list_elem_of_fmap_2. rewrite elem_of_app. auto.
Qed.

(** ** The slab methods *)

(** Only the headers of [X] may differ. *)
Definition hdr_frame (X : list Z) w w' : Prop :=
  ∀ x, x ∉ X → ls_hdrs (w_slabs w') !! x = ls_hdrs (w_slabs w) !! x.

Lemma set_exempt_same g : set_exempt g (g_exempt g) = g.
Proof. by destruct g. Qed.

Lemma set_exempt_twice g ex ex' : set_exempt (set_exempt g ex) ex' = set_exempt g ex'.
Proof. done. Qed.

Lemma set_mem_id w : set_mem w (w_mem w) = w.
Proof. destruct w. unfold set_mem, set_pool, w_mem. cbn. by rewrite pp_set_mem_id. Qed.

Lemma set_header_id w b h : ls_hdrs (w_slabs w) !! b = Some h → set_header w b h = w.
Proof.
  intros Hb. destruct w as [p [hd hs] ab top len]. unfold set_header, set_slabs, put_header. cbn in *.
  by rewrite insert_id.
Qed.

Lemma set_header_frame w m b h : hdr_frame [b] w (set_header (set_mem w m) b h).
Proof. intros x Hx. cbn. rewrite lookup_insert_ne; [done|]. set_solver. Qed.

Lemma set_header_lookup w m b h : ls_hdrs (w_slabs (set_header (set_mem w m) b h)) !! b = Some h.
Proof. apply lookup_insert_eq. Qed.

Lemma inside_slots b m h loc rem lv F :
  slab_inv b m h loc rem lv → (∀ a, a ∈ F → a ∈ loc ++ rem ++ lv) → inside b F.
Proof.
  intros Hi HF. apply Forall_forall. intros a Ha.
  pose proof (slab_slot_range b _ _ _ _ _ a Hi (HF a Ha)). lia.
Qed.

Lemma live_from_ptr b m h loc rem lv a :
  slab_inv b m h loc rem lv → a ∈ loc ++ rem ++ lv → SlabHeader_from_ptr a = b.
Proof.
  intros Hi Ha. pose proof (slab_slot_range b _ _ _ _ _ a Hi Ha). apply from_ptr_base; [apply Hi|].
  change SLAB_SIZE with 65536. lia.
Qed.

Section slab_methods.
Context held larges w g (Hw : winv held larges w g) (Hex : g_exempt g = None).
Context b h (Hb : ls_hdrs (w_slabs w) !! b = Some h).

Lemma no_exempt ex' b' : b' ≠ b → g_exempt g = Some b' → ex' = Some b'.
Proof. by rewrite Hex. Qed.

Lemma alloc_at_ok :
  (∀ c, g_place g !! b ≠ Some (Queued c)) →
  ∃ r w' h', slab_alloc_at w b = Ok (r, w') ∧ ls_hdrs (w_slabs w') !! b = Some h' ∧
    same_slab h h' ∧ w_mem w' = w_mem w ∧ hdr_frame [b] w w' ∧
    match r with
    | Some a => 0 < Slab_free_count h ∧ winv ((a, size_class_index h) :: held) larges w' g
    | None => Slab_free_count h = 0 ∧ w' = w
    end.
Proof.
  intros Hq. destruct (wi_slab _ _ _ _ Hw b h Hb) as (_ & loc & rem & Hi).
  unfold slab_alloc_at, get_header. rewrite Hb. cbn [res_of_option mbind res_bind].
  destruct (Slab_alloc b (w_mem w) h) as [r h'] eqn:Ha.
  pose proof (slab_alloc_same _ _ _ _ _ Ha) as Hsame.
  pose proof (slab_alloc_ok b _ _ _ _ _ _ _ Hi Ha) as Hok.
  pose proof (slab_free_count b _ _ _ _ _ Hi) as Hfc. pose proof (si_bump _ _ _ _ _ _ Hi) as Hbump.
  exists r, (set_header w b h'), h'. split; [done|].
  split; [apply lookup_insert_eq|]. split; [done|]. split; [done|].
  split; [intros x Hx; apply lookup_insert_ne; set_solver|].
  assert (∀ a loc', r = Some a → slab_inv b (w_mem w) h' loc' rem (a :: live b held) →
    winv ((a, size_class_index h) :: held) larges (set_header w b h') g) as Hnew.
  { intros a loc' -> Hi'. rewrite <- (set_exempt_same g), Hex, <- (set_mem_id w).
    assert (SlabHeader_from_ptr a = b) as Hab.
    { eapply live_from_ptr; [exact Hi'|]. rewrite !elem_of_app. right. right. by left. }
    eapply (winv_update held larges w g b h h' (w_mem w) loc' rem []); try done.
    - constructor.
    - by rewrite live_cons_eq.
    - intros b' Hne. by rewrite live_cons_ne by (cbn; congruence).
    - intros s [->|Hs]%elem_of_cons Hsb; [done|].
      destruct (wi_held _ _ _ _ Hw s Hs) as (hs & Hhs & <-). rewrite Hsb, Hb in Hhs. by simplify_eq.
    - intros s [->|Hs]%elem_of_cons Hsb; [by destruct Hsb|done].
    - by rewrite Hex.
    - intros c Hc. by destruct (Hq c). }
  destruct loc as [|x loc].
  - destruct (Z.ltb_spec 0 (bump_remaining h)).
    + destruct Hok as [-> Hi']. split; [cbn in Hfc; lia|]. by eapply Hnew.
    + destruct Hok as [-> ->]. split; [cbn in Hfc; lia|].
      by apply set_header_id.
  - destruct Hok as [-> Hi']. split; [cbn [length] in Hfc; lia|]. by eapply Hnew.
Qed.

Lemma drain_now_ok ex' :
  (∀ c, g_place g !! b = Some (Queued c) → ex' = Some b) →
  ∃ w' h', slab_drain_now w b = Ok w' ∧ ls_hdrs (w_slabs w') !! b = Some h' ∧ same_slab h h' ∧
    winv held larges w' (set_exempt g ex') ∧ keeps (user_blocks held larges) (w_mem w) (w_mem w') ∧
    hdr_frame [b] w w' ∧ (Slab_is_fully_free h' = true ↔ live b held = []) ∧
    Slab_free_count h ≤ Slab_free_count h'.
Proof.
  intros Hq. destruct (wi_slab _ _ _ _ Hw b h Hb) as (_ & loc & rem & Hi).
  destruct (slab_drain_same b _ _ _ _ _ Hi) as (m' & h' & n & Hd & Hi' & Hsame & Hl).
  exists (set_header (set_mem w m') b h'), h'.
  unfold slab_drain_now, get_header. rewrite Hb. cbn [res_of_option mbind res_bind]. rewrite Hd.
  split; [done|]. split; [apply set_header_lookup|]. split; [done|].
  split; [|split; [|split; [apply set_header_frame|split]]].
  - eapply (winv_update held larges w g b h h' m' _ _ rem); try done.
    + eapply inside_slots; [exact Hi|]. intros a Ha. rewrite !elem_of_app. auto.
    + intros s Hs Hsb. destruct (wi_held _ _ _ _ Hw s Hs) as (hs & Hhs & <-).
      rewrite Hsb, Hb in Hhs. by simplify_eq.
    + by rewrite Hex.
    + intros c Hc. left. by eapply Hq.
  - cbn. unfold w_mem at 2. cbn. rewrite pp_mem_set.
    eapply (slab_keeps held larges w g b h _ m' loc rem rem); try done.
    intros a Ha. apply list_elem_of_split in Ha as (r1 & r2 & ->).
    exists (loc ++ r1 ++ r2 ++ live b held). split; [perm|]. intros c Hc. rewrite !elem_of_app. auto.
  - rewrite (slab_fully_free b _ _ _ _ _ Hi'). split; [by intros [_ ?]|by intros ->].
  - rewrite (slab_free_count b _ _ _ _ _ Hi), (slab_free_count b _ _ _ _ _ Hi').
    rewrite length_app, length_rev. 
    assert (bump_remaining h' = bump_remaining h) as ->; [|lia].
    unfold Slab_drain_remote in Hd. cbn [TreiberStack_swap_drain] in Hd.
    bind_inv Hd as [[m1 fl] c] E. by injection Hd as _ <- _.
Qed.
End slab_methods.

Section slab_free.
Context held larges w g (Hw : winv held larges w g) (Hex : g_exempt g = None).
Context s held' (Hs : held ≡ₚ s :: held').
Local Abbreviation b := (SlabHeader_from_ptr (fst s)).
Context h (Hb : ls_hdrs (w_slabs w) !! b = Some h).

Lemma live_freed : live b held ≡ₚ fst s :: live b held'.
Proof. rewrite (live_perm b _ _ Hs). by rewrite live_cons_eq. Qed.

Lemma live_unfreed b' : b' ≠ b → live b' held' ≡ₚ live b' held.
Proof. intros Hne. rewrite (live_perm b' _ _ Hs). by rewrite live_cons_ne. Qed.

Lemma held_class t : t ∈ held' → SlabHeader_from_ptr (fst t) = b → snd t = size_class_index h.
Proof.
  intros Ht Htb. destruct (wi_held _ _ _ _ Hw t) as (ht & Hht & <-); [rewrite Hs; set_solver|].
  rewrite Htb, Hb in Hht. by injection Hht as ->.
Qed.

(** Writing the link of the freed slot. *)
Lemma free_keeps m' loc rem :
  slab_inv b (w_mem w) h loc rem (live b held) → only_links [fst s] (w_mem w) m' →
  keeps (user_blocks held' larges) (w_mem w) m'.
Proof.
  intros Hi Hl. eapply (slab_keeps held larges w g b h _ m' loc rem [fst s]); try done.
  - intros a ->%list_elem_of_singleton. exists (loc ++ rem ++ live b held'). split.
    + rewrite live_freed. perm.
    + intros c Hc. rewrite !elem_of_app. auto.
  - intros t Ht. rewrite Hs. by right.
Qed.

Lemma free_inside m loc rem : slab_inv b m h loc rem (live b held) → inside b [fst s].
Proof.
  intros Hi. eapply inside_slots; [exact Hi|]. intros a ->%list_elem_of_singleton.
  rewrite !elem_of_app. right. right. rewrite live_freed. by left.
Qed.

Lemma dealloc_local_at_ok ex' :
  (∀ c, g_place g !! b = Some (Queued c) → ex' = Some b) →
  ∃ w' h', slab_dealloc_local_at w b (fst s) = Ok w' ∧ ls_hdrs (w_slabs w') !! b = Some h' ∧
    same_slab h h' ∧ winv held' larges w' (set_exempt g ex') ∧
    keeps (user_blocks held' larges) (w_mem w) (w_mem w') ∧ hdr_frame [b] w w' ∧
    (Slab_is_fully_free h' = true → live b held' = []) ∧
    Slab_free_count h' = Slab_free_count h + 1.
Proof.
  intros Hq. destruct (wi_slab _ _ _ _ Hw b h Hb) as (_ & loc & rem & Hi).
  unfold slab_dealloc_local_at, get_header. rewrite Hb. cbn [res_of_option mbind res_bind].
  destruct (Slab_dealloc_local (w_mem w) h (fst s)) as [m' h'] eqn:Hd.
  destruct (slab_dealloc_local_same _ _ _ _ _ Hd) as [Hsame Hl].
  pose proof (slab_dealloc_local_ok b _ _ _ _ _ _ _ _ _ Hi live_freed Hd) as Hi'.
  exists (set_header (set_mem w m') b h'), h'. split; [done|]. split; [apply set_header_lookup|].
  split; [done|]. split; [|split; [|split; [apply set_header_frame|split]]].
  - eapply (winv_update held larges w g b h h' m' _ _ [fst s]); try done.
    + by eapply free_inside.
    + apply live_unfreed.
    + apply held_class.
    + intros t Ht _. rewrite Hs. by right.
    + by rewrite Hex.
    + intros c Hc. left. by eapply Hq.
  - cbn. unfold w_mem at 2. cbn. rewrite pp_mem_set. by eapply free_keeps.
  - rewrite (slab_fully_free b _ _ _ _ _ Hi'). by intros [_ ?].
  - rewrite (slab_free_count b _ _ _ _ _ Hi), (slab_free_count b _ _ _ _ _ Hi').
    unfold Slab_dealloc_local, SlotFreeList_push in Hd. injection Hd as _ <-. cbn [length bump_remaining with_local]. lia.
Qed.

Lemma dealloc_remote_at_ok :
  ∃ w', slab_dealloc_remote_at w b (fst s) = Ok w' ∧ winv held' larges w' g ∧
    keeps (user_blocks held' larges) (w_mem w) (w_mem w').
Proof.
  destruct (wi_slab _ _ _ _ Hw b h Hb) as (_ & loc & rem & Hi).
  unfold slab_dealloc_remote_at, get_header. rewrite Hb. cbn [res_of_option mbind res_bind].
  destruct (SlabRef_dealloc_remote (w_mem w) h (fst s)) as [m' h'] eqn:Hd.
  destruct (slab_dealloc_remote_same _ _ _ _ _ Hd) as [Hsame Hl].
  pose proof (slab_dealloc_remote_ok b _ _ _ _ _ _ _ _ _ Hi live_freed Hd) as Hi'.
  exists (set_header (set_mem w m') b h'). split; [done|]. split.
  - rewrite <- (set_exempt_same g), Hex.
    eapply (winv_update held larges w g b h h' m' _ _ [fst s]); try done.
    + by eapply free_inside.
    + apply live_unfreed.
    + apply held_class.
    + intros t Ht _. rewrite Hs. by right.
    + by rewrite Hex.
    + intros c Hc. right. pose proof (wi_place _ _ _ _ Hw b h _ Hb Hc) as (_ & _ & [He|Hk]);
        [by rewrite Hex in He|].
      unfold SlabRef_dealloc_remote in Hd. destruct (TreiberStack_push _ _). by injection Hd as _ <-.
  - cbn. unfold w_mem at 2. cbn. rewrite pp_mem_set. by eapply free_keeps.
Qed.
End slab_free.

(** ** Moving slabs between places *)

(** New list heads and links, with the same slabs. *)
Lemma winv_relink held larges w g st' L' pl' :
  winv held larges w g → same_data (w_slabs w) st' → lists_ok st' L' →
  (∀ b, is_Some (pl' !! b) ↔ is_Some (g_place g !! b)) →
  (∀ c b, b ∈ L' c ↔ pl' !! b = Some (Queued c)) →
  (∀ idx b, pl' !! b = Some (Abandoned idx) ↔ g_place g !! b = Some (Abandoned idx)) →
  (∀ idx b, g_place g !! b = Some (Abandoned idx) →
     ls_hdrs st' !! b = ls_hdrs (w_slabs w) !! b) →
  (∀ b h p, ls_hdrs (w_slabs w) !! b = Some h → pl' !! b = Some p → g_place g !! b ≠ Some p →
     place_ok (g_alive g) (g_exempt g) b h p) →
  winv held larges (set_slabs w st') (set_lists (set_places g pl') L').
Proof.
  intros Hw Hsd HL Hpl HLp Hab Habh Hpo.
  pose proof Hw as [Hdom Hslab Hheld Hplace Hlists Hqueued Hablen Habl Habp Hcache Hclen Hpool].
  assert (∀ b h', ls_hdrs st' !! b = Some h' →
    ∃ h, ls_hdrs (w_slabs w) !! b = Some h ∧ erase_links h' = erase_links h) as Hold.
  { intros b h' Hb. pose proof (Hsd b) as He. rewrite Hb in He.
    destruct (ls_hdrs (w_slabs w) !! b) as [h|]; [|done]. exists h. split; [done|].
    by apply (inj Some). }
  assert (∀ b, is_Some (ls_hdrs st' !! b) ↔ is_Some (ls_hdrs (w_slabs w) !! b)) as Hdom'.
  { intros b. rewrite <- (fmap_is_Some erase_links (ls_hdrs st' !! b)), (Hsd b).
    apply fmap_is_Some. }
  assert (slab_pages (set_slabs w st') = slab_pages w) as Hpages.
  { unfold slab_pages. f_equal. apply set_eq. intros b. by rewrite !elem_of_dom, Hdom'. }
  split; rewrite ?Hpages; cbn [set_slabs w_slabs w_abandoned w_cache w_cache_len w_pool set_lists
    set_places g_alive g_next g_place g_lists g_aband g_cached g_spare g_exempt].
  - intros b. rewrite Hdom', Hpl. apply Hdom.
  - intros b h' Hb. destruct (Hold b h' Hb) as (h & Hh & He).
    destruct (erase_fields h h' He) as (_ & -> & _).
    destruct (Hslab b h Hh) as (? & loc & rem & Hi). split; [done|]. exists loc, rem.
    by eapply slab_inv_erase.
  - intros s Hs. destruct (Hheld s Hs) as (h & Hh & Hcl).
    destruct (proj2 (Hdom' (SlabHeader_from_ptr (fst s)))) as [h' Hh']; [by eexists|].
    destruct (Hold _ h' Hh') as (h1 & Hh1 & He). rewrite Hh in Hh1. injection Hh1 as <-.
    exists h'. split; [done|]. destruct (erase_fields h h' He) as (-> & _). done.
  - intros b h' p Hb Hp. destruct (Hold b h' Hb) as (h & Hh & He).
    destruct (erase_fields h h' He) as (E1 & E2 & E3).
    assert (place_ok (g_alive g) (g_exempt g) b h p) as Hok.
    { destruct (decide (g_place g !! b = Some p)) as [Hp0|Hp0]; [by apply Hplace|by apply Hpo]. }
    destruct p as [| | []|]; cbn in *; unfold kind_ok in *; rewrite ?E1, ?E2, ?E3; try done.
  - done.
  - done.
  - done.
  - intros i top Hi. destruct (Habl i top Hi) as [Hc ?]. split; [|done]. eapply hchain_ext; [|exact Hc].
    intros b Hb%Habp. by rewrite (Habh _ _ Hb).
  - intros idx b. by rewrite Habp, Hab.
  - done.
  - done.
  - done.
Qed.

Lemma put_place_dom g b p b' :
  is_Some (g_place g !! b) → is_Some (<[b := p]> (g_place g) !! b') ↔ is_Some (g_place g !! b').
Proof. intros Hb. rewrite lookup_insert. case_decide; [subst; by split|done]. Qed.

(** The queues after list [c] becomes [l], when only [b] enters or leaves it. *)
Lemma queued_update g c b l p :
  (∀ c b, b ∈ g_lists g c ↔ g_place g !! b = Some (Queued c)) →
  (∀ x, x ≠ b → x ∈ l ↔ x ∈ g_lists g c) → (b ∈ l ↔ p = Queued c) →
  (∀ c', c' ≠ c → b ∉ g_lists g c' ∧ p ≠ Queued c') →
  ∀ c' x, x ∈ <[c := l]> (g_lists g) c' ↔ <[b := p]> (g_place g) !! x = Some (Queued c').
Proof.
  intros Hq Hx Hb Hc c' x. rewrite lookup_insert. destruct (decide (c' = c)) as [->|Hne].
  - rewrite fn_lookup_insert. case_decide as Heq; [subst x|by rewrite Hx, Hq].
    rewrite Hb. split; [by intros ->|by intros [= ->]].
  - rewrite fn_lookup_insert_ne by done. case_decide as Heq; [subst x|apply Hq].
    destruct (Hc c' Hne) as [Hn Hp]. split; [by intros ?|by intros [= ->]].
Qed.

Definition push_ghost g c b : ghost :=
  set_lists (put_place g b (Queued c)) (<[c := b :: g_lists g c]> (g_lists g)).
Definition drop_ghost g c b l : ghost :=
  set_lists (put_place g b Loose) (<[c := l]> (g_lists g)).

Section list_ops.
Context held larges w g (Hw : winv held larges w g).

Lemma loose_unqueued b p c : g_place g !! b = Some p → p ≠ Queued c → b ∉ g_lists g c.
Proof. intros Hb Hp Hin. apply (wi_queued _ _ _ _ Hw) in Hin. congruence. Qed.

Lemma push_ok c b h :
  ls_hdrs (w_slabs w) !! b = Some h → g_place g !! b = Some Loose →
  heap_id h = hc_heap c → size_class_index h = hc_class c →
  g_exempt g = Some b ∨ kind_ok (hc_kind c) h →
  ∃ w', heap_list_push w c b = Ok w' ∧ w_mem w' = w_mem w ∧
    winv held larges w' (push_ghost g c b) ∧ hdr_frame (b :: g_lists g c) w w'.
Proof.
  intros Hb Hp Hid Hcl Hk.
  destruct (slab_list_push_ok (w_slabs w) (g_lists g) c b h) as (st' & E & HL & Hsd & Hfr);
    [apply Hw|intros c'; by eapply loose_unqueued|done|].
  exists (set_slabs w st'). unfold heap_list_push. rewrite E. split; [done|]. split; [done|].
  split; [|intros x [? ?]%not_elem_of_cons; by apply Hfr].
  eapply (winv_relink held larges w g); [exact Hw|exact Hsd|exact HL|..].
  - intros b'. apply put_place_dom. by eexists.
  - apply queued_update; [apply Hw|set_solver|set_solver|].
    intros c' Hne. split; [by eapply loose_unqueued|congruence].
  - intros idx b'. cbn. rewrite lookup_insert. case_decide; [subst; by rewrite Hp|done].
  - intros idx b' Hab. apply Hfr; [by intros ->; congruence|]. intros Hin.
    apply (wi_queued _ _ _ _ Hw) in Hin. congruence.
  - intros b' h' p'. cbn. rewrite lookup_insert. case_decide as Heq; [subst b'|done].
    intros Hh' [= <-] _. rewrite Hb in Hh'. injection Hh' as <-. by cbn.
Qed.

(** Taking [b] out of queue [c], which becomes [l]. *)
Lemma unqueue_ok c b l st' :
  g_place g !! b = Some (Queued c) → lists_ok st' (<[c := l]> (g_lists g)) →
  (∀ x, x ∈ l ↔ x ∈ g_lists g c ∧ x ≠ b) → same_data (w_slabs w) st' →
  (∀ x, x ∉ g_lists g c → ls_hdrs st' !! x = ls_hdrs (w_slabs w) !! x) →
  winv held larges (set_slabs w st') (drop_ghost g c b l).
Proof.
  intros Hp HL Hl Hsd Hfr. eapply (winv_relink held larges w g); [exact Hw|exact Hsd|exact HL|..].
  - intros b'. apply put_place_dom. by eexists.
  - apply queued_update; [apply Hw|naive_solver|naive_solver|].
    intros c' Hne. split; [|done]. intros Hin%(wi_queued _ _ _ _ Hw). congruence.
  - intros idx b'. cbn. rewrite lookup_insert. case_decide; [subst; by rewrite Hp|done].
  - intros idx b' Hab. apply Hfr. intros Hin%(wi_queued _ _ _ _ Hw). congruence.
  - intros b' h' p'. cbn. rewrite lookup_insert. case_decide as Heq; [subst b'|done].
    by intros _ [= <-].
Qed.

(** What is known of the slab taken out. *)
Definition taken b h w' : Prop :=
  ∃ h', ls_hdrs (w_slabs w') !! b = Some h' ∧ erase_links h' = erase_links h.

Lemma same_data_taken st' b h :
  same_data (w_slabs w) st' → ls_hdrs (w_slabs w) !! b = Some h → taken b h (set_slabs w st').
Proof.
  intros Hsd Hb. pose proof (Hsd b) as He. rewrite Hb in He. unfold taken. cbn.
  destruct (ls_hdrs st' !! b) as [h'|]; [|done]. exists h'. split; [done|]. by apply (inj Some).
Qed.

Lemma pop_ok c :
  match g_lists g c with
  | [] => heap_list_pop w c = Ok (None, w)
  | b :: l => ∃ w' h, heap_list_pop w c = Ok (Some b, w') ∧ w_mem w' = w_mem w ∧
      winv held larges w' (drop_ghost g c b l) ∧ hdr_frame (g_lists g c) w w' ∧
      ls_hdrs (w_slabs w) !! b = Some h ∧ taken b h w' ∧ g_place g !! b = Some (Queued c)
  end.
Proof.
  pose proof (slab_list_pop_ok (w_slabs w) (g_lists g) c (wi_lists _ _ _ _ Hw)) as Hpop.
  destruct (wi_lists _ _ _ _ Hw) as [HL _]. destruct (HL c) as (_ & Hnd & Hseg).
  unfold heap_list_pop. destruct (g_lists g c) as [|b l] eqn:Hc.
  { rewrite Hpop. cbn. by destruct w. }
  destruct Hpop as (st' & -> & HL' & _ & Hsd & Hfr).
  assert (g_place g !! b = Some (Queued c)) as Hp
    by (apply (wi_queued _ _ _ _ Hw); rewrite Hc; by left).
  destruct (dl_seg_lookup _ _ _ _ b Hseg) as [h Hb]; [by left|].
  exists (set_slabs w st'), h. split; [done|]. split; [done|].
  apply NoDup_cons in Hnd as [Hnot _].
  split; [|split; [done|split; [done|split; [by apply same_data_taken|done]]]].
  eapply unqueue_ok; try done; rewrite Hc; [|done]. intros x. rewrite elem_of_cons.
  split; [intros Hx; split; [by right|by intros ->]|naive_solver].
Qed.

Lemma remove_ok c b l1 l2 :
  g_lists g c = l1 ++ b :: l2 →
  ∃ w' h, heap_list_remove w b = Ok w' ∧ w_mem w' = w_mem w ∧
    winv held larges w' (drop_ghost g c b (l1 ++ l2)) ∧ hdr_frame (g_lists g c) w w' ∧
    ls_hdrs (w_slabs w) !! b = Some h ∧ taken b h w'.
Proof.
  intros Hc. assert (g_place g !! b = Some (Queued c)) as Hp
    by (apply (wi_queued _ _ _ _ Hw); rewrite Hc; set_solver).
  destruct (slab_list_remove_ok (w_slabs w) (g_lists g) c l1 b l2 (wi_lists _ _ _ _ Hw) Hc)
    as (st' & E & HL' & _ & Hsd & Hfr).
  destruct (wi_lists _ _ _ _ Hw) as [HL _]. destruct (HL c) as (_ & Hnd & Hseg).
  destruct (dl_seg_lookup _ _ _ _ b Hseg) as [h Hb]; [rewrite Hc; set_solver|].
  exists (set_slabs w st'), h. unfold heap_list_remove. rewrite E.
  split; [done|]. split; [done|]. rewrite Hc in Hnd. apply NoDup_app in Hnd as (_ & Hn1 & [Hn2 _]%NoDup_cons).
  split; [|split; [done|split; [done|by apply same_data_taken]]].
  eapply unqueue_ok; try done. intros x. rewrite Hc, !elem_of_app, elem_of_cons.
  split; [|naive_solver]. intros Hx. split; [tauto|]. intros ->.
  destruct Hx as [Hx|Hx]; [|done]. apply (Hn1 b Hx). by left.
Qed.
End list_ops.

(** A loose slab becomes active, an active one loose. *)
Lemma winv_set_place held larges w g b p q h :
  winv held larges w g → ls_hdrs (w_slabs w) !! b = Some h → g_place g !! b = Some p →
  (∀ c, p ≠ Queued c ∧ q ≠ Queued c) → (∀ i, p ≠ Abandoned i ∧ q ≠ Abandoned i) →
  place_ok (g_alive g) (g_exempt g) b h q → winv held larges w (put_place g b q).
Proof.
  intros Hw Hb Hp Hq Ha Hok. destruct w as [pool st ab top len].
  assert (put_place g b q = set_lists (set_places g (<[b := q]> (g_place g))) (g_lists g)) as -> by done.
  apply (winv_relink held larges _ g st (g_lists g) (<[b := q]> (g_place g)) Hw); try done.
  - apply Hw.
  - intros b'. apply put_place_dom. by eexists.
  - intros c b'. rewrite (wi_queued _ _ _ _ Hw), lookup_insert. case_decide; [subst b'|done].
    rewrite Hp. destruct (Hq c). split; congruence.
  - intros i b'. rewrite lookup_insert. case_decide; [subst b'|done]. rewrite Hp.
    destruct (Ha i). split; congruence.
  - intros b' h' p'. rewrite lookup_insert. case_decide; [subst b'|done].
    intros Hh' [= <-] _. cbn in Hb, Hh'. congruence.
Qed.

(** The exemption ends when the slab is on no queue or its kind is right. *)
Lemma winv_end_exempt held larges w g b :
  winv held larges w g → g_exempt g = Some b →
  (∀ c h, g_place g !! b = Some (Queued c) → ls_hdrs (w_slabs w) !! b = Some h → kind_ok (hc_kind c) h) →
  winv held larges w (set_exempt g None).
Proof.
  intros Hw Hex Hk. destruct Hw as [? ? ? Hplace]. split; try done.
  intros b' h p Hb Hp. pose proof (Hplace b' h p Hb Hp) as Hok. destruct p; cbn in *; try done.
  destruct Hok as (? & ? & [He|?]); [|by auto]. rewrite Hex in He. injection He as <-. eauto.
Qed.

(** ** Pages and large blocks *)

(** Keeping the contents of the pages and the large blocks keeps the program's blocks. *)
Lemma user_keeps held larges larges' w g pages m m' :
  winv held larges w g → (∀ l, l ∈ larges' → l ∈ larges) →
  (∀ s, s ∈ held → SlabHeader_from_ptr (fst s) ∈ pages) →
  keeps (handed_out pages larges') m m' → keeps (user_blocks held larges') m m'.
Proof.
  intros Hw Hlg Hin Hk bl x [(s & -> & Hs)%list_elem_of_fmap|Hl]%elem_of_app Hx.
  - destruct (wi_held _ _ _ _ Hw s Hs) as (h & Hh & Hcl).
    destruct (wi_slab _ _ _ _ Hw _ _ Hh) as (_ & loc & rem & Hi).
    pose proof (slab_slot_range _ _ _ _ _ _ (fst s) Hi) as Hr.
    assert (fst s ∈ live (SlabHeader_from_ptr (fst s)) held) as Hlv by (apply elem_of_live; by exists s).
    specialize (Hr ltac:(rewrite !elem_of_app; auto)).
    destruct (si_static _ _ _ _ _ _ Hi) as (_ & Hsz & _).
    unfold in_block, slot_block in Hx. cbn [fst snd size] in Hx. rewrite <- Hcl, <- Hsz in Hx.
    eapply (Hk (page_block (SlabHeader_from_ptr (fst s))));
      [|unfold in_block; cbn; change SLAB_SIZE with 65536; lia].
    apply elem_of_app. left. by apply list_elem_of_fmap_2, Hin.
  - eapply Hk; [|exact Hx]. apply elem_of_app. by right.
Qed.

(** A slab only depends on the contents of its page. *)
Lemma slab_inv_keeps b m m' h loc rem lv pages larges :
  slab_inv b m h loc rem lv → b ∈ pages → keeps (handed_out pages larges) m m' →
  slab_inv b m' h loc rem lv.
Proof.
  intros Hi Hb Hk. eapply slab_inv_agree; [exact Hi|]. intros x _ Hr.
  eapply (Hk (page_block b)); [|unfold in_block; cbn; change SLAB_SIZE with 65536; lia].
  apply elem_of_app. left. by apply list_elem_of_fmap_2.
Qed.

Lemma chain_keeps m m' top l pages larges :
  chain m top l → (∀ b, b ∈ l → b ∈ pages) → keeps (handed_out pages larges) m m' → chain m' top l.
Proof.
  intros Hc Hin Hk. eapply chain_ext; [|exact Hc]. intros a x Ha Hx.
  eapply (Hk (page_block a)); [|unfold in_block; cbn; change SLAB_SIZE with 65536; lia].
  apply elem_of_app. left. by apply list_elem_of_fmap_2, Hin.
Qed.

(** The pool and the cache change, the slabs do not. *)
Lemma winv_remem held larges larges' w w' g cached spare lg :
  winv held larges w g → w_slabs w' = w_slabs w → w_abandoned w' = w_abandoned w →
  keeps (handed_out (slab_pages w) lg) (w_mem w) (w_mem w') →
  chain (w_mem w') (w_cache w') cached →
  w_cache_len w' = Z.of_nat (length cached) ∧ w_cache_len w' ≤ SLAB_CACHE_MAX →
  pp_ok (w_pool w') (slab_pages w ++ cached ++ spare) larges' →
  winv held larges' w' (set_pages g cached spare).
Proof.
  intros Hw Hst Hab Hk Hc Hlen Hp. destruct Hw. 
  assert (slab_pages w' = slab_pages w) as Hpg by (unfold slab_pages; by rewrite Hst).
  split; rewrite ?Hpg, ?Hst, ?Hab; try done.
  intros b h Hb. destruct (wi_slab0 b h Hb) as (? & loc & rem & Hi). split; [done|].
  exists loc, rem. eapply slab_inv_keeps; [exact Hi| |exact Hk]. apply elem_of_slab_pages. by eexists.
Qed.

(** *** Giving a page to the cache *)

Lemma slab_pages_delete w w' b h :
  ls_hdrs (w_slabs w) !! b = Some h → ls_hdrs (w_slabs w') = delete b (ls_hdrs (w_slabs w)) →
  slab_pages w ≡ₚ b :: slab_pages w'.
Proof.
  intros Hb Hd. unfold slab_pages. rewrite Hd, dom_delete_L.
  rewrite <- elements_union_singleton by set_solver. apply Permutation_refl'. f_equal.
  rewrite <- union_difference_singleton_L; [done|]. apply elem_of_dom. by eexists.
Qed.

Lemma live_nil_ne b held s : live b held = [] → s ∈ held → SlabHeader_from_ptr (fst s) ≠ b.
Proof.
  intros Hl Hs Hb. assert (fst s ∈ live b held) as Hin by (apply elem_of_live; by exists s).
  rewrite Hl in Hin. by apply elem_of_nil in Hin.
Qed.

Lemma winv_drop_page held larges w g w' b h cached :
  winv held larges w g → ls_hdrs (w_slabs w) !! b = Some h → g_place g !! b = Some Loose →
  live b held = [] →
  w_slabs w' = mkStore (delete b (ls_hdrs (w_slabs w))) (ls_heads (w_slabs w)) →
  w_abandoned w' = w_abandoned w →
  keeps (handed_out (slab_pages w') larges) (w_mem w) (w_mem w') →
  chain (w_mem w') (w_cache w') cached →
  w_cache_len w' = Z.of_nat (length cached) ∧ w_cache_len w' ≤ SLAB_CACHE_MAX →
  pp_ok (w_pool w') (slab_pages w' ++ cached ++ g_spare g) larges →
  winv held larges w' (set_pages (set_places g (delete b (g_place g))) cached (g_spare g)).
Proof.
  intros Hw Hb Hp Hlv Hst Hab Hk Hc Hlen Hpool.
  destruct Hw as [Hdom Hslab Hheld Hplace [HL Hdisj] Hqueued Hablen Habl Habp _ _ _].
  assert (∀ x p, g_place g !! x = Some p → p ≠ Loose → x ≠ b) as Hne by (intros x p Hx Hpl ->; congruence).
  split; rewrite ?Hst, ?Hab; cbn [ls_hdrs ls_heads set_pages set_places g_alive g_next g_place g_lists
    g_aband g_cached g_spare g_exempt]; try done.
  - intros b'. rewrite !lookup_delete. case_decide; [|apply Hdom]. by split; intros [].
  - intros b' h' [Hne' Hh']%lookup_delete_Some. destruct (Hslab b' h' Hh') as (? & loc & rem & Hi).
    split; [done|]. exists loc, rem. eapply slab_inv_keeps; [exact Hi| |exact Hk].
    apply elem_of_slab_pages. rewrite Hst. cbn. rewrite lookup_delete_ne by done. by eexists.
  - intros s Hs. destruct (Hheld s Hs) as (hs & Hhs & ?). exists hs. split; [|done].
    rewrite lookup_delete_ne; [done|]. intros E. by apply (live_nil_ne b held s).
  - intros b' h' p [_ Hh']%lookup_delete_Some [_ Hp']%lookup_delete_Some. by apply Hplace.
  - split; [|done]. intros c. apply (dlist_ext (w_slabs w)); [done| |apply HL]. intros x Hx%Hqueued. cbn.
    apply lookup_delete_ne. by apply not_eq_sym, (Hne x _ Hx).
  - intros c b'. rewrite Hqueued, lookup_delete. case_decide; [subst b'|done]. by rewrite Hp.
  - intros i top Hi. destruct (Habl i top Hi) as [Hch ?]. split; [|done].
    eapply hchain_ext; [|exact Hch]. intros x Hx%Habp. cbn.
    rewrite lookup_delete_ne; [done|]. by apply not_eq_sym, (Hne x _ Hx).
  - intros i b'. rewrite Habp, lookup_delete. case_decide; [subst b'|done]. by rewrite Hp.
Qed.

Definition cached_ghost g b cached : ghost :=
  set_pages (set_places g (delete b (g_place g))) cached (g_spare g).

Lemma page_only_links pages larges b m v :
  blocks_disjoint (handed_out (b :: pages) larges) →
  keeps (handed_out pages larges) m (write_next m b v).
Proof.
  intros [Hd _] bl x Hbl Hx. apply only_links_write. intros a ->%list_elem_of_singleton Hr.
  rewrite Forall_forall in Hd. apply (Hd bl Hbl x); [|exact Hx].
  unfold in_block. cbn. change SLAB_SIZE with 65536. lia.
Qed.

Lemma handed_out_app l1 l2 larges b :
  b ∈ handed_out l1 larges → b ∈ handed_out (l1 ++ l2) larges.
Proof. unfold handed_out. rewrite fmap_app, !elem_of_app. tauto. Qed.

Lemma keeps_sub L L' m m' : (∀ b, b ∈ L → b ∈ L') → keeps L' m m' → keeps L m m'.
Proof. intros Hs Hk b x Hb. apply Hk. auto. Qed.

(** The link of a slab's page is apart from those of the cached pages. *)
Lemma page_link_sep held larges w g b :
  winv held larges w g → b ∈ slab_pages w → Forall (link_sep b) (g_cached g) ∧ ptr_ok b.
Proof.
  intros Hw Hb. pose proof (winv_page_ok _ _ _ _ Hw) as Hok. split.
  - apply Forall_forall. intros a Ha. cbn.
    assert (slab_base_ok a ∧ slab_base_ok b) as [[[i ->] _] [[j ->] _]] by (split; apply Hok; rewrite !elem_of_app; auto).
    change SLAB_SIZE with 65536 in *. destruct (decide (i = j)) as [->|]; [|lia].
    pose proof (winv_pages_NoDup _ _ _ _ Hw) as (_ & Hno & _)%NoDup_app.
    destruct (Hno _ Hb). rewrite elem_of_app. auto.
  - destruct (Hok b) as (_ & ? & ?); [rewrite elem_of_app; auto|].
    unfold ptr_ok. change SLAB_SIZE with 65536 in *. lia.
Qed.

(** Without the header of [b], of which nothing is live, what keeps the other pages keeps the program's blocks. *)
Lemma drop_page_keeps held larges w g b m' :
  let wd := set_slabs w (mkStore (delete b (ls_hdrs (w_slabs w))) (ls_heads (w_slabs w))) in
  winv held larges w g → live b held = [] →
  keeps (handed_out (slab_pages wd ++ g_cached g ++ g_spare g) larges) (w_mem w) m' →
  keeps (user_blocks held larges) (w_mem w) m' ∧ keeps (handed_out (slab_pages wd) larges) (w_mem w) m'.
Proof.
  intros wd Hw Hlv Hk.
  assert (keeps (handed_out (slab_pages wd) larges) (w_mem w) m') as Hk'
    by (eapply keeps_sub; [|exact Hk]; intros; by apply handed_out_app).
  split; [|done]. eapply (user_keeps held larges larges w g (slab_pages wd)); [exact Hw|done| |exact Hk'].
  intros s Hs. destruct (wi_held _ _ _ _ Hw s Hs) as (hs & Hhs & _).
  apply elem_of_slab_pages. cbn. rewrite lookup_delete_ne, Hhs; [by eexists|].
  pose proof (live_nil_ne b held s Hlv Hs). congruence.
Qed.

Lemma cache_slab_ok held larges w g b h :
  winv held larges w g → ls_hdrs (w_slabs w) !! b = Some h → g_place g !! b = Some Loose →
  live b held = [] →
  ∃ w' cached, PagePool_cache_slab w b = Ok w' ∧ winv held larges w' (cached_ghost g b cached) ∧
    keeps (user_blocks held larges) (w_mem w) (w_mem w') ∧ hdr_frame [b] w w' ∧
    ls_hdrs (w_slabs w') = delete b (ls_hdrs (w_slabs w)) ∧
    (cached = b :: g_cached g ∨ cached = g_cached g).
Proof.
  intros Hw Hb Hp Hlv. pose proof (wi_cache_len _ _ _ _ Hw) as [Hlen Hmax]. pose proof (wi_cache _ _ _ _ Hw) as Hch.
  set (st := mkStore (delete b (ls_hdrs (w_slabs w))) (ls_heads (w_slabs w))).
  set (wd := set_slabs w st). pose proof (λ m', drop_page_keeps held larges w g b m' Hw Hlv) as Hkeep.
  assert (slab_pages w ≡ₚ b :: slab_pages wd) as Hpg by by eapply slab_pages_delete.
  destruct (page_link_sep held larges w g b Hw) as [Hsep Hptr]; [rewrite Hpg; by left|].
  pose proof (wi_pool _ _ _ _ Hw) as Hpool.
  apply (pp_ok_perm _ _ (b :: slab_pages wd ++ g_cached g ++ g_spare g) _ larges) in Hpool;
    [|by rewrite Hpg|done].
  assert (∀ x, x ∉ [b] → ls_hdrs st !! x = ls_hdrs (w_slabs w) !! x) as Hfr
    by (intros x Hx; apply lookup_delete_ne; set_solver).
  pose proof (cache_push_ok (w_mem w) (w_cache w) (g_cached g) b Hch Hptr Hsep ltac:(lia)) as Hpush.
  unfold PagePool_cache_slab. rewrite Hlen. fold st. fold wd. case_bool_decide as Hfull.
  - rewrite Hpush. destruct (pp_dealloc_slab_ok _ b _ larges Hpool) as (p & E & Hk & Hp').
    change (w_pool wd) with (w_pool w). rewrite E. cbn [mbind res_bind]. destruct (Hkeep _ Hk) as [Hk1 Hk2].
    exists (set_pool wd p), (g_cached g). split; [done|]. split; [|by auto].
    eapply (winv_drop_page held larges w g _ b h); try done.
    eapply chain_keeps; [exact Hch| |exact Hk]. intros a Ha. rewrite !elem_of_app. auto.
  - destruct Hpush as [-> Hch'].
    set (w1 := set_cache (set_mem wd (link_set (w_mem w) b (w_cache w))) b (Z.of_nat (length (b :: g_cached g)))).
    exists w1, (b :: g_cached g). split; [done|].
    assert (w_mem w1 = link_set (w_mem w) b (w_cache w)) as Hmem by apply pp_mem_set.
    destruct (Hkeep (link_set (w_mem w) b (w_cache w))) as [Hk1 Hk2]; [by apply page_only_links, (pp_ok_blocks _ _ _ Hpool)|].
    split; [|rewrite Hmem; by auto].
    eapply (winv_drop_page held larges w g w1 b h); try done; rewrite ?Hmem; try done.
    + cbn [w1 w_cache_len set_cache]. split; [done|]. cbn [length]. unfold SLAB_CACHE_MAX in *. lia.
    + cbn [w1 w_pool]. eapply (pp_ok_perm _ (b :: slab_pages wd ++ g_cached g ++ g_spare g)); [|reflexivity|].
      { change (slab_pages _) with (slab_pages wd). cbn [app]. by rewrite Permutation_middle. }
      apply pp_set_mem_ok; [exact Hpool|]. intros x Hx. apply only_links_write.
      intros a ->%list_elem_of_singleton Hr. apply (Hx (page_block b)); [by left|].
      unfold in_block. cbn. change SLAB_SIZE with 65536. lia.
Qed.

(** *** Taking a page *)

Definition take_page w : res (option Z * world W) :=
  match PagePool_uncache_slab w with
  | (Some raw, w) => Ok (Some raw, w)
  | (None, w) => '(raw, p) ← pp_alloc_slab (w_pool w); Ok (raw, set_pool w p)
  end.

Lemma keeps_pages w pages larges m :
  keeps (handed_out (slab_pages w ++ pages) larges) (w_mem w) m →
  keeps (handed_out (slab_pages w) larges) (w_mem w) m.
Proof. apply keeps_sub. intros. by apply handed_out_app. Qed.

Lemma held_pages held larges w g s :
  winv held larges w g → s ∈ held → SlabHeader_from_ptr (fst s) ∈ slab_pages w.
Proof.
  intros Hw Hs. destruct (wi_held _ _ _ _ Hw s Hs) as (h & Hh & _).
  apply elem_of_slab_pages. by eexists.
Qed.

Lemma take_page_ok held larges w g :
  winv held larges w g → g_spare g = [] →
  ∃ r w' cached, take_page w = Ok (r, w') ∧ w_slabs w' = w_slabs w ∧
    keeps (user_blocks held larges) (w_mem w) (w_mem w') ∧
    winv held larges w' (set_pages g cached (match r with Some p => [p] | None => [] end)) ∧
    w_abandoned w' = w_abandoned w ∧
    (r = None → w_cache w' = 0 ∧ pp_alloc_slab (w_pool w) = Ok (None, w_pool w')).
Proof.
  intros Hw Hsp. pose proof (wi_cache_len _ _ _ _ Hw) as [Hlen Hmax].
  pose proof (wi_cache _ _ _ _ Hw) as Hch. pose proof (wi_pool _ _ _ _ Hw) as Hpool.
  rewrite Hsp, app_nil_r in Hpool. unfold take_page, PagePool_uncache_slab.
  pose proof (uncache_slab_ok (w_mem w) (w_cache w) (g_cached g) Hch ltac:(lia)) as Hun.
  rewrite Hlen. destruct (g_cached g) as [|p cached] eqn:Hc.
  - rewrite Hun, set_mem_id. cbn [w_pool set_cache].
    destruct (pp_alloc_slab_ok (w_pool w) _ larges Hpool) as (r & p & -> & Hk & Hp).
    cbn [mbind res_bind]. do 2 eexists. exists []. split; [done|]. split; [done|]. split; [|split].
    + eapply user_keeps; [exact Hw| | |exact Hk]; [done|]. intros s Hs. rewrite app_nil_r. by eapply held_pages.
    + eapply (winv_remem held larges larges w _ g [] _ larges Hw); try done.
      * by apply keeps_pages in Hk.
      * destruct r as [p'|]; [|exact Hp].
        eapply pp_ok_perm; [|reflexivity|exact Hp]. cbn. rewrite app_nil_r. perm.
    + split; [done|intros ->]. split; [exact Hch|done].
  - destruct Hun as [-> Hch']. rewrite set_mem_id.
    do 2 eexists. exists cached. do 3 (split; [done|]). split; [|done].
    eapply (winv_remem held larges larges w _ g cached _ larges Hw); try done.
    + cbn [w_cache_len set_cache length] in *. split; [done|]. lia.
    + cbn [w_pool set_cache]. eapply pp_ok_perm; [|reflexivity|exact Hpool]. perm.
Qed.

(** The header of a spare page is written: a new, loose slab. *)
Lemma init_header_ok held larges w g p cached idx id :
  winv held larges w (set_pages g cached [p]) → 0 ≤ idx < NUM_CLASSES → id < g_next g →
  winv held larges (set_header w p (SlabHeader_init idx id)) (set_pages (put_place g p Loose) cached []).
Proof.
  intros Hw Hidx Hid. pose proof (winv_page_ok _ _ _ _ Hw p) as Hp.
  cbn [g_cached g_spare set_pages] in Hp. specialize (Hp ltac:(set_solver)).
  assert (ls_hdrs (w_slabs w) !! p = None) as Hnone.
  { apply eq_None_not_Some. intros Hin%elem_of_slab_pages.
    pose proof (winv_pages_NoDup _ _ _ _ Hw) as (_ & Hno & _)%NoDup_app.
    apply (Hno p Hin). cbn. set_solver. }
  destruct Hw as [Hdom Hslab Hheld Hplace [HL Hdisj] Hqueued Hablen Habl Habp Hch Hlen Hpool].
  cbn [g_place g_lists g_aband g_cached g_spare g_exempt g_alive g_next set_pages] in *.
  assert (g_place g !! p = None) as Hpn.
  { apply eq_None_not_Some. rewrite <- Hdom, Hnone. by intros []. }
  assert (∀ s, s ∈ held → SlabHeader_from_ptr (fst s) ≠ p) as Hne.
  { intros s Hs E. destruct (Hheld s Hs) as (h & Hh & _). congruence. }
  split; cbn [set_header set_slabs w_slabs w_abandoned w_cache w_cache_len w_pool put_header ls_hdrs
    ls_heads put_place set_places set_pages g_place g_lists g_aband g_cached g_spare g_exempt g_alive g_next];
    try done.
  - intros b. rewrite !lookup_insert. case_decide; [|apply Hdom]. split; intros; by eexists.
  - intros b h. rewrite lookup_insert. case_decide as Heq; [subst b|apply Hslab]. intros [= <-].
    split; [done|]. exists [], [].
    assert (live p held = []) as ->.
    { unfold live. rewrite (filter_none _ held); [done|]. intros s Hs. by apply Hne. }
    by apply slab_init_inv.
  - intros s Hs. rewrite lookup_insert_ne; [by apply Hheld|]. by apply not_eq_sym, Hne.
  - intros b h q. rewrite !lookup_insert. case_decide; [by intros _ [= <-]|apply Hplace].
  - split; [|done]. intros c. apply (dlist_ext (w_slabs w)); [done| |apply HL].
    intros x Hx%Hqueued. cbn. apply lookup_insert_ne. intros ->. congruence.
  - intros c b. rewrite Hqueued, lookup_insert. case_decide; [subst b|done]. by rewrite Hpn.
  - intros i top Hi. destruct (Habl i top Hi) as [Hc ?]. split; [|done].
    eapply hchain_ext; [|exact Hc]. intros x Hx%Habp. cbn. rewrite lookup_insert_ne; [done|].
    intros ->. congruence.
  - intros i b. rewrite Habp, lookup_insert. case_decide; [subst b|done]. by rewrite Hpn.
  - eapply pp_ok_perm; [|reflexivity|exact Hpool]. unfold slab_pages. cbn.
    rewrite dom_insert_L, elements_union_singleton by (by apply not_elem_of_dom). perm.
Qed.

(** *** Large blocks and the pool's counters *)

Lemma pool_op_ok held larges larges' w g p :
  winv held larges w g → (∀ l, l ∈ larges' → l ∈ larges) →
  keeps (handed_out (slab_pages w ++ g_cached g ++ g_spare g) larges') (w_mem w) (pp_mem p) →
  (∀ larges1, pp_ok p (slab_pages w ++ g_cached g ++ g_spare g) larges1 →
     winv held larges1 (set_pool w p) g) ∧
  keeps (user_blocks held larges') (w_mem w) (pp_mem p).
Proof.
  intros Hw Hlg Hk. split.
  - intros larges1 Hp. destruct g as [al nx pl L A ca sp ex].
    eapply (winv_remem held larges larges1 w (set_pool w p) _ ca sp larges' Hw); try done.
    + by apply keeps_pages in Hk.
    + eapply chain_keeps; [exact (wi_cache _ _ _ _ Hw)| |exact Hk]. intros a Ha.
      rewrite !elem_of_app. auto.
    + exact (wi_cache_len _ _ _ _ Hw).
  - eapply user_keeps; [exact Hw| | |exact Hk]; [done|]. intros s Hs. apply elem_of_app. left.
    by eapply held_pages.
Qed.

Lemma count_ok held larges w g (idx : Z) incr :
  winv held larges w g → 0 ≤ idx < NUM_CLASSES →
  incr = pp_inc_abandon_count ∨ incr = pp_inc_adopt_count →
  ∃ p, incr (w_pool w) idx = Ok p ∧ winv held larges (set_pool w p) g ∧ w_mem (set_pool w p) = w_mem w.
Proof.
  intros Hw Hidx Hincr.
  destruct (pp_inc_ok (w_pool w) _ larges idx incr (wi_pool _ _ _ _ Hw) Hidx Hincr)
    as (p & Hp & Hm & Hpk).
  exists p. split; [done|]. split; [|exact Hm].
  destruct (pool_op_ok held larges larges w g p Hw) as [Hw' _]; [done| |by apply Hw'].
  unfold w_mem. rewrite Hm. apply keeps_refl.
Qed.

(** ** Abandoned slabs *)

(** A loose slab takes any links and any owner. *)
Lemma loose_header_ok held larges w g b h h' :
  winv held larges w g → ls_hdrs (w_slabs w) !! b = Some h → g_place g !! b = Some Loose →
  (size_class_index h', slot_size h', slot_count h', slots_offset h', bump_cursor h',
   bump_remaining h', local h', remote h') =
  (size_class_index h, slot_size h, slot_count h, slots_offset h, bump_cursor h,
   bump_remaining h, local h, remote h) →
  heap_id h' < g_next g → winv held larges (set_header w b h') g.
Proof.
  intros Hw Hb Hp Heq Hid.
  assert (slab_pages (set_header w b h') = slab_pages w) as Hpg
    by (unfold slab_pages; f_equal; cbn; apply dom_insert_lookup_L; by eexists).
  destruct Hw as [Hdom Hslab Hheld Hplace [HL Hdisj] Hqueued Hablen Habl Habp Hch Hlen Hpool].
  assert (∀ x p, g_place g !! x = Some p → p ≠ Loose → x ≠ b) as Hne by (intros x p Hx Hpl ->; congruence).
  split; rewrite ?Hpg; cbn [set_header set_slabs w_slabs w_abandoned w_cache w_cache_len w_pool
    put_header ls_hdrs ls_heads]; try done.
  - intros x. rewrite lookup_insert. case_decide; [subst x|apply Hdom]. rewrite Hp. split; by eexists.
  - intros x hx. rewrite lookup_insert. case_decide; [subst x|apply Hslab]. intros [= <-].
    split; [done|]. destruct (Hslab b h Hb) as (_ & loc & rem & Hi). exists loc, rem.
    by eapply slab_inv_header.
  - intros s Hs. destruct (Hheld s Hs) as (hs & Hhs & Hcl). rewrite lookup_insert.
    case_decide as E; [|by exists hs]. rewrite <- E, Hb in Hhs. injection Hhs as <-.
    exists h'. split; [done|]. by injection Heq as -> _.
  - intros x hx p. rewrite lookup_insert. case_decide; [subst x|apply Hplace].
    rewrite Hp. by intros _ [= <-].
  - split; [|done]. intros c. apply (dlist_ext (w_slabs w)); [done| |apply HL].
    intros x Hx%Hqueued. cbn. apply lookup_insert_ne, not_eq_sym. by eapply Hne.
  - intros i top Hi. destruct (Habl i top Hi) as [Hc ?]. split; [|done].
    eapply hchain_ext; [|exact Hc]. intros x Hx%Habp. cbn. rewrite lookup_insert_ne; [done|].
    apply not_eq_sym. by eapply Hne.
Qed.

Definition abandon_ghost g b idx : ghost :=
  set_aband (put_place g b (Abandoned idx)) (<[idx := b :: g_aband g idx]> (g_aband g)).

Lemma nonnull_page b : slab_base_ok b → nonnull b = Some b.
Proof. intros (_ & ? & _). unfold nonnull. destruct (Z.eqb_spec b 0); [lia|done]. Qed.

Lemma abandoned_top held larges w g idx :
  winv held larges w g → 0 ≤ idx < NUM_CLASSES →
  ∃ top, w_abandoned w !! Z.to_nat idx = Some top ∧ arr_get (w_abandoned w) idx = Ok top ∧
    hchain (w_slabs w) (nonnull top) (g_aband g idx) ∧ NoDup (g_aband g idx).
Proof.
  intros Hw Hidx. destruct (arr_get_total (w_abandoned w) idx) as (top & Hg & Hl);
    [rewrite (wi_aband_len _ _ _ _ Hw); lia|].
  exists top. split; [done|]. split; [done|].
  destruct (wi_aband _ _ _ _ Hw _ _ Hl) as [Hc Hnd]. by rewrite Z2Nat.id in Hc, Hnd by lia.
Qed.

Lemma abandon_ok held larges w g b h :
  winv held larges w g → ls_hdrs (w_slabs w) !! b = Some h → g_place g !! b = Some Loose →
  heap_id h ∉ g_alive g →
  ∃ w', PagePool_abandon_slab w b = Ok w' ∧ w_mem w' = w_mem w ∧ hdr_frame [b] w w' ∧
    winv held larges w' (abandon_ghost g b (size_class_index h)).
Proof.
  intros Hw Hb Hp Halive. set (idx := size_class_index h).
  destruct (wi_slab _ _ _ _ Hw b h Hb) as (Hid & loc & rem & Hi).
  assert (0 ≤ idx < NUM_CLASSES) as Hidx by apply Hi.
  destruct (abandoned_top held larges w g idx Hw Hidx) as (top & Hl & Hg & Hc & Hnd).
  set (h' := Slab_set_next_link h (nonnull top)).
  assert (winv held larges (set_header w b h') g) as Hw1
    by (by eapply (loose_header_ok held larges w g b h h')).
  assert (Z.to_nat idx < length (w_abandoned w))%nat as Hlt by by eapply lookup_lt_Some.
  set (w2 := set_abandoned (set_header w b h') (<[Z.to_nat idx := b]> (w_abandoned w))).
  assert (b ∉ g_aband g idx) as Hno by (rewrite (wi_aband_place _ _ _ _ Hw), Hp; done).
  assert (winv held larges w2 (abandon_ghost g b idx)) as Hw2.
  { destruct Hw1 as [Hdom Hslab Hheld Hplace HL Hqueued Hablen Habl Habp Hch Hlen Hpool].
    split; cbn [w2 set_abandoned w_slabs w_abandoned w_cache w_cache_len w_pool abandon_ghost set_aband
      put_place set_places g_alive g_next g_place g_lists g_aband g_cached g_spare g_exempt]; try done.
    - intros x. rewrite lookup_insert. case_decide; [subst x|apply Hdom]. rewrite Hdom, Hp. split; by eexists.
    - intros x hx p Hx. rewrite lookup_insert. case_decide; [subst x|by apply Hplace].
      intros [= <-]. cbn in Hx. rewrite lookup_insert_eq in Hx. injection Hx as <-. by split.
    - intros c x. rewrite Hqueued, lookup_insert. case_decide; [subst x|done]. by rewrite Hp.
    - by rewrite length_insert.
    - intros i t. rewrite list_lookup_insert_Some. intros [(<- & <- & _)|[Hne Hit]].
      + rewrite Z2Nat.id by lia. rewrite fn_lookup_insert, nonnull_page by apply Hi. split.
        * split; [done|]. exists h'. split; [apply lookup_insert_eq|].
          eapply hchain_ext; [|exact Hc]. intros x Hx. cbn. rewrite lookup_insert_ne; [done|].
          by intros ->.
        * by apply NoDup_cons.
      + rewrite fn_lookup_insert_ne by lia. by apply Habl.
    - intros i x. rewrite lookup_insert. destruct (decide (i = idx)) as [->|Hne].
      + rewrite fn_lookup_insert, elem_of_cons, Habp. case_decide; [subst x; naive_solver|].
        split; [intros [->|?]; done|auto].
      + rewrite fn_lookup_insert_ne by done. rewrite Habp. case_decide; [subst x|done].
        rewrite Hp. split; [done|]. intros [= ->]. done. }
  destruct (count_ok held larges w2 _ idx pp_inc_abandon_count Hw2 Hidx) as (p & Hpi & Hw3 & Hm); [by left|].
  exists (set_pool w2 p). unfold PagePool_abandon_slab, get_header. rewrite Hb.
  cbn [res_of_option mbind res_bind]. fold idx. rewrite Hg. cbn [mbind res_bind].
  change (w_abandoned (set_header w b _)) with (w_abandoned w).
  rewrite arr_set_total by (rewrite (wi_aband_len _ _ _ _ Hw); lia). cbn [mbind res_bind].
  change (w_pool (set_header w b _)) with (w_pool w2). rewrite Hpi. split; [done|].
  split; [exact Hm|]. split; [|exact Hw3].
  intros x Hx. cbn. apply lookup_insert_ne. set_solver.
Qed.

(** All slabs of a list become loose. *)
Definition loosen (l : list Z) (pl : gmap Z place) : gmap Z place :=
  foldr (λ b pl, <[b := Loose]> pl) pl l.

Lemma loosen_lookup l pl b : loosen l pl !! b = if decide (b ∈ l) then Some Loose else pl !! b.
Proof.
  induction l as [|x l IH]; [done|].
  change (loosen (x :: l) pl) with (<[x := Loose]> (loosen l pl)). rewrite lookup_insert, IH.
  repeat case_decide; subst; set_solver.
Qed.

Definition adopt_ghost g idx : ghost :=
  set_aband (set_places g (loosen (g_aband g idx) (g_place g))) (<[idx := []]> (g_aband g)).

Lemma adopt_all_ok held larges w g idx :
  winv held larges w g → 0 ≤ idx < NUM_CLASSES →
  ∃ w', PagePool_adopt_all w idx = Ok (head (g_aband g idx), w') ∧ w_slabs w' = w_slabs w ∧
    w_mem w' = w_mem w ∧ hchain (w_slabs w) (head (g_aband g idx)) (g_aband g idx) ∧
    NoDup (g_aband g idx) ∧ winv held larges w' (adopt_ghost g idx).
Proof.
  intros Hw Hidx. destruct (abandoned_top held larges w g idx Hw Hidx) as (top & Hl & Hg & Hc & Hnd).
  assert (nonnull top = head (g_aband g idx)) as Htop
    by (destruct (g_aband g idx); [done|by destruct Hc]).
  assert (winv held larges (set_abandoned w (<[Z.to_nat idx := 0]> (w_abandoned w))) (adopt_ghost g idx)) as Hw'.
  { pose proof (lookup_lt_Some _ _ _ Hl) as Hlt.
    destruct Hw as [Hdom Hslab Hheld Hplace HL Hqueued Hablen Habl Habp Hch Hlen Hpool].
    split; cbn [set_abandoned w_slabs w_abandoned w_cache w_cache_len w_pool adopt_ghost set_aband
      set_places g_alive g_next g_place g_lists g_aband g_cached g_spare g_exempt]; try done.
    - intros x. rewrite loosen_lookup. case_decide as Hin; [|apply Hdom].
      apply Habp in Hin. rewrite Hdom, Hin. split; by eexists.
    - intros x hx p Hx. rewrite loosen_lookup. case_decide; [by intros [= <-]|by apply Hplace].
    - intros c x. rewrite Hqueued, loosen_lookup. case_decide as Hin; [|done].
      apply Habp in Hin. by rewrite Hin.
    - by rewrite length_insert.
    - intros i t. rewrite list_lookup_insert_Some. intros [(<- & <- & _)|[Hne Hit]].
      + rewrite Z2Nat.id by lia. rewrite fn_lookup_insert. split; [done|constructor].
      + rewrite fn_lookup_insert_ne by lia. by apply Habl.
    - intros i x. rewrite loosen_lookup. destruct (decide (i = idx)) as [->|Hne].
      + rewrite fn_lookup_insert, elem_of_nil. case_decide as Hin; [done|]. by rewrite <- Habp.
      + rewrite fn_lookup_insert_ne by done. rewrite Habp. case_decide as Hin; [|done].
        apply Habp in Hin. rewrite Hin. split; [intros [= ->]; done|done]. }
  unfold PagePool_adopt_all. rewrite Hg. cbn [mbind res_bind]. rewrite <- Htop.
  destruct (Z.eqb_spec top 0) as [->|Hne].
  - change (nonnull 0) with (@None Z) in *. exists w.
    assert (set_abandoned w (<[Z.to_nat idx := 0]> (w_abandoned w)) = w) as Hsame.
    { destruct w. unfold set_abandoned. cbn in *. by rewrite list_insert_id. }
    rewrite Hsame in Hw'. done.
  - exists (set_abandoned w (<[Z.to_nat idx := 0]> (w_abandoned w))).
    rewrite arr_set_total by (rewrite (wi_aband_len _ _ _ _ Hw); lia). by rewrite Htop in *.
Qed.
End winv.
