(* ===== verification/HeapEnv.v ===== *)
(** * Heaps while other threads free

    The slots that are not free are those the program holds and those whose
    free is still in flight ([w_flight]): [hinv] is the invariant of [HeapInv]
    for both together, with the program's slots [held] as a parameter.  A push
    that lands moves a slot from the flight to the remote list of its slab, so
    [hinv] holds on, and of the headers only the remote lists change
    ([rframe]).  The primitives of [HeapInv] keep [hinv], and so does a drain
    with pushes landing before it. *)

From stdpp Require Import functions base numbers list gmap.
From Stdlib Require Import ZArith Lia.
From S2P Require Import Prelude SizeClass LinkMem FreeList Treiber Slab SlabSpec SlabList Sys Metrics PageList PoolSeq SlabCache PagePort Heap HeapInv.

Local Open Scope Z_scope.
Local Open Scope clm_scope.
Arguments SLAB_SIZE : simpl never.
Arguments class_size : simpl never.
Arguments Z.div : simpl never.

(** ** Headers up to their remote lists *)

Definition erase_remote (h : SlabHeader) : SlabHeader := with_remote h 0.

Lemma erase_remote_fields h h' :
  erase_remote h' = erase_remote h → same_slab h h' ∧ Slab_free_count h' = Slab_free_count h.
Proof. destruct h, h'. unfold erase_remote, with_remote, same_slab. cbn. by intros [= -> -> -> -> -> -> -> -> -> ->]. Qed.

Section env.
Context {W : Type} `{PagePortLaws W}.
Implicit Types (w : world W) (g : ghost) (held : list slot) (larges : list block).

(** Outside [X] the headers keep everything but their remote lists. *)
Definition rframe (X : list Z) w w' : Prop :=
  ∀ x, x ∉ X → erase_remote <$> ls_hdrs (w_slabs w') !! x = erase_remote <$> ls_hdrs (w_slabs w) !! x.

Lemma rframe_refl w : rframe [] w w.
Proof. done. Qed.

Lemma rframe_frame X w w' : hdr_frame X w w' → rframe X w w'.
Proof. intros Hf x Hx. by rewrite Hf. Qed.

Lemma rframe_mono X Y w w' : (∀ x, x ∈ X → x ∈ Y) → rframe X w w' → rframe Y w w'.
Proof. intros Hs Hf x Hx. apply Hf. auto. Qed.

Lemma rframe_trans X Y w1 w2 w3 : rframe X w1 w2 → rframe Y w2 w3 → rframe (X ++ Y) w1 w3.
Proof. intros H1 H2 x [Hx Hy]%not_elem_of_app. by rewrite H2, H1. Qed.

Lemma rframe_lookup X w w' x h :
  rframe X w w' → x ∉ X → ls_hdrs (w_slabs w) !! x = Some h →
  ∃ h', ls_hdrs (w_slabs w') !! x = Some h' ∧ same_slab h h' ∧ Slab_free_count h' = Slab_free_count h.
Proof.
  intros Hf Hx Hh. specialize (Hf x Hx). rewrite Hh in Hf. destruct (ls_hdrs (w_slabs w') !! x) as [h'|]; [|done].
  exists h'. split; [done|]. apply erase_remote_fields. by apply (inj Some).
Qed.

(** The slab at [b] has a free slot. *)
Definition serves w (b : Z) : Prop :=
  ∃ hd, ls_hdrs (w_slabs w) !! b = Some hd ∧ 0 < Slab_free_count hd.

Lemma rframe_serves X w w' b : rframe X w w' → b ∉ X → serves w b → serves w' b.
Proof.
  intros Hf Hb (hd & Hhd & Hpos). destruct (rframe_lookup _ _ _ _ _ Hf Hb Hhd) as (hd' & Hhd' & _ & Hfc).
  exists hd'. split; [done|lia].
Qed.

(** ** The invariant *)

Definition hinv held larges w g : Prop := winv (held ++ w_flight w) larges w g.

Lemma hinv_of held larges w w' g :
  w_flight w' = w_flight w → winv (held ++ w_flight w) larges w' g → hinv held larges w' g.
Proof. unfold hinv. by intros ->. Qed.

Lemma user_blocks_more held fl larges b : b ∈ user_blocks held larges → b ∈ user_blocks (held ++ fl) larges.
Proof. unfold user_blocks. rewrite fmap_app, !elem_of_app. tauto. Qed.

Lemma keeps_held held fl larges m m' : keeps (user_blocks (held ++ fl) larges) m m' → keeps (user_blocks held larges) m m'.
Proof. apply keeps_sub. intros b. apply user_blocks_more. Qed.

Lemma live_more b held fl : live b (held ++ fl) = [] → live b held = [].
Proof. unfold live. rewrite filter_app, fmap_app. by intros [? _]%app_eq_nil. Qed.

Lemma hinv_perm held held' larges larges' w g :
  held ≡ₚ held' → larges ≡ₚ larges' → hinv held larges w g → hinv held' larges' w g.
Proof. intros Hh Hl. apply winv_perm; [by rewrite Hh|done]. Qed.

Lemma winv_flight held larges w g fl s :
  winv held larges w g → winv held larges (set_sched (set_flight w fl) s) g.
Proof. intros []. by split. Qed.

Lemma hinv_sched held larges w g s : hinv held larges w g → hinv held larges (set_sched w s) g.
Proof. intros []. by split. Qed.

Lemma hinv_user_write held larges w g m :
  hinv held larges w g →
  (∀ x, (∀ b, b ∈ user_blocks held larges → ¬ in_block b x) → read_byte m x = read_byte (w_mem w) x) →
  hinv held larges (set_mem w m) g.
Proof.
  intros Hw Hx. apply (hinv_of held larges w); [done|]. apply winv_user_write; [done|].
  intros x Hno. apply Hx. intros b Hb. apply Hno. by apply user_blocks_more.
Qed.

Lemma hinv_held_slab held larges w g s :
  hinv held larges w g → s ∈ held →
  ∃ h loc rem lv, ls_hdrs (w_slabs w) !! SlabHeader_from_ptr (fst s) = Some h ∧ fst s ∈ lv ∧
    slab_inv (SlabHeader_from_ptr (fst s)) (w_mem w) h loc rem lv ∧
    slot_size h = class_size (snd s) ∧
    SlabHeader_from_ptr (fst s) + 72 ≤ fst s ∧
    fst s + class_size (snd s) ≤ SlabHeader_from_ptr (fst s) + 65536.
Proof.
  intros Hw Hs. assert (s ∈ held ++ w_flight w) as Hs' by (rewrite elem_of_app; by left).
  destruct (held_slab _ _ _ _ _ Hw Hs') as (h & loc & rem & Hh & Hi & Hrest).
  exists h, loc, rem. eexists. split; [exact Hh|]. split; [|split; [exact Hi|exact Hrest]].
  apply elem_of_live. by exists s.
Qed.

Lemma hinv_disjoint held larges w g : hinv held larges w g → blocks_disjoint (user_blocks held larges).
Proof.
  intros Hd%user_disjoint. unfold user_blocks in *. rewrite fmap_app, <- app_assoc in Hd.
  apply pairwise_app in Hd as (H1 & H2 & H12). apply pairwise_app in H2 as (_ & H2 & _).
  apply pairwise_app. split; [done|]. split; [done|]. intros b b' Hb Hb'. apply H12; [done|].
  rewrite elem_of_app. by right.
Qed.
(** ** Pushes that land *)

Lemma take_slot_perm ptr fl fl' : take_slot ptr fl = Some fl' → ∃ s, fst s = ptr ∧ fl ≡ₚ s :: fl'.
Proof.
  revert fl'. induction fl as [|s fl IH]; intros fl'; cbn; [done|].
  destruct (Z.eqb_spec (fst s) ptr) as [Heq|_]; [intros [= ->]; by exists s|].
  intros (fl1 & E & ->)%fmap_Some. destruct (IH fl1 E) as (s' & Hs & Hp). exists s'.
  split; [done|]. rewrite Hp. apply Permutation_swap.
Qed.

(** What the frees of other threads do to a heap in the middle of a call. *)
Record env_step held larges w g w' : Prop := {
  ev_inv : hinv held larges w' g;
  ev_keeps : keeps (user_blocks held larges) (w_mem w) (w_mem w');
  ev_frame : rframe [] w w';
  ev_flight s : s ∈ w_flight w' → s ∈ w_flight w;
  ev_abandoned : w_abandoned w' = w_abandoned w;
}.

Lemma env_step_refl held larges w g : hinv held larges w g → env_step held larges w g w.
Proof. by split. Qed.

Lemma env_step_trans held larges w1 w2 w3 g :
  env_step held larges w1 g w2 → env_step held larges w2 g w3 → env_step held larges w1 g w3.
Proof.
  intros [] [? ? Hf ? ?]. split; [done|by eapply keeps_trans|by apply (rframe_trans [] [] w1 w2 w3)|auto|congruence].
Qed.

(** A push on a remote list leaves every other part of the headers alone. *)
Lemma dealloc_remote_frame w b a w' :
  slab_dealloc_remote_at w b a = Ok w' →
  rframe [] w w' ∧ w_abandoned w' = w_abandoned w ∧ w_flight w' = w_flight w ∧ w_sched w' = w_sched w.
Proof.
  unfold slab_dealloc_remote_at, get_header. destruct (ls_hdrs (w_slabs w) !! b) as [h|] eqn:Hb; [|done].
  cbn [res_of_option mbind res_bind]. unfold SlabRef_dealloc_remote. destruct (TreiberStack_push _ _) as [m top].
  intros [= <-]. split; [|done]. intros x _. cbn. rewrite lookup_insert. case_decide; [subst x|done].
  rewrite Hb. by destruct h.
Qed.

Lemma land_ok held larges w g a :
  hinv held larges w g → g_exempt g = None → ∃ w', land w a = Ok w' ∧ env_step held larges w g w'.
Proof.
  intros Hw Hex. unfold land. destruct (take_slot a (w_flight w)) as [fl|] eqn:E.
  2: { exists w. split; [done|]. by apply env_step_refl. }
  apply take_slot_perm in E as (s & <- & Hp).
  assert (held ++ w_flight w ≡ₚ s :: held ++ fl) as Hs by (by rewrite Hp, <- Permutation_middle).
  destruct (wi_held _ _ _ _ Hw s) as (h & Hh & _); [rewrite Hs; by left|].
  destruct (dealloc_remote_at_ok _ larges w g Hw Hex s (held ++ fl) Hs h Hh) as (w1 & E1 & Hw1 & Hk1).
  destruct (dealloc_remote_frame _ _ _ _ E1) as (Hf1 & Hab1 & Hfl1 & _). rewrite E1. cbn [mbind res_bind].
  exists (set_flight w1 fl). split; [done|]. split.
  - exact (winv_flight _ _ _ _ fl (w_sched w1) Hw1).
  - by apply (keeps_held held fl).
  - exact Hf1.
  - intros t Ht. rewrite Hp. by right.
  - exact Hab1.
Qed.

Lemma land_all_ok held larges g ptrs : ∀ w,
  hinv held larges w g → g_exempt g = None → ∃ w', land_all w ptrs = Ok w' ∧ env_step held larges w g w'.
Proof.
  induction ptrs as [|a ptrs IH]; intros w Hw Hex; [exists w; split; [done|by apply env_step_refl]|].
  destruct (land_ok held larges w g a Hw Hex) as (w1 & E1 & Hs1). cbn [land_all]. rewrite E1. cbn [mbind res_bind].
  destruct (IH w1 (ev_inv _ _ _ _ _ Hs1) Hex) as (w2 & E2 & Hs2). exists w2. split; [exact E2|].
  by eapply env_step_trans.
Qed.

Lemma interfere_ok held larges w g :
  hinv held larges w g → g_exempt g = None → ∃ w', interfere w = Ok w' ∧ env_step held larges w g w'.
Proof.
  intros Hw Hex. unfold interfere. destruct (w_sched w) as [|ptrs s]; [exists w; split; [done|by apply env_step_refl]|].
  destruct (land_all_ok held larges g ptrs (set_sched w s)) as (w' & E & []); [by apply hinv_sched|done|].
  exists w'. split; [exact E|]. by split.
Qed.

(** A free that ends with a push, whenever the push happens. *)
Lemma push_remote_ok mode held larges w g s held' h :
  hinv held larges w g → g_exempt g = None → held ≡ₚ s :: held' →
  ls_hdrs (w_slabs w) !! SlabHeader_from_ptr (fst s) = Some h →
  ∃ w', push_remote mode w (SlabHeader_from_ptr (fst s)) (fst s) (snd s) = Ok w' ∧ hinv held' larges w' g ∧
    keeps (user_blocks held' larges) (w_mem w) (w_mem w').
Proof.
  intros Hw Hex Hs Hh. destruct mode; cbn [push_remote].
  - assert (held ++ w_flight w ≡ₚ s :: held' ++ w_flight w) as Hs' by (by rewrite Hs).
    destruct (dealloc_remote_at_ok _ larges w g Hw Hex s _ Hs' h Hh) as (w' & E & Hw' & Hk).
    destruct (dealloc_remote_frame _ _ _ _ E) as (_ & _ & Hfl & _). exists w'. split; [exact E|].
    split; [by apply (hinv_of held' larges w)|by eapply keeps_held].
  - eexists. split; [done|]. split; [|apply keeps_refl]. destruct s as [a c]. cbn.
    apply (winv_perm (held ++ w_flight w) _ larges larges); [rewrite Hs; cbn; by rewrite <- Permutation_middle|done|].
    exact (winv_flight _ _ _ _ _ (w_sched w) Hw).
Qed.
(** ** The primitives

    None of them touches the flight, so each keeps [hinv] as it keeps [winv]. *)

Lemma slab_alloc_at_flight w b r w' : slab_alloc_at w b = Ok (r, w') → w_flight w' = w_flight w.
Proof. unfold slab_alloc_at. intros E. by run_inv. Qed.

Lemma slab_drain_now_flight w b w' :
  slab_drain_now w b = Ok w' → w_flight w' = w_flight w ∧ w_abandoned w' = w_abandoned w.
Proof. unfold slab_drain_now. intros E. by run_inv. Qed.

Lemma slab_dealloc_local_at_flight w b a w' : slab_dealloc_local_at w b a = Ok w' → w_flight w' = w_flight w.
Proof. unfold slab_dealloc_local_at. intros E. by run_inv. Qed.

Lemma heap_list_push_flight w c b w' : heap_list_push w c b = Ok w' → w_flight w' = w_flight w.
Proof. unfold heap_list_push. intros E. by run_inv. Qed.

Lemma heap_list_pop_flight w c r w' : heap_list_pop w c = Ok (r, w') → w_flight w' = w_flight w.
Proof. unfold heap_list_pop. intros E. by run_inv. Qed.

Lemma heap_list_remove_flight w b w' : heap_list_remove w b = Ok w' → w_flight w' = w_flight w.
Proof. unfold heap_list_remove. intros E. by run_inv. Qed.

Lemma cache_slab_flight w b w' : PagePool_cache_slab w b = Ok w' → w_flight w' = w_flight w.
Proof. unfold PagePool_cache_slab. intros E. by run_inv. Qed.

Lemma take_page_flight w r w' : take_page w = Ok (r, w') → w_flight w' = w_flight w.
Proof.
  unfold take_page, PagePool_uncache_slab. destruct (uncache_slab _) as [[raw|] [[m top] len]]; intros E; by run_inv.
Qed.

Lemma abandon_slab_flight w b w' : PagePool_abandon_slab w b = Ok w' → w_flight w' = w_flight w.
Proof. unfold PagePool_abandon_slab. intros E. by run_inv. Qed.

Lemma adopt_all_flight w c r w' : PagePool_adopt_all w c = Ok (r, w') → w_flight w' = w_flight w.
Proof. unfold PagePool_adopt_all. intros E. by run_inv. Qed.

Section slab_methods.
Context held larges w g (Hw : hinv held larges w g) (Hex : g_exempt g = None).
Context b h (Hb : ls_hdrs (w_slabs w) !! b = Some h).

Lemma alloc_at_hinv :
  (∀ c, g_place g !! b ≠ Some (Queued c)) →
  ∃ r w' h', slab_alloc_at w b = Ok (r, w') ∧ ls_hdrs (w_slabs w') !! b = Some h' ∧
    same_slab h h' ∧ w_mem w' = w_mem w ∧ rframe [b] w w' ∧
    match r with
    | Some a => 0 < Slab_free_count h ∧ hinv ((a, size_class_index h) :: held) larges w' g
    | None => Slab_free_count h = 0 ∧ w' = w
    end.
Proof.
  intros Hq. destruct (alloc_at_ok _ larges w g Hw Hex b h Hb Hq) as (r & w' & h' & E & Hb' & Hs & Hm & Hf & Hr).
  exists r, w', h'. do 4 (split; [done|]). split; [by apply rframe_frame|].
  destruct r as [a|]; [|done]. destruct Hr as [Hpos Hw']. split; [done|].
  apply (hinv_of _ _ w); [by eapply slab_alloc_at_flight|exact Hw'].
Qed.

(** A drain, with the pushes that land before it. *)
Lemma drain_at_hinv ex' :
  (∀ c, g_place g !! b = Some (Queued c) → ex' = Some b) →
  ∃ w' h', slab_drain_at w b = Ok w' ∧ ls_hdrs (w_slabs w') !! b = Some h' ∧ same_slab h h' ∧
    hinv held larges w' (set_exempt g ex') ∧ keeps (user_blocks held larges) (w_mem w) (w_mem w') ∧
    rframe [b] w w' ∧ (Slab_is_fully_free h' = true ↔ live b (held ++ w_flight w') = []) ∧
    Slab_free_count h ≤ Slab_free_count h' ∧ (∀ s, s ∈ w_flight w' → s ∈ w_flight w) ∧
    w_abandoned w' = w_abandoned w.
Proof.
  intros Hq. unfold slab_drain_at.
  destruct (interfere_ok held larges w g Hw Hex) as (w1 & -> & [Hw1 Hk1 Hf1 Hfl1 Hab1]). cbn [mbind res_bind].
  destruct (rframe_lookup [] w w1 b h Hf1) as (h1 & Hb1 & Hs1 & Hc1); [apply not_elem_of_nil|done|].
  destruct (drain_now_ok _ larges w1 g Hw1 Hex b h1 Hb1 ex' Hq)
    as (w2 & h2 & E2 & Hb2 & Hs2 & Hw2 & Hk2 & Hf2 & Hff & Hc2).
  destruct (slab_drain_now_flight _ _ _ E2) as [Hfl2 Hab2].
  exists w2, h2. split; [done|]. split; [done|]. split; [unfold same_slab in *; intuition congruence|].
  split; [by apply (hinv_of _ _ w1)|].
  split; [eapply keeps_trans; [exact Hk1|by eapply keeps_held]|].
  split; [by apply (rframe_trans [] [b] w w1 w2), rframe_frame|].
  rewrite Hfl2. split_and!; [exact Hff|lia|exact Hfl1|congruence].
Qed.
End slab_methods.

Lemma dealloc_local_at_hinv held larges w g (Hw : hinv held larges w g) (Hex : g_exempt g = None)
    s held' (Hs : held ≡ₚ s :: held') h (Hb : ls_hdrs (w_slabs w) !! SlabHeader_from_ptr (fst s) = Some h) ex' :
  (∀ c, g_place g !! SlabHeader_from_ptr (fst s) = Some (Queued c) → ex' = Some (SlabHeader_from_ptr (fst s))) →
  ∃ w' h', slab_dealloc_local_at w (SlabHeader_from_ptr (fst s)) (fst s) = Ok w' ∧
    ls_hdrs (w_slabs w') !! SlabHeader_from_ptr (fst s) = Some h' ∧
    same_slab h h' ∧ hinv held' larges w' (set_exempt g ex') ∧
    keeps (user_blocks held' larges) (w_mem w) (w_mem w') ∧
    (Slab_is_fully_free h' = true → live (SlabHeader_from_ptr (fst s)) (held' ++ w_flight w') = []) ∧
    Slab_free_count h' = Slab_free_count h + 1.
Proof.
  intros Hq. assert (held ++ w_flight w ≡ₚ s :: held' ++ w_flight w) as Hs' by (by rewrite Hs).
  destruct (dealloc_local_at_ok _ larges w g Hw Hex s _ Hs' h Hb ex' Hq)
    as (w' & h' & E & Hb' & Hsm & Hw' & Hk & _ & Hff & Hfc).
  pose proof (slab_dealloc_local_at_flight _ _ _ _ E) as Hfl.
  exists w', h'. do 3 (split; [done|]). split; [by apply (hinv_of _ _ w)|].
  split; [by eapply keeps_held|]. by rewrite Hfl.
Qed.

(** *** Lists *)

Section list_ops.
Context held larges w g (Hw : hinv held larges w g).

Lemma push_hinv c b h :
  ls_hdrs (w_slabs w) !! b = Some h → g_place g !! b = Some Loose →
  heap_id h = hc_heap c → size_class_index h = hc_class c →
  g_exempt g = Some b ∨ kind_ok (hc_kind c) h →
  ∃ w', heap_list_push w c b = Ok w' ∧ w_mem w' = w_mem w ∧
    hinv held larges w' (push_ghost g c b) ∧ rframe (b :: g_lists g c) w w'.
Proof.
  intros Hb Hp Hid Hcl Hk. destruct (push_ok _ larges w g Hw c b h Hb Hp Hid Hcl Hk) as (w' & E & Hm & Hw' & Hf).
  exists w'. split; [done|]. split; [done|]. split; [|by apply rframe_frame].
  apply (hinv_of _ _ w); [by eapply heap_list_push_flight|exact Hw'].
Qed.

Lemma pop_hinv c :
  match g_lists g c with
  | [] => heap_list_pop w c = Ok (None, w)
  | b :: l => ∃ w' h, heap_list_pop w c = Ok (Some b, w') ∧ w_mem w' = w_mem w ∧
      hinv held larges w' (drop_ghost g c b l) ∧ w_flight w' = w_flight w ∧
      ls_hdrs (w_slabs w) !! b = Some h ∧ taken b h w' ∧ g_place g !! b = Some (Queued c)
  end.
Proof.
  pose proof (pop_ok _ larges w g Hw c) as Hpop. destruct (g_lists g c) as [|b l]; [exact Hpop|].
  destruct Hpop as (w' & h & E & Hm & Hw' & _ & Hrest). pose proof (heap_list_pop_flight _ _ _ _ E) as Hfl.
  exists w', h. split; [done|]. split; [done|]. split; [by apply (hinv_of _ _ w)|done].
Qed.

Lemma remove_hinv c b l1 l2 :
  g_lists g c = l1 ++ b :: l2 →
  ∃ w' h, heap_list_remove w b = Ok w' ∧ w_mem w' = w_mem w ∧
    hinv held larges w' (drop_ghost g c b (l1 ++ l2)) ∧ rframe (g_lists g c) w w' ∧
    w_flight w' = w_flight w ∧ ls_hdrs (w_slabs w) !! b = Some h ∧ taken b h w'.
Proof.
  intros Hc. destruct (remove_ok _ larges w g Hw c b l1 l2 Hc) as (w' & h & E & Hm & Hw' & Hf & Hrest).
  pose proof (heap_list_remove_flight _ _ _ E) as Hfl. exists w', h. split; [done|]. split; [done|].
  split; [by apply (hinv_of _ _ w)|]. split; [by apply rframe_frame|done].
Qed.
End list_ops.
(** *** Places *)

Lemma hinv_set_place held larges w g b p q h :
  hinv held larges w g → ls_hdrs (w_slabs w) !! b = Some h → g_place g !! b = Some p →
  (∀ c, p ≠ Queued c ∧ q ≠ Queued c) → (∀ i, p ≠ Abandoned i ∧ q ≠ Abandoned i) →
  place_ok (g_alive g) (g_exempt g) b h q → hinv held larges w (put_place g b q).
Proof. apply winv_set_place. Qed.

Lemma hinv_end_exempt held larges w g b :
  hinv held larges w g → g_exempt g = Some b →
  (∀ c h, g_place g !! b = Some (Queued c) → ls_hdrs (w_slabs w) !! b = Some h → kind_ok (hc_kind c) h) →
  hinv held larges w (set_exempt g None).
Proof. apply winv_end_exempt. Qed.

Lemma hinv_exempt held larges w g b :
  hinv held larges w g → g_exempt g = None → hinv held larges w (set_exempt g (Some b)).
Proof.
  intros [? ? ? Hplace] Hex. split; try done.
  intros b' hd p Hb Hp. pose proof (Hplace b' hd p Hb Hp) as Hok. destruct p; cbn in *; try done.
  destruct Hok as (? & ? & [He|?]); [by rewrite Hex in He|auto].
Qed.

Lemma loose_header_hinv held larges w g b h h' :
  hinv held larges w g → ls_hdrs (w_slabs w) !! b = Some h → g_place g !! b = Some Loose →
  (size_class_index h', slot_size h', slot_count h', slots_offset h', bump_cursor h',
   bump_remaining h', local h', remote h') =
  (size_class_index h, slot_size h, slot_count h, slots_offset h, bump_cursor h,
   bump_remaining h, local h, remote h) →
  heap_id h' < g_next g → hinv held larges (set_header w b h') g.
Proof. intros Hw. apply (loose_header_ok _ larges w g b h h' Hw). Qed.

(** *** Pages *)

Lemma cache_slab_hinv held larges w g b h :
  hinv held larges w g → ls_hdrs (w_slabs w) !! b = Some h → g_place g !! b = Some Loose →
  live b (held ++ w_flight w) = [] →
  ∃ w' cached, PagePool_cache_slab w b = Ok w' ∧ hinv held larges w' (cached_ghost g b cached) ∧
    keeps (user_blocks held larges) (w_mem w) (w_mem w') ∧ rframe [b] w w' ∧ w_flight w' = w_flight w.
Proof.
  intros Hw Hb Hp Hl. destruct (cache_slab_ok _ larges w g b h Hw Hb Hp Hl) as (w' & cached & E & Hw' & Hk & Hf & _).
  pose proof (cache_slab_flight _ _ _ E) as Hfl. exists w', cached. split; [done|].
  split; [by apply (hinv_of _ _ w)|]. split; [by eapply keeps_held|]. split; [by apply rframe_frame|done].
Qed.

Lemma take_page_hinv held larges w g :
  hinv held larges w g → g_spare g = [] →
  ∃ r w' cached, take_page w = Ok (r, w') ∧ w_slabs w' = w_slabs w ∧
    keeps (user_blocks held larges) (w_mem w) (w_mem w') ∧
    hinv held larges w' (set_pages g cached (match r with Some p => [p] | None => [] end)) ∧
    w_abandoned w' = w_abandoned w ∧
    (r = None → w_cache w' = 0 ∧ pp_alloc_slab (w_pool w) = Ok (None, w_pool w')).
Proof.
  intros Hw Hsp. destruct (take_page_ok _ larges w g Hw Hsp) as (r & w' & cached & E & Hst & Hk & Hw' & Hrest).
  exists r, w', cached. split; [done|]. split; [done|]. split; [by eapply keeps_held|].
  split; [|done]. apply (hinv_of _ _ w); [by eapply take_page_flight|exact Hw'].
Qed.

Lemma init_header_hinv held larges w g p cached idx id :
  hinv held larges w (set_pages g cached [p]) → 0 ≤ idx < NUM_CLASSES → id < g_next g →
  hinv held larges (set_header w p (SlabHeader_init idx id)) (set_pages (put_place g p Loose) cached []).
Proof. apply init_header_ok. Qed.

Lemma pool_op_hinv held larges larges' w g p :
  hinv held larges w g → (∀ l, l ∈ larges' → l ∈ larges) →
  keeps (handed_out (slab_pages w ++ g_cached g ++ g_spare g) larges') (w_mem w) (pp_mem p) →
  (∀ larges1, pp_ok p (slab_pages w ++ g_cached g ++ g_spare g) larges1 →
     hinv held larges1 (set_pool w p) g) ∧
  keeps (user_blocks held larges') (w_mem w) (pp_mem p).
Proof.
  intros Hw Hlg Hk. destruct (pool_op_ok _ larges larges' w g p Hw Hlg Hk) as [Hw' Hk'].
  split; [exact Hw'|by eapply keeps_held].
Qed.

Lemma count_hinv held larges w g (idx : Z) incr :
  hinv held larges w g → 0 ≤ idx < NUM_CLASSES →
  incr = pp_inc_abandon_count ∨ incr = pp_inc_adopt_count →
  ∃ p, incr (w_pool w) idx = Ok p ∧ hinv held larges (set_pool w p) g ∧ w_mem (set_pool w p) = w_mem w.
Proof. exact (count_ok (held ++ w_flight w) larges w g idx incr). Qed.

(** *** Abandoned slabs *)

Lemma abandon_hinv held larges w g b h :
  hinv held larges w g → ls_hdrs (w_slabs w) !! b = Some h → g_place g !! b = Some Loose →
  heap_id h ∉ g_alive g →
  ∃ w', PagePool_abandon_slab w b = Ok w' ∧ w_mem w' = w_mem w ∧ w_flight w' = w_flight w ∧
    hinv held larges w' (abandon_ghost g b (size_class_index h)).
Proof.
  intros Hw Hb Hp Ha. destruct (abandon_ok _ larges w g b h Hw Hb Hp Ha) as (w' & E & Hm & _ & Hw').
  pose proof (abandon_slab_flight _ _ _ E) as Hfl. exists w'. do 3 (split; [done|]). by apply (hinv_of _ _ w).
Qed.

Lemma adopt_all_hinv held larges w g idx :
  hinv held larges w g → 0 ≤ idx < NUM_CLASSES →
  ∃ w', PagePool_adopt_all w idx = Ok (head (g_aband g idx), w') ∧ w_slabs w' = w_slabs w ∧
    w_mem w' = w_mem w ∧ hchain (w_slabs w) (head (g_aband g idx)) (g_aband g idx) ∧
    NoDup (g_aband g idx) ∧ hinv held larges w' (adopt_ghost g idx).
Proof.
  intros Hw Hidx. destruct (adopt_all_ok _ larges w g idx Hw Hidx) as (w' & E & Hst & Hm & Hc & Hnd & Hw').
  exists w'. do 5 (split; [done|]). apply (hinv_of _ _ w); [by eapply adopt_all_flight|exact Hw'].
Qed.
End env.
