(* ===== verification/HeapOps.v ===== *)
(** * The methods of a heap

    Each method of [Heap] as a change of the invariant: starting from a world
    in which the program holds the slots [held] and the large blocks [larges],
    the method returns, and leaves a world in which exactly the slot it
    allocated or freed has moved.  [hstep] is the shape of the methods that
    only move slabs around. *)

From stdpp Require Import functions base numbers list gmap.
From Stdlib Require Import ZArith Lia.
From S2P Require Import Prelude SizeClass LinkMem FreeList Treiber Slab SlabSpec SlabList Sys Metrics PageList PoolSeq SlabCache PagePort Heap HeapInv HeapEnv.

Local Open Scope Z_scope.
Local Open Scope clm_scope.
Arguments SLAB_SIZE : simpl never.
Arguments class_size : simpl never.
Arguments Z.div : simpl never.

(** ** States of a heap *)

(** The bins are the active slabs of the heap, whose id is in use. *)
Record heap_ok (h : Heap) (g : ghost) : Prop := {
  ho_len : Z.of_nat (length (hp_bins h)) = NUM_CLASSES;
  ho_bins idx b : 0 ≤ idx < NUM_CLASSES →
    hp_bins h !! Z.to_nat idx = Some (Some b) ↔ g_place g !! b = Some (Active (hp_id h) idx);
  ho_metrics : class_arrays_ok (hp_metrics h);
  ho_id : hp_id h < g_next g;
}.

(** No operation is in progress. *)
Definition settled (g : ghost) : Prop :=
  (∀ b, g_place g !! b ≠ Some Loose) ∧ g_exempt g = None ∧ g_spare g = [].

(** What an operation of the heap [id] does to the ghost state of the others. *)
Record gtrans (id : Z) (g g' : ghost) : Prop := {
  gt_alive : g_alive g' = g_alive g;
  gt_next : g_next g' = g_next g;
  gt_exempt : g_exempt g' = g_exempt g;
  gt_spare : g_spare g' = g_spare g;
  gt_active b id' idx : id' ≠ id →
    g_place g' !! b = Some (Active id' idx) ↔ g_place g !! b = Some (Active id' idx);
}.

Lemma gtrans_refl id g : gtrans id g g.
Proof. done. Qed.

Lemma gtrans_trans id g1 g2 g3 : gtrans id g1 g2 → gtrans id g2 g3 → gtrans id g1 g3.
Proof. intros [] []. split; try congruence. intros. by rewrite gt_active1, gt_active0. Qed.

(** Other heaps do not notice. *)
Lemma heap_ok_other (h : Heap) (g g' : ghost) id :
  heap_ok h g → gtrans id g g' → hp_id h ≠ id → heap_ok h g'.
Proof.
  intros [Hl Hb Hm Hid] [_ Hn _ _ Ha] Hne. split; [done| |done|by rewrite Hn].
  intros idx b Hidx. rewrite Ha by done. by apply Hb.
Qed.

(** Changing the place of a slab that is and stays no active slab of others. *)
Lemma gtrans_place id g g' b p q :
  g_place g !! b = Some p → g_place g' = <[b := q]> (g_place g) →
  g_alive g' = g_alive g → g_next g' = g_next g → g_exempt g' = g_exempt g → g_spare g' = g_spare g →
  (∀ id' idx, id' ≠ id → p ≠ Active id' idx ∧ q ≠ Active id' idx) →
  gtrans id g g'.
Proof.
  intros Hp Hpl ? ? ? ? Hne. split; try done. intros x id' idx Hid. rewrite Hpl, lookup_insert.
  case_decide; [subst x|done]. destruct (Hne id' idx Hid). rewrite Hp. split; congruence.
Qed.

(** A slab that is no active slab of the heap changes its place. *)
Lemma heap_ok_place h g g' b p q :
  heap_ok h g → g_place g !! b = Some p → g_place g' = <[b := q]> (g_place g) →
  g_next g' = g_next g → (∀ idx, p ≠ Active (hp_id h) idx ∧ q ≠ Active (hp_id h) idx) → heap_ok h g'.
Proof.
  intros [Hl Hb Hm Hid] Hp Hpl Hn Hne. split; [done| |done|by rewrite Hn].
  intros idx x Hidx. rewrite Hb, Hpl, lookup_insert by done. case_decide; [subst x|done].
  destruct (Hne idx). rewrite Hp. split; congruence.
Qed.

(** ** Bins *)

Lemma get_bin h g idx :
  heap_ok h g → 0 ≤ idx < NUM_CLASSES →
  ∃ bin, arr_get (hp_bins h) idx = Ok bin ∧ hp_bins h !! Z.to_nat idx = Some bin.
Proof. intros Hh Hidx. apply arr_get_total. rewrite (ho_len _ _ Hh). lia. Qed.

Lemma set_bin_ok h g idx bin :
  heap_ok h g → 0 ≤ idx < NUM_CLASSES →
  set_bin h idx bin = Ok (with_bins h (<[Z.to_nat idx := bin]> (hp_bins h))).
Proof.
  intros Hh Hidx. unfold set_bin. rewrite arr_set_total by (rewrite (ho_len _ _ Hh); lia). done.
Qed.

Lemma bins_set h g g' idx bin :
  heap_ok h g → 0 ≤ idx < NUM_CLASSES → g_next g' = g_next g →
  (∀ i b, 0 ≤ i < NUM_CLASSES → i ≠ idx →
     g_place g' !! b = Some (Active (hp_id h) i) ↔ g_place g !! b = Some (Active (hp_id h) i)) →
  (∀ b, bin = Some b ↔ g_place g' !! b = Some (Active (hp_id h) idx)) →
  heap_ok (with_bins h (<[Z.to_nat idx := bin]> (hp_bins h))) g'.
Proof.
  intros [Hl Hb Hm Hid] Hidx Hn Ho Hbin. split; cbn [with_bins hp_bins hp_id hp_metrics];
    [by rewrite length_insert| |done|by rewrite Hn].
  intros i b Hi. rewrite list_lookup_insert. case_decide as Heq.
  - assert (i = idx) as -> by lia. rewrite <- Hbin. split; [by intros [= ->]|by intros ->].
  - rewrite Ho; [by apply Hb|done|]. intros ->. apply Heq. split; [done|]. lia.
Qed.

(** An empty bin takes a loose slab. *)
Lemma fill_bin h g idx b :
  heap_ok h g → 0 ≤ idx < NUM_CLASSES → hp_bins h !! Z.to_nat idx = Some None →
  g_place g !! b = Some Loose →
  heap_ok (with_bins h (<[Z.to_nat idx := Some b]> (hp_bins h))) (put_place g b (Active (hp_id h) idx)).
Proof.
  intros Hh Hidx Hnone Hp. apply (bins_set h g); try done.
  - intros i x Hi Hne. cbn. rewrite lookup_insert. case_decide; [subst x|done]. rewrite Hp.
    split; congruence.
  - intros x. cbn. rewrite lookup_insert. case_decide; [subst x; done|].
    rewrite <- (ho_bins _ _ Hh), Hnone by done. split; congruence.
Qed.

(** A bin gives up its slab. *)
Lemma empty_bin h g idx b :
  heap_ok h g → 0 ≤ idx < NUM_CLASSES → hp_bins h !! Z.to_nat idx = Some (Some b) →
  heap_ok (with_bins h (<[Z.to_nat idx := None]> (hp_bins h))) (put_place g b Loose).
Proof.
  intros Hh Hidx Hsome. pose proof Hsome as Hp. rewrite (ho_bins _ _ Hh) in Hp by done.
  apply (bins_set h g); try done.
  - intros i x Hi Hne. cbn. rewrite lookup_insert. case_decide; [subst x|done]. rewrite Hp.
    split; congruence.
  - intros x. cbn. rewrite lookup_insert. case_decide; [done|].
    split; [done|]. rewrite <- (ho_bins _ _ Hh), Hsome by done. congruence.
Qed.

Lemma count_alloc_ok h g idx :
  heap_ok h g → 0 ≤ idx < NUM_CLASSES →
  ∃ h', count_alloc h idx = Ok h' ∧ heap_ok h' g ∧ hp_id h' = hp_id h ∧ hp_bins h' = hp_bins h.
Proof.
  intros [Hl Hb (H1 & H2 & H3 & H4) Hid] Hidx. unfold count_alloc, HeapMetrics_on_alloc.
  destruct (arr_update_total (class_alloc_count (hp_metrics h)) idx (λ c, inc c 1)) as (l1 & -> & E1); [lia|].
  destruct (arr_update_total (class_alloc_bytes (hp_metrics h)) idx (λ c, inc c (class_size idx)))
    as (l2 & -> & E2); [lia|]. cbn [mbind res_bind]. eexists. split; [done|].
  split; [|done]. split; try done. split_and!; cbn; lia.
Qed.

Lemma count_dealloc_ok h g idx :
  heap_ok h g → 0 ≤ idx < NUM_CLASSES →
  ∃ h', count_dealloc h idx = Ok h' ∧ heap_ok h' g ∧ hp_id h' = hp_id h ∧ hp_bins h' = hp_bins h.
Proof.
  intros [Hl Hb (H1 & H2 & H3 & H4) Hid] Hidx. unfold count_dealloc, HeapMetrics_on_dealloc.
  destruct (arr_update_total (class_dealloc_count (hp_metrics h)) idx (λ c, inc c 1)) as (l1 & -> & E1); [lia|].
  destruct (arr_update_total (class_free_bytes (hp_metrics h)) idx (λ c, inc c (class_size idx)))
    as (l2 & -> & E2); [lia|]. cbn [mbind res_bind]. eexists. split; [done|].
  split; [|done]. split; try done. split_and!; cbn; lia.
Qed.

Lemma heap_ok_metrics h g hm : heap_ok h g → class_arrays_ok hm → heap_ok (with_metrics h hm) g.
Proof. intros [] ?. by split. Qed.

(** ** Moving slabs around *)

Lemma get_header_ok st b hd : ls_hdrs st !! b = Some hd → get_header st b = Ok hd.
Proof. unfold get_header. by intros ->. Qed.

Section ops.
Context {W : Type} `{PagePortLaws W}.
Implicit Types (w : world W) (g : ghost) (held : list slot) (larges : list block) (h : Heap).

Record hstep held larges h w g h' w' g' : Prop := {
  hs_inv : hinv held larges w' g';
  hs_heap : heap_ok h' g';
  hs_id : hp_id h' = hp_id h;
  hs_trans : gtrans (hp_id h) g g';
  hs_keeps : keeps (user_blocks held larges) (w_mem w) (w_mem w');
}.

Lemma hstep_refl held larges h w g : hinv held larges w g → heap_ok h g → hstep held larges h w g h w g.
Proof. by split. Qed.

Lemma hstep_trans held larges h1 w1 g1 h2 w2 g2 h3 w3 g3 :
  hstep held larges h1 w1 g1 h2 w2 g2 → hstep held larges h2 w2 g2 h3 w3 g3 →
  hstep held larges h1 w1 g1 h3 w3 g3.
Proof.
  intros [] [Hi Hh Hid Ht Hk]. split; [done|done|congruence| |by eapply keeps_trans].
  rewrite hs_id0 in Ht. by eapply gtrans_trans.
Qed.

(** The loose slabs of [g'] are those of [g] without [b]. *)
Definition loose_but (b : Z) g g' : Prop :=
  ∀ x, g_place g' !! x = Some Loose ↔ g_place g !! x = Some Loose ∧ x ≠ b.

Lemma loose_but_place b g g' q :
  g_place g' = <[b := q]> (g_place g) → q ≠ Loose → loose_but b g g'.
Proof.
  intros Hpl Hq x. rewrite Hpl, lookup_insert. case_decide; [subst x|]; [|naive_solver].
  split; [congruence|by intros [_ ?]].
Qed.

Lemma loose_but_delete b g g' : g_place g' = delete b (g_place g) → loose_but b g g'.
Proof. intros Hpl x. rewrite Hpl, lookup_delete_Some. naive_solver. Qed.

(** A slab of this heap's class, as [Queued] and [Active] slabs are. *)
Definition own_slab h (idx : Z) (hd : SlabHeader) : Prop :=
  heap_id hd = hp_id h ∧ size_class_index hd = idx.

Section one_slab.
Context held larges h w g (Hw : hinv held larges w g) (Hh : heap_ok h g) (Hex : g_exempt g = None).
Context idx (Hidx : 0 ≤ idx < NUM_CLASSES).
Context b hd (Hb : ls_hdrs (w_slabs w) !! b = Some hd).

Lemma install_ok :
  g_place g !! b = Some Loose → own_slab h idx hd → hp_bins h !! Z.to_nat idx = Some None →
  ∃ h', set_bin h idx (Some b) = Ok h' ∧ hp_bins h' !! Z.to_nat idx = Some (Some b) ∧
    hp_metrics h' = hp_metrics h ∧
    hstep held larges h w g h' w (put_place g b (Active (hp_id h) idx)).
Proof.
  intros Hp [Hid Hcl] Hnone. eexists. split; [by apply (set_bin_ok h g)|].
  split; [apply list_lookup_insert_eq; by eapply lookup_lt_Some|]. split; [done|]. split; try done.
  - by apply (hinv_set_place held larges w g b Loose _ hd).
  - by apply fill_bin.
  - apply (gtrans_place _ _ _ b Loose (Active (hp_id h) idx)); try done.
    intros id' i Hne. split; congruence.
Qed.

Lemma queue_ok c :
  g_place g !! b = Some Loose → heap_id hd = hp_id h → heap_id hd = hc_heap c →
  size_class_index hd = hc_class c → kind_ok (hc_kind c) hd →
  ∃ w', heap_list_push w c b = Ok w' ∧ hstep held larges h w g h w' (push_ghost g c b) ∧
    rframe (b :: g_lists g c) w w'.
Proof.
  intros Hp Hid Hid' Hcl Hk.
  destruct (push_hinv held larges w g Hw c b hd Hb Hp Hid' Hcl) as (w' & E & Hm & Hw' & Hfr); [by right|].
  exists w'. split; [done|]. split; [|done]. split; try done.
  - by apply (heap_ok_place h g _ b Loose (Queued c)).
  - by apply (gtrans_place _ _ _ b Loose (Queued c)).
  - rewrite Hm. apply keeps_refl.
Qed.
End one_slab.

(** [promote] of a loose slab with a free slot. *)
Lemma promote_ok held larges h w g idx b hd :
  hinv held larges w g → heap_ok h g → g_exempt g = None → 0 ≤ idx < NUM_CLASSES →
  ls_hdrs (w_slabs w) !! b = Some hd → g_place g !! b = Some Loose → own_slab h idx hd →
  0 < Slab_free_count hd →
  ∃ h' w' g', promote h w idx b = Ok (h', w') ∧ hstep held larges h w g h' w' g' ∧
    loose_but b g g' ∧ rframe (b :: g_lists g (partial_heads h idx)) w w' ∧
    (∀ c, c ≠ partial_heads h idx → g_lists g' c = g_lists g c) ∧
    (hp_bins h !! Z.to_nat idx = Some None → hp_bins h' !! Z.to_nat idx = Some (Some b) ∧ w' = w) ∧
    (hp_bins h !! Z.to_nat idx ≠ Some None → h' = h).
Proof.
  intros Hw Hh Hex Hidx Hb Hp Hown Hfree. unfold promote.
  destruct (get_bin h g idx Hh Hidx) as (bin & -> & Hbin). cbn [mbind res_bind].
  destruct bin as [b0|].
  - destruct Hown as [Hid Hcl].
    destruct (queue_ok held larges h w g Hw Hh b hd Hb (partial_heads h idx))
      as (w' & -> & Hs & Hfr); try done. cbn [mbind res_bind].
    do 3 eexists. split; [done|]. split; [exact Hs|]. split; [by eapply loose_but_place|].
    split; [done|]. split; [|split; [rewrite Hbin; congruence|done]].
    intros c Hc. cbn. by rewrite fn_lookup_insert_ne.
  - destruct (install_ok held larges h w g Hw Hh idx Hidx b hd Hb) as (h' & -> & Hbin' & _ & Hs); try done.
    cbn [mbind res_bind]. do 3 eexists. split; [done|]. split; [exact Hs|].
    split; [by eapply loose_but_place|]. split; [done|]. split; [done|]. split; [done|].
    by rewrite Hbin.
Qed.

Lemma retire_active_ok held larges h w g idx b hd :
  hinv held larges w g → heap_ok h g → g_exempt g = None → 0 ≤ idx < NUM_CLASSES →
  hp_bins h !! Z.to_nat idx = Some (Some b) → ls_hdrs (w_slabs w) !! b = Some hd →
  Slab_free_count hd = 0 →
  ∃ h' w' g', retire_active h w idx = Ok (h', w') ∧ hstep held larges h w g h' w' g' ∧
    (∀ x, g_place g' !! x = Some Loose ↔ g_place g !! x = Some Loose ∧ x ≠ b) ∧
    hp_bins h' !! Z.to_nat idx = Some None.
Proof.
  intros Hw Hh Hex Hidx Hbin Hb Hfc. pose proof Hbin as Hp. rewrite (ho_bins _ _ Hh) in Hp by done.
  pose proof (wi_place _ _ _ _ Hw b hd _ Hb Hp) as [Hid Hcl].
  pose proof (empty_bin h g idx b Hh Hidx Hbin) as Hh1.
  set (h1 := with_bins h _) in Hh1.
  assert (hinv held larges w (put_place g b Loose)) as Hw1
    by by apply (hinv_set_place held larges w g b (Active (hp_id h) idx) _ hd).
  assert (hstep held larges h w g h1 w (put_place g b Loose)) as Hs1.
  { split; try done. apply (gtrans_place _ _ _ b (Active (hp_id h) idx) Loose); try done.
    intros id' i Hne. split; congruence. }
  destruct (queue_ok held larges h1 w _ Hw1 Hh1 b hd Hb (full_heads h idx)) as (w' & E & Hs & _); try done.
  { cbn. by rewrite lookup_insert_eq. }
  exists h1, w', (push_ghost (put_place g b Loose) (full_heads h idx) b). split; [|split; [|split]].
  - unfold retire_active. destruct (get_bin h g idx Hh Hidx) as (bin & -> & Hbin').
    rewrite Hbin in Hbin'. injection Hbin' as <-. cbn [mbind res_bind].
    rewrite (set_bin_ok h g) by done. cbn [mbind res_bind].
    change (full_heads (with_bins h _) idx) with (full_heads h idx). by rewrite E.
  - by eapply hstep_trans.
  - intros x. cbn. rewrite insert_insert_eq. rewrite lookup_insert. case_decide; [subst x|naive_solver].
    split; [congruence|by intros [_ ?]].
  - cbn. apply list_lookup_insert_eq. by eapply lookup_lt_Some.
Qed.

Lemma settled_nil g g' b :
  settled g → gtrans b g g' → (∀ x, g_place g' !! x = Some Loose → False) → settled g'.
Proof. intros (? & ? & ?) [] Hl. split; [|split; congruence]. intros x Hx. by apply (Hl x). Qed.

(** [try_partial] with an empty bin. *)
Lemma try_partial_ok held larges h w g idx :
  hinv held larges w g → heap_ok h g → settled g → 0 ≤ idx < NUM_CLASSES →
  hp_bins h !! Z.to_nat idx = Some None →
  match g_lists g (partial_heads h idx) with
  | [] => try_partial h w idx = Ok (false, h, w)
  | b :: l => ∃ h' w' g' hd, try_partial h w idx = Ok (true, h', w') ∧
      hstep held larges h w g h' w' g' ∧ settled g' ∧ hp_bins h' !! Z.to_nat idx = Some (Some b) ∧
      ls_hdrs (w_slabs w') !! b = Some hd ∧ 0 < Slab_free_count hd
  end.
Proof.
  intros Hw Hh Hset Hidx Hbin. pose proof Hset as (Hnl & Hex & _).
  pose proof (pop_hinv held larges w g Hw (partial_heads h idx)) as Hpop. unfold try_partial.
  destruct (g_lists g (partial_heads h idx)) as [|b l] eqn:Hc; [by rewrite Hpop|].
  destruct Hpop as (w1 & hd & -> & Hm & Hw1 & _ & Hb & (hd1 & Hb1 & He) & Hp). cbn [mbind res_bind].
  pose proof (wi_place _ _ _ _ Hw b hd _ Hb Hp) as (Hid & Hcl & [?|Hk]); [congruence|].
  cbn in Hid, Hcl, Hk.
  apply erase_fields in He as (Hcl1 & Hid1 & Hfc1).
  set (g1 := drop_ghost g (partial_heads h idx) b l) in Hw1.
  assert (heap_ok h g1) as Hh1 by by apply (heap_ok_place h g g1 b (Queued (partial_heads h idx)) Loose).
  assert (g_place g1 !! b = Some Loose) as Hp1 by apply lookup_insert_eq.
  destruct (install_ok held larges h w1 g1 Hw1 Hh1 idx Hidx b hd1 Hb1 Hp1) as (h' & -> & Hbin' & _ & Hs);
    [split; congruence|done|]. cbn [mbind res_bind].
  do 3 eexists. exists hd1. split; [done|].
  assert (hstep held larges h w g h' w1 (put_place g1 b (Active (hp_id h) idx))) as Hs'.
  { eapply hstep_trans; [|exact Hs]. split; try done.
    - by apply (gtrans_place _ _ _ b (Queued (partial_heads h idx)) Loose).
    - rewrite Hm. apply keeps_refl. }
  split; [exact Hs'|]. split; [|split; [done|split; [done|lia]]].
  eapply settled_nil; [exact Hset|apply Hs'|]. intros x. cbn. rewrite insert_insert_eq, lookup_insert.
  case_decide; [by intros [=]|apply Hnl].
Qed.

(** ** [scan_full_list] *)

Lemma not_pending m hd rem : chain m (remote hd) rem → Slab_has_pending_remote hd = false → rem = [].
Proof.
  unfold Slab_has_pending_remote, TreiberStack_is_empty. intros Hc Hp.
  destruct (Z.eqb_spec (remote hd) 0) as [Hz|]; [|done]. destruct rem as [|x rem]; [done|].
  destruct Hc as (Hx & Hok & _). unfold ptr_ok in Hok. lia.
Qed.

(** Without a pending remote slot the drain is skipped. *)
Lemma settle_ok held larges w g b hd :
  hinv held larges w g → g_exempt g = None → ls_hdrs (w_slabs w) !! b = Some hd →
  ∃ w' hd', settle_at w b = Ok w' ∧ ls_hdrs (w_slabs w') !! b = Some hd' ∧ same_slab hd hd' ∧
    hinv held larges w' (set_exempt g (Some b)) ∧ keeps (user_blocks held larges) (w_mem w) (w_mem w') ∧
    rframe [b] w w' ∧ (Slab_is_fully_free hd' = true ↔ live b (held ++ w_flight w') = []).
Proof.
  intros Hw Hex Hb. unfold settle_at.
  destruct (interfere_ok held larges w g Hw Hex) as (w1 & -> & [Hw1 Hk1 Hf1 _ _]). cbn [mbind res_bind].
  destruct (rframe_lookup [] w w1 b hd Hf1) as (h1 & Hb1 & Hs1 & _); [apply not_elem_of_nil|done|].
  rewrite (get_header_ok _ b h1 Hb1). cbn [mbind res_bind]. destruct (Slab_has_pending_remote h1) eqn:Hpend.
  - destruct (drain_at_hinv held larges w1 g Hw1 Hex b h1 Hb1 (Some b))
      as (w2 & h2 & E2 & Hb2 & Hs2 & Hw2 & Hk2 & Hf2 & Hff & _); [done|].
    exists w2, h2. do 2 (split; [done|]). split; [unfold same_slab in *; intuition congruence|]. split; [done|].
    split; [by eapply keeps_trans|]. split; [by apply (rframe_trans [] [b] w w1 w2)|done].
  - exists w1, h1. do 3 (split; [done|]). split; [by apply hinv_exempt|]. split; [done|].
    split; [eapply rframe_mono; [|exact Hf1]; set_solver|].
    destruct (wi_slab _ _ _ _ Hw1 b h1 Hb1) as (_ & loc & rem & Hi).
    rewrite (slab_fully_free b _ _ _ _ _ Hi), (not_pending _ h1 rem (si_remote _ _ _ _ _ _ Hi) Hpend).
    split; [by intros [_ ?]|done].
Qed.

Lemma end_exempt_drop g b c l :
  g_exempt g = None → set_exempt (drop_ghost (set_exempt g (Some b)) c b l) None = drop_ghost g c b l.
Proof. destruct g. cbn. by intros ->. Qed.

(** A slab with the exemption leaves its queue. *)
Lemma unqueue_exempt_ok held larges h w g c b hd l1 l2 :
  hinv held larges w (set_exempt g (Some b)) → heap_ok h g → g_exempt g = None →
  g_lists g c = l1 ++ b :: l2 → ls_hdrs (w_slabs w) !! b = Some hd →
  ∃ w' hd', heap_list_remove w b = Ok w' ∧
    ls_hdrs (w_slabs w') !! b = Some hd' ∧ erase_links hd' = erase_links hd ∧
    hinv held larges w' (drop_ghost g c b (l1 ++ l2)) ∧ heap_ok h (drop_ghost g c b (l1 ++ l2)) ∧
    gtrans (hp_id h) g (drop_ghost g c b (l1 ++ l2)) ∧ w_mem w' = w_mem w ∧
    rframe (g_lists g c) w w' ∧ w_flight w' = w_flight w.
Proof.
  intros Hw Hh Hex Hc Hb.
  assert (g_place g !! b = Some (Queued c)) as Hp
    by (apply (wi_queued _ _ _ _ Hw c b); cbn; rewrite Hc; set_solver).
  destruct (remove_hinv held larges w _ Hw c b l1 l2 Hc)
    as (w' & hd0 & E & Hm & Hw' & Hfr & Hfl & Hb0 & (hd' & Hb' & He)).
  rewrite Hb in Hb0. injection Hb0 as <-. exists w', hd'. do 3 (split; [done|]). split; [|split; [|split; [|done]]].
  - rewrite <- (end_exempt_drop g b c _ Hex). eapply hinv_end_exempt; [exact Hw'|done|].
    intros c' hd1. cbn. by rewrite lookup_insert_eq.
  - by apply (heap_ok_place h g _ b (Queued c) Loose).
  - by apply (gtrans_place _ _ _ b (Queued c) Loose).
Qed.

(** The cached page leaves the ghost state. *)
Lemma cached_step held larges h w g b hd :
  hinv held larges w g → heap_ok h g → ls_hdrs (w_slabs w) !! b = Some hd →
  g_place g !! b = Some Loose → live b (held ++ w_flight w) = [] →
  ∃ w' cached, PagePool_cache_slab w b = Ok w' ∧
    hstep held larges h w g h w' (cached_ghost g b cached) ∧ rframe [b] w w' ∧ w_flight w' = w_flight w.
Proof.
  intros Hw Hh Hb Hp Hlv.
  destruct (cache_slab_hinv held larges w g b hd Hw Hb Hp Hlv) as (w' & cached & E & Hw' & Hk & Hfr & Hfl).
  exists w', cached. split; [done|]. split; [|done]. split; try done.
  - destruct Hh as [Hl Hbn Hm Hid]. split; try done. intros i x Hi. rewrite Hbn by done. cbn.
    rewrite lookup_delete. case_decide; [subst x|done]. rewrite Hp. split; congruence.
  - split; try done. intros x id' i Hne. cbn. rewrite lookup_delete. case_decide; [subst x|done].
    rewrite Hp. split; congruence.
Qed.

(** What the loop keeps: the bin can serve, and while it is empty so is the partial queue. *)
Definition scan_inv h w g idx : Prop :=
  (∀ b, hp_bins h !! Z.to_nat idx = Some (Some b) → serves w b) ∧
  (hp_bins h !! Z.to_nat idx = Some None → g_lists g (partial_heads h idx) = []).

Lemma active_not_in held larges w g b id idx c :
  hinv held larges w g → g_place g !! b = Some (Active id idx) → b ∉ g_lists g c.
Proof. intros Hw Hp Hin%(wi_queued _ _ _ _ Hw). congruence. Qed.

(** One turn of the loop, from the world [w1] in which the slab was settled. *)
Section scan_one.
Context held larges h w g idx (b : Z) (Hw : hinv held larges w g) (Hh : heap_ok h g) (Hset : settled g)
  (Hidx : 0 ≤ idx < NUM_CLASSES).
Let c := full_heads h idx.
Context (l1 l2 : list Z) (Hc : g_lists g c = l1 ++ b :: l2) (Hinv : scan_inv h w g idx).
Context w1 (hd1 : SlabHeader) (Hw1 : hinv held larges w1 (set_exempt g (Some b))) (Hb1 : ls_hdrs (w_slabs w1) !! b = Some hd1)
  (Hk1 : keeps (user_blocks held larges) (w_mem w) (w_mem w1)) (Hfr1 : rframe [b] w w1).

(** What the turn has to do, the rest of it being [r]. *)
Definition scanned (r : res (Heap * world W)) : Prop :=
  ∃ h' w' g' l1', r = Ok (h', w') ∧ hstep held larges h w g h' w' g' ∧ settled g' ∧
    g_lists g' c = l1' ++ l2 ∧ scan_inv h' w' g' idx.

Lemma scan_queued : g_place g !! b = Some (Queued c).
Proof. apply (wi_queued _ _ _ _ Hw). rewrite Hc. apply elem_of_app. right. by left. Qed.

(** The active slab is another one, and on no list. *)
Lemma scan_active x : hp_bins h !! Z.to_nat idx = Some (Some x) → x ∉ [b] ∧ (∀ c, x ∉ g_lists g c) ∧ serves w1 x.
Proof.
  intros Hx. pose proof (proj1 Hinv x Hx) as Hs. pose proof scan_queued as Hp. rewrite (ho_bins _ _ Hh) in Hx by done.
  assert (x ∉ [b]) as Hxb by (intros ->%list_elem_of_singleton; congruence).
  split; [done|]. split; [intros c'; by eapply active_not_in|]. by eapply rframe_serves.
Qed.

Lemma scan_free_ok :
  live b (held ++ w_flight w1) = [] →
  scanned (w2 ← heap_list_remove w1 b; w3 ← PagePool_cache_slab w2 b; Ok (h, w3)).
Proof.
  intros Hlive. pose proof Hset as (Hnl & Hex & Hsp).
  destruct (unqueue_exempt_ok held larges h w1 g c b hd1 l1 l2 Hw1 Hh Hex Hc Hb1)
    as (w2 & hd2 & -> & Hb2 & _ & Hw2 & Hh2 & Ht2 & Hm2 & Hfr2 & Hfl2). cbn [mbind res_bind].
  set (g2 := drop_ghost g c b (l1 ++ l2)) in *.
  assert (g_place g2 !! b = Some Loose) as Hp2 by apply lookup_insert_eq.
  destruct (cached_step held larges h w2 g2 b hd2 Hw2 Hh2 Hb2 Hp2) as (w3 & cached & -> & Hs3 & Hfr3 & _);
    [by rewrite Hfl2|]. cbn [mbind res_bind].
  exists h, w3, (cached_ghost g2 b cached), l1. split; [done|]. split; [|split; [|split]].
  - eapply hstep_trans; [|exact Hs3]. split; try done. by rewrite Hm2.
  - eapply settled_nil; [exact Hset|eapply gtrans_trans; [exact Ht2|apply Hs3]|].
    intros x. cbn. rewrite lookup_delete_Some, lookup_insert_Some. intros [? [[? ?]|[_ Hx]]]; [done|by apply (Hnl x)].
  - cbn. by rewrite fn_lookup_insert.
  - split.
    + intros x (Hxb & Hxc & Hs)%scan_active. eapply rframe_serves; [exact Hfr3|done|]. by eapply rframe_serves.
    + intros Hn. cbn. rewrite fn_lookup_insert_ne by done. by apply (proj2 Hinv).
Qed.

Lemma scan_promote_ok :
  size_class_index hd1 = idx → heap_id hd1 = hp_id h → 0 < Slab_free_count hd1 →
  scanned (w2 ← heap_list_remove w1 b; promote h w2 idx b).
Proof.
  intros Hcl1 Hid1 Hpos. pose proof Hset as (Hnl & Hex & Hsp).
  destruct (unqueue_exempt_ok held larges h w1 g c b hd1 l1 l2 Hw1 Hh Hex Hc Hb1)
    as (w2 & hd2 & -> & Hb2 & He2 & Hw2 & Hh2 & Ht2 & Hm2 & Hfr2 & _). cbn [mbind res_bind].
  set (g2 := drop_ghost g c b (l1 ++ l2)) in *. apply erase_fields in He2 as (Hcl2 & Hid2 & Hfc2).
  assert (g_place g2 !! b = Some Loose) as Hp2 by apply lookup_insert_eq.
  destruct (promote_ok held larges h w2 g2 idx b hd2 Hw2 Hh2 Hex Hidx Hb2 Hp2)
    as (h3 & w3 & g3 & -> & Hs3 & Hlb & Hfr3 & Hl3 & Hnone & Hsome); [split; congruence|lia|].
  assert (hstep held larges h w g h3 w3 g3) as Hs.
  { eapply hstep_trans; [|exact Hs3]. split; try done. by rewrite Hm2. }
  exists h3, w3, g3, l1. split; [done|]. split; [exact Hs|]. split; [|split].
  - eapply settled_nil; [exact Hset|apply Hs|]. intros x [Hx Hne]%Hlb. cbn in Hx.
    rewrite lookup_insert_ne in Hx by done. by apply (Hnl x).
  - rewrite Hl3 by done. cbn. by rewrite fn_lookup_insert.
  - destruct (get_bin h g idx Hh Hidx) as ([b0|] & _ & Hbin).
    + rewrite Hsome by congruence. split; [|congruence].
      intros x (Hxb & Hxc & Hsv)%scan_active. eapply rframe_serves; [exact Hfr3| |by eapply rframe_serves].
      apply not_elem_of_cons. split; [set_solver|]. cbn. rewrite fn_lookup_insert_ne by done. apply Hxc.
    + destruct (Hnone Hbin) as [Hbin3 ->]. split; [|congruence].
      intros x. rewrite Hbin3. intros [= <-]. exists hd2. split; [done|lia].
Qed.

(** Nothing was freed: the slab stays where it is. *)
Lemma scan_stay_ok : Slab_free_count hd1 ≤ 0 → scanned (Ok (h, w1)).
Proof.
  intros Hzero. pose proof Hset as (Hnl & Hex & Hsp). exists h, w1, g, (l1 ++ [b]). split; [done|].
  assert (0 ≤ Slab_free_count hd1) as Hge.
  { destruct (wi_slab _ _ _ _ Hw1 b hd1 Hb1) as (_ & loc & rem & Hi).
    rewrite (slab_free_count b _ _ _ _ _ Hi). pose proof (si_bump _ _ _ _ _ _ Hi). lia. }
  assert (hinv held larges w1 g) as Hw1'.
  { rewrite <- (set_exempt_same g), Hex, <- (set_exempt_twice g (Some b)).
    eapply hinv_end_exempt; [exact Hw1|done|]. intros c' hx Hx. cbn in Hx. rewrite scan_queued in Hx.
    injection Hx as <-. rewrite Hb1. intros [= <-]. cbn. lia. }
  split; [by split|]. split; [done|]. split; [rewrite <- app_assoc; done|]. split; [|apply Hinv].
  by intros x (_ & _ & ?)%scan_active.
Qed.
End scan_one.

Lemma scan_one_ok held larges h w g idx b hd l1 l2 :
  hinv held larges w g → heap_ok h g → settled g → 0 ≤ idx < NUM_CLASSES →
  g_lists g (full_heads h idx) = l1 ++ b :: l2 → ls_hdrs (w_slabs w) !! b = Some hd →
  scan_inv h w g idx →
  ∃ h' w' g' l1', scan_one h w idx b = Ok (h', w') ∧ hstep held larges h w g h' w' g' ∧ settled g' ∧
    g_lists g' (full_heads h idx) = l1' ++ l2 ∧ scan_inv h' w' g' idx.
Proof.
  intros Hw Hh Hset Hidx Hc Hb Hinv. pose proof Hset as (_ & Hex & _).
  pose proof (wi_place _ _ _ _ Hw b hd _ Hb (scan_queued held larges h w g idx b Hw l1 l2 Hc)) as (Hid & Hcl & _).
  cbn in Hid, Hcl. destruct (settle_ok held larges w g b hd Hw Hex Hb)
    as (w1 & hd1 & E1 & Hb1 & (Hcl1 & Hid1 & _) & Hw1 & Hk1 & Hfr1 & Hff).
  unfold scan_one. rewrite E1. cbn [mbind res_bind]. rewrite (get_header_ok _ b hd1 Hb1). cbn [mbind res_bind].
  destruct (Slab_is_fully_free hd1); [|destruct (Z.ltb_spec 0 (Slab_free_count hd1)) as [Hpos|Hzero]].
  - eapply scan_free_ok; try done. by apply Hff.
  - eapply scan_promote_ok; try done; congruence.
  - by eapply scan_stay_ok.
Qed.

(** A queue is no longer than the number of slabs. *)
Lemma list_fuel w l :
  NoDup l → (∀ x, x ∈ l → is_Some (ls_hdrs (w_slabs w) !! x)) → (length l ≤ slab_fuel w)%nat.
Proof.
  intros Hnd Hin. unfold slab_fuel. rewrite <- size_dom, <- (size_list_to_set (C:=gset Z) l) by done.
  apply subseteq_size. intros x Hx%elem_of_list_to_set. apply elem_of_dom. auto.
Qed.

Lemma queue_fuel held larges w g c : hinv held larges w g → (length (g_lists g c) ≤ slab_fuel w)%nat.
Proof.
  intros Hw. destruct (wi_lists _ _ _ _ Hw) as [HL _]. destruct (HL c) as (_ & Hnd & Hseg).
  apply list_fuel; [done|]. intros x Hx. destruct (dl_seg_lookup _ _ _ _ x Hseg Hx). by eexists.
Qed.

Lemma queue_next held larges w g c l1 b l2 :
  hinv held larges w g → g_lists g c = l1 ++ b :: l2 →
  ∃ hd, ls_hdrs (w_slabs w) !! b = Some hd ∧ next_link hd = head l2.
Proof.
  intros Hw Hc. destruct (wi_lists _ _ _ _ Hw) as [HL _]. destruct (HL c) as (_ & _ & Hseg).
  rewrite Hc in Hseg. apply dl_seg_app in Hseg as [_ [(hd & Hb & _ & Hn) _]].
  exists hd. split; [done|]. rewrite Hn. by destruct l2.
Qed.

Lemma scan_loop_ok held larges idx l2 : ∀ fuel h w g l1,
  hinv held larges w g → heap_ok h g → settled g → 0 ≤ idx < NUM_CLASSES →
  g_lists g (full_heads h idx) = l1 ++ l2 → scan_inv h w g idx → (length l2 ≤ fuel)%nat →
  ∃ h' w' g', scan_loop fuel h w idx (head l2) = Ok (h', w') ∧ hstep held larges h w g h' w' g' ∧
    settled g' ∧ scan_inv h' w' g' idx.
Proof.
  induction l2 as [|b l2 IH]; intros fuel h w g l1 Hw Hh Hset Hidx Hc Hinv Hlen.
  { exists h, w, g. split; [by destruct fuel|]. split; [by apply hstep_refl|done]. }
  destruct fuel as [|fuel]; [cbn in Hlen; lia|]. cbn [scan_loop head].
  destruct (queue_next _ _ _ _ _ _ _ _ Hw Hc) as (hd & Hb & Hn).
  rewrite (get_header_ok _ b hd Hb). cbn [mbind res_bind]. rewrite Hn.
  destruct (scan_one_ok held larges h w g idx b hd l1 l2) as (h1 & w1 & g1 & l1' & -> & Hs1 & Hset1 & Hc1 & Hinv1);
    try done. cbn [mbind res_bind].
  assert (full_heads h1 idx = full_heads h idx) as Hfh by (unfold full_heads; by rewrite (hs_id _ _ _ _ _ _ _ _ Hs1)).
  destruct (IH fuel h1 w1 g1 l1') as (h2 & w2 & g2 & E & Hs2 & Hset2 & Hinv2);
    [apply Hs1|apply Hs1|done|done|by rewrite Hfh|done|cbn in Hlen; lia|].
  exists h2, w2, g2. split; [exact E|]. split; [by eapply hstep_trans|done].
Qed.

Lemma scan_full_list_ok held larges h w g idx :
  hinv held larges w g → heap_ok h g → settled g → 0 ≤ idx < NUM_CLASSES → scan_inv h w g idx →
  ∃ h' w' g', scan_full_list h w idx = Ok (h', w') ∧ hstep held larges h w g h' w' g' ∧
    settled g' ∧ scan_inv h' w' g' idx.
Proof.
  intros Hw Hh Hset Hidx Hinv. unfold scan_full_list.
  destruct (wi_lists _ _ _ _ Hw) as [HL _]. destruct (HL (full_heads h idx)) as (-> & _ & _).
  apply (scan_loop_ok held larges idx _ _ h w g []); try done. by eapply queue_fuel.
Qed.

(** ** Adoption *)

(** The slots in use when [result] was already served. *)
Definition served idx (result : option Z) held : list slot :=
  match result with Some p => (p, idx) :: held | None => held end.

Lemma served_keeps idx r held larges m m' :
  keeps (user_blocks (served idx r held) larges) m m' → keeps (user_blocks held larges) m m'.
Proof.
  apply keeps_sub. intros b [Hb|Hb]%elem_of_app; apply elem_of_app; [left|by right].
  destruct r; cbn; [by right|done].
Qed.

(** The slabs still to be adopted: loose, of the right class, linked in order. *)
Definition to_adopt w g idx (l : list Z) : Prop :=
  hchain (w_slabs w) (head l) l ∧ NoDup l ∧ (∀ x, g_place g !! x = Some Loose ↔ x ∈ l) ∧
  (∀ x, x ∈ l → ∃ hx, ls_hdrs (w_slabs w) !! x = Some hx ∧ size_class_index hx = idx).

Record adopting held larges idx h w g (l : list Z) (result : option Z) : Prop := {
  ad_inv : hinv (served idx result held) larges w g;
  ad_heap : heap_ok h g;
  ad_exempt : g_exempt g = None;
  ad_rest : to_adopt w g idx l;
  ad_bin : result = None → hp_bins h !! Z.to_nat idx = Some None;
}.

Record adopt_step held larges h w g h' w' g' : Prop := {
  as_id : hp_id h' = hp_id h;
  as_trans : gtrans (hp_id h) g g';
  as_keeps : keeps (user_blocks held larges) (w_mem w) (w_mem w');
}.

Lemma adopt_step_trans held larges h1 w1 g1 h2 w2 g2 h3 w3 g3 :
  adopt_step held larges h1 w1 g1 h2 w2 g2 → adopt_step held larges h2 w2 g2 h3 w3 g3 →
  adopt_step held larges h1 w1 g1 h3 w3 g3.
Proof.
  intros [Hid1 Ht1 Hk1] [Hid2 Ht2 Hk2]. split; [congruence| |by eapply keeps_trans].
  rewrite Hid1 in Ht2. by eapply gtrans_trans.
Qed.

Lemma hstep_adopt held larges idx r h w g h' w' g' :
  hstep (served idx r held) larges h w g h' w' g' → adopt_step held larges h w g h' w' g'.
Proof. intros []. split; [done|done|]. by eapply served_keeps. Qed.

(** The remaining slabs after [b] found its place. *)
Lemma to_adopt_next X w w' g g' idx b l :
  to_adopt w g idx (b :: l) → rframe X w w' → (∀ x, x ∈ l → x ∉ X) →
  loose_but b g g' → to_adopt w' g' idx l.
Proof.
  intros (Hc & [Hno Hnd]%NoDup_cons & Hl & Hcl) Hfr HX Hlb. destruct Hc as (_ & hd & _ & Hc).
  assert (next_link hd = head l) as Hn by (destruct l; [done|by destruct Hc]). rewrite Hn in Hc.
  split; [|split; [done|split]].
  - eapply hchain_ext; [|exact Hc]. intros x Hx. destruct (Hcl x) as (hx & Hhx & _); [by right|].
    destruct (rframe_lookup _ _ _ _ _ Hfr (HX x Hx) Hhx) as (h' & -> & (_ & _ & Hnx & _) & _).
    rewrite Hhx. cbn. by rewrite Hnx.
  - intros x. rewrite (Hlb x), Hl, elem_of_cons. split; [intros [[->|?] ?]; done|].
    intros Hx. split; [by right|]. by intros ->.
  - intros x Hx. destruct (Hcl x) as (hx & Hhx & Hcx); [by right|].
    destruct (rframe_lookup _ _ _ _ _ Hfr (HX x Hx) Hhx) as (h' & Hh' & (Hcl' & _) & _).
    exists h'. split; [done|congruence].
Qed.

(** The header the loop writes first. *)
Definition adopted h (hd : SlabHeader) : SlabHeader :=
  Slab_set_heap_id (Slab_set_prev_link (Slab_set_next_link hd None) LinkNull) (hp_id h).

Lemma adopt_header_ok held larges h w g idx b hd :
  hinv held larges w g → heap_ok h g → g_exempt g = None → 0 ≤ idx < NUM_CLASSES →
  ls_hdrs (w_slabs w) !! b = Some hd → g_place g !! b = Some Loose → size_class_index hd = idx →
  ∃ w1 p hd', slab_drain_at (set_header w b (adopted h hd)) b = Ok w1 ∧
    pp_inc_adopt_count (w_pool w1) idx = Ok p ∧ hinv held larges (set_pool w1 p) g ∧
    ls_hdrs (w_slabs w1) !! b = Some hd' ∧ own_slab h idx hd' ∧
    keeps (user_blocks held larges) (w_mem w) (w_mem (set_pool w1 p)) ∧ rframe [b] w w1 ∧
    (Slab_is_fully_free hd' = true ↔ live b (held ++ w_flight w1) = []) ∧ w_abandoned w1 = w_abandoned w.
Proof.
  intros Hw Hh Hex Hidx Hb Hp Hcl.
  assert (hinv held larges (set_header w b (adopted h hd)) g) as Hw0
    by (apply (loose_header_hinv held larges w g b hd); try done; apply Hh).
  destruct (drain_at_hinv held larges _ g Hw0 Hex b (adopted h hd) (lookup_insert_eq _ _ _) None)
    as (w1 & hd' & E1 & Hb1 & (Hcl1 & Hid1 & _) & Hw1 & Hk1 & Hfr1 & Hff & _ & _ & Hab1); [intros c Hc; congruence|].
  rewrite <- Hex, set_exempt_same in Hw1.
  destruct (count_hinv held larges w1 g idx pp_inc_adopt_count Hw1 Hidx) as (p & E2 & Hw2 & Hm2); [by right|].
  exists w1, p, hd'. do 4 (split; [done|]). split; [split; [done|by rewrite Hcl1]|].
  split; [rewrite Hm2; exact Hk1|]. split; [|by split].
  intros x Hx. rewrite Hfr1 by done. cbn. rewrite lookup_insert_ne; [done|]. set_solver.
Qed.

(** The heap [id] or the cache may have taken slabs; the others are where they were. *)
Definition owned (id : Z) (p : place) : Prop :=
  match p with Active i _ => i = id | Queued c => hc_heap c = id | _ => False end.

Definition taken_over (id : Z) g g' : Prop :=
  ∀ b, g_place g' !! b = g_place g !! b ∨ g_place g' !! b = None ∨
       ∃ p, g_place g' !! b = Some p ∧ owned id p.

Lemma taken_over_trans id g1 g2 g3 : taken_over id g1 g2 → taken_over id g2 g3 → taken_over id g1 g3.
Proof. intros H12 H23 b. destruct (H23 b) as [->|?]; [apply H12|by right]. Qed.

Lemma taken_place id g g' b p : owned id p → g_place g' = <[b := p]> (g_place g) → taken_over id g g'.
Proof.
  intros Ho Hp x. rewrite Hp, lookup_insert. case_decide; [right; right; by exists p|by left].
Qed.

Lemma taken_delete id g g' b : g_place g' = delete b (g_place g) → taken_over id g g'.
Proof. intros Hp x. rewrite Hp, lookup_delete. case_decide; [right; by left|by left]. Qed.

(** A slab of the loop after its header was written and its remote list drained. *)
Record adopt_drained held larges idx h w g (b : Z) (hd : SlabHeader) w2 : Prop := {
  dn_inv : hinv held larges w2 g;
  dn_lookup : ls_hdrs (w_slabs w2) !! b = Some hd;
  dn_own : own_slab h idx hd;
  dn_frame : rframe [b] w w2;
  dn_keeps : keeps (user_blocks held larges) (w_mem w) (w_mem w2);
}.

(** It goes to a queue. *)
Lemma adopt_queue_ok held larges idx h w g b hd w2 l result :
  adopting held larges idx h w g (b :: l) result →
  adopt_drained (served idx result held) larges idx h w g b hd w2 →
  ∃ w' g', (hd ← get_header (w_slabs w2) b;
            w ← heap_list_push w2 (if 0 <? Slab_free_count hd then partial_heads h idx else full_heads h idx) b;
            Ok (result, h, w)) = Ok (result, h, w') ∧
    adopting held larges idx h w' g' l result ∧ adopt_step held larges h w g h w' g' ∧
    taken_over (hp_id h) g g'.
Proof.
  intros [_ Hh Hex Hrest Hbin] [Hw2 Hb2 [Hid2 Hcl2] Hfr2 Hk2]. pose proof Hrest as (_ & [Hno _]%NoDup_cons & Hl & _).
  assert (g_place g !! b = Some Loose) as Hp by (apply Hl; by left).
  rewrite (get_header_ok _ b hd Hb2). cbn [mbind res_bind].
  set (c := if 0 <? Slab_free_count hd then partial_heads h idx else full_heads h idx).
  destruct (wi_slab _ _ _ _ Hw2 b hd Hb2) as (_ & loc & rem & Hi).
  pose proof (slab_free_count b _ _ _ _ _ Hi) as Hfc. pose proof (si_bump _ _ _ _ _ _ Hi) as Hbm.
  destruct (queue_ok _ larges h w2 g Hw2 Hh b hd Hb2 c Hp) as (w4 & -> & Hs4 & Hfr4);
    [done|subst c; by case_match|subst c; by case_match| |].
  { subst c. destruct (Z.ltb_spec 0 (Slab_free_count hd)); cbn; lia. }
  cbn [mbind res_bind]. exists w4, (push_ghost g c b). split; [done|].
  assert (owned (hp_id h) (Queued c)) by (subst c; by case_match).
  split; [|split; [|by eapply taken_place]].
  - split; [apply Hs4|apply Hs4|done| |done].
    eapply to_adopt_next; [exact Hrest|eapply rframe_trans; [exact Hfr2|exact Hfr4]| |by eapply loose_but_place].
    intros x Hx [->%list_elem_of_singleton|[->|Hin%(wi_queued _ _ _ _ Hw2)]%elem_of_cons]%elem_of_app; [done|done|].
    assert (g_place g !! x = Some Loose) by (apply Hl; by right). congruence.
  - eapply (adopt_step_trans _ _ h w g h w2 g); [|by eapply hstep_adopt].
    split; try done. by eapply served_keeps.
Qed.

(** It serves the request and becomes the active slab. *)
Lemma adopt_serve_ok held larges idx h w g b hd w2 l :
  adopting held larges idx h w g (b :: l) None → 0 ≤ idx < NUM_CLASSES →
  adopt_drained held larges idx h w g b hd w2 →
  ∃ r w3, slab_alloc_at w2 b = Ok (r, w3) ∧
    match r with
    | None => w3 = w2
    | Some ptr => ∃ h' g', set_bin h idx (Some b) = Ok h' ∧
        adopting held larges idx h' w3 g' l (Some ptr) ∧ adopt_step held larges h w g h' w3 g' ∧
        taken_over (hp_id h) g g'
    end.
Proof.
  intros [_ Hh Hex Hrest Hbin] Hidx [Hw2 Hb2 [Hid2 Hcl2] Hfr2 Hk2]. pose proof Hrest as (_ & [Hno _]%NoDup_cons & Hl & _).
  assert (g_place g !! b = Some Loose) as Hp by (apply Hl; by left).
  destruct (alloc_at_hinv _ larges w2 g Hw2 Hex b hd Hb2) as (r & w3 & hd3 & -> & Hb3 & Hsame & Hm3 & Hfr3 & Hr);
    [intros c Hc; congruence|]. exists r, w3. split; [done|]. destruct r as [ptr|]; [|apply Hr].
  destruct Hr as [_ Hw3]. destruct Hsame as (Hcl3 & Hid3 & _). rewrite Hcl2 in Hw3.
  destruct (install_ok _ larges h w3 g Hw3 Hh idx Hidx b hd3 Hb3 Hp) as (h4 & E & _ & _ & Hs4);
    [split; congruence|by apply Hbin|].
  exists h4, (put_place g b (Active (hp_id h) idx)). split; [done|].
  split; [|split; [|eapply (taken_place _ _ _ b (Active (hp_id h) idx)); [done|reflexivity]]].
  - split; [apply Hs4|apply Hs4|done| |done].
    eapply to_adopt_next; [exact Hrest|eapply rframe_trans; [exact Hfr2|exact Hfr3]| |by eapply loose_but_place].
    intros x Hx [->%list_elem_of_singleton| ->%list_elem_of_singleton]%elem_of_app; done.
  - eapply (adopt_step_trans _ _ h w g h w3 g); [|by eapply (hstep_adopt _ _ idx (Some ptr))].
    split; try done. by rewrite Hm3.
Qed.

Lemma adopt_one_ok held larges idx h w g b l result :
  adopting held larges idx h w g (b :: l) result → 0 ≤ idx < NUM_CLASSES →
  ∃ result' h' w' g', adopt_one h w idx b result = Ok (result', h', w') ∧
    adopting held larges idx h' w' g' l result' ∧ adopt_step held larges h w g h' w' g' ∧
    taken_over (hp_id h) g g'.
Proof.
  intros Ha Hidx. pose proof Ha as [Hw Hh Hex Hrest Hbin]. pose proof Hrest as (_ & [Hno _]%NoDup_cons & Hl & Hcls).
  destruct (Hcls b) as (hd & Hb & Hcl); [by left|].
  assert (g_place g !! b = Some Loose) as Hp by (apply Hl; by left).
  destruct (adopt_header_ok _ larges h w g idx b hd Hw Hh Hex Hidx Hb Hp Hcl)
    as (w1 & p & hd1 & E1 & E2 & Hw2 & Hb1 & Hown & Hk2 & Hfr1 & Hff & _).
  unfold adopt_one. rewrite (get_header_ok _ b hd Hb). cbn [mbind res_bind].
  change (Slab_set_heap_id _ _) with (adopted h hd). rewrite E1. cbn [mbind res_bind].
  rewrite E2. cbn [mbind res_bind]. set (w2 := set_pool w1 p) in *.
  rewrite (get_header_ok (w_slabs w2) b hd1 Hb1). cbn [mbind res_bind].
  assert (adopt_drained (served idx result held) larges idx h w g b hd1 w2) as Hd by by split.
  destruct (Slab_is_fully_free hd1) eqn:Hfree.
  - destruct (cached_step _ larges h w2 g b hd1 Hw2 Hh Hb1 Hp) as (w3 & cached & -> & Hs3 & Hfr3 & _);
      [by apply Hff|]. cbn [mbind res_bind].
    exists result, h, w3, (cached_ghost g b cached). split; [done|]. split; [|split; [|by eapply taken_delete]].
    + split; [apply Hs3|apply Hs3|done| |done].
      eapply to_adopt_next; [exact Hrest|eapply rframe_trans; [exact Hfr1|exact Hfr3]| |by apply loose_but_delete].
      intros x Hx [->%list_elem_of_singleton| ->%list_elem_of_singleton]%elem_of_app; done.
    + eapply (adopt_step_trans _ _ h w g h w2 g); [|by eapply hstep_adopt]. split; try done. by eapply served_keeps.
  - destruct (adopt_queue_ok _ _ _ _ _ _ _ _ _ _ _ Ha Hd) as (w4 & g4 & Eq & Hq).
    destruct result as [r|]; [cbn [mbind res_bind]; rewrite Eq; by exists (Some r), h, w4, g4|].
    destruct (adopt_serve_ok _ _ _ _ _ _ _ _ _ _ Ha Hidx Hd) as (r & w3 & -> & Hr). cbn [mbind res_bind].
    destruct r as [ptr|]; [|subst w3; rewrite Eq; by exists None, h, w4, g4].
    destruct Hr as (h' & g' & -> & Hr). cbn [mbind res_bind]. by exists (Some ptr), h', w3, g'.
Qed.

Lemma adopt_loop_ok held larges idx l : ∀ fuel h w g result,
  adopting held larges idx h w g l result → 0 ≤ idx < NUM_CLASSES → (length l ≤ fuel)%nat →
  ∃ result' h' w' g', adopt_loop fuel h w idx (head l) result = Ok (result', h', w') ∧
    adopting held larges idx h' w' g' [] result' ∧ adopt_step held larges h w g h' w' g' ∧
    taken_over (hp_id h) g g'.
Proof.
  induction l as [|b l IH]; intros fuel h w g result Ha Hidx Hlen.
  { exists result, h, w, g. split; [by destruct fuel|]. split; [done|]. split; [by split|by left]. }
  destruct fuel as [|fuel]; [cbn in Hlen; lia|]. cbn [adopt_loop head].
  destruct (ad_rest _ _ _ _ _ _ _ _ Ha) as ((_ & hd & Hb & Hc) & _).
  rewrite (get_header_ok _ b hd Hb). cbn [mbind res_bind].
  assert (next_link hd = head l) as -> by (destruct l; [done|by destruct Hc]).
  destruct (adopt_one_ok _ _ _ _ _ _ _ _ _ Ha Hidx) as (r1 & h1 & w1 & g1 & -> & Ha1 & Hs1 & Ht1).
  cbn [mbind res_bind].
  destruct (IH fuel h1 w1 g1 r1 Ha1 Hidx) as (r2 & h2 & w2 & g2 & E & Ha2 & Hs2 & Ht2); [cbn in Hlen; lia|].
  exists r2, h2, w2, g2. split; [exact E|]. split; [done|]. split; [by eapply adopt_step_trans|].
  eapply taken_over_trans; [exact Ht1|]. by rewrite <- (as_id _ _ _ _ _ _ _ _ Hs1).
Qed.

(** Adoption empties the abandoned list and puts nothing back. *)
Lemma cache_slab_abandoned w b w' : PagePool_cache_slab w b = Ok w' → w_abandoned w' = w_abandoned w.
Proof.
  unfold PagePool_cache_slab. destruct (cache_push _ _) as [[] [[m top] len]]; [by intros [= <-]|].
  intros E. bind_inv E as p E1. by injection E as <-.
Qed.

Lemma slab_alloc_at_abandoned w b r w' : slab_alloc_at w b = Ok (r, w') → w_abandoned w' = w_abandoned w.
Proof. unfold slab_alloc_at. intros E. bind_inv E as hd E1. destruct (Slab_alloc _ _ _). by simplify_eq. Qed.

Lemma slab_drain_at_abandoned w b w' : slab_drain_at w b = Ok w' → w_abandoned w' = w_abandoned w.
Proof.
  unfold slab_drain_at. intros E. bind_inv E as w1 E1. apply slab_drain_now_flight in E as [_ ->].
  eapply (interfere_same w_abandoned); [|done|done|exact E1]. intros w0 x a w2 E2.
  by destruct (dealloc_remote_frame _ _ _ _ E2) as (_ & ? & _).
Qed.

Lemma adopt_one_abandoned h w idx b result r h' w' :
  adopt_one h w idx b result = Ok (r, h', w') → w_abandoned w' = w_abandoned w.
Proof.
  unfold adopt_one. intros E. bind_inv E as hd E1. bind_inv E as w1 E2. bind_inv E as p E3.
  bind_inv E as hd1 E4. apply slab_drain_at_abandoned in E2. change (w_abandoned (set_header _ _ _)) with (w_abandoned w) in E2.
  rewrite <- E2. destruct (Slab_is_fully_free hd1).
  - bind_inv E as w2 E7. apply cache_slab_abandoned in E7. by simplify_eq.
  - bind_inv E as [ptr w2] E7.
    assert (w_abandoned w2 = w_abandoned w1) as <-.
    { destruct result; [by simplify_eq|]. apply slab_alloc_at_abandoned in E7. exact E7. }
    destruct ptr; [bind_inv E as h1 E8; by simplify_eq|]. bind_inv E as hd4 E8.
    bind_inv E as w3 E9. unfold heap_list_push in E9. bind_inv E9 as st E10. by simplify_eq.
Qed.

Lemma adopt_loop_abandoned fuel : ∀ h w idx slab result r h' w',
  adopt_loop fuel h w idx slab result = Ok (r, h', w') → w_abandoned w' = w_abandoned w.
Proof.
  induction fuel as [|fuel IH]; intros h w idx [b|] result r h' w' E; cbn [adopt_loop] in E; try by simplify_eq.
  bind_inv E as hd E1. bind_inv E as [[r1 h1] w1] E2. apply IH in E.
  apply adopt_one_abandoned in E2. congruence.
Qed.

Lemma try_adopt_abandoned h w idx r h' w' :
  0 ≤ idx → try_adopt h w idx = Ok (r, h', w') → w_abandoned w' !! Z.to_nat idx = Some 0.
Proof.
  intros Hidx E. unfold try_adopt in E. bind_inv E as [slab w1] E1. apply adopt_loop_abandoned in E as ->.
  unfold PagePool_adopt_all in E1. bind_inv E1 as head E2. apply arr_get_inv in E2 as [_ E2].
  destruct (Z.eqb_spec head 0) as [->|]; [by simplify_eq|]. bind_inv E1 as ab E3.
  unfold arr_set in E3. bind_inv E3 as x E4.
  apply arr_get_inv in E4 as [_ E4]. injection E3 as <-. injection E1 as _ <-. cbn.
  apply list_lookup_insert_eq. by eapply lookup_lt_Some.
Qed.

(** What an allocation of class [idx] that returned [r] leaves behind. *)
Record alloc_post held larges idx h w g (r : option Z) h' w' g' : Prop := {
  ap_inv : hinv (served idx r held) larges w' g';
  ap_heap : heap_ok h' g';
  ap_settled : settled g';
  ap_step : adopt_step held larges h w g h' w' g';
}.

Lemma alloc_post_step held larges idx h w g r h1 w1 g1 h2 w2 g2 :
  adopt_step held larges h w g h1 w1 g1 → alloc_post held larges idx h1 w1 g1 r h2 w2 g2 →
  alloc_post held larges idx h w g r h2 w2 g2.
Proof. intros Hs []. split; try done. by eapply adopt_step_trans. Qed.

Lemma hstep_none held larges h w g h' w' g' :
  hstep held larges h w g h' w' g' → adopt_step held larges h w g h' w' g'.
Proof. by intros []. Qed.

Lemma adopted_ghost_ok h g idx :
  heap_ok h g → (∀ x, x ∈ g_aband g idx ↔ g_place g !! x = Some (Abandoned idx)) →
  heap_ok h (adopt_ghost g idx) ∧ gtrans (hp_id h) g (adopt_ghost g idx).
Proof.
  intros [Hl Hb Hm Hid] Hab.
  assert (∀ x id i, g_place (adopt_ghost g idx) !! x = Some (Active id i) ↔
    g_place g !! x = Some (Active id i)) as Hact.
  { intros x id i. cbn. rewrite loosen_lookup. case_decide as Hin; [|done].
    apply Hab in Hin. rewrite Hin. split; congruence. }
  split; [|by split]. split; try done. intros i x Hi. by rewrite Hb, Hact.
Qed.

(** The slabs that were abandoned have a new owner or are cached. *)
Definition all_adopted (id idx : Z) g g' : Prop :=
  ∀ b, g_place g !! b = Some (Abandoned idx) →
    g_place g' !! b = None ∨ ∃ p, g_place g' !! b = Some p ∧ owned id p.

Lemma try_adopt_ok held larges h w g idx :
  hinv held larges w g → heap_ok h g → settled g → 0 ≤ idx < NUM_CLASSES →
  hp_bins h !! Z.to_nat idx = Some None →
  ∃ r h' w' g', try_adopt h w idx = Ok (r, h', w') ∧ alloc_post held larges idx h w g r h' w' g' ∧
    (r = None → hp_bins h' !! Z.to_nat idx = Some None) ∧ all_adopted (hp_id h) idx g g'.
Proof.
  intros Hw Hh (Hnl & Hex & Hsp) Hidx Hbin. unfold try_adopt.
  destruct (adopt_all_hinv held larges w g idx Hw Hidx) as (w1 & -> & Hst & Hm1 & Hc & Hnd & Hw1).
  cbn [mbind res_bind]. pose proof (wi_aband_place _ _ _ _ Hw idx) as Hab.
  destruct (adopted_ghost_ok h g idx Hh Hab) as [Hh1 Ht1].
  assert (to_adopt w1 (adopt_ghost g idx) idx (g_aband g idx)) as Hta.
  { split; [by rewrite Hst|]. split; [done|]. split.
    - intros x. cbn. rewrite loosen_lookup. case_decide; [done|].
      split; [intros Hx; by apply Hnl in Hx|done].
    - intros x Hx%Hab. destruct (proj2 (wi_dom _ _ _ _ Hw x)) as [hx Hhx]; [by eexists|].
      exists hx. rewrite Hst. split; [done|]. by destruct (wi_place _ _ _ _ Hw x hx _ Hhx Hx). }
  assert (length (g_aband g idx) ≤ slab_fuel w1)%nat as Hfuel.
  { apply list_fuel; [done|]. intros x Hx. destruct Hta as (_ & _ & _ & Hcl).
    destruct (Hcl x Hx) as (hx & -> & _). by eexists. }
  destruct (adopt_loop_ok held larges idx (g_aband g idx) (slab_fuel w1) h w1 (adopt_ghost g idx) None)
    as (r & h' & w' & g' & -> & [Hw' Hh' Hex' (_ & _ & Hl' & _) Hbin'] & Hs' & Hto'); [by split|done|done|].
  assert (∀ x, g_place g' !! x ≠ Some Loose) as Hnl' by (intros x Hx%Hl'; by apply elem_of_nil in Hx).
  exists r, h', w', g'. split; [done|]. split; [|split; [exact Hbin'|]].
  2: { intros b Hb. destruct (Hto' b) as [Heq|?]; [|done]. exfalso. apply (Hnl' b). rewrite Heq. cbn.
       rewrite loosen_lookup, decide_True; [done|by apply Hab]. }
  assert (adopt_step held larges h w g h' w' g') as Hs.
  { eapply adopt_step_trans; [|exact Hs']. split; [done|done|]. rewrite Hm1. apply keeps_refl. }
  split; try done. split; [|split; [done|]].
  - exact Hnl'.
  - rewrite <- Hsp. apply Hs.
Qed.

Lemma init_free_count p idx id :
  slab_base_ok p → 0 ≤ idx < NUM_CLASSES → 0 < Slab_free_count (SlabHeader_init idx id).
Proof.
  intros Hp Hidx. pose proof (slab_init_inv p idx id ∅ Hp Hidx) as Hi.
  rewrite (slab_free_count p _ _ _ _ _ Hi). pose proof (slab_inv_length p _ _ _ _ _ Hi) as [Hl _].
  unfold carved in Hl. cbn [length] in *.
  pose proof (geo_count _ (static_geometry _ (si_static _ _ _ _ _ _ Hi))). lia.
Qed.

(** Neither the cache nor the pool has a page. *)
Definition out_of_pages w' : Prop := w_cache w' = 0 ∧ ∃ p, pp_alloc_slab p = Ok (None, w_pool w').

(** A page from the cache or the pool becomes the active slab and serves. *)
Lemma fresh_slab_ok held larges h w g idx raw cached :
  hinv held larges w (set_pages g cached [raw]) → heap_ok h g → settled g → 0 ≤ idx < NUM_CLASSES →
  hp_bins h !! Z.to_nat idx = Some None → w_abandoned w !! Z.to_nat idx = Some 0 →
  ∃ ptr w1 h1 h2, slab_alloc_at (set_header w raw (SlabHeader_init idx (hp_id h))) raw = Ok (Some ptr, w1) ∧
    set_bin h idx (Some raw) = Ok h1 ∧ count_alloc h1 idx = Ok h2 ∧
    alloc_post held larges idx h w g (Some ptr) h2 w1
      (put_place (set_pages (put_place g raw Loose) cached []) raw (Active (hp_id h) idx)) ∧
    w_abandoned w1 !! Z.to_nat idx = Some 0 ∧ g_place g !! raw = None.
Proof.
  intros Hw Hh Hset Hidx Hbin Hab. pose proof Hset as (Hnl & Hex & Hsp).
  assert (slab_base_ok raw) as Hraw by (apply (winv_page_ok _ _ _ _ Hw); cbn; set_solver).
  pose proof (init_header_hinv held larges w g raw cached idx (hp_id h) Hw Hidx (ho_id _ _ Hh)) as Hw3.
  set (hd := SlabHeader_init idx (hp_id h)) in *. set (w3 := set_header w raw hd) in *.
  set (g3 := set_pages (put_place g raw Loose) cached []) in *.
  assert (ls_hdrs (w_slabs w3) !! raw = Some hd) as Hb3 by apply lookup_insert_eq.
  assert (g_place g3 !! raw = Some Loose) as Hp3 by apply lookup_insert_eq.
  assert (g_place g !! raw = None) as Hnone.
  { apply eq_None_not_Some. intros Hsome. apply (wi_dom _ _ _ _ Hw), elem_of_slab_pages in Hsome.
    pose proof (winv_pages_NoDup _ _ _ _ Hw) as (_ & Hno & _)%NoDup_app.
    apply (Hno raw Hsome). cbn. set_solver. }
  destruct (alloc_at_hinv held larges w3 g3 Hw3 Hex raw hd Hb3)
    as (r & w4 & hd4 & E4 & Hb4 & (Hcl4 & Hid4 & _) & Hm4 & _ & Hr); [congruence|].
  destruct r as [ptr|].
  2: { destruct Hr as [Hz _]. pose proof (init_free_count raw idx (hp_id h) Hraw Hidx) as Hpos. fold hd in Hpos. lia. }
  destruct Hr as [_ Hw4]. change (size_class_index hd) with idx in *.
  assert (heap_ok h g3) as Hh3.
  { destruct Hh as [Hl Hb Hm Hid]. split; try done. intros i x Hi. rewrite Hb by done. cbn.
    rewrite lookup_insert. case_decide; [subst x|done]. rewrite Hnone. split; congruence. }
  destruct (install_ok _ larges h w4 g3 Hw4 Hh3 idx Hidx raw hd4 Hb4 Hp3) as (h5 & E5 & _ & _ & Hs5); [by split|done|].
  destruct (count_alloc_ok h5 _ idx (hs_heap _ _ _ _ _ _ _ _ Hs5) Hidx) as (h6 & E6 & Hh6 & Hid6 & _).
  exists ptr, w4, h5, h6. do 3 (split; [done|]). split; [|split; [|done]].
  2: { rewrite (slab_alloc_at_abandoned _ _ _ _ E4). exact Hab. }
  split; [apply Hs5|exact Hh6| |].
  - split; [|by split]. intros x. cbn. rewrite insert_insert_eq, lookup_insert. case_decide; [done|apply Hnl].
  - split; [rewrite Hid6; apply Hs5| |by rewrite Hm4].
    split; try done. intros x id' i Hne. cbn. rewrite insert_insert_eq, lookup_insert.
    case_decide; [subst x|done]. rewrite Hnone. split; congruence.
Qed.

Lemma request_slab_ok held larges h w g idx :
  hinv held larges w g → heap_ok h g → settled g → 0 ≤ idx < NUM_CLASSES →
  hp_bins h !! Z.to_nat idx = Some None →
  ∃ r h' w' g', request_slab h w idx = Ok (r, h', w') ∧ alloc_post held larges idx h w g r h' w' g' ∧
    w_abandoned w' !! Z.to_nat idx = Some 0 ∧ all_adopted (hp_id h) idx g g' ∧ (r = None → out_of_pages w').
Proof.
  intros Hw Hh Hset Hidx Hbin. unfold request_slab.
  destruct (try_adopt_ok held larges h w g idx Hw Hh Hset Hidx Hbin)
    as (r & h1 & w1 & g1 & E1 & [Hw1 Hh1 Hset1 Hs1] & Hbin1 & Had1).
  pose proof (try_adopt_abandoned h w idx r h1 w1 ltac:(lia) E1) as Hab1. rewrite E1. clear E1. cbn [mbind res_bind].
  destruct r as [ptr|].
  { destruct (count_alloc_ok h1 g1 idx Hh1 Hidx) as (h2 & -> & Hh2 & Hid2 & _). cbn [mbind res_bind].
    exists (Some ptr), h2, w1, g1. split; [done|]. split; [|by split_and!]. split; try done.
    destruct Hs1 as [Hid Ht Hk]. split; [congruence|done|done]. }
  specialize (Hbin1 eq_refl). cbn [served] in Hw1. pose proof Hset1 as (Hnl1 & Hex1 & Hsp1).
  destruct (take_page_hinv held larges w1 g1 Hw1 Hsp1) as (r & w2 & cached & E2 & Hst2 & Hk2 & Hw2 & Hab2 & Hoom).
  unfold take_page in E2. rewrite E2. clear E2. cbn [mbind res_bind].
  destruct r as [raw|].
  2: { destruct (Hoom eq_refl) as [Hc2 Hp2].
       exists None, h1, w2, (set_pages g1 cached []). split; [done|].
       split; [|split; [by rewrite Hab2|split; [done|by intros _; split; [|eexists]]]].
       split; [done|by destruct Hh1|by split|]. eapply adopt_step_trans; [exact Hs1|]. split; [done| |done]. by split. }
  destruct (fresh_slab_ok held larges h1 w2 g1 idx raw cached Hw2 Hh1 Hset1 Hidx Hbin1 ltac:(by rewrite Hab2))
    as (ptr & w3 & h2 & h3 & E3 & E4 & E5 & Hpost & Hab3 & Hnone).
  rewrite E3. cbn [mbind res_bind]. rewrite E4. cbn [mbind res_bind]. rewrite E5. cbn [mbind res_bind].
  do 4 eexists. split; [done|]. split; [|split; [exact Hab3|split; [|done]]].
  - eapply alloc_post_step; [|exact Hpost]. eapply adopt_step_trans; [exact Hs1|]. by split.
  - intros b Hb. cbn. rewrite insert_insert_eq, lookup_insert. case_decide; [|by apply Had1].
    right. eexists. split; [done|]. by rewrite <- (as_id _ _ _ _ _ _ _ _ Hs1).
Qed.

(** ** [alloc] *)

Section alloc.
Context held larges idx (Hidx : 0 ≤ idx < NUM_CLASSES).

(** Allocating from the active slab at [b]. *)
Lemma active_alloc_ok h w g b hd :
  hinv held larges w g → heap_ok h g → settled g → hp_bins h !! Z.to_nat idx = Some (Some b) →
  ls_hdrs (w_slabs w) !! b = Some hd →
  ∃ r w' hd', slab_alloc_at w b = Ok (r, w') ∧ ls_hdrs (w_slabs w') !! b = Some hd' ∧
    match r with
    | Some ptr => ∃ h', count_alloc h idx = Ok h' ∧ alloc_post held larges idx h w g (Some ptr) h' w' g
    | None => Slab_free_count hd = 0 ∧ w' = w
    end.
Proof.
  intros Hw Hh Hset Hbin Hb. pose proof Hset as (_ & Hex & _). rewrite (ho_bins _ _ Hh) in Hbin by done.
  pose proof (wi_place _ _ _ _ Hw b hd _ Hb Hbin) as [_ Hcl].
  destruct (alloc_at_hinv held larges w g Hw Hex b hd Hb) as (r & w1 & hd1 & E & Hb1 & _ & Hm & _ & Hr);
    [intros c Hc; congruence|].
  exists r, w1, hd1. split; [done|]. split; [done|]. destruct r as [ptr|]; [|done].
  destruct Hr as [_ Hw1]. rewrite Hcl in Hw1.
  destruct (count_alloc_ok h g idx Hh Hidx) as (h' & E' & Hh' & Hid' & _). exists h'. split; [done|].
  split; try done. split; [done|done|]. rewrite Hm. apply keeps_refl.
Qed.

Lemma alloc_active_ok h w g b :
  hinv held larges w g → heap_ok h g → settled g → hp_bins h !! Z.to_nat idx = Some (Some b) →
  ∃ r h' w' g', alloc_active h w idx b = Ok (r, h', w') ∧ alloc_post held larges idx h w g r h' w' g' ∧
    (r = None → hp_bins h' !! Z.to_nat idx = Some None ∧
       ∃ hd, ls_hdrs (w_slabs w) !! b = Some hd ∧ Slab_free_count hd = 0).
Proof.
  intros Hw Hh Hset Hbin. pose proof Hset as (Hnl & Hex & Hsp).
  assert (g_place g !! b = Some (Active (hp_id h) idx)) as Hp by by apply (ho_bins _ _ Hh).
  destruct (proj2 (wi_dom _ _ _ _ Hw b)) as [hd Hb]; [by eexists|]. unfold alloc_active.
  destruct (active_alloc_ok h w g b hd Hw Hh Hset Hbin Hb) as (r & w1 & hd1 & -> & Hb1 & Hr).
  cbn [mbind res_bind]. destruct r as [ptr|].
  { destruct Hr as (h' & -> & Hpost). by exists (Some ptr), h', w1, g. }
  destruct Hr as [Hfc ->]. 
  destruct (drain_at_hinv held larges w g Hw Hex b hd Hb None)
    as (w2 & hd2 & -> & Hb2 & _ & Hw2 & Hk2 & _); [intros c Hc; congruence|].
  cbn [mbind res_bind]. rewrite <- Hex, set_exempt_same in Hw2.
  assert (adopt_step held larges h w g h w2 g) as Hs2 by by split.
  destruct (active_alloc_ok h w2 g b hd2 Hw2 Hh Hset Hbin Hb2) as (r & w3 & hd3 & -> & Hb3 & Hr).
  cbn [mbind res_bind]. destruct r as [ptr|].
  { destruct Hr as (h' & -> & Hpost). exists (Some ptr), h', w3, g. split; [done|].
    split; [|done]. by eapply alloc_post_step. }
  destruct Hr as [Hfc2 ->].
  destruct (retire_active_ok held larges h w2 g idx b hd2 Hw2 Hh Hex Hidx Hbin Hb2 Hfc2)
    as (h4 & w4 & g4 & -> & Hs4 & Hl4 & Hbin4). cbn [mbind res_bind].
  exists None, h4, w4, g4. split; [done|]. split; [|intros _; split; [done|by exists hd]].
  eapply alloc_post_step; [exact Hs2|]. split; [apply Hs4|apply Hs4| |by eapply hstep_none].
  eapply settled_nil; [exact Hset|apply Hs4|]. intros x [Hx _]%Hl4. by apply (Hnl x).
Qed.

Context layout (Hclass : class_index layout = Ok (Some idx)).

(** An active slab with a free slot serves the request at once. *)
Lemma alloc_served_ok fuel h w g b hd :
  hinv held larges w g → heap_ok h g → settled g → hp_bins h !! Z.to_nat idx = Some (Some b) →
  ls_hdrs (w_slabs w) !! b = Some hd → 0 < Slab_free_count hd →
  ∃ ptr h' w' g', Heap_alloc (Datatypes.S fuel) h w layout = Ok (Some ptr, h', w') ∧
    alloc_post held larges idx h w g (Some ptr) h' w' g'.
Proof.
  intros Hw Hh Hset Hbin Hb Hpos. cbn [Heap_alloc]. rewrite Hclass. cbn [mbind res_bind].
  destruct (get_bin h g idx Hh Hidx) as (bin & -> & Hbin'). rewrite Hbin in Hbin'. injection Hbin' as <-.
  cbn [mbind res_bind].
  destruct (alloc_active_ok h w g b Hw Hh Hset Hbin) as (r & h1 & w1 & g1 & -> & Hpost & Hr).
  cbn [mbind res_bind]. destruct r as [ptr|]; [by exists ptr, h1, w1, g1|].
  destruct (Hr eq_refl) as (_ & hd' & Hb' & Hz). rewrite Hb in Hb'. injection Hb' as <-. lia.
Qed.

(** With an empty bin: the partial queue, the full queue, adoption, a new page. *)
Definition alloc_refill (fuel : nat) h w : res (option Z * Heap * world W) :=
  '(found, h, w) ← try_partial h w idx;
  if (found : bool) then Heap_alloc fuel h w layout else
  '(h, w) ← scan_full_list h w idx;
  bin ← arr_get (hp_bins h) idx;
  match bin with
  | Some _ => Heap_alloc fuel h w layout
  | None =>
      '(found, h, w) ← try_partial h w idx;
      if (found : bool) then Heap_alloc fuel h w layout else request_slab h w idx
  end.

Lemma alloc_refill_ok fuel h w g :
  hinv held larges w g → heap_ok h g → settled g → hp_bins h !! Z.to_nat idx = Some None →
  ∃ r h' w' g', alloc_refill (Datatypes.S fuel) h w = Ok (r, h', w') ∧
    alloc_post held larges idx h w g r h' w' g' ∧ (r = None → out_of_pages w').
Proof.
  intros Hw Hh Hset Hbin. unfold alloc_refill.
  pose proof (try_partial_ok held larges h w g idx Hw Hh Hset Hidx Hbin) as Htp.
  destruct (g_lists g (partial_heads h idx)) as [|b l] eqn:Hpl.
  2: { destruct Htp as (h1 & w1 & g1 & hd & -> & Hs1 & Hset1 & Hbin1 & Hb1 & Hpos). cbn [mbind res_bind].
       destruct (alloc_served_ok fuel h1 w1 g1 b hd) as (ptr & h2 & w2 & g2 & E & Hpost);
         [apply Hs1|apply Hs1|done..|]. exists (Some ptr), h2, w2, g2. split; [exact E|].
       split; [|done]. eapply alloc_post_step; [by eapply hstep_none|done]. }
  rewrite Htp. cbn [mbind res_bind].
  destruct (scan_full_list_ok held larges h w g idx Hw Hh Hset Hidx)
    as (h1 & w1 & g1 & -> & Hs1 & Hset1 & Hgood & Hempty); [split; [intros b; rewrite Hbin; done|done]|].
  cbn [mbind res_bind]. pose proof (hs_inv _ _ _ _ _ _ _ _ Hs1) as Hw1.
  pose proof (hs_heap _ _ _ _ _ _ _ _ Hs1) as Hh1.
  destruct (get_bin h1 g1 idx Hh1 Hidx) as (bin & -> & Hbin1). cbn [mbind res_bind].
  destruct bin as [b|].
  - destruct (Hgood b Hbin1) as (hd & Hb & Hpos).
    destruct (alloc_served_ok fuel h1 w1 g1 b hd) as (ptr & h2 & w2 & g2 & E & Hpost); [done..|].
    exists (Some ptr), h2, w2, g2. split; [exact E|]. split; [|done].
    eapply alloc_post_step; [by eapply hstep_none|done].
  - pose proof (try_partial_ok held larges h1 w1 g1 idx Hw1 Hh1 Hset1 Hidx Hbin1) as Htp1.
    rewrite (Hempty Hbin1) in Htp1. rewrite Htp1. cbn [mbind res_bind].
    destruct (request_slab_ok held larges h1 w1 g1 idx Hw1 Hh1 Hset1 Hidx Hbin1)
      as (r & h2 & w2 & g2 & E & Hpost & _ & _ & Hoom). exists r, h2, w2, g2. split; [exact E|].
    split; [|exact Hoom]. eapply alloc_post_step; [by eapply hstep_none|done].
Qed.

Lemma alloc_small_ok fuel h w g :
  hinv held larges w g → heap_ok h g → settled g →
  ∃ r h' w' g', Heap_alloc (Datatypes.S (Datatypes.S fuel)) h w layout = Ok (r, h', w') ∧
    alloc_post held larges idx h w g r h' w' g' ∧ (r = None → out_of_pages w').
Proof.
  intros Hw Hh Hset.
  assert (Heap_alloc (Datatypes.S (Datatypes.S fuel)) h w layout =
    (bin ← arr_get (hp_bins h) idx;
     '(r, h, w) ← (match bin with Some b => alloc_active h w idx b | None => Ok (None, h, w) end);
     match r with Some ptr => Ok (Some ptr, h, w) | None => alloc_refill (Datatypes.S fuel) h w end)) as ->.
  { remember (Datatypes.S fuel) as n. cbn [Heap_alloc]. rewrite Hclass. done. }
  destruct (get_bin h g idx Hh Hidx) as (bin & -> & Hbin). cbn [mbind res_bind].
  destruct bin as [b|].
  - destruct (alloc_active_ok h w g b Hw Hh Hset Hbin) as (r & h1 & w1 & g1 & -> & Hpost & Hr).
    cbn [mbind res_bind]. destruct r as [ptr|]; [by exists (Some ptr), h1, w1, g1|].
    destruct Hpost as [Hw1 Hh1 Hset1 Hs1]. destruct (Hr eq_refl) as [Hbin1 _].
    destruct (alloc_refill_ok fuel h1 w1 g1 Hw1 Hh1 Hset1 Hbin1) as (r & h2 & w2 & g2 & E & Hpost & Hoom).
    exists r, h2, w2, g2. split; [exact E|]. split; [|exact Hoom]. by eapply alloc_post_step.
  - cbn [mbind res_bind]. by apply alloc_refill_ok.
Qed.
End alloc.

Lemma alloc_large_ok fuel held larges h w g layout :
  hinv held larges w g → heap_ok h g → settled g → class_index layout = Ok None →
  layout_valid layout → 0 < size layout →
  ∃ r h' w', Heap_alloc (Datatypes.S fuel) h w layout = Ok (r, h', w') ∧
    hinv held (match r with Some a => (a, layout) :: larges | None => larges end) w' g ∧
    heap_ok h' g ∧ adopt_step held larges h w g h' w' g ∧
    (r = None → ∃ p, pp_alloc_large p layout = (None, w_pool w')).
Proof.
  intros Hw Hh Hset Hc Hv Hpos. cbn [Heap_alloc]. rewrite Hc. cbn [mbind res_bind].
  destruct (pp_alloc_large (w_pool w) layout) as [r p] eqn:E.
  destruct (pp_alloc_large_ok _ _ _ _ _ _ (wi_pool _ _ _ _ Hw) Hv Hpos E) as [Hk Hp].
  destruct (pool_op_hinv held larges larges w g p Hw) as [Hw' Hku]; [done|exact Hk|].
  specialize (Hw' _ Hp). destruct r as [a|]; do 3 eexists; (split; [done|]); (split; [exact Hw'|]);
    (split; [|split; [by split|first [done|intros _; by eexists]]]); [|exact Hh].
  apply heap_ok_metrics; [exact Hh|apply Hh].
Qed.

(** ** [dealloc] *)

Record free_post held larges h w g h' w' g' : Prop := {
  fp_inv : hinv held larges w' g';
  fp_heap : heap_ok h' g';
  fp_settled : settled g';
  fp_step : adopt_step held larges h w g h' w' g';
}.

Lemma free_post_step held larges h w g h1 w1 g1 h2 w2 g2 :
  adopt_step held larges h w g h1 w1 g1 → free_post held larges h1 w1 g1 h2 w2 g2 →
  free_post held larges h w g h2 w2 g2.
Proof. intros Hs []. split; try done. by eapply adopt_step_trans. Qed.

(** Where the slab of a slot that is not in the active slab is. *)
Lemma own_queued held larges h w g idx b hd :
  hinv held larges w g → heap_ok h g → settled g → hp_id h ∈ g_alive g → 0 ≤ idx < NUM_CLASSES →
  ls_hdrs (w_slabs w) !! b = Some hd → heap_id hd = hp_id h → size_class_index hd = idx →
  hp_bins h !! Z.to_nat idx ≠ Some (Some b) →
  ∃ k l1 l2, g_lists g (mkHeadCell (hp_id h) k idx) = l1 ++ b :: l2 ∧ kind_ok k hd.
Proof.
  intros Hw Hh (Hnl & Hex & _) Halive Hidx Hb Hid Hcl Hbin.
  destruct (proj1 (wi_dom _ _ _ _ Hw b)) as [p Hp]; [by eexists|].
  pose proof (wi_place _ _ _ _ Hw b hd p Hb Hp) as Hok. destruct p as [|id i|[id k i]|i]; cbn in Hok.
  - by apply Hnl in Hp.
  - destruct Hok as [<- <-]. exfalso. apply Hbin. rewrite (ho_bins _ _ Hh), <- Hid, <- Hcl by done.
    by rewrite Hp, Hcl.
  - destruct Hok as (<- & <- & [?|Hk]); [congruence|]. exists k. rewrite <- Hid, <- Hcl.
    apply (wi_queued _ _ _ _ Hw) in Hp. apply list_elem_of_split in Hp as (l1 & l2 & ->).
    by exists l1, l2.
  - destruct Hok as [_ Hna]. by rewrite Hid in Hna.
Qed.

Lemma dealloc_large_ok mode held larges h w g a layout :
  hinv held ((a, layout) :: larges) w g → heap_ok h g → settled g → class_index layout = Ok None →
  ∃ h' w', Heap_dealloc mode h w a layout = Ok (h', w') ∧ free_post held larges h w g h' w' g.
Proof.
  intros Hw Hh Hset Hc. unfold Heap_dealloc. rewrite Hc. cbn [mbind res_bind].
  destruct (pp_dealloc_large_ok _ _ _ _ _ (wi_pool _ _ _ _ Hw)) as [Hk Hp].
  destruct (pool_op_hinv held ((a, layout) :: larges) larges w g (pp_dealloc_large (w_pool w) a layout) Hw) as [Hw' Hku];
    [intros; by right|exact Hk|].
  do 2 eexists. split; [done|]. split; [by apply Hw'| |done|by split].
  apply heap_ok_metrics; [exact Hh|apply Hh].
Qed.

Section dealloc.
Context held held' larges w g s idx layout
  (Hw : hinv held larges w g) (Hset : settled g)
  (Hs : held ≡ₚ s :: held') (Hidx : 0 ≤ idx < NUM_CLASSES) (Hsc : snd s = idx)
  (Hclass : class_index layout = Ok (Some idx)).
Local Abbreviation b := (SlabHeader_from_ptr (fst s)).

Lemma freed_slab : ∃ hd, ls_hdrs (w_slabs w) !! b = Some hd ∧ size_class_index hd = idx.
Proof.
  destruct (wi_held _ _ _ _ Hw s) as (hd & Hb & Hcl); [rewrite Hs; by left|].
  exists hd. split; [done|congruence].
Qed.

(** After a free to a queued slab of this heap. *)
Lemma own_free_ok h hd :
  heap_ok h g → ls_hdrs (w_slabs w) !! b = Some hd → heap_id hd = hp_id h → size_class_index hd = idx →
  hp_bins h !! Z.to_nat idx ≠ Some (Some b) → hp_id h ∈ g_alive g →
  ∃ h' w' g',
    (w1 ← slab_dealloc_local_at w b (fst s);
     hd ← get_header (w_slabs w1) b;
     if Slab_is_fully_free hd then w2 ← reclaim_slab w1 b; Ok (h, w2)
     else if Slab_free_count hd =? 1 then w2 ← heap_list_remove w1 b; promote h w2 idx b
     else Ok (h, w1)) = Ok (h', w') ∧ free_post held' larges h w g h' w' g'.
Proof.
  intros Hh Hb Hid Hcl Hbin Halive. pose proof Hset as (Hnl & Hex & _).
  destruct (own_queued held larges h w g idx b hd Hw Hh Hset Halive Hidx Hb Hid Hcl Hbin)
    as (k & l1 & l2 & Hc & Hk). set (c := mkHeadCell (hp_id h) k idx) in *.
  assert (g_place g !! b = Some (Queued c)) as Hp by (apply (wi_queued _ _ _ _ Hw); rewrite Hc; set_solver).
  destruct (dealloc_local_at_hinv held larges w g Hw Hex s held' Hs hd Hb (Some b))
    as (w1 & hd1 & -> & Hb1 & (Hcl1 & Hid1 & _) & Hw1 & Hk1 & Hff & Hfc); [done|].
  cbn [mbind res_bind]. rewrite (get_header_ok _ b hd1 Hb1). cbn [mbind res_bind].
  assert (∀ x, x ≠ b → g_place (drop_ghost g c b (l1 ++ l2)) !! x = g_place g !! x) as Hdrop
    by (intros x Hx; cbn; by rewrite lookup_insert_ne).
  destruct (Slab_is_fully_free hd1) eqn:Hfree; [|destruct (Z.eqb_spec (Slab_free_count hd1) 1) as [Hone|Hmany]].
  - destruct (unqueue_exempt_ok held' larges h w1 g c b hd1 l1 l2 Hw1 Hh Hex Hc Hb1)
      as (w2 & hd2 & E2 & Hb2 & _ & Hw2 & Hh2 & Ht2 & Hm2 & _ & Hfl2). unfold reclaim_slab. rewrite E2. cbn [mbind res_bind].
    destruct (cached_step held' larges h w2 _ b hd2 Hw2 Hh2 Hb2) as (w3 & cached & -> & Hs3 & _);
      [apply lookup_insert_eq|rewrite Hfl2; by apply Hff|]. cbn [mbind res_bind].
    do 3 eexists. split; [done|]. split; [apply Hs3|apply Hs3| |].
    + eapply settled_nil; [exact Hset|eapply gtrans_trans; [exact Ht2|apply Hs3]|].
      intros x Hx. cbn in Hx. apply lookup_delete_Some in Hx as [Hne Hx].
      rewrite lookup_insert_ne in Hx by done. by apply (Hnl x).
    + eapply adopt_step_trans; [|by eapply hstep_none]. split; [done|done|]. by rewrite Hm2.
  - destruct (unqueue_exempt_ok held' larges h w1 g c b hd1 l1 l2 Hw1 Hh Hex Hc Hb1)
      as (w2 & hd2 & -> & Hb2 & He2 & Hw2 & Hh2 & Ht2 & Hm2 & _). cbn [mbind res_bind].
    apply erase_fields in He2 as (Hcl2 & Hid2 & Hfc2).
    destruct (promote_ok held' larges h w2 _ idx b hd2 Hw2 Hh2 Hex Hidx Hb2)
      as (h3 & w3 & g3 & -> & Hs3 & Hlb & _); [apply lookup_insert_eq|split; congruence|lia|].
    do 3 eexists. split; [done|]. split; [apply Hs3|apply Hs3| |].
    + eapply settled_nil; [exact Hset|eapply gtrans_trans; [exact Ht2|apply Hs3]|].
      intros x [Hx Hne]%Hlb. rewrite Hdrop in Hx by done. by apply (Hnl x).
    + eapply adopt_step_trans; [|by eapply hstep_none]. split; [done|done|]. by rewrite Hm2.
  - assert (hinv held' larges w1 g) as Hw1'.
    { rewrite <- (set_exempt_same g), Hex, <- (set_exempt_twice g (Some b)).
      eapply hinv_end_exempt; [exact Hw1|done|]. intros c' hx Hx. cbn in Hx. rewrite Hp in Hx.
      injection Hx as <-. rewrite Hb1. intros [= <-]. destruct k; cbn in *; lia. }
    exists h, w1, g. split; [done|]. split; try done.
Qed.

Lemma dealloc_small_ok mode h :
  heap_ok h g → hp_id h ∈ g_alive g →
  ∃ h' w' g', Heap_dealloc mode h w (fst s) layout = Ok (h', w') ∧ free_post held' larges h w g h' w' g'.
Proof.
  intros Hh Halive. unfold Heap_dealloc. rewrite Hclass. cbn [mbind res_bind].
  destruct (count_dealloc_ok h g idx Hh Hidx) as (h1 & -> & Hh1 & Hid1 & Hbn1). cbn [mbind res_bind].
  destruct (get_bin h1 g idx Hh1 Hidx) as (bin & -> & Hbin). cbn [mbind res_bind].
  destruct freed_slab as (hd & Hb & Hcl). pose proof Hset as (_ & Hex & _).
  assert (∀ h' w' g', free_post held' larges h1 w g h' w' g' → free_post held' larges h w g h' w' g') as Hcount.
  { intros h' w' g' Hf. eapply free_post_step; [|exact Hf]. by split. }
  rewrite Hbn1 in Hbin.
  destruct (match bin with Some active => SlabRef_header_eq active b | None => false end) eqn:Heq.
  - destruct bin as [b0|]; [|done]. unfold SlabRef_header_eq in Heq. apply Z.eqb_eq in Heq. subst b0.
    rewrite (ho_bins _ _ Hh) in Hbin by done.
    destruct (dealloc_local_at_hinv held larges w g Hw Hex s held' Hs hd Hb None)
      as (w1 & hd1 & -> & _ & _ & Hw1 & Hk1 & _); [intros c Hc; congruence|]. cbn [mbind res_bind].
    rewrite <- Hex, set_exempt_same in Hw1. exists h1, w1, g. split; [done|]. split; try done.
  - rewrite (get_header_ok _ b hd Hb). cbn [mbind res_bind].
    assert (hp_bins h1 !! Z.to_nat idx ≠ Some (Some b)) as Hnact.
    { rewrite Hbn1, Hbin. intros [= ->]. unfold SlabRef_header_eq in Heq. by rewrite Z.eqb_refl in Heq. }
    destruct (Z.eqb_spec (heap_id hd) (hp_id h1)) as [Hid|Hid].
    + destruct (own_free_ok h1 hd Hh1 Hb Hid Hcl Hnact) as (h2 & w2 & g2 & E & Hf); [by rewrite Hid1|].
      exists h2, w2, g2. split; [exact E|by apply Hcount].
    + destruct (push_remote_ok mode held larges w g s held' hd Hw Hex Hs Hb) as (w1 & E & Hw1 & Hk1).
      rewrite <- Hsc, E.
      cbn [mbind res_bind]. do 2 eexists. exists g. split; [done|]. split; [done| |done|].
      * apply heap_ok_metrics; [exact Hh1|apply Hh1].
      * split; [done|done|done].
Qed.
End dealloc.

(** ** Thread exit *)

Lemma live_sub b l l' : (∀ s, s ∈ l → s ∈ l') → live b l ≠ [] → live b l' ≠ [].
Proof.
  intros Hs Hl E. apply Hl, elem_of_nil_inv. intros a (s & Hin & <- & Hb)%elem_of_live.
  assert (fst s ∈ live b l') as Hin' by (apply elem_of_live; exists s; auto). rewrite E in Hin'. by apply elem_of_nil in Hin'.
Qed.

(** Slabs leave their places only by being cached, when no slot of them is in
    use, or by being abandoned, when one is or was among the slots [fl] whose
    free is in flight. *)
Definition released held (fl : list slot) g g' : Prop :=
  ∀ b, g_place g' !! b = g_place g !! b ∨
    (live b held = [] ∧ g_place g' !! b = None) ∨
    (live b (held ++ fl) ≠ [] ∧ ∃ i, g_place g' !! b = Some (Abandoned i)).

Lemma released_trans held fl fl' g1 g2 g3 :
  (∀ s, s ∈ fl' → s ∈ fl) → released held fl g1 g2 → released held fl' g2 g3 → released held fl g1 g3.
Proof.
  intros Hsub H1 H2 b. destruct (H2 b) as [E|[?|[Hl ?]]]; [|by right; left|].
  - destruct (H1 b) as [E'|[[? ?]|[? [i ?]]]]; [left; congruence|right; left; split; congruence|].
    right. right. split; [done|]. exists i. congruence.
  - right. right. split; [|done]. eapply live_sub; [|exact Hl]. intros s. rewrite !elem_of_app. naive_solver.
Qed.

(** One step of the exit of heap [h]; [c] is the queue it shortens. *)
Record exit_step held larges h w g w' g' : Prop := {
  es_inv : hinv held larges w' g';
  es_settled : settled g';
  es_trans : gtrans (hp_id h) g g';
  es_keeps : keeps (user_blocks held larges) (w_mem w) (w_mem w');
  es_released : released held (w_flight w) g g';
  es_flight s : s ∈ w_flight w' → s ∈ w_flight w;
}.

Lemma exit_step_trans held larges h h' w1 g1 w2 g2 w3 g3 :
  hp_id h' = hp_id h → exit_step held larges h w1 g1 w2 g2 → exit_step held larges h' w2 g2 w3 g3 →
  exit_step held larges h w1 g1 w3 g3.
Proof.
  intros Hid [] [? ? Ht ? ? ?]. rewrite Hid in Ht. split; try done.
  - by eapply gtrans_trans.
  - by eapply keeps_trans.
  - by eapply released_trans.
  - auto.
Qed.

(** [release_slab] of a slab that was made loose. *)
Lemma release_slab_ok held larges h w g b hd :
  hinv held larges w g → heap_ok h g → g_exempt g = None → g_spare g = [] →
  ls_hdrs (w_slabs w) !! b = Some hd → heap_id hd = hp_id h → hp_id h ∉ g_alive g →
  (∀ x, g_place g !! x = Some Loose ↔ x = b) →
  ∃ w' g', release_slab w b = Ok w' ∧ exit_step held larges h w g w' g' ∧ heap_ok h g' ∧
    g_lists g' = g_lists g ∧ (g_place g' !! b = g_place g !! b → False).
Proof.
  intros Hw Hh Hex Hsp Hb Hid Hna Hl. assert (g_place g !! b = Some Loose) as Hp by by apply Hl.
  unfold release_slab.
  destruct (drain_at_hinv held larges w g Hw Hex b hd Hb None)
    as (w1 & hd1 & -> & Hb1 & (Hcl1 & Hid1 & _) & Hw1 & Hk1 & _ & Hff & _ & Hfl1 & _); [intros c Hc; congruence|].
  rewrite <- Hex, set_exempt_same in Hw1. cbn [mbind res_bind].
  rewrite (get_header_ok _ b hd1 Hb1). cbn [mbind res_bind].
  destruct (Slab_is_fully_free hd1) eqn:Hfree.
  - assert (live b (held ++ w_flight w1) = []) as Hlv by by apply Hff.
    destruct (cached_step held larges h w1 g b hd1 Hw1 Hh Hb1 Hp Hlv) as (w2 & cached & -> & [Hw2 Hh2 _ Ht2 Hk2] & _ & Hfl2).
    apply live_more in Hlv.
    exists w2, (cached_ghost g b cached). split; [done|]. split; [|split; [exact Hh2|split; [done|]]].
    + split; [exact Hw2|split; [|by split]|exact Ht2|by eapply keeps_trans| |by rewrite Hfl2].
      * intros x Hx. cbn in Hx. apply lookup_delete_Some in Hx as [Hne Hx%Hl]. by apply Hne.
      * intros x. cbn. rewrite lookup_delete. case_decide; [subst x; auto|by left].
    + cbn. rewrite lookup_delete_eq, Hp. done.
  - assert (live b (held ++ w_flight w) ≠ []) as Hlv.
    { apply (live_sub b (held ++ w_flight w1)); [|intros E; apply Hff in E; congruence].
      intros s. rewrite !elem_of_app. naive_solver. }
    destruct (abandon_hinv held larges w1 g b hd1 Hw1 Hb1 Hp) as (w2 & -> & Hm2 & Hfl2 & Hw2);
      [by rewrite Hid1, Hid|].
    exists w2, (abandon_ghost g b (size_class_index hd1)). split; [done|].
    assert (∀ q, (∀ id i, q ≠ Active id i) → heap_ok h (put_place g b q)) as Hho.
    { intros q Hq. by apply (heap_ok_place h g _ b Loose q). }
    split; [|split; [|split; [done|]]].
    + split; [exact Hw2|split; [|by split]| |by rewrite Hm2| |by rewrite Hfl2].
      * intros x. cbn. rewrite lookup_insert. case_decide as Heq; [done|]. intros Hx%Hl. by apply Heq.
      * by apply (gtrans_place _ _ _ b Loose (Abandoned (size_class_index hd1))).
      * intros x. cbn. rewrite lookup_insert. case_decide; [subst x; right; right; eauto|by left].
    + destruct (Hho (Abandoned (size_class_index hd1))); [done|]. by split.
    + cbn. rewrite lookup_insert_eq, Hp. done.
Qed.

Lemma released_loosened held fl g0 g g' b :
  (∀ x, x ≠ b → g_place g !! x = g_place g0 !! x) → g_place g !! b = Some Loose →
  settled g' → released held fl g g' → released held fl g0 g'.
Proof.
  intros Hx Hb (Hnl & _) Hr x. destruct (Hr x) as [E|?]; [|by right]. left.
  destruct (decide (x = b)) as [->|Hne]; [|by rewrite E, Hx]. rewrite Hb in E. by apply Hnl in E.
Qed.

(** The queue [c] of the heap is emptied. *)
Lemma drop_list_ok held larges h k idx l : ∀ fuel w g,
  hinv held larges w g → heap_ok h g → settled g → hp_id h ∉ g_alive g →
  g_lists g (mkHeadCell (hp_id h) k idx) = l → (length l ≤ fuel)%nat →
  ∃ w' g', drop_list fuel w (mkHeadCell (hp_id h) k idx) = Ok w' ∧
    exit_step held larges h w g w' g' ∧ heap_ok h g' ∧
    g_lists g' (mkHeadCell (hp_id h) k idx) = [] ∧
    (∀ c, g_lists g c = [] → g_lists g' c = []).
Proof.
  set (c := mkHeadCell (hp_id h) k idx).
  induction l as [|b l IH]; intros fuel w g Hw Hh Hset Hna Hc Hlen;
    pose proof (pop_hinv held larges w g Hw c) as Hpop; rewrite Hc in Hpop.
  { exists w, g. split; [destruct fuel; cbn [drop_list]; by rewrite Hpop|].
    split; [|done]. split; try done. by left. }
  destruct fuel as [|fuel]; [cbn in Hlen; lia|]. cbn [drop_list].
  destruct Hpop as (w1 & hd & -> & Hm1 & Hw1 & Hfl1 & Hb & (hd1 & Hb1 & He) & Hp). cbn [mbind res_bind].
  pose proof (wi_place _ _ _ _ Hw b hd _ Hb Hp) as (Hid & _). cbn in Hid.
  apply erase_fields in He as (_ & Hid1 & _). pose proof Hset as (Hnl & Hex & Hsp).
  set (g1 := drop_ghost g c b l) in *.
  assert (heap_ok h g1) as Hh1 by by apply (heap_ok_place h g g1 b (Queued c) Loose).
  destruct (release_slab_ok held larges h w1 g1 b hd1 Hw1 Hh1 Hex Hsp Hb1)
    as (w2 & g2 & -> & Hs2 & Hh2 & Hl2 & _); [congruence|done| |].
  { intros x. cbn. rewrite lookup_insert. case_decide as Heq; [subst x; done|].
    split; [intros Hx; by apply Hnl in Hx|intros ->; done]. }
  cbn [mbind res_bind]. destruct Hs2 as [Hw2 Hset2 Ht2 Hk2 Hr2 Hfl2]. rewrite Hfl1 in Hr2, Hfl2.
  destruct (IH fuel w2 g2 Hw2 Hh2 Hset2) as (w3 & g3 & -> & Hs3 & Hh3 & Hc3 & Hl3).
  - by rewrite (gt_alive _ _ _ Ht2).
  - rewrite Hl2. cbn. by rewrite fn_lookup_insert.
  - cbn in Hlen. lia.
  - exists w3, g3. split; [done|]. split; [|split; [done|split; [done|]]].
    + eapply exit_step_trans; [reflexivity| |exact Hs3]. split; [done|done| |by rewrite <- Hm1| |done].
      * eapply gtrans_trans; [|exact Ht2]. by apply (gtrans_place _ _ _ b (Queued c) Loose).
      * eapply (released_loosened held _ g g1 g2 b); try done.
        -- intros x Hx. cbn. by rewrite lookup_insert_ne.
        -- apply lookup_insert_eq.
    + intros c' Hc'. apply Hl3. rewrite Hl2. cbn. destruct (decide (c' = c)) as [->|Hne]; [congruence|].
      by rewrite fn_lookup_insert_ne.
Qed.

Lemma retire_slab_ok held larges h w g idx :
  hinv held larges w g → heap_ok h g → settled g → hp_id h ∉ g_alive g → 0 ≤ idx < NUM_CLASSES →
  ∃ h' w' g', retire_slab h w idx = Ok (h', w') ∧ hp_id h' = hp_id h ∧
    exit_step held larges h w g w' g' ∧ heap_ok h' g' ∧
    hp_bins h' = <[Z.to_nat idx := None]> (hp_bins h) ∧ g_lists g' = g_lists g.
Proof.
  intros Hw Hh Hset Hna Hidx. unfold retire_slab.
  destruct (get_bin h g idx Hh Hidx) as (bin & -> & Hbin). cbn [mbind res_bind].
  destruct bin as [b|].
  2: { exists h, w, g. split; [done|]. split; [done|]. split; [split; try done; by left|].
       split; [done|]. split; [by rewrite list_insert_id|done]. }
  pose proof Hbin as Hp. rewrite (ho_bins _ _ Hh) in Hp by done. pose proof Hset as (Hnl & Hex & Hsp).
  destruct (proj2 (wi_dom _ _ _ _ Hw b)) as [hd Hb]; [by eexists|].
  pose proof (wi_place _ _ _ _ Hw b hd _ Hb Hp) as [Hid Hcl].
  rewrite (set_bin_ok h g) by done. cbn [mbind res_bind]. set (h1 := with_bins h _).
  assert (heap_ok h1 (put_place g b Loose)) as Hh1 by by apply empty_bin.
  assert (hinv held larges w (put_place g b Loose)) as Hw1
    by by apply (hinv_set_place held larges w g b (Active (hp_id h) idx) _ hd).
  destruct (release_slab_ok held larges h1 w (put_place g b Loose) b hd Hw1 Hh1 Hex Hsp Hb)
    as (w2 & g2 & -> & [Hw2 Hset2 Ht2 Hk2 Hr2 Hfl2] & Hh2 & Hl2 & _); [done|done| |].
  { intros x. cbn. rewrite lookup_insert. case_decide as Heq; [subst x; done|].
    split; [intros Hx; by apply Hnl in Hx|intros ->; done]. }
  cbn [mbind res_bind]. exists h1, w2, g2. split; [done|]. split; [done|].
  split; [|split; [done|split; [done|by rewrite Hl2]]]. split; [done|done| |done| |done].
  - eapply gtrans_trans; [|exact Ht2]. apply (gtrans_place _ _ _ b (Active (hp_id h) idx) Loose); try done.
    intros id' i Hne. split; congruence.
  - eapply (released_loosened held _ g (put_place g b Loose) g2 b); try done.
    + intros x Hx. cbn. by rewrite lookup_insert_ne.
    + apply lookup_insert_eq.
Qed.

(** The classes below [idx] are done. *)
Definition classes_done h g idx : Prop :=
  ∀ i, 0 ≤ i < idx → hp_bins h !! Z.to_nat i = Some None ∧
    ∀ k, g_lists g (mkHeadCell (hp_id h) k i) = [].

Lemma drop_classes_ok held larges n : ∀ h w g idx,
  hinv held larges w g → heap_ok h g → settled g → hp_id h ∉ g_alive g →
  0 ≤ idx → Z.of_nat n + idx = NUM_CLASSES → classes_done h g idx →
  ∃ h' w' g', drop_classes n h w idx = Ok (h', w') ∧ hp_id h' = hp_id h ∧
    exit_step held larges h w g w' g' ∧ heap_ok h' g' ∧ classes_done h' g' NUM_CLASSES.
Proof.
  induction n as [|n IH]; intros h w g idx Hw Hh Hset Hna Hidx Hn Hdone.
  { exists h, w, g. split; [done|]. split; [done|]. split; [split; try done; by left|].
    split; [done|]. by replace NUM_CLASSES with idx by lia. }
  cbn [drop_classes].
  destruct (retire_slab_ok held larges h w g idx Hw Hh Hset Hna) as (h1 & w1 & g1 & -> & Hid1 & Hs1 & Hh1 & Hb1 & Hl1);
    [lia|]. cbn [mbind res_bind]. pose proof Hs1 as [Hw1 Hset1 Ht1 _ _ _].
  assert (hp_id h1 ∉ g_alive g1) as Hna1 by (by rewrite Hid1, (gt_alive _ _ _ Ht1)).
  destruct (drop_list_ok held larges h1 FullList idx _ (slab_fuel w1) w1 g1 Hw1 Hh1 Hset1 Hna1 eq_refl)
    as (w2 & g2 & E2 & Hs2 & Hh2 & Hf2 & Hl2); [by eapply queue_fuel|].
  unfold full_heads. rewrite E2. cbn [mbind res_bind]. pose proof Hs2 as [Hw2 Hset2 Ht2 _ _ _].
  assert (hp_id h1 ∉ g_alive g2) as Hna2 by (by rewrite (gt_alive _ _ _ Ht2)).
  destruct (drop_list_ok held larges h1 PartialList idx _ (slab_fuel w2) w2 g2 Hw2 Hh2 Hset2 Hna2 eq_refl)
    as (w3 & g3 & E3 & Hs3 & Hh3 & Hp3 & Hl3); [by eapply queue_fuel|].
  unfold partial_heads. rewrite E3. cbn [mbind res_bind]. pose proof Hs3 as [Hw3 Hset3 Ht3 _ _ _].
  assert (hp_id h1 ∉ g_alive g3) as Hna3 by (by rewrite (gt_alive _ _ _ Ht3)).
  destruct (IH h1 w3 g3 (idx + 1) Hw3 Hh3 Hset3 Hna3) as (h4 & w4 & g4 & -> & Hid4 & Hs4 & Hh4 & Hdone4);
    [lia|lia| |].
  - intros i Hi. rewrite Hb1. destruct (decide (i = idx)) as [->|Hne].
    + split; [apply list_lookup_insert_eq; pose proof (ho_len _ _ Hh); lia|].
      intros []; [by apply Hl3|done].
    + destruct (Hdone i) as [Hbi Hli]; [lia|]. split; [rewrite list_lookup_insert_ne by lia; done|].
      intros k. apply Hl3, Hl2. by rewrite Hl1, Hid1.
  - exists h4, w4, g4. split; [done|]. split; [congruence|]. split; [|done].
    eapply exit_step_trans; [exact Hid1|exact Hs1|].
    eapply exit_step_trans; [reflexivity|exact Hs2|].
    eapply exit_step_trans; [reflexivity|exact Hs3|]. exact Hs4.
Qed.

(** The heaps still running when [id] exits. *)
Definition set_alive g (alive : gset Z) (next : Z) : ghost :=
  mkGhost alive next (g_place g) (g_lists g) (g_aband g) (g_cached g) (g_spare g) (g_exempt g).

Lemma hinv_alive held larges w g alive next :
  hinv held larges w g → g_next g ≤ next →
  (∀ b hd, ls_hdrs (w_slabs w) !! b = Some hd → heap_id hd ∈ alive → heap_id hd ∈ g_alive g) →
  hinv held larges w (set_alive g alive next).
Proof.
  intros [Hdom Hslab Hheld Hplace Hls Hq Hal Ha' Hap Hc Hcl Hp'] Hn Ha. split; try done.
  - intros b hd Hb. destruct (Hslab b hd Hb). split; [cbn; lia|done].
  - intros b hd p Hb Hp. pose proof (Hplace b hd p Hb Hp) as Hok. destruct p; cbn in *; try done.
    destruct Hok as [? Hna]. split; [done|]. intros Hin. by apply Hna, (Ha b hd).
Qed.

Lemma Heap_drop_ok held larges h w g :
  hinv held larges w g → heap_ok h g → settled g →
  ∃ h' w' g', Heap_drop h w = Ok (h', w') ∧ hinv held larges w' g' ∧ settled g' ∧
    gtrans (hp_id h) (set_alive g (g_alive g ∖ {[hp_id h]}) (g_next g)) g' ∧
    keeps (user_blocks held larges) (w_mem w) (w_mem w') ∧ released held (w_flight w) g g' ∧
    (∀ b p, g_place g' !! b = Some p → ¬ owned (hp_id h) p).
Proof.
  intros Hw Hh Hset. set (g0 := set_alive g (g_alive g ∖ {[hp_id h]}) (g_next g)).
  assert (hinv held larges w g0) as Hw0 by (apply hinv_alive; [done|lia|set_solver]).
  assert (heap_ok h g0) as Hh0 by (destruct Hh; by split).
  destruct (drop_classes_ok held larges (Z.to_nat NUM_CLASSES) h w g0 0 Hw0 Hh0 Hset)
    as (h' & w' & g' & E & Hid & [Hw' Hset' Ht Hk Hr _] & Hh' & Hdone); [cbn; set_solver|done|done|intros i; lia|].
  exists h', w', g'. split; [exact E|]. do 2 (split; [done|]). split; [exact Ht|]. do 2 (split; [done|]).
  intros b p Hp Hown.
  destruct (proj2 (wi_dom _ _ _ _ Hw' b)) as [hd Hb]; [by eexists|].
  destruct (wi_slab _ _ _ _ Hw' b hd Hb) as (_ & loc & rem & Hi).
  assert (0 ≤ size_class_index hd < NUM_CLASSES) as Hcl by apply Hi.
  pose proof (wi_place _ _ _ _ Hw' b hd p Hb Hp) as Hok.
  destruct p as [|id i|[id k i]|i]; cbn in Hown, Hok; try done; subst id.
  - destruct Hok as [_ Hi']. rewrite Hi' in Hcl. destruct (Hdone i Hcl) as [Hbin _].
    rewrite <- Hid, <- (ho_bins _ _ Hh') in Hp by done. congruence.
  - destruct Hok as (_ & Hi' & _). rewrite Hi' in Hcl. destruct (Hdone i Hcl) as [_ Hl].
    apply (wi_queued _ _ _ _ Hw') in Hp. rewrite <- Hid, Hl in Hp. by apply elem_of_nil in Hp.
Qed.

(** ** A new heap *)

Lemma Heap_new_ok held larges w g :
  hinv held larges w g →
  hinv held larges w (set_alive g ({[g_next g]} ∪ g_alive g) (g_next g + 1)) ∧
  heap_ok (Heap_new (g_next g)) (set_alive g ({[g_next g]} ∪ g_alive g) (g_next g + 1)).
Proof.
  intros Hw. split.
  - apply hinv_alive; [done|lia|]. intros b hd Hb [Hid%elem_of_singleton|?]%elem_of_union; [|done].
    destruct (wi_slab _ _ _ _ Hw b hd Hb). lia.
  - split; cbn; [by rewrite length_replicate| |done|lia].
    intros i b Hi. rewrite lookup_replicate. split; [by intros [[=] _]|]. intros Hp. exfalso.
    destruct (proj2 (wi_dom _ _ _ _ Hw b)) as [hd Hb]; [by eexists|].
    destruct (wi_slab _ _ _ _ Hw b hd Hb) as [Hn _].
    destruct (wi_place _ _ _ _ Hw b hd _ Hb Hp) as [Hid _]. lia.
Qed.
End ops.
