(* ===== verification/HeapSpec.v ===== *)
(** * What the heaps promise the program

    The client's view: the program holds a list [L] of blocks, each an address
    with the layout it was requested for, and any number of heaps share one
    world.  [consistent] ties the two together; the theorems say what an
    allocation, a free and a thread exit do to it, whatever the other heaps
    hold. *)

From stdpp Require Import functions base numbers list gmap.
From Stdlib Require Import ZArith Lia.
From S2P Require Import Prelude SizeClass LinkMem FreeList Treiber Slab SlabSpec SlabList Sys Metrics PageList Pool PoolSeq SlabCache PagePort Heap HeapInv HeapEnv HeapOps.

Local Open Scope Z_scope.
Local Open Scope clm_scope.
Arguments SLAB_SIZE : simpl never.
Arguments class_size : simpl never.
Arguments class_index : simpl never.
Arguments Z.div : simpl never.

(** ** The blocks of the program *)

Definition request_ok (l : Layout) : Prop := layout_valid l ∧ 0 < size l.

(** The slot a block of a size class occupies. *)
Definition small_slot (b : block) : option slot :=
  match class_index (snd b) with Ok (Some c) => Some (fst b, c) | _ => None end.

Definition is_large (b : block) : Prop := class_index (snd b) = Ok None.

#[export] Instance is_large_dec b : Decision (is_large b).
Proof. apply _. Defined.

Definition slots_of (L : list block) : list slot := omap small_slot L.
Definition larges_of (L : list block) : list block := filter is_large L.

(** The memory a block owns: its slot, or the block itself. *)
Definition owned_block (b : block) : block := default b (slot_block <$> small_slot b).

Lemma request_class l :
  request_ok l →
  (∃ c, class_index l = Ok (Some c) ∧ 0 ≤ c < NUM_CLASSES ∧ class_fits l c) ∨ class_index l = Ok None.
Proof.
  intros [Hv Hpos]. destruct (Z.le_gt_cases (effective_size l) 32768) as [Hle|Hgt].
  - destruct (class_index_least l Hle) as (c & Hc & _). left. exists c. split; [done|].
    by apply class_index_fits.
  - right. apply class_index_large. lia.
Qed.

Lemma slots_of_small a l c L : class_index l = Ok (Some c) → slots_of ((a, l) :: L) = (a, c) :: slots_of L.
Proof. intros Hc. unfold slots_of. cbn. unfold small_slot. cbn. by rewrite Hc. Qed.

Lemma larges_of_small a l c L : class_index l = Ok (Some c) → larges_of ((a, l) :: L) = larges_of L.
Proof. intros Hc. unfold larges_of. rewrite filter_cons_False; [done|]. unfold is_large. cbn. congruence. Qed.

Lemma slots_of_large a l L : class_index l = Ok None → slots_of ((a, l) :: L) = slots_of L.
Proof. intros Hc. unfold slots_of. cbn. unfold small_slot. cbn. by rewrite Hc. Qed.

Lemma larges_of_large a l L : class_index l = Ok None → larges_of ((a, l) :: L) = (a, l) :: larges_of L.
Proof. intros Hc. unfold larges_of. by rewrite filter_cons_True. Qed.

#[export] Instance slots_of_perm : Proper ((≡ₚ) ==> (≡ₚ)) slots_of.
Proof. intros L L' Hp. unfold slots_of. by rewrite Hp. Qed.

#[export] Instance larges_of_perm : Proper ((≡ₚ) ==> (≡ₚ)) larges_of.
Proof. intros L L' Hp. unfold larges_of. by rewrite Hp. Qed.

Lemma user_blocks_of L :
  Forall (λ b, request_ok (snd b)) L → user_blocks (slots_of L) (larges_of L) ≡ₚ owned_block <$> L.
Proof.
  induction 1 as [|[a l] L Hr HL IH]; [done|]. unfold user_blocks in *.
  destruct (request_class l Hr) as [(c & Hc & _)|Hc].
  - rewrite (slots_of_small _ _ c), (larges_of_small _ _ c) by done. rewrite !fmap_cons. cbn [app].
    rewrite IH. unfold owned_block at 2, small_slot. cbn. by rewrite Hc.
  - rewrite slots_of_large, larges_of_large by done. rewrite fmap_cons, <- Permutation_middle, IH.
    unfold owned_block at 2, small_slot. cbn. by rewrite Hc.
Qed.

Lemma owned_block_in b x : request_ok (snd b) → in_block b x → in_block (owned_block b) x.
Proof.
  destruct b as [a l]. intros Hr Hx. unfold owned_block, small_slot. cbn.
  destruct (request_class l Hr) as [(c & -> & _ & [Hs _])| ->]; [|done].
  unfold in_block, slot_block in *. cbn in *. lia.
Qed.

Lemma owned_keeps L m m' :
  Forall (λ b, request_ok (snd b)) L → keeps (user_blocks (slots_of L) (larges_of L)) m m' → keeps L m m'.
Proof.
  intros HL Hk b x Hb Hx. rewrite Forall_forall in HL. apply (Hk (owned_block b)).
  - rewrite user_blocks_of by by apply Forall_forall. by apply list_elem_of_fmap_2.
  - by apply owned_block_in; [apply HL|].
Qed.

(** ** The state of all heaps *)

Section spec.
Context {W : Type} `{PagePortLaws W}.
Implicit Types (w : world W) (g : ghost) (L : list block) (hs : gmap Z Heap) (h : Heap).

(** [hs] are the running heaps; [next] is [NEXT_HEAP_ID]. *)
Record heaps_ok hs (next : Z) w L g : Prop := {
  so_inv : hinv (slots_of L) (larges_of L) w g;
  so_settled : settled g;
  so_client : Forall (λ b, request_ok (snd b)) L;
  so_heap k h : hs !! k = Some h → heap_ok h g ∧ hp_id h ∈ g_alive g;
  so_ids k k' h h' : hs !! k = Some h → hs !! k' = Some h' → hp_id h = hp_id h' → k = k';
  so_next : g_next g = next;
}.

Definition consistent hs (next : Z) w L : Prop := ∃ g, heaps_ok hs next w L g.

(** No block holds the null address, is misaligned for its layout or overlaps another. *)
Definition usable (b : block) : Prop :=
  (align (snd b) | fst b) ∧ 0 < fst b ∧ fst b + size (snd b) ≤ 2 ^ 64.

Definition blocks_ok L : Prop := Forall usable L ∧ blocks_disjoint L.

Lemma small_block_ok w g L a l c :
  hinv (slots_of L) (larges_of L) w g → (a, l) ∈ L → request_ok l → class_index l = Ok (Some c) →
  usable (a, l).
Proof.
  intros Hw Hin [Hv Hpos] Hc. destruct (class_index_fits l c Hv Hpos Hc) as [Hcr [Hsz Hal]].
  assert ((a, c) ∈ slots_of L) as Hs.
  { unfold slots_of. apply list_elem_of_omap. exists (a, l). split; [done|]. unfold small_slot. cbn. by rewrite Hc. }
  destruct (hinv_held_slab _ _ _ _ _ Hw Hs) as (h & loc & rem & lv & _ & Hlv & Hi & Hss & Hlo & Hhi). cbn [fst snd] in *.
  assert (a ∈ loc ++ rem ++ lv) as Ha by (rewrite !elem_of_app; auto).
  rewrite (si_parts _ _ _ _ _ _ Hi) in Ha. apply elem_of_carved in Ha as (i & _ & Ha).
  pose proof (si_base _ _ _ _ _ _ Hi) as Hb. pose proof Hb as (_ & Hb0 & Hb1).
  split; [|cbn; cbn in Hlo, Hhi, Hsz; change SLAB_SIZE with 65536 in *; lia]. cbn [fst snd]. rewrite Ha. apply slot_addr_aligned;
    [done|by apply static_geometry, (si_static _ _ _ _ _ _ Hi)|apply Hv|by rewrite Hss].
Qed.

Lemma consistent_blocks hs next w L : consistent hs next w L → blocks_ok L.
Proof.
  intros [g [Hw _ HL _ _ _]]. split.
  - apply Forall_forall. intros [a l] Hin. rewrite Forall_forall in HL. pose proof (HL _ Hin) as Hr. cbn in Hr.
    destruct (request_class l Hr) as [(c & Hc & _)|Hc]; [by eapply small_block_ok|].
    pose proof (wi_pool _ _ _ _ Hw) as (_ & Hok & _)%pp_ok_blocks. rewrite Forall_forall in Hok.
    destruct (Hok (a, l)) as (? & ? & ?); [by apply list_elem_of_filter|]. split; [done|]. lia.
  - pose proof (hinv_disjoint _ _ _ _ Hw) as Hd.
    apply (pairwise_perm _ _ (owned_block <$> L)) in Hd; [|intros a b Hab x Hb Ha; by apply (Hab x)|by apply user_blocks_of].
    eapply pairwise_fmap; [exact HL| |exact Hd]. cbn. intros a b Ha Hb Hab x Hxa Hxb.
    eapply Hab; by apply owned_block_in.
Qed.

(** The new block of an allocation is apart from all others. *)
Lemma consistent_fresh hs next w a l L b x :
  consistent hs next w ((a, l) :: L) → b ∈ L → in_block b x → ¬ in_block (a, l) x.
Proof.
  intros [_ [Hd _]]%consistent_blocks Hb Hx Hx'. rewrite Forall_forall in Hd. by apply (Hd b Hb x).
Qed.

(** One heap ran, and only it moved. *)
Lemma heaps_ok_step hs next w L g k h h' w' L' g' :
  heaps_ok hs next w L g → hs !! k = Some h → hinv (slots_of L') (larges_of L') w' g' → settled g' →
  Forall (λ b, request_ok (snd b)) L' → heap_ok h' g' → hp_id h' = hp_id h → gtrans (hp_id h) g g' →
  heaps_ok (<[k := h']> hs) next w' L' g'.
Proof.
  intros [Hw Hset HL Hheap Hids Hnext] Hk Hw' Hset' HL' Hh' Hid Ht. split; try done.
  - intros k1 h1. rewrite (gt_alive _ _ _ Ht), lookup_insert. case_decide as Heq.
    + intros [= <-]. split; [done|]. rewrite Hid. by apply (Hheap k).
    + intros Hk1. destruct (Hheap k1 h1 Hk1) as [Hh1 ?]. split; [|done]. eapply heap_ok_other; [done|done|].
      intros E. by apply Heq, (Hids k k1 h h1).
  - intros k1 k2 h1 h2. rewrite !lookup_insert. case_decide; case_decide; subst; try done.
    + intros [= <-] E2 E. eapply Hids; [exact Hk|exact E2|congruence].
    + intros E1 [= <-] E. eapply Hids; [exact E1|exact Hk|congruence].
    + apply Hids.
  - by rewrite (gt_next _ _ _ Ht).
Qed.

(** What the failure of an allocation means. *)
Definition exhausted (l : Layout) w : Prop :=
  if decide (class_index l = Ok None) then ∃ p, pp_alloc_large p l = (None, w_pool w)
  else out_of_pages w.

Definition granted (r : option Z) (l : Layout) L : list block :=
  match r with Some a => (a, l) :: L | None => L end.

Lemma heap_alloc_ok hs next w L g k h l n :
  heaps_ok hs next w L g → hs !! k = Some h → request_ok l →
  ∃ r h' w' g', Heap_alloc (S (S n)) h w l = Ok (r, h', w') ∧
    heaps_ok (<[k := h']> hs) next w' (granted r l L) g' ∧
    keeps L (w_mem w) (w_mem w') ∧ (r = None → exhausted l w').
Proof.
  intros Hok Hk Hr. pose proof Hok as [Hw Hset HL Hheap Hids Hnext].
  destruct (Hheap k h Hk) as [Hh Halive].
  assert (∀ r, Forall (λ b, request_ok (snd b)) (granted r l L)) as HL' by (intros []; [by constructor|done]).
  unfold exhausted.
  destruct (request_class l Hr) as [(c & Hc & Hcr & _)|Hc].
  - destruct (alloc_small_ok (slots_of L) (larges_of L) c Hcr l Hc n h w g Hw Hh Hset)
      as (r & h' & w' & g' & E & [Hw' Hh' Hset' [Hid' Ht' Hk']] & Hoom).
    exists r, h', w', g'. split; [exact E|]. split; [|split].
    + eapply heaps_ok_step; try done. destruct r as [a|]; cbn [granted]; [|exact Hw'].
      rewrite (slots_of_small _ _ c), (larges_of_small _ _ c) by done. exact Hw'.
    + by apply owned_keeps.
    + rewrite decide_False by congruence. exact Hoom.
  - destruct (alloc_large_ok (S n) (slots_of L) (larges_of L) h w g l Hw Hh Hset Hc)
      as (r & h' & w' & E & Hw' & Hh' & [Hid' Ht' Hk'] & Hoom); [apply Hr..|].
    exists r, h', w', g. split; [exact E|]. split; [|split].
    + eapply heaps_ok_step; try done. destruct r as [a|]; cbn [granted]; [|exact Hw'].
      by rewrite slots_of_large, larges_of_large.
    + by apply owned_keeps.
    + by rewrite decide_True.
Qed.

Lemma heap_dealloc_ok mode hs next w L g k h a l L' :
  heaps_ok hs next w L g → hs !! k = Some h → L ≡ₚ (a, l) :: L' →
  ∃ h' w' g', Heap_dealloc mode h w a l = Ok (h', w') ∧
    heaps_ok (<[k := h']> hs) next w' L' g' ∧ keeps L' (w_mem w) (w_mem w').
Proof.
  intros Hok Hk HLp. pose proof Hok as [Hw Hset HL Hheap Hids Hnext].
  destruct (Hheap k h Hk) as [Hh Halive].
  assert (request_ok l ∧ Forall (λ b, request_ok (snd b)) L') as [Hr HL'].
  { rewrite HLp in HL. by apply Forall_cons in HL. }
  destruct (request_class l Hr) as [(c & Hc & Hcr & _)|Hc].
  - assert (slots_of L ≡ₚ (a, c) :: slots_of L') as Hs by (rewrite HLp; by rewrite (slots_of_small _ _ c)).
    assert (larges_of L ≡ₚ larges_of L') as Hl by (rewrite HLp; by rewrite (larges_of_small _ _ c)).
    destruct (dealloc_small_ok (slots_of L) (slots_of L') (larges_of L) w g (a, c) c l Hw Hset Hs Hcr eq_refl Hc
      mode h Hh Halive) as (h' & w' & g' & E & [Hw' Hh' Hset' [Hid' Ht' Hk']]).
    exists h', w', g'. split; [exact E|]. split.
    + eapply heaps_ok_step; try done. eapply hinv_perm; [reflexivity|exact Hl|exact Hw'].
    + apply owned_keeps; [done|]. intros b x Hb. apply Hk'. unfold user_blocks in *. by rewrite Hl.
  - assert (slots_of L ≡ₚ slots_of L') as Hs by (rewrite HLp; by rewrite slots_of_large).
    assert (larges_of L ≡ₚ (a, l) :: larges_of L') as Hl by (rewrite HLp; by rewrite larges_of_large).
    assert (hinv (slots_of L') ((a, l) :: larges_of L') w g) as Hw1.
    { eapply hinv_perm; [exact Hs|exact Hl|exact Hw]. }
    destruct (dealloc_large_ok mode (slots_of L') (larges_of L') h w g a l Hw1 Hh Hset Hc)
      as (h' & w' & E & [Hw' Hh' Hset' [Hid' Ht' Hk']]).
    exists h', w', g. split; [exact E|]. split; [by eapply heaps_ok_step|]. by apply owned_keeps.
Qed.

(** Frees in flight land, now or, as [s] says, during the next calls. *)
Lemma lands_ok hs next w L g ptrs s :
  heaps_ok hs next w L g →
  ∃ w', land_all (set_sched w s) ptrs = Ok w' ∧ heaps_ok hs next w' L g ∧ keeps L (w_mem w) (w_mem w').
Proof.
  intros [Hw Hset HL Hheap Hids Hnext].
  destruct (land_all_ok _ _ g ptrs _ (hinv_sched _ _ _ _ s Hw) (proj1 (proj2 Hset))) as (w' & E & [Hw' Hk _ _ _]).
  exists w'. split; [exact E|]. split; [by split|]. by apply owned_keeps.
Qed.

(** The exited-thread path of a free: no heap is involved. *)
Lemma remote_dealloc_ok mode hs next w L g a l c L' :
  heaps_ok hs next w L g → L ≡ₚ (a, l) :: L' → class_index l = Ok (Some c) →
  ∃ w', push_remote mode w (SlabHeader_from_ptr a) a c = Ok w' ∧
    heaps_ok hs next w' L' g ∧ keeps L' (w_mem w) (w_mem w').
Proof.
  intros [Hw Hset HL Hheap Hids Hnext] HLp Hc.
  assert (Forall (λ b, request_ok (snd b)) L') as HL' by (rewrite HLp in HL; by apply Forall_cons in HL as [_ ?]).
  assert (slots_of L ≡ₚ (a, c) :: slots_of L') as Hs by (rewrite HLp; by rewrite (slots_of_small _ _ c)).
  assert (larges_of L ≡ₚ larges_of L') as Hl by (rewrite HLp; by rewrite (larges_of_small _ _ c)).
  destruct (wi_held _ _ _ _ Hw (a, c)) as (hd & Hhd & _); [rewrite Hs; by left|].
  destruct (push_remote_ok mode (slots_of L) (larges_of L) w g (a, c) (slots_of L') hd Hw (proj1 (proj2 Hset)) Hs Hhd)
    as (w' & E & Hw' & Hk').
  exists w'. split; [exact E|]. split.
  - split; try done. eapply hinv_perm; [reflexivity|exact Hl|exact Hw'].
  - apply owned_keeps; [done|]. intros b x Hb. apply Hk'. unfold user_blocks in *. by rewrite Hl.
Qed.

Lemma remote_dealloc_large_ok hs next w L g a l L' :
  heaps_ok hs next w L g → L ≡ₚ (a, l) :: L' → class_index l = Ok None →
  let w' := set_pool w (pp_dealloc_large (w_pool w) a l) in
  heaps_ok hs next w' L' g ∧ keeps L' (w_mem w) (w_mem w').
Proof.
  intros [Hw Hset HL Hheap Hids Hnext] HLp Hc.
  assert (Forall (λ b, request_ok (snd b)) L') as HL' by (rewrite HLp in HL; by apply Forall_cons in HL as [_ ?]).
  assert (slots_of L ≡ₚ slots_of L') as Hs by (rewrite HLp; by rewrite slots_of_large).
  assert (larges_of L ≡ₚ (a, l) :: larges_of L') as Hl by (rewrite HLp; by rewrite larges_of_large).
  assert (hinv (slots_of L') ((a, l) :: larges_of L') w g) as Hw1
    by (eapply hinv_perm; [exact Hs|exact Hl|exact Hw]).
  destruct (pp_dealloc_large_ok _ _ _ _ _ (wi_pool _ _ _ _ Hw1)) as [Hk Hp].
  destruct (pool_op_hinv (slots_of L') ((a, l) :: larges_of L') (larges_of L') w g (pp_dealloc_large (w_pool w) a l) Hw1)
    as [Hw' Hku]; [intros; by right|exact Hk|]. cbn zeta. split.
  - split; try done. by apply Hw'.
  - by apply owned_keeps.
Qed.

Lemma heap_new_ok hs next w L g k :
  heaps_ok hs next w L g → hs !! k = None → ∃ g', heaps_ok (<[k := Heap_new next]> hs) (next + 1) w L g'.
Proof.
  intros [Hw Hset HL Hheap Hids Hnext] Hk.
  destruct (Heap_new_ok _ _ _ _ Hw) as [Hw' Hh']. rewrite Hnext in *.
  assert (∀ k1 h1, hs !! k1 = Some h1 → hp_id h1 ≠ next) as Hfresh.
  { intros k1 h1 Hk1 E. destruct (Hheap k1 h1 Hk1) as [[_ _ _ Hlt] _]. lia. }
  eexists. split; [exact Hw'|done|done| | |cbn; lia].
  - intros k1 h1. rewrite lookup_insert. case_decide; [intros [= <-]; split; [done|cbn; set_solver]|].
    intros Hk1. destruct (Hheap k1 h1 Hk1) as [[Hl Hb Hm Hid] Ha]. split; [split; try done; cbn; lia|cbn; set_solver].
  - intros k1 k2 h1 h2. rewrite !lookup_insert. case_decide; case_decide; subst; try done.
    + intros [= <-] E2 E. by destruct (Hfresh k2 h2 E2).
    + intros E1 [= <-] E. by destruct (Hfresh k1 h1 E1).
    + apply Hids.
Qed.

(** One of the slots of [l] is in the slab at [b]. *)
Definition in_use (b : Z) (l : list slot) : Prop := ∃ s, s ∈ l ∧ SlabHeader_from_ptr (fst s) = b.

Lemma in_use_live b l : in_use b l ↔ live b l ≠ [].
Proof.
  split.
  - intros (s & Hs & Hb) Hl. assert (fst s ∈ live b l) as Hin by (apply elem_of_live; by exists s).
    rewrite Hl in Hin. by apply elem_of_nil in Hin.
  - destruct (live b l) as [|a r] eqn:Hl; [done|]. intros _.
    assert (a ∈ live b l) as (s & Hs & <- & Hb)%elem_of_live by (rewrite Hl; by left). by exists s.
Qed.

(** On the abandoned list of class [i]. *)
Definition abandoned_at w (i b : Z) : Prop :=
  ∃ top l, w_abandoned w !! Z.to_nat i = Some top ∧ hchain (w_slabs w) (nonnull top) l ∧ b ∈ l.

Lemma abandoned_place held larges w g i b hd :
  hinv held larges w g → ls_hdrs (w_slabs w) !! b = Some hd → g_place g !! b = Some (Abandoned i) →
  abandoned_at w (size_class_index hd) b.
Proof.
  intros Hw Hb Hp. destruct (wi_place _ _ _ _ Hw b hd _ Hb Hp) as [Hi _]. subst i.
  destruct (wi_slab _ _ _ _ Hw b hd Hb) as (_ & loc & rem & Hi).
  assert (0 ≤ size_class_index hd < NUM_CLASSES) as Hr by apply Hi.
  pose proof (wi_aband_len _ _ _ _ Hw) as Hlen.
  destruct (lookup_lt_is_Some_2 (w_abandoned w) (Z.to_nat (size_class_index hd))) as [top Htop]; [lia|].
  destruct (wi_aband _ _ _ _ Hw _ _ Htop) as [Hc _]. rewrite Z2Nat.id in Hc by lia.
  exists top, (g_aband g (size_class_index hd)). split; [done|]. split; [done|].
  by apply (wi_aband_place _ _ _ _ Hw).
Qed.

Lemma heap_drop_ok hs next w L g k h :
  heaps_ok hs next w L g → hs !! k = Some h →
  ∃ h' w' g', Heap_drop h w = Ok (h', w') ∧ heaps_ok (delete k hs) next w' L g' ∧
    keeps L (w_mem w) (w_mem w') ∧
    ∀ b hd, ls_hdrs (w_slabs w) !! b = Some hd → heap_id hd = hp_id h →
      (¬ in_use b (slots_of L) ∧ ls_hdrs (w_slabs w') !! b = None) ∨
      (in_use b (slots_of L ++ w_flight w) ∧ ∃ hd', ls_hdrs (w_slabs w') !! b = Some hd' ∧ abandoned_at w' (size_class_index hd') b).
Proof.
  intros [Hw Hset HL Hheap Hids Hnext] Hk. destruct (Hheap k h Hk) as [Hh Halive].
  destruct (Heap_drop_ok _ _ h w g Hw Hh Hset) as (h' & w' & g' & E & Hw' & Hset' & Ht & Hkp & Hrel & Hno).
  exists h', w', g'. split; [exact E|]. split; [|split; [by apply owned_keeps|]].
  - assert (∀ k1 h1, delete k hs !! k1 = Some h1 → hs !! k1 = Some h1 ∧ hp_id h1 ≠ hp_id h) as Hdel.
    { intros k1 h1 [Hne Hk1]%lookup_delete_Some. split; [done|]. intros E1. by apply Hne, (Hids k k1 h h1). }
    split; try done.
    + intros k1 h1 [Hk1 Hne]%Hdel. destruct (Hheap k1 h1 Hk1) as [Hh1 Ha1].
      split; [|rewrite (gt_alive _ _ _ Ht); cbn; set_solver].
      eapply heap_ok_other; [|exact Ht|done]. destruct Hh1. by split.
    + intros k1 k2 h1 h2 [E1 _]%Hdel [E2 _]%Hdel. by apply Hids.
    + by rewrite (gt_next _ _ _ Ht).
  - intros b hd Hb Hid. destruct (proj1 (wi_dom _ _ _ _ Hw b)) as [p Hp]; [by eexists|].
    assert (owned (hp_id h) p) as Hown.
    { pose proof (wi_place _ _ _ _ Hw b hd p Hb Hp) as Hok. destruct p; cbn in *.
      - by apply Hset in Hp.
      - destruct Hok. congruence.
      - destruct Hok as [? _]. congruence.
      - destruct Hok as [_ Hok]. by rewrite Hid in Hok. }
    destruct (Hrel b) as [Heq|[[Hl Hn]|[Hl [i Hi]]]].
    + rewrite Hp in Heq. by destruct (Hno b p Heq).
    + left. split; [intros Hu%in_use_live; by apply Hu|]. apply eq_None_not_Some. rewrite (wi_dom _ _ _ _ Hw').
      rewrite Hn. by intros [].
    + right. split; [by apply in_use_live|]. destruct (proj2 (wi_dom _ _ _ _ Hw' b)) as [hd' Hb']; [by eexists|].
      exists hd'. split; [done|]. by eapply abandoned_place.
Qed.

Lemma client_write_ok hs next w L g b x v :
  heaps_ok hs next w L g → b ∈ L → in_block b x →
  heaps_ok hs next (set_mem w (write_byte (w_mem w) x v)) L g.
Proof.
  intros [Hw Hset HL Hheap Hids Hnext] Hb Hx. split; try done. apply hinv_user_write; [done|].
  intros y Hy. rewrite read_byte_write. case_decide; [|done]. subst y. exfalso.
  rewrite Forall_forall in HL. apply (Hy (owned_block b)); [|by apply owned_block_in; [apply HL|]].
  rewrite user_blocks_of by by apply Forall_forall. by apply list_elem_of_fmap_2.
Qed.

(** The abandoned list of a class is the one its head starts. *)
Lemma hchain_unique st top l l' : hchain st top l → hchain st top l' → l = l'.
Proof.
  revert top l'. induction l as [|b l IH]; intros top [|b' l']; cbn; [done|by intros -> [? _]|by intros [-> _] ?|].
  intros [-> (h & Hh & Hc)] [[= <-] (h' & Hh' & Hc')]. rewrite Hh in Hh'. injection Hh' as <-.
  f_equal. by eapply IH.
Qed.

Lemma abandoned_at_place held larges w g i b :
  hinv held larges w g → 0 ≤ i → abandoned_at w i b → g_place g !! b = Some (Abandoned i).
Proof.
  intros Hw Hi (top & l & Ht & Hc & Hb). destruct (wi_aband _ _ _ _ Hw _ _ Ht) as [Hc' _].
  rewrite Z2Nat.id in Hc' by lia. rewrite (hchain_unique _ _ _ _ Hc Hc') in Hb.
  by apply (wi_aband_place _ _ _ _ Hw).
Qed.

Lemma request_ok_heap hs next w L g k h l c :
  heaps_ok hs next w L g → hs !! k = Some h → request_ok l → class_index l = Ok (Some c) →
  hp_bins h !! Z.to_nat c = Some None →
  ∃ r h' w' g', request_slab h w c = Ok (r, h', w') ∧ heaps_ok (<[k := h']> hs) next w' (granted r l L) g' ∧
    keeps L (w_mem w) (w_mem w') ∧ w_abandoned w' !! Z.to_nat c = Some 0 ∧
    (∀ b, abandoned_at w c b → ls_hdrs (w_slabs w') !! b = None ∨
       ∃ hd, ls_hdrs (w_slabs w') !! b = Some hd ∧ heap_id hd = hp_id h) ∧
    (r = None → out_of_pages w').
Proof.
  intros Hok Hk Hr Hc Hbin. pose proof Hok as [Hw Hset HL Hheap Hids Hnext].
  destruct (Hheap k h Hk) as [Hh Halive].
  destruct (class_index_fits l c (proj1 Hr) (proj2 Hr) Hc) as [Hcr _].
  destruct (request_slab_ok _ _ h w g c Hw Hh Hset Hcr Hbin)
    as (r & h' & w' & g' & E & [Hw' Hh' Hset' [Hid' Ht' Hk']] & Hab & Had & Hoom).
  exists r, h', w', g'. split; [exact E|]. split; [|split_and!; [by apply owned_keeps|done| |exact Hoom]].
  - eapply heaps_ok_step; try done; [|destruct r; [by constructor|done]].
    destruct r as [a|]; cbn [granted]; [|exact Hw'].
    rewrite (slots_of_small _ _ c), (larges_of_small _ _ c) by done. exact Hw'.
  - intros b Hb. apply (abandoned_at_place _ _ _ _ c b Hw ltac:(lia)) in Hb.
    destruct (ls_hdrs (w_slabs w') !! b) as [hd|] eqn:Hhd; [right|by left]. exists hd. split; [done|].
    destruct (proj1 (wi_dom _ _ _ _ Hw' b)) as [p Hp]; [by eexists|].
    destruct (Had b Hb) as [Hn|(p' & Hp' & Hown)]; [congruence|]. assert (p' = p) as -> by congruence.
    pose proof (wi_place _ _ _ _ Hw' b hd p Hhd Hp) as Hpo. destruct p; cbn in *; try done.
    + destruct Hpo. congruence.
    + destruct Hpo as [? _]. congruence.
Qed.

Lemma heaps_ok_init (p : W) next : pp_ok p [] [] → ∃ g, heaps_ok ∅ next (world_new p) [] g.
Proof.
  intros Hp. exists (mkGhost ∅ next ∅ (λ _, []) (λ _, []) [] [] None). split; try done.
  - split; cbn; try done.
    + intros b. rewrite !lookup_empty. split; by intros [].
    + intros s Hs. by apply elem_of_nil in Hs.
    + split; [|intros c c' b Hb; by apply elem_of_nil in Hb]. intros c. unfold dlist. split_and!; [apply lookup_empty|constructor|done].
    + intros c b. rewrite lookup_empty. split; [intros Hx; by apply elem_of_nil in Hx|done].
    + intros i top Hi. apply lookup_replicate in Hi as [-> _]. split; [done|constructor].
    + intros idx b. rewrite lookup_empty. split; [intros Hx; by apply elem_of_nil in Hx|done].
Qed.

(** ** Properties *)

(** C5. [Heap::alloc], on any heap and whatever its slabs, queues, the
    abandoned lists and the other heaps hold, with frees of other threads
    landing on its slabs during the call in any way: it returns, with at most
    one recursive call.  The block it returns is aligned and large enough for
    the layout, overlaps no block the program holds, and no byte of those blocks
    has changed; it returns [None] only if the pool had no page (or no large
    block) to give. *)
Theorem heap_alloc_correct hs next w L k h l n :
  consistent hs next w L → hs !! k = Some h → request_ok l →
  ∃ r h' w', Heap_alloc (2 + n) h w l = Ok (r, h', w') ∧
    consistent (<[k := h']> hs) next w' (granted r l L) ∧ keeps L (w_mem w) (w_mem w') ∧
    match r with
    | Some a => usable (a, l) ∧ ∀ b x, b ∈ L → in_block b x → ¬ in_block (a, l) x
    | None => exhausted l w'
    end.
Proof.
  intros [g Hg] Hk Hl. destruct (heap_alloc_ok _ _ _ _ _ _ _ _ n Hg Hk Hl) as (r & h' & w' & g' & E & Hg' & Hkp & Hx).
  exists r, h', w'. split; [exact E|]. split; [by eexists|]. split; [exact Hkp|].
  destruct r as [a|]; [|by apply Hx]. cbn [granted] in Hg'.
  assert (consistent (<[k := h']> hs) next w' ((a, l) :: L)) as Hc by by eexists. split.
  - destruct (consistent_blocks _ _ _ _ Hc) as [[Hu _]%Forall_cons _]. exact Hu.
  - intros b x Hb. by eapply consistent_fresh.
Qed.

(** C6. [Heap::dealloc] of any block the program holds, allocated by this heap
    or another, running or exited: it returns, whether a push to another heap's
    slab happens now or later, the block is given up, and the blocks that remain
    are unchanged and still apart. *)
Theorem heap_dealloc_correct mode hs next w L L' k h a l :
  consistent hs next w L → hs !! k = Some h → L ≡ₚ (a, l) :: L' →
  ∃ h' w', Heap_dealloc mode h w a l = Ok (h', w') ∧ consistent (<[k := h']> hs) next w' L' ∧
    blocks_ok L' ∧ keeps L' (w_mem w) (w_mem w').
Proof.
  intros [g Hg] Hk HL. destruct (heap_dealloc_ok mode _ _ _ _ _ _ _ _ _ _ Hg Hk HL) as (h' & w' & g' & E & Hg' & Hkp).
  exists h', w'. split; [exact E|]. assert (consistent (<[k := h']> hs) next w' L') as Hc by by eexists.
  split; [exact Hc|]. split; [by eapply consistent_blocks|exact Hkp].
Qed.

(** C7. Thread exit ([Drop for Heap]), with frees of other threads landing on
    the way, keeps every block the program holds and loses no slab of the heap.
    A slab of which a slot is still in use is on the abandoned list of its
    class; any other has left for the cache or the pool, or is on that list
    because a free of one of its slots was still in flight. *)
Theorem heap_exit_correct hs next w L k h :
  consistent hs next w L → hs !! k = Some h →
  ∃ h' w', Heap_drop h w = Ok (h', w') ∧ consistent (delete k hs) next w' L ∧ keeps L (w_mem w) (w_mem w') ∧
    ∀ b hd, ls_hdrs (w_slabs w) !! b = Some hd → heap_id hd = hp_id h →
      (¬ in_use b (slots_of L) ∧ ls_hdrs (w_slabs w') !! b = None) ∨
      (in_use b (slots_of L ++ w_flight w) ∧ ∃ hd', ls_hdrs (w_slabs w') !! b = Some hd' ∧ abandoned_at w' (size_class_index hd') b).
Proof.
  intros [g Hg] Hk. destruct (heap_drop_ok _ _ _ _ _ _ _ Hg Hk) as (h' & w' & g' & E & Hg' & Hkp & Hb).
  exists h', w'. split; [exact E|]. split; [by eexists|]. split; [exact Hkp|exact Hb].
Qed.

(** C33. Abandoned slabs come back: when a heap asks for a slab of a class
    ([request_slab]), every slab on the abandoned list of that class gets the
    heap as its owner or, when nothing of it is in use, leaves for the cache;
    the list is empty afterwards. *)
Theorem request_slab_adopts hs next w L k h l c :
  consistent hs next w L → hs !! k = Some h → request_ok l → class_index l = Ok (Some c) →
  hp_bins h !! Z.to_nat c = Some None →
  ∃ r h' w', request_slab h w c = Ok (r, h', w') ∧ consistent (<[k := h']> hs) next w' (granted r l L) ∧
    keeps L (w_mem w) (w_mem w') ∧ w_abandoned w' !! Z.to_nat c = Some 0 ∧
    (∀ b, abandoned_at w c b → ls_hdrs (w_slabs w') !! b = None ∨
       ∃ hd, ls_hdrs (w_slabs w') !! b = Some hd ∧ heap_id hd = hp_id h) ∧
    (r = None → out_of_pages w').
Proof.
  intros [g Hg] Hk Hl Hc Hbin.
  destruct (request_ok_heap _ _ _ _ _ _ _ _ _ Hg Hk Hl Hc Hbin) as (r & h' & w' & g' & E & Hg' & Hrest).
  exists r, h', w'. split; [exact E|]. split; [by eexists|exact Hrest].
Qed.
End spec.

(** ** The theorems at a concrete pool *)

Definition l16 : Layout := mkLayout 16 8.

Lemma l16_ok : request_ok l16.
Proof. split; [|done]. split; [exists 3; split; [lia|done]|]. split; vm_compute; done. Qed.

Definition demo_heaps (n : Z) : gmap Z Heap := {[ 0 := Heap_new n ]}.
Definition demo_world : world (PagePool demo_kernel) := world_new demo_pool.

Lemma demo_pool_ok : pp_ok demo_pool [] [].
Proof.
  assert (pool_ok demo_pool [] []) as Hp; [|exact Hp].
  split; [|by vm_compute]. exists [], [], []. split; [exact demo_pool_owns|done].
Qed.

Lemma demo_consistent n : consistent (demo_heaps n) (n + 1) demo_world [].
Proof.
  destruct (heaps_ok_init demo_pool n) as [g Hg].
  { exact demo_pool_ok. }
  destruct (heap_new_ok _ _ _ _ _ 0 Hg ltac:(done)) as [g' Hg']. by exists g'.
Qed.

Definition is_served {A B} (r : res (option Z * A * B)) : bool :=
  match r with Ok (Some _, _, _) => true | _ => false end.

Lemma demo_alloc_some : is_served (Heap_alloc 2 (Heap_new 1) demo_world l16) = true.
Proof. vm_compute. reflexivity. Qed.

(** The first allocation of a process. *)
Lemma heap_alloc_correct_witness :
  ∃ a h' w', Heap_alloc 2 (Heap_new 1) demo_world l16 = Ok (Some a, h', w') ∧ usable (a, l16) ∧
    consistent {[ 0 := h' ]} 2 w' [(a, l16)].
Proof.
  destruct (heap_alloc_correct (demo_heaps 1) 2 demo_world [] 0 (Heap_new 1) l16 0 (demo_consistent 1) eq_refl l16_ok)
    as ([a|] & h' & w' & E & Hc & _ & Hr).
  - exists a, h', w'. unfold demo_heaps in Hc. rewrite insert_singleton_eq in Hc. split; [exact E|]. split; [apply Hr|exact Hc].
  - exfalso. pose proof demo_alloc_some as Hv. cbn [Nat.add] in E. rewrite E in Hv. discriminate Hv.
Defined.

Lemma demo_alloc :
  ∃ a h w, Heap_alloc 2 (Heap_new 1) demo_world l16 = Ok (Some a, h, w) ∧ consistent {[ 0 := h ]} 2 w [(a, l16)].
Proof.
  destruct (demo_consistent 1) as [g Hg].
  destruct (heap_alloc_ok _ _ _ _ _ 0 (Heap_new 1) l16 0 Hg eq_refl l16_ok) as ([a|] & h & w & g' & E & Hg' & _).
  - exists a, h, w. split; [exact E|]. exists g'. unfold demo_heaps in Hg'. by rewrite insert_singleton_eq in Hg'.
  - exfalso. pose proof demo_alloc_some as Hv. rewrite E in Hv. discriminate Hv.
Qed.

(** The block is freed again by the heap that allocated it. *)
Lemma heap_dealloc_correct_witness :
  ∃ a h w h' w', Heap_alloc 2 (Heap_new 1) demo_world l16 = Ok (Some a, h, w) ∧
    Heap_dealloc PushNow h w a l16 = Ok (h', w') ∧ consistent {[ 0 := h' ]} 2 w' [].
Proof.
  destruct demo_alloc as (a & h & w & E & Hc).
  destruct (heap_dealloc_correct PushNow _ 2 w [(a, l16)] [] 0 h a l16 Hc eq_refl) as (h' & w' & E' & Hc' & _); [done|].
  rewrite insert_singleton_eq in Hc'. exists a, h, w, h', w'. split; [exact E|]. split; [exact E'|exact Hc'].
Defined.

(** The thread exits while the program still holds the block. *)
Lemma heap_exit_correct_witness :
  ∃ a h w h' w', Heap_alloc 2 (Heap_new 1) demo_world l16 = Ok (Some a, h, w) ∧
    Heap_drop h w = Ok (h', w') ∧ consistent ∅ 2 w' [(a, l16)].
Proof.
  destruct demo_alloc as (a & h & w & E & Hc).
  destruct (heap_exit_correct _ 2 w [(a, l16)] 0 h Hc eq_refl) as (h' & w' & E' & Hc' & _).
  rewrite delete_singleton_eq in Hc'. exists a, h, w, h', w'. split; [exact E|]. split; [exact E'|exact Hc'].
Defined.

(** A second thread then adopts what the first one left. *)
Lemma request_slab_adopts_witness :
  ∃ a h w h' w' r h2 w2, Heap_alloc 2 (Heap_new 1) demo_world l16 = Ok (Some a, h, w) ∧
    Heap_drop h w = Ok (h', w') ∧ request_slab (Heap_new 2) w' 4 = Ok (r, h2, w2) ∧
    w_abandoned w2 !! 4%nat = Some 0.
Proof.
  destruct demo_alloc as (a & h & w & E & [g Hg]).
  destruct (heap_drop_ok _ _ _ _ _ 0 h Hg eq_refl) as (h' & w' & g' & E' & Hg' & _).
  rewrite delete_singleton_eq in Hg'. destruct (heap_new_ok _ _ _ _ _ 1 Hg' eq_refl) as [g2 Hg2].
  destruct (request_slab_adopts (<[1 := Heap_new 2]> ∅) 3 w' [(a, l16)] 1 (Heap_new 2) l16 4)
    as (r & h2 & w2 & E2 & _ & _ & Hab & _); [by eexists|reflexivity|exact l16_ok|vm_compute; reflexivity|reflexivity|].
  exists a, h, w, h', w', r, h2, w2. split; [exact E|]. split; [exact E'|]. split; [exact E2|exact Hab].
Defined.
