(* ===== verification/PoolDrop.v ===== *)
(** * Dropping the page pool ([src/src/pool.rs], [Drop for PagePool])

    The cached pages go back through [dealloc_slab], then every segment goes
    back to the page allocator.  Whatever the heaps did before, the page
    allocator is left with the large blocks the program still holds. *)

From stdpp Require Import base numbers list gmap.
From Stdlib Require Import ZArith Lia.
From S2P Require Import Prelude SizeClass LinkMem FreeList Treiber Slab Sys Metrics PageList Pool PoolInv PoolSpec PoolSeq SlabCache PagePort Heap HeapInv HeapEnv HeapOps HeapSpec.

Local Open Scope Z_scope.
Local Open Scope clm_scope.
Arguments SEGMENT_SIZE : simpl never.
Arguments SLAB_SIZE : simpl never.

Section drop.
Context {P : Type} `{PageAllocatorLaws P}.
Implicit Types (w : world (PagePool P)) (p : PagePool P).

(** [while let Some(slab) = self.uncache_slab() { self.dealloc_slab(slab) }] *)
Fixpoint drain_cache (fuel : nat) (w : world (PagePool P)) : res (world (PagePool P)) :=
  match fuel with
  | O => Panic OutOfFuel
  | S fuel =>
      match PagePool_uncache_slab w with
      | (None, w) => Ok w
      | (Some slab, w) => p ← dealloc_slab (w_pool w) slab; drain_cache fuel (set_pool w p)
      end
  end.

(** Each turn takes one of the cached pages. *)
Definition PagePool_drop (w : world (PagePool P)) : res (world (PagePool P)) :=
  w ← drain_cache (S (Z.to_nat (w_cache_len w))) w;
  p ← drop_segments (Z.to_nat (segment_count (state (w_pool w)))) 0 (w_pool w);
  Ok (set_pool w p).

Lemma keeps_handed pages cached larges m m' :
  keeps (handed_out (pages ++ cached) larges) m m' → keeps (handed_out pages larges) m m'.
Proof. apply keeps_sub. intros b [Hb|Hb]%elem_of_app; apply elem_of_app; [left|by right]. rewrite fmap_app. set_solver. Qed.

Lemma drain_cache_ok pages larges cached : ∀ w fuel,
  chain (w_mem w) (w_cache w) cached → w_cache_len w = Z.of_nat (length cached) →
  w_cache_len w ≤ SLAB_CACHE_MAX → pool_ok (w_pool w) (pages ++ cached) larges → (length cached < fuel)%nat →
  ∃ w', drain_cache fuel w = Ok w' ∧ pool_ok (w_pool w') pages larges ∧
    keeps (handed_out pages larges) (w_mem w) (w_mem w') ∧ w_cache w' = 0.
Proof.
  induction cached as [|b cached IH]; intros w fuel Hch Hlen Hmax Hp Hfuel;
    (destruct fuel as [|fuel]; [cbn in Hfuel; lia|]); cbn [drain_cache]; unfold PagePool_uncache_slab;
    (pose proof (uncache_slab_ok (w_mem w) (w_cache w) _ Hch ltac:(lia)) as Hun); rewrite Hlen;
    rewrite app_nil_r in Hp || idtac.
  - rewrite Hun, set_mem_id. eexists. split; [done|]. split; [exact Hp|]. split; [done|]. exact Hch.
  - destruct Hun as [-> Hch'].
    rewrite set_mem_id. cbn [w_pool set_cache]. apply (pool_ok_perm _ _ (b :: pages ++ cached) _ larges) in Hp; [|by rewrite Permutation_middle|done].
    destruct (pool_dealloc_slab_ok _ _ _ _ Hp) as (p & -> & Hk & Hp'). cbn [mbind res_bind set_pool].
    edestruct (IH (set_pool (set_cache w (link_get (w_mem w) b) (Z.of_nat (length cached))) p) fuel)
      as (w' & E & Hp2 & Hk2 & Hz).
    + cbn [w_mem w_pool w_cache set_pool set_cache]. eapply chain_ext; [|exact Hch']. intros a x Ha Hx. apply (Hk (page_block a)).
      * apply elem_of_app. left. apply list_elem_of_fmap_2. set_solver.
      * unfold in_block. cbn. change SLAB_SIZE with 65536. lia.
    + done.
    + cbn [w_cache_len set_pool set_cache length] in *. lia.
    + exact Hp'.
    + cbn in Hfuel. lia.
    + exists w'. split; [exact E|]. split; [exact Hp2|]. split; [|exact Hz].
      eapply keeps_trans; [|exact Hk2]. by apply keeps_handed in Hk.
Qed.

(** Each segment of the table goes back once. *)
Lemma drop_segments_ok larges S : ∀ p (i : nat),
  (∀ k b, S !! k = Some b → segments (state p) !! (i + k)%nat = Some b) → Forall seg_ok S →
  pa_owns (page_alloc p) ((seg_block <$> S) ++ larges) →
  ∃ p', drop_segments (length S) (Z.of_nat i) p = Ok p' ∧ pa_owns (page_alloc p') larges ∧
    keeps larges (pool_mem p) (pool_mem p').
Proof.
  induction S as [|b S IH]; intros p i Htab Hok Ho; cbn [length drop_segments]; [by exists p|].
  apply Forall_cons in Hok as [Hb Hok]. pose proof (Htab 0%nat b eq_refl) as Hget. rewrite Nat.add_0_r in Hget.
  rewrite (arr_get_ok _ _ _ Hget). cbn [mbind res_bind].
  assert (b =? 0 = false) as -> by (destruct Hb as (_ & ? & _); lia).
  destruct (pa_dealloc (page_alloc p) (pool_mem p) b Segment_layout) as [os m] eqn:E.
  change (pa_owns (page_alloc p) ((b, Segment_layout) :: (seg_block <$> S) ++ larges)) in Ho.
  destruct (pa_dealloc_ok _ _ _ _ _ _ _ Ho E) as [Ho' Hk].
  replace (Z.of_nat i + 1) with (Z.of_nat (Datatypes.S i)) by lia.
  destruct (IH (mkPool os m (state p)) (Datatypes.S i)) as (p' & E' & Ho2 & Hk2); [|done|exact Ho'|].
  - intros k b' Hk'. cbn [state]. replace (Datatypes.S i + k)%nat with (i + Datatypes.S k)%nat by lia. by apply Htab.
  - exists p'. split; [exact E'|]. split; [exact Ho2|]. eapply keeps_trans; [|exact Hk2].
    intros c x Hc Hx. apply (Hk c x); [|done]. apply elem_of_app. by right.
Qed.

(** C40. Dropping the pool after any use by any heaps returns; the page
    allocator keeps exactly the large blocks that are still held, with their
    contents: every segment has been given back, and given back once, also
    when its pages were cached, abandoned, owned by a heap or dirty. *)
Theorem pool_drop_returns_all (hs : gmap Z Heap) (next : Z) w (L : list block) :
  consistent hs next w L →
  ∃ w', PagePool_drop w = Ok w' ∧ pa_owns (page_alloc (w_pool w')) (larges_of L) ∧
    keeps (larges_of L) (w_mem w) (w_mem w') ∧ w_cache w' = 0.
Proof.
  intros [g Hg]. pose proof (so_inv _ _ _ _ _ Hg) as Hw. destruct (wi_cache_len _ _ _ _ Hw) as [Hlen Hmax].
  destruct (drain_cache_ok (slab_pages w ++ g_spare g) (larges_of L) (g_cached g) w (S (Z.to_nat (w_cache_len w))))
    as (w1 & E1 & [(S & D & C & [Hi Ho] & _) _] & Hk1 & Hz); [exact (wi_cache _ _ _ _ Hw)|done|done| |lia|].
  { eapply pool_ok_perm; [|reflexivity|exact (wi_pool _ _ _ _ Hw)]. clear. perm. }
  destruct (pi_tables _ _ _ _ _ _ Hi) as (Hcount & _ & _ & Htake). unfold PagePool_drop. rewrite E1.
  cbn [mbind res_bind]. rewrite Hcount, Nat2Z.id.
  destruct (drop_segments_ok (larges_of L) S (w_pool w1) 0) as (p & E2 & Ho2 & Hk2); [|apply Hi|exact Ho|].
  - intros k b Hk. rewrite <- Htake in Hk. by apply lookup_take_Some in Hk as [Hk _].
  - change (Z.of_nat 0) with 0 in E2. rewrite E2. cbn [mbind res_bind]. eexists. split; [done|]. split; [exact Ho2|].
    split; [|exact Hz]. eapply keeps_trans; [|exact Hk2].
    intros b x Hb Hx. apply (Hk1 b x); [|done]. apply elem_of_app. by right.
Qed.
End drop.

(** A pool is dropped while the program still holds a block of a heap. *)
Lemma pool_drop_returns_all_witness :
  ∃ a h w w', Heap_alloc 2 (Heap_new 1) demo_world l16 = Ok (Some a, h, w) ∧
    PagePool_drop w = Ok w' ∧ pa_owns (page_alloc (w_pool w')) [].
Proof.
  destruct demo_alloc as (a & h & w & E & Hc).
  destruct (pool_drop_returns_all _ 2 w [(a, l16)] Hc) as (w' & E' & Ho & _).
  rewrite (larges_of_small _ _ 4) in Ho by (vm_compute; reflexivity).
  exists a, h, w, w'. split; [exact E|]. split; [exact E'|exact Ho].
Defined.
