(* ===== verification/HeapQuiet.v ===== *)
(** * Heaps and the registry of their counters

    The pool's metrics hold pointers to the counters of every running heap, and
    each heap's counters hold its slot in that registry.  No method of [Heap]
    touches either: [quiet] is that statement, proved for every method by
    walking through its successful runs. *)

From stdpp Require Import base numbers list gmap.
From Stdlib Require Import ZArith Lia.
From S2P Require Import Prelude SizeClass LinkMem FreeList Treiber Slab SlabList Sys Metrics SlabCache PagePort Heap.

Local Open Scope Z_scope.
Local Open Scope clm_scope.

Section quiet.
Context {W : Type} `{HeapRegistryLaws W}.
Implicit Types (w : world W) (h : Heap).

Definition registry w : list Z * Z * HeapMetrics := registry_of (hr_metrics (w_pool w)).
Definition reg_idx h : Z := registry_idx (hp_metrics h).
Definition quiet h w h' w' : Prop := registry w' = registry w ∧ reg_idx h' = reg_idx h.

Lemma set_mem_registry w m : registry (set_mem w m) = registry w.
Proof. unfold registry. cbn. by rewrite hr_set_mem. Qed.

(** ** Slabs and lists *)

Lemma slab_alloc_at_registry w b r w' : slab_alloc_at w b = Ok (r, w') → registry w' = registry w.
Proof. unfold slab_alloc_at. intros E. by run_inv. Qed.

Lemma slab_dealloc_local_at_registry w b a w' :
  slab_dealloc_local_at w b a = Ok w' → registry w' = registry w.
Proof. unfold slab_dealloc_local_at. intros E. run_inv. apply set_mem_registry. Qed.

Lemma slab_dealloc_remote_at_registry w b a w' :
  slab_dealloc_remote_at w b a = Ok w' → registry w' = registry w.
Proof. unfold slab_dealloc_remote_at. intros E. run_inv. apply set_mem_registry. Qed.

Lemma push_remote_registry mode w b a c w' : push_remote mode w b a c = Ok w' → registry w' = registry w.
Proof. destruct mode; [apply slab_dealloc_remote_at_registry|by intros [= <-]]. Qed.

Lemma land_all_registry w s ptrs w' : land_all (set_sched w s) ptrs = Ok w' → registry w' = registry w.
Proof. intros E. by apply (land_all_same registry) in E; [|apply slab_dealloc_remote_at_registry|]. Qed.

Lemma interfere_registry w w' : interfere w = Ok w' → registry w' = registry w.
Proof. apply interfere_same; [apply slab_dealloc_remote_at_registry|done|done]. Qed.

Lemma slab_drain_at_registry w b w' : slab_drain_at w b = Ok w' → registry w' = registry w.
Proof.
  unfold slab_drain_at, slab_drain_now. intros E. bind_inv E as w1 E1. apply interfere_registry in E1 as <-.
  run_inv. apply set_mem_registry.
Qed.

Lemma settle_at_registry w b w' : settle_at w b = Ok w' → registry w' = registry w.
Proof.
  unfold settle_at. intros E. bind_inv E as w1 E1. apply interfere_registry in E1 as <-. bind_inv E as hd E2.
  destruct (Slab_has_pending_remote hd); [by eapply slab_drain_at_registry|by injection E as <-].
Qed.

Lemma heap_list_push_registry w c b w' : heap_list_push w c b = Ok w' → registry w' = registry w.
Proof. unfold heap_list_push. intros E. by run_inv. Qed.

Lemma heap_list_pop_registry w c r w' : heap_list_pop w c = Ok (r, w') → registry w' = registry w.
Proof. unfold heap_list_pop. intros E. by run_inv. Qed.

Lemma heap_list_remove_registry w b w' : heap_list_remove w b = Ok w' → registry w' = registry w.
Proof. unfold heap_list_remove. intros E. by run_inv. Qed.

Lemma cache_slab_registry w b w' : PagePool_cache_slab w b = Ok w' → registry w' = registry w.
Proof.
  unfold PagePool_cache_slab. intros E. run_inv; unfold registry; cbn.
  - by rewrite hr_set_mem.
  - by eapply hr_dealloc_slab.
Qed.

Lemma uncache_slab_registry w r w' : PagePool_uncache_slab w = (r, w') → registry w' = registry w.
Proof. unfold PagePool_uncache_slab. intros E. run_inv. unfold registry. cbn. by rewrite hr_set_mem. Qed.

Lemma abandon_slab_registry w b w' : PagePool_abandon_slab w b = Ok w' → registry w' = registry w.
Proof. unfold PagePool_abandon_slab. intros E. run_inv. eapply hr_inc; [by left|done]. Qed.

Lemma adopt_all_registry w c r w' : PagePool_adopt_all w c = Ok (r, w') → registry w' = registry w.
Proof. unfold PagePool_adopt_all. intros E. by run_inv. Qed.

Lemma set_bin_idx h idx b h' : set_bin h idx b = Ok h' → reg_idx h' = reg_idx h.
Proof. unfold set_bin. intros E. by run_inv. Qed.

Lemma count_alloc_idx h idx h' : count_alloc h idx = Ok h' → reg_idx h' = reg_idx h.
Proof. unfold count_alloc, HeapMetrics_on_alloc. intros E. by run_inv. Qed.

Lemma count_dealloc_idx h idx h' : count_dealloc h idx = Ok h' → reg_idx h' = reg_idx h.
Proof. unfold count_dealloc, HeapMetrics_on_dealloc. intros E. by run_inv. Qed.

(** What every equation of a run says about the registry. *)
Ltac run_facts :=
  run_inv;
  repeat match goal with
  | E : slab_alloc_at _ _ = Ok _ |- _ => apply slab_alloc_at_registry in E
  | E : slab_drain_at _ _ = Ok _ |- _ => apply slab_drain_at_registry in E
  | E : settle_at _ _ = Ok _ |- _ => apply settle_at_registry in E
  | E : push_remote _ _ _ _ _ = Ok _ |- _ => apply push_remote_registry in E
  | E : slab_dealloc_local_at _ _ _ = Ok _ |- _ => apply slab_dealloc_local_at_registry in E
  | E : slab_dealloc_remote_at _ _ _ = Ok _ |- _ => apply slab_dealloc_remote_at_registry in E
  | E : heap_list_push _ _ _ = Ok _ |- _ => apply heap_list_push_registry in E
  | E : heap_list_pop _ _ = Ok _ |- _ => apply heap_list_pop_registry in E
  | E : heap_list_remove _ _ = Ok _ |- _ => apply heap_list_remove_registry in E
  | E : PagePool_cache_slab _ _ = Ok _ |- _ => apply cache_slab_registry in E
  | E : PagePool_uncache_slab _ = _ |- _ => apply uncache_slab_registry in E
  | E : PagePool_abandon_slab _ _ = Ok _ |- _ => apply abandon_slab_registry in E
  | E : PagePool_adopt_all _ _ = Ok _ |- _ => apply adopt_all_registry in E
  | E : set_bin _ _ _ = Ok _ |- _ => apply set_bin_idx in E
  | E : count_alloc _ _ = Ok _ |- _ => apply count_alloc_idx in E
  | E : count_dealloc _ _ = Ok _ |- _ => apply count_dealloc_idx in E
  | E : pp_inc_adopt_count _ _ = Ok _ |- _ => apply (hr_inc _ _ _ _ (or_intror eq_refl)) in E
  | E : pp_alloc_slab _ = Ok _ |- _ => apply hr_alloc_slab in E
  | E : pp_alloc_large _ _ = _ |- _ => apply hr_alloc_large in E
  end.
Ltac run_done := unfold quiet, registry, reg_idx, set_pool, set_header, set_slabs in *; cbn in *; split; congruence.

(** ** Methods *)

Lemma promote_quiet h w idx b h' w' : promote h w idx b = Ok (h', w') → quiet h w h' w'.
Proof. unfold promote. intros E. run_facts; run_done. Qed.

Lemma retire_active_quiet h w idx h' w' : retire_active h w idx = Ok (h', w') → quiet h w h' w'.
Proof. unfold retire_active. intros E. run_facts; run_done. Qed.

Lemma try_partial_quiet h w idx r h' w' : try_partial h w idx = Ok (r, h', w') → quiet h w h' w'.
Proof. unfold try_partial. intros E. run_facts; run_done. Qed.

Lemma quiet_trans h1 w1 h2 w2 h3 w3 : quiet h1 w1 h2 w2 → quiet h2 w2 h3 w3 → quiet h1 w1 h3 w3.
Proof. unfold quiet. intros [] []. split; congruence. Qed.

Lemma scan_one_quiet h w idx b h' w' : scan_one h w idx b = Ok (h', w') → quiet h w h' w'.
Proof.
  unfold scan_one. intros E. run_facts;
    repeat match goal with E : promote _ _ _ _ = _ |- _ => apply promote_quiet in E as [] end; run_done.
Qed.

Lemma scan_loop_quiet fuel : ∀ h w idx cur h' w', scan_loop fuel h w idx cur = Ok (h', w') → quiet h w h' w'.
Proof.
  induction fuel as [|fuel IH]; intros h w idx [b|] h' w' E; cbn [scan_loop] in E; run_inv; try done.
  eapply quiet_trans; [by eapply scan_one_quiet|by eapply IH].
Qed.

Lemma adopt_one_quiet h w idx b result r h' w' :
  adopt_one h w idx b result = Ok (r, h', w') → quiet h w h' w'.
Proof. unfold adopt_one. intros E. run_facts; run_done. Qed.

Lemma adopt_loop_quiet fuel : ∀ h w idx slab result r h' w',
  adopt_loop fuel h w idx slab result = Ok (r, h', w') → quiet h w h' w'.
Proof.
  induction fuel as [|fuel IH]; intros h w idx [b|] result r h' w' E; cbn [adopt_loop] in E; run_inv; try done.
  eapply quiet_trans; [by eapply adopt_one_quiet|by eapply IH].
Qed.

Lemma try_adopt_quiet h w idx r h' w' : try_adopt h w idx = Ok (r, h', w') → quiet h w h' w'.
Proof.
  unfold try_adopt. intros E. bind_inv E as [slab w1] E1. apply adopt_loop_quiet in E as [].
  run_facts; run_done.
Qed.

Lemma request_slab_quiet h w idx r h' w' : request_slab h w idx = Ok (r, h', w') → quiet h w h' w'.
Proof.
  unfold request_slab. intros E. bind_inv E as [[ptr h1] w1] E1. apply try_adopt_quiet in E1.
  eapply quiet_trans; [exact E1|]. clear E1. run_facts; run_done.
Qed.

Lemma alloc_active_quiet h w idx b r h' w' : alloc_active h w idx b = Ok (r, h', w') → quiet h w h' w'.
Proof.
  unfold alloc_active. intros E. run_facts;
    repeat match goal with E : retire_active _ _ _ = _ |- _ => apply retire_active_quiet in E as [] end; run_done.
Qed.

Lemma Heap_alloc_quiet fuel : ∀ h w l r h' w', Heap_alloc fuel h w l = Ok (r, h', w') → quiet h w h' w'.
Proof.
  induction fuel as [|fuel IH]; intros h w l r h' w' E; cbn [Heap_alloc] in E; [done|].
  bind_inv E as [idx|] E1. 2: { run_facts; run_done. }
  bind_inv E as bin E2. bind_inv E as [[r1 h1] w1] E3.
  assert (quiet h w h1 w1) as Hq1 by (destruct bin; [by eapply alloc_active_quiet|by run_inv]).
  eapply quiet_trans; [exact Hq1|]. clear Hq1 E2 E3. destruct r1 as [ptr|]; [by run_inv|].
  bind_inv E as [[found h2] w2] E2. apply try_partial_quiet in E2. eapply quiet_trans; [exact E2|].
  destruct found; [by eapply IH|]. bind_inv E as [h3 w3] E3. apply scan_loop_quiet in E3.
  eapply quiet_trans; [exact E3|]. bind_inv E as bin3 E4. destruct bin3 as [b|]; [by eapply IH|].
  bind_inv E as [[found h4] w4] E5. apply try_partial_quiet in E5. eapply quiet_trans; [exact E5|].
  destruct found; [by eapply IH|by eapply request_slab_quiet].
Qed.

Lemma Heap_dealloc_quiet mode h w a l h' w' : Heap_dealloc mode h w a l = Ok (h', w') → quiet h w h' w'.
Proof.
  unfold Heap_dealloc, reclaim_slab. intros E. bind_inv E as [idx|] E1.
  2: { injection E as <- <-. split; [apply hr_dealloc_large|done]. }
  bind_inv E as h1 E2. apply count_dealloc_idx in E2. bind_inv E as bin E3.
  run_facts; repeat match goal with E : promote _ _ _ _ = _ |- _ => apply promote_quiet in E as [] end; run_done.
Qed.

Lemma release_slab_registry w b w' : release_slab w b = Ok w' → registry w' = registry w.
Proof. unfold release_slab. intros E. run_facts; congruence. Qed.

Lemma drop_list_registry fuel : ∀ w c w', drop_list fuel w c = Ok w' → registry w' = registry w.
Proof.
  induction fuel as [|fuel IH]; intros w c w' E; cbn [drop_list] in E; bind_inv E as [r w1] E1;
    apply heap_list_pop_registry in E1; (destruct r; [|by run_inv]); [done|].
  bind_inv E as w2 E2. apply release_slab_registry in E2. apply IH in E. congruence.
Qed.

Lemma drop_classes_registry n : ∀ h w idx h' w',
  drop_classes n h w idx = Ok (h', w') → registry w' = registry w.
Proof.
  induction n as [|n IH]; intros h w idx h' w' E; cbn [drop_classes] in E; [by run_inv|].
  bind_inv E as [h1 w1] E1. bind_inv E as w2 E2. bind_inv E as w3 E3.
  apply drop_list_registry in E2, E3. apply IH in E. rewrite E, E3, E2. unfold retire_slab in E1.
  bind_inv E1 as bin E4. destruct bin as [b|]; [|by injection E1 as _ <-].
  bind_inv E1 as h2 E5. bind_inv E1 as w4 E6. injection E1 as _ <-. by apply release_slab_registry in E6.
Qed.

Lemma Heap_drop_registry h w h' w' : Heap_drop h w = Ok (h', w') → registry w' = registry w.
Proof. apply drop_classes_registry. Qed.
End quiet.
