(* ===== verification/HeapCounts.v ===== *)
(** * What a heap counts ([src/src/heap.rs] with [src/src/metrics.rs])

    Every method of [Heap] as seen by its counters: an allocation that is
    served counts one event of its class, a free one event and possibly a
    remote free, and nothing else counts anything. *)

From stdpp Require Import base numbers list gmap.
From Stdlib Require Import ZArith Lia.
From S2P Require Import Prelude SizeClass LinkMem FreeList Treiber Slab SlabList Sys Metrics SlabCache PagePort Heap.

Local Open Scope Z_scope.
Local Open Scope clm_scope.

(** The event a block of layout [l] is counted as. *)
Definition alloc_event (l : Layout) : counter_event :=
  match class_index l with Ok (Some c) => CtAlloc c (class_size c) | _ => CtLargeAlloc (size l) end.
Definition dealloc_event (l : Layout) : counter_event :=
  match class_index l with Ok (Some c) => CtDealloc c (class_size c) | _ => CtLargeDealloc (size l) end.

Section counts.
Context {W : Type} `{PagePort W}.
Implicit Types (w : world W) (h : Heap).

Lemma set_bin_metrics h idx b h' : set_bin h idx b = Ok h' → hp_metrics h' = hp_metrics h.
Proof. unfold set_bin. intros E. by run_inv. Qed.

Ltac count_facts :=
  run_inv; repeat match goal with E : set_bin _ _ _ = Ok _ |- _ => apply set_bin_metrics in E end.

(** ** Methods that count nothing *)

Lemma promote_metrics h w idx b h' w' : promote h w idx b = Ok (h', w') → hp_metrics h' = hp_metrics h.
Proof. unfold promote. intros E. by count_facts. Qed.

Lemma retire_active_metrics h w idx h' w' : retire_active h w idx = Ok (h', w') → hp_metrics h' = hp_metrics h.
Proof. unfold retire_active. intros E. by count_facts. Qed.

Lemma try_partial_metrics h w idx r h' w' : try_partial h w idx = Ok (r, h', w') → hp_metrics h' = hp_metrics h.
Proof. unfold try_partial. intros E. by count_facts. Qed.

Lemma scan_one_metrics h w idx b h' w' : scan_one h w idx b = Ok (h', w') → hp_metrics h' = hp_metrics h.
Proof.
  unfold scan_one. intros E. bind_inv E as w1 E1. bind_inv E as hd1 E2.
  clear E1 E2. destruct (Slab_is_fully_free hd1); [|destruct (_ <? _)]; run_inv; [done| |done].
  by eapply promote_metrics.
Qed.

Lemma scan_loop_metrics fuel : ∀ h w idx cur h' w',
  scan_loop fuel h w idx cur = Ok (h', w') → hp_metrics h' = hp_metrics h.
Proof.
  induction fuel as [|fuel IH]; intros h w idx [b|] h' w' E; cbn [scan_loop] in E; [done|by run_inv| |by run_inv].
  bind_inv E as hd E1. bind_inv E as [h1 w1] E2. apply scan_one_metrics in E2. apply IH in E. congruence.
Qed.

Lemma adopt_one_metrics h w idx b result r h' w' :
  adopt_one h w idx b result = Ok (r, h', w') → hp_metrics h' = hp_metrics h.
Proof. unfold adopt_one. intros E. by count_facts. Qed.

Lemma adopt_loop_metrics fuel : ∀ h w idx slab result r h' w',
  adopt_loop fuel h w idx slab result = Ok (r, h', w') → hp_metrics h' = hp_metrics h.
Proof.
  induction fuel as [|fuel IH]; intros h w idx [b|] result r h' w' E; cbn [adopt_loop] in E;
    [done|by run_inv| |by run_inv].
  bind_inv E as hd E1. bind_inv E as [[r1 h1] w1] E2. apply adopt_one_metrics in E2. apply IH in E. congruence.
Qed.

Lemma try_adopt_metrics h w idx r h' w' : try_adopt h w idx = Ok (r, h', w') → hp_metrics h' = hp_metrics h.
Proof. unfold try_adopt. intros E. bind_inv E as [slab w1] E1. by apply adopt_loop_metrics in E. Qed.

(** ** Allocation *)

(** The counters after a call with result [r]. *)
Definition counted_alloc (e : counter_event) h (r : option Z) h' : Prop :=
  match r with
  | Some _ => apply_counter (hp_metrics h) e = Ok (hp_metrics h')
  | None => hp_metrics h' = hp_metrics h
  end.

Lemma count_alloc_counted h idx a h' :
  count_alloc h idx = Ok h' → counted_alloc (CtAlloc idx (class_size idx)) h (Some a) h'.
Proof. unfold count_alloc. intros E. bind_inv E as hm E1. by injection E as <-. Qed.

Lemma counted_before e h h1 r h' :
  hp_metrics h1 = hp_metrics h → counted_alloc e h1 r h' → counted_alloc e h r h'.
Proof. unfold counted_alloc. intros ->. done. Qed.

Lemma request_slab_counted h w idx r h' w' :
  request_slab h w idx = Ok (r, h', w') → counted_alloc (CtAlloc idx (class_size idx)) h r h'.
Proof.
  unfold request_slab. intros E. bind_inv E as [[ptr h1] w1] E1. apply try_adopt_metrics in E1.
  eapply counted_before; [exact E1|]. clear E1. destruct ptr as [a|].
  - bind_inv E as h2 E2. injection E as <- <- <-. by eapply count_alloc_counted.
  - bind_inv E as [raw w2] E2. destruct raw as [b|]; [|by injection E as <- <- _].
    bind_inv E as [a w3] E3. bind_inv E as h2 E4. bind_inv E as h3 E5. injection E as <- <- _.
    apply set_bin_metrics in E4. eapply counted_before; [exact E4|].
    destruct a as [a|]; [by eapply count_alloc_counted|by injection E5 as <-].
Qed.

Lemma alloc_active_counted h w idx b r h' w' :
  alloc_active h w idx b = Ok (r, h', w') → counted_alloc (CtAlloc idx (class_size idx)) h r h'.
Proof.
  unfold alloc_active. intros E. bind_inv E as [a w1] E1. destruct a as [a|].
  - bind_inv E as h1 E2. injection E as <- <- _. by eapply count_alloc_counted.
  - bind_inv E as w2 E2. bind_inv E as [a w3] E3. destruct a as [a|].
    + bind_inv E as h1 E4. injection E as <- <- _. by eapply count_alloc_counted.
    + bind_inv E as [h1 w4] E4. injection E as <- <- _. by apply retire_active_metrics in E4.
Qed.

(** A served allocation counts its event, a refused one counts nothing. *)
Lemma Heap_alloc_counted fuel : ∀ h w l r h' w',
  Heap_alloc fuel h w l = Ok (r, h', w') → counted_alloc (alloc_event l) h r h'.
Proof.
  induction fuel as [|fuel IH]; intros h w l r h' w' E; cbn [Heap_alloc] in E; [done|].
  bind_inv E as c Hc. destruct c as [idx|].
  2: { unfold alloc_event. rewrite Hc. destruct (pp_alloc_large _ _) as [[a|] p]; by injection E as <- <- _. }
  bind_inv E as bin E2. bind_inv E as [[r1 h1] w1] E3.
  assert (counted_alloc (alloc_event l) h r1 h1) as Hc1.
  { unfold alloc_event. rewrite Hc. destruct bin; [by eapply alloc_active_counted|by injection E3 as <- <- _]. }
  destruct r1 as [a|]; [by injection E as <- <- _|]. eapply counted_before; [exact Hc1|]. clear Hc1 E2 E3.
  bind_inv E as [[found h2] w2] E2. apply try_partial_metrics in E2. eapply counted_before; [exact E2|].
  destruct found; [by eapply IH|]. bind_inv E as [h3 w3] E3. apply scan_loop_metrics in E3.
  eapply counted_before; [exact E3|]. bind_inv E as bin3 E4. destruct bin3 as [b|]; [by eapply IH|].
  bind_inv E as [[found h4] w4] E5. apply try_partial_metrics in E5. eapply counted_before; [exact E5|].
  destruct found; [by eapply IH|]. unfold alloc_event. rewrite Hc. by eapply request_slab_counted.
Qed.

(** ** Free *)

Lemma Heap_dealloc_counted mode h w a l h' w' :
  Heap_dealloc mode h w a l = Ok (h', w') →
  ∃ hm, apply_counter (hp_metrics h) (dealloc_event l) = Ok hm ∧
    (hp_metrics h' = hm ∨ hp_metrics h' = HeapMetrics_on_remote_free hm 1).
Proof.
  unfold Heap_dealloc, dealloc_event. intros E. bind_inv E as c Hc. rewrite Hc. destruct c as [idx|].
  2: { injection E as <- _. eexists. split; [done|by left]. }
  bind_inv E as h1 E1. unfold count_dealloc in E1. bind_inv E1 as hm Hm. injection E1 as <-.
  exists hm. split; [exact Hm|]. clear Hm. bind_inv E as bin E2.
  destruct (match bin with Some _ => _ | None => _ end); [bind_inv E as w1 E3; injection E as <- _; by left|].
  bind_inv E as hd E3. destruct (_ =? _).
  2: { bind_inv E as w1 E4. injection E as <- _. by right. }
  left. bind_inv E as w1 E4. bind_inv E as hd1 E5.
  destruct (Slab_is_fully_free hd1); [bind_inv E as w2 E6; by injection E as <- _|].
  destruct (_ =? 1); [|by injection E as <- _]. bind_inv E as w2 E6. by apply promote_metrics in E.
Qed.
End counts.
