(* ===== verification/Global.v ===== *)
(** * The global allocator ([src/src/global.rs])

    A process: the world the heaps share, the heaps of the running threads in
    memory from [libc::malloc], and per thread the [HEAP] cell of the thread
    local storage and the value of the pthread key.  The cell is null before
    the thread's first allocation, then the address of its heap, and
    [DESTROYED] once the destructor of the key has run.

    [libc] is a parameter ([Libc]); what the code relies on is in [LibcLaws].
    A heap's address also stands for the address of its counters, which the
    registry keeps. *)

From stdpp Require Import base numbers list gmap.
From Stdlib Require Import ZArith Lia.
From S2P Require Import Prelude SizeClass LinkMem FreeList Treiber Slab SlabList Sys Metrics SlabCache PagePort Heap.

Local Open Scope Z_scope.
Local Open Scope clm_scope.

(** ** The C library *)

(** [malloc] answers null when it fails; [pthread_key_create] answers its
    return code and the key; [pthread_setspecific] sets the calling thread's
    value of a key and answers its return code. *)
Class Libc (C : Type) := {
  libc_malloc : C → Z → Z * C;
  libc_free : C → Z → C;
  pthread_key_create : C → Z * Z * C;
  pthread_setspecific : C → Z → Z → Z * C;
}.

(** [libc_owns c A]: the blocks of [A] are allocated.  [malloc] returns fresh
    memory aligned for any object.  The calls on keys may fail; they leave the
    allocated blocks alone. *)
Class LibcLaws (C : Type) `{Libc C} := {
  libc_owns : C → gset Z → Prop;
  libc_malloc_ok c A n p c' :
    libc_owns c A → 0 < n → libc_malloc c n = (p, c') →
    (p = 0 ∧ libc_owns c' A) ∨ (p ≠ 0 ∧ (16 | p) ∧ p ∉ A ∧ libc_owns c' ({[p]} ∪ A));
  libc_free_ok c A p : libc_owns c A → p ∈ A → libc_owns (libc_free c p) (A ∖ {[p]});
  pthread_key_create_ok c A ret key c' :
    libc_owns c A → pthread_key_create c = (ret, key, c') → libc_owns c' A;
  pthread_setspecific_ok c A key ptr ret c' :
    libc_owns c A → pthread_setspecific c key ptr = (ret, c') → libc_owns c' A;
}.

(** ** State *)

(** [ptr::dangling_mut::<HeapTy>()]: the alignment of the type. *)
Definition DESTROYED : Z := 8.

(** [size_of::<HeapTy>()]: two words, three arrays of pointers, the counters. *)
Definition size_of_HeapTy : Z := 2 * 8 + 3 * (NUM_CLASSES * 8) + (7 * 8 + 4 * (NUM_CLASSES * 8)).

Section global.
Context {W C : Type} `{PagePort W} `{HeapRegistry W} `{Libc C}.

(** Threads are numbered; [p_next] is [NEXT_HEAP_ID], [p_key] is [PTHREAD_KEY]. *)
Record process := mkProcess {
  p_world : world W;
  p_heaps : gmap Z Heap;
  p_next : Z;
  p_libc : C;
  p_key : option Z;
  p_cell : gmap Z Z;
  p_specific : gmap Z Z;
}.

Definition set_world (p : process) (w : world W) : process :=
  mkProcess w (p_heaps p) (p_next p) (p_libc p) (p_key p) (p_cell p) (p_specific p).
Definition set_heaps (p : process) (hs : gmap Z Heap) : process :=
  mkProcess (p_world p) hs (p_next p) (p_libc p) (p_key p) (p_cell p) (p_specific p).
Definition set_libc (p : process) (c : C) : process :=
  mkProcess (p_world p) (p_heaps p) (p_next p) c (p_key p) (p_cell p) (p_specific p).
Definition HEAP_get (p : process) (t : Z) : Z := default 0 (p_cell p !! t).
Definition HEAP_set (p : process) (t ptr : Z) : process :=
  mkProcess (p_world p) (p_heaps p) (p_next p) (p_libc p) (p_key p) (<[t := ptr]> (p_cell p)) (p_specific p).

(** [pthread_setspecific] on thread [t]: the value is stored when the call succeeds. *)
Definition set_specific (p : process) (t key ptr : Z) : process :=
  let '(ret, c) := pthread_setspecific (p_libc p) key ptr in
  mkProcess (p_world p) (p_heaps p) (p_next p) c (p_key p) (p_cell p)
    (if ret =? 0 then <[t := ptr]> (p_specific p) else p_specific p).

Definition process_new (pool : W) (c : C) : process := mkProcess (world_new pool) ∅ 1 c None ∅ ∅.

(** ** The registry, through the pool *)

(** The counters of the heaps, by address, and writing them back. *)
Definition heap_counters (hs : gmap Z Heap) : hm_store := hp_metrics <$> hs.
Definition put_counters (hs : gmap Z Heap) (st : hm_store) : gmap Z Heap :=
  map_imap (λ k h, Some (with_metrics h (default (hp_metrics h) (st !! k)))) hs.

Definition PagePool_register_heap (p : process) (ptr : Z) : res process :=
  let pool := w_pool (p_world p) in
  '(st, pm) ← PoolMetrics_register_heap (heap_counters (p_heaps p)) (hr_metrics pool) ptr;
  Ok (set_heaps (set_world p (set_pool (p_world p) (hr_set_metrics pool pm))) (put_counters (p_heaps p) st)).

Definition PagePool_deregister_heap (p : process) (ptr : Z) : res process :=
  let pool := w_pool (p_world p) in
  '(st, pm) ← PoolMetrics_deregister_heap (heap_counters (p_heaps p)) (hr_metrics pool) ptr;
  Ok (set_heaps (set_world p (set_pool (p_world p) (hr_set_metrics pool pm))) (put_counters (p_heaps p) st)).

(** ** Threads and their heaps *)

Definition heap_at (p : process) (ptr : Z) : res Heap := res_of_option InvalidPointer (p_heaps p !! ptr).

(** The destructor of the pthread key, run on the exiting thread [t]. *)
Definition heap_destructor (p : process) (t ptr : Z) : res process :=
  if (ptr =? 0) || (ptr =? DESTROYED) then Ok p else
  p ← PagePool_deregister_heap p ptr;
  h ← heap_at p ptr;
  '(_, w) ← Heap_drop h (p_world p);
  let p := set_heaps (set_world p w) (delete ptr (p_heaps p)) in
  let p := set_libc p (libc_free (p_libc p) ptr) in
  Ok (HEAP_set p t DESTROYED).

Definition ensure_key (p : process) : res (Z * process) :=
  match p_key p with
  | Some key => Ok (key, p)
  | None =>
      let '(ret, key, c) := pthread_key_create (p_libc p) in
      if ret =? 0 then
        Ok (key, mkProcess (p_world p) (p_heaps p) (p_next p) c (Some key) (p_cell p) (p_specific p))
      else Panic PanicAssert
  end.

(** The return code of [pthread_setspecific] is ignored. *)
Definition init_heap (p : process) (t : Z) : res (Z * process) :=
  let '(ptr, c) := libc_malloc (p_libc p) size_of_HeapTy in
  let p := set_libc p c in
  if ptr =? 0 then Ok (ptr, p) else
  let '(id, next) := next_heap_id (p_next p) in
  let p := mkProcess (p_world p) (<[ptr := Heap_new id]> (p_heaps p)) next (p_libc p) (p_key p)
             (p_cell p) (p_specific p) in
  p ← PagePool_register_heap p ptr;
  let p := HEAP_set p t ptr in
  '(key, p) ← ensure_key p;
  Ok (ptr, set_specific p t key ptr).

(** The thread ends: pthread clears the key's value and passes it to the destructor. *)
Definition thread_exit (p : process) (t : Z) : res process :=
  match p_specific p !! t with
  | None => Ok p
  | Some ptr =>
      let p := mkProcess (p_world p) (p_heaps p) (p_next p) (p_libc p) (p_key p) (p_cell p)
                 (delete t (p_specific p)) in
      if ptr =? 0 then Ok p else heap_destructor p t ptr
  end.

(** ** [GlobalAlloc] *)

(** [alloc] of the heap at an address; null when it answers [None]. *)
Definition heap_alloc_at (p : process) (heap : Z) (layout : Layout) : res (Z * process) :=
  h ← heap_at p heap;
  '(r, h, w) ← Heap_alloc 2 h (p_world p) layout;
  Ok (default 0 r, set_heaps (set_world p w) (<[heap := h]> (p_heaps p))).

Definition ClMalloc_alloc (p : process) (t : Z) (layout : Layout) : res (Z * process) :=
  if size layout =? 0 then Ok (align layout, p) else
  let heap := HEAP_get p t in
  if heap =? DESTROYED then Ok (0, p) else
  '(heap, p) ← (if heap =? 0 then init_heap p t else Ok (heap, p));
  if heap =? 0 then Ok (0, p) else heap_alloc_at p heap layout.

Definition ClMalloc_dealloc (mode : push_mode) (p : process) (t ptr : Z) (layout : Layout) : res process :=
  if size layout =? 0 then Ok p else
  let heap := HEAP_get p t in
  if negb (heap =? 0) && negb (heap =? DESTROYED) then
    h ← heap_at p heap;
    '(h, w) ← Heap_dealloc mode h (p_world p) ptr layout;
    Ok (set_heaps (set_world p w) (<[heap := h]> (p_heaps p)))
  else
    c ← class_index layout;
    match c with
    | Some idx =>
        w ← push_remote mode (p_world p) (SlabHeader_from_ptr ptr) ptr idx;
        Ok (set_world p w)
    | None =>
        Ok (set_world p (set_pool (p_world p) (pp_dealloc_large (w_pool (p_world p)) ptr layout)))
    end.
End global.
Arguments process : clear implicits.
