(* ===== verification/GlobalSpec.v ===== *)
(** * The process against an abstract allocator

    [alloc_spec_step] is what a program may rely on: a multiset of blocks and
    the bytes in them.  [process_refines] shows that whatever the threads do,
    their calls through [Global] behave like it; [process_total] that every call
    returns, but for a thread's first allocation when [alloc_panics] says that
    the registry is full or that there is no pthread key, and that none touches
    a slab or a heap that is not there.  C library calls may fail ([poor_libc]);
    [setspecific_failure_leaks_heap] shows the failure nobody notices. *)

From stdpp Require Import functions base numbers list gmap.
From Stdlib Require Import ZArith Lia.
From S2P Require Import Prelude SizeClass LinkMem Slab SlabList Sys Metrics Pool PoolSeq PagePort Heap HeapInv HeapOps HeapSpec HeapQuiet Global.

Local Open Scope Z_scope.
Local Open Scope clm_scope.
Arguments class_index : simpl never.
Arguments Heap_alloc : simpl never.
Arguments Heap_drop : simpl never.

(** ** The abstract allocator *)

(** [PEnv]: pushes of frees that were in flight.  Those of [ptrs] land, and
    [sched] says which land in the middle of the calls that follow. *)
Inductive proc_event :=
  | PAlloc (t : Z) (l : Layout) (r : Z)
  | PDealloc (t a : Z) (l : Layout)
  | PExit (t : Z)
  | PWrite (x v : Z)
  | PEnv (ptrs : list Z) (sched : list (list Z)).

(** The blocks the program holds, and the bytes of the memory. *)
Record alloc_spec := mkAllocSpec { as_blocks : list block; as_byte : Z → Z }.

(** The bytes of the blocks of [L] are the same. *)
Definition agree (L : list block) (m m' : Z → Z) : Prop := ∀ b x, b ∈ L → in_block b x → m' x = m x.

Inductive alloc_spec_step : alloc_spec → proc_event → alloc_spec → Prop :=
  | spec_palloc L m m' t l a :
      0 < size l → a ≠ 0 → usable (a, l) → (∀ b x, b ∈ L → in_block b x → ¬ in_block (a, l) x) →
      agree L m m' →
      alloc_spec_step (mkAllocSpec L m) (PAlloc t l a) (mkAllocSpec ((a, l) :: L) m')
  | spec_palloc_null L m m' t l :
      0 < size l → agree L m m' →
      alloc_spec_step (mkAllocSpec L m) (PAlloc t l 0) (mkAllocSpec L m')
  | spec_palloc_zst s t l :
      size l = 0 → alloc_spec_step s (PAlloc t l (align l)) s
  | spec_pdealloc L L' m m' t a l :
      0 < size l → L ≡ₚ (a, l) :: L' → agree L' m m' →
      alloc_spec_step (mkAllocSpec L m) (PDealloc t a l) (mkAllocSpec L' m')
  | spec_pdealloc_zst s t a l :
      size l = 0 → alloc_spec_step s (PDealloc t a l) s
  | spec_pexit L m m' t :
      agree L m m' → alloc_spec_step (mkAllocSpec L m) (PExit t) (mkAllocSpec L m')
  | spec_pwrite L m m' x v b :
      b ∈ L → in_block b x → agree L (λ y, if y =? x then wrap 8 v else m y) m' →
      alloc_spec_step (mkAllocSpec L m) (PWrite x v) (mkAllocSpec L m')
  | spec_penv L m m' ptrs s :
      agree L m m' → alloc_spec_step (mkAllocSpec L m) (PEnv ptrs s) (mkAllocSpec L m').

(** ** The process and its client *)

Section spec.
Context {W C : Type} `{HeapRegistryLaws W} `{LibcLaws C}.
Implicit Types (p q : process W C) (w : world W) (g : ghost) (L : list block) (hs : gmap Z Heap).

Definition proc_mem p : mem := w_mem (p_world p).

(** The 64-bit counter of heap ids does not wrap if thread [t] gets a heap. *)
Definition ids_left p (t : Z) : Prop := HEAP_get p t = 0 → p_next p + 1 < 2 ^ 64.

(** Where an allocation panics: it is the thread's first and [malloc] has memory
    for its heap, but the registry is full, or the first heap of all finds no
    key ([pthread_key_create] fails). *)
Definition start_panics p : bool :=
  let '(ptr, c) := libc_malloc (p_libc p) size_of_HeapTy in
  negb (ptr =? 0) &&
  ((MAX_HEAPS <=? Z.of_nat (base.size (p_heaps p))) ||
   match p_key p with Some _ => false | None => negb (fst (fst (pthread_key_create c)) =? 0) end).

Definition alloc_panics p (t : Z) (l : Layout) : bool :=
  negb (size l =? 0) && (HEAP_get p t =? 0) && start_panics p.

(** A call the client may make: it frees and writes only what it holds. *)
Definition allowed p L (e : proc_event) : Prop :=
  match e with
  | PAlloc t l _ => layout_valid l ∧ ids_left p t
  | PDealloc _ a l => 0 ≤ size l ∧ (0 < size l → (a, l) ∈ L)
  | PExit _ => True
  | PWrite x _ => ∃ b, b ∈ L ∧ in_block b x
  | PEnv _ _ => True
  end.

Inductive process_step : process W C * list block → proc_event → process W C * list block → Prop :=
  | step_palloc p L t l r p' :
      allowed p L (PAlloc t l r) → ClMalloc_alloc p t l = Ok (r, p') →
      process_step (p, L) (PAlloc t l r)
        (p', if (size l =? 0) || (r =? 0) then L else (r, l) :: L)
  | step_pdealloc mode p L L' t a l p' :
      0 < size l → L ≡ₚ (a, l) :: L' → ClMalloc_dealloc mode p t a l = Ok p' →
      process_step (p, L) (PDealloc t a l) (p', L')
  | step_pdealloc_zst mode p L t a l p' :
      size l = 0 → ClMalloc_dealloc mode p t a l = Ok p' →
      process_step (p, L) (PDealloc t a l) (p', L)
  | step_pexit p L t p' :
      thread_exit p t = Ok p' → process_step (p, L) (PExit t) (p', L)
  | step_pwrite p L x v :
      allowed p L (PWrite x v) →
      process_step (p, L) (PWrite x v) (set_world p (set_mem (p_world p) (write_byte (proc_mem p) x v)), L)
  | step_penv p L ptrs s w' :
      land_all (set_sched (p_world p) s) ptrs = Ok w' →
      process_step (p, L) (PEnv ptrs s) (set_world p w', L).

(** ** The invariant *)

Record proc_ok p L g : Prop := {
  po_heaps : heaps_ok (p_heaps p) (p_next p) (p_world p) L g;
  po_registry : registry_inv (heap_counters (p_heaps p)) (hr_metrics (w_pool (p_world p)));
  po_registered ptr : ptr ∈ registered (hr_metrics (w_pool (p_world p))) ↔ is_Some (p_heaps p !! ptr);
  po_cell t : HEAP_get p t = 0 ∨ HEAP_get p t = DESTROYED ∨ is_Some (p_heaps p !! HEAP_get p t);
  po_owner t t' : is_Some (p_heaps p !! HEAP_get p t) → HEAP_get p t = HEAP_get p t' → t = t';
  po_specific t ptr : p_specific p !! t = Some ptr → HEAP_get p t = ptr ∧ is_Some (p_heaps p !! ptr);
  po_libc : libc_owns (p_libc p) (dom (p_heaps p));
  po_addr ptr : is_Some (p_heaps p !! ptr) → ptr ≠ 0 ∧ (16 | ptr);
  po_next : 0 ≤ p_next p;
}.

Lemma addr_not_destroyed (ptr : Z) : (16 | ptr) → ptr ≠ DESTROYED.
Proof. intros [q ->]. unfold DESTROYED. lia. Qed.

(** ** The registry *)

Lemma registered_of pm pm' : registry_of pm' = registry_of pm → registered pm' = registered pm.
Proof. unfold registry_of, registered. by intros [= -> -> _]. Qed.

Lemma registry_inv_quiet (st st' : hm_store) pm pm' :
  registry_inv st pm → registry_of pm' = registry_of pm →
  (∀ k h, k ∈ registered pm → st !! k = Some h → ∃ h', st' !! k = Some h' ∧ registry_idx h' = registry_idx h) →
  registry_inv st' pm'.
Proof.
  intros [Hl Hc Hnd Hi] Hr Hst. pose proof (registered_of _ _ Hr) as Hreg.
  unfold registry_of in Hr. injection Hr as E1 E2 _. split; rewrite ?Hreg, ?E1, ?E2; try done.
  intros i ptr Hp. destruct (Hi i ptr Hp) as (h & Hh & Hx).
  destruct (Hst ptr h) as (h' & Hh' & Hx'); [by eapply list_elem_of_lookup_2|done|]. exists h'.
  split; [done|congruence].
Qed.

(** Heaps that differ in their registry slots only. *)
Definition recounted hs hs' : Prop :=
  ∀ k, match hs !! k, hs' !! k with
       | Some h, Some h' =>
           hp_id h' = hp_id h ∧ hp_bins h' = hp_bins h ∧ counters (hp_metrics h') = counters (hp_metrics h)
       | None, None => True
       | _, _ => False
       end.

Lemma put_counters_lookup hs st k :
  put_counters hs st !! k = (λ h, with_metrics h (default (hp_metrics h) (st !! k))) <$> hs !! k.
Proof. unfold put_counters. rewrite map_lookup_imap. by destruct (hs !! k). Qed.

Lemma put_counters_recounted hs st :
  same_counters (heap_counters hs) st →
  recounted hs (put_counters hs st) ∧ heap_counters (put_counters hs st) = st.
Proof.
  intros Hs. split.
  - intros k. specialize (Hs k). rewrite put_counters_lookup. unfold heap_counters in Hs.
    rewrite lookup_fmap in Hs. destruct (hs !! k) as [h|]; [|done]. cbn in *.
    destruct (st !! k) as [hm|]; cbn in *; [|done]. apply (inj Some) in Hs. by split_and!.
  - apply map_eq. intros k. specialize (Hs k). unfold heap_counters in *.
    rewrite lookup_fmap in *. rewrite put_counters_lookup. destruct (hs !! k) as [h|]; cbn in *.
    + by destruct (st !! k).
    + by destruct (st !! k).
Qed.

Lemma recounted_dom hs hs' k : recounted hs hs' → is_Some (hs' !! k) ↔ is_Some (hs !! k).
Proof. intros Hr. specialize (Hr k). destruct (hs !! k), (hs' !! k); done. Qed.

Lemma counters_arrays h h' : counters h' = counters h → class_arrays_ok h → class_arrays_ok h'.
Proof. intros Hc Ha. change (class_arrays_ok (counters h')). rewrite Hc. exact Ha. Qed.

Lemma heaps_ok_recounted hs hs' next w L g :
  recounted hs hs' → heaps_ok hs next w L g → heaps_ok hs' next w L g.
Proof.
  intros Hr [Hw Hset HL Hheap Hids Hnext].
  assert (∀ k h', hs' !! k = Some h' → ∃ h, hs !! k = Some h ∧ hp_id h' = hp_id h ∧
    hp_bins h' = hp_bins h ∧ counters (hp_metrics h') = counters (hp_metrics h)) as Hold.
  { intros k h' Hk. specialize (Hr k). rewrite Hk in Hr. destruct (hs !! k) as [h|]; [|done]. by exists h. }
  split; try done.
  - intros k h' Hk. destruct (Hold k h' Hk) as (h & Hh & E1 & E2 & E3).
    destruct (Hheap k h Hh) as [[Hl Hb Hm Hid] Ha]. rewrite E1. split; [|done].
    split; rewrite ?E1, ?E2; try done. by eapply counters_arrays.
  - intros k k' h h' Hk Hk' E. destruct (Hold k h Hk) as (h1 & Hh1 & E1 & _).
    destruct (Hold k' h' Hk') as (h2 & Hh2 & E2 & _). apply (Hids k k' h1 h2); [done|done|congruence].
Qed.

(** Writing the registry back to the pool. *)
Lemma heaps_ok_registry hs next w L g ptrs count d :
  heaps_ok hs next w L g →
  let pm := with_registry (hr_metrics (w_pool w)) ptrs count d in
  heaps_ok hs next (set_pool w (hr_set_metrics (w_pool w) pm)) L g.
Proof.
  intros [Hw Hset HL Hheap Hids Hnext] pm. split; try done.
  eapply (pool_op_ok _ (larges_of L)); [exact Hw|done| |].
  - intros b x _ _. by rewrite hr_mem.
  - apply hr_ok, Hw.
Qed.

(** ** The calls *)

Section call.
Context p L g (Hp : proc_ok p L g).

(** A call that leaves the threads and their heaps where they are. *)
Lemma proc_ok_update p' L' g' :
  p_cell p' = p_cell p → p_specific p' = p_specific p → p_libc p' = p_libc p → p_next p' = p_next p →
  (∀ k, is_Some (p_heaps p' !! k) ↔ is_Some (p_heaps p !! k)) →
  heaps_ok (p_heaps p') (p_next p') (p_world p') L' g' →
  registry_inv (heap_counters (p_heaps p')) (hr_metrics (w_pool (p_world p'))) →
  registered (hr_metrics (w_pool (p_world p'))) = registered (hr_metrics (w_pool (p_world p))) →
  proc_ok p' L' g'.
Proof.
  intros Ec Es El En Hdom Hh Hr Hreg. destruct Hp as [_ _ Hrd Hcell Hown Hsp Hlc Had Hnx].
  unfold HEAP_get in *. split; unfold HEAP_get; rewrite ?Ec, ?Es, ?El, ?En, ?Hreg; try done.
  - by rewrite <- En.
  - intros ptr. by rewrite Hdom.
  - intros t. rewrite Hdom. apply Hcell.
  - intros t t'. rewrite Hdom. apply Hown.
  - intros t ptr Ht. rewrite Hdom. by apply Hsp.
  - assert (dom (p_heaps p') = dom (p_heaps p)) as -> by (apply set_eq; intros k; rewrite !elem_of_dom; apply Hdom).
    done.
  - intros ptr. rewrite Hdom. apply Had.
Qed.

(** One heap runs. *)
Lemma proc_ok_heap ptr h h' w' L' g' :
  p_heaps p !! ptr = Some h → heaps_ok (<[ptr := h']> (p_heaps p)) (p_next p) w' L' g' →
  quiet h (p_world p) h' w' →
  proc_ok (set_heaps (set_world p w') (<[ptr := h']> (p_heaps p))) L' g'.
Proof.
  intros Hptr Hh [Hq Hi]. pose proof (po_registry _ _ _ Hp) as Hr. unfold registry, reg_idx in *.
  apply proc_ok_update; try done.
  - intros k. cbn. rewrite lookup_insert. case_decide; [subst k; rewrite Hptr; by split|done].
  - cbn. eapply registry_inv_quiet; [exact Hr|exact Hq|]. intros k hm _. unfold heap_counters.
    rewrite !lookup_fmap, lookup_insert. case_decide; [subst k|by eauto].
    rewrite Hptr. intros [= <-]. by eexists.
  - by apply registered_of.
Qed.

(** The world changes, the heaps do not. *)
Lemma proc_ok_world w' L' g' :
  heaps_ok (p_heaps p) (p_next p) w' L' g' → registry w' = registry (p_world p) →
  proc_ok (set_world p w') L' g'.
Proof.
  intros Hh Hq. apply proc_ok_update; try done.
  - eapply registry_inv_quiet; [apply Hp|exact Hq|]. by eauto.
  - by apply registered_of.
Qed.

Lemma heap_alloc_at_ok ptr l :
  is_Some (p_heaps p !! ptr) → request_ok l →
  ∃ r p' g', heap_alloc_at p ptr l = Ok (r, p') ∧
    proc_ok p' (if r =? 0 then L else (r, l) :: L) g' ∧ keeps L (proc_mem p) (proc_mem p') ∧
    p_cell p' = p_cell p ∧ (r = 0 → exhausted l (p_world p')).
Proof.
  intros [h Hh] Hl. unfold heap_alloc_at, heap_at. rewrite Hh. cbn [res_of_option mbind res_bind].
  destruct (heap_alloc_ok _ _ _ _ _ ptr h l 0 (po_heaps _ _ _ Hp) Hh Hl) as (r & h' & w' & g' & E & Hg' & Hk & Hx).
  rewrite E. cbn [mbind res_bind]. pose proof (Heap_alloc_quiet _ _ _ _ _ _ _ E) as Hq. do 3 eexists.
  split; [done|]. split; [|split; [exact Hk|split; [done|]]].
  - eapply proc_ok_heap; [exact Hh| |exact Hq]. destruct r as [a|]; [|exact Hg']. cbn [default granted] in *.
    destruct (consistent_blocks _ _ _ _ (ex_intro _ _ Hg')) as [[(_ & Ha & _) _]%Forall_cons _]. cbn in Ha.
    cbn. destruct (Z.eqb_spec a 0); [lia|exact Hg'].
  - destruct r as [a|]; [|by intros _; apply Hx]. cbn [default granted] in *.
    destruct (consistent_blocks _ _ _ _ (ex_intro _ _ Hg')) as [[(_ & Ha & _) _]%Forall_cons _]. cbn in *. lia.
Qed.

Lemma dealloc_ok mode t a l L' :
  0 < size l → L ≡ₚ (a, l) :: L' →
  ∃ p' g', ClMalloc_dealloc mode p t a l = Ok p' ∧ proc_ok p' L' g' ∧ keeps L' (proc_mem p) (proc_mem p').
Proof.
  intros Hpos HL. unfold ClMalloc_dealloc. destruct (Z.eqb_spec (size l) 0); [lia|].
  destruct (po_cell _ _ _ Hp t) as [Hc|[Hc|[h Hh]]].
  3: { destruct (po_addr _ _ _ Hp (HEAP_get p t)) as [Hnz Hal]; [by eexists|].
       pose proof (addr_not_destroyed _ Hal) as Hnd.
       rewrite (proj2 (Z.eqb_neq _ _) Hnz), (proj2 (Z.eqb_neq _ _) Hnd). cbn [negb andb].
       unfold heap_at. rewrite Hh. cbn [res_of_option mbind res_bind].
       destruct (heap_dealloc_ok mode _ _ _ _ _ _ h a l L' (po_heaps _ _ _ Hp) Hh HL) as (h' & w' & g' & E & Hg' & Hk).
       rewrite E. cbn [mbind res_bind]. do 2 eexists. split; [done|]. split; [|exact Hk].
       eapply proc_ok_heap; [exact Hh|exact Hg'|by eapply Heap_dealloc_quiet]. }
  all: rewrite Hc; cbn [negb andb Z.eqb DESTROYED].
  all: assert (request_ok l) as Hr
    by (pose proof (so_client _ _ _ _ _ (po_heaps _ _ _ Hp)) as HF; rewrite HL in HF; by apply Forall_cons in HF as [? _]).
  all: destruct (request_class l Hr) as [(c & Hcl & _)|Hcl]; rewrite Hcl; cbn [mbind res_bind].
  1,3: destruct (remote_dealloc_ok mode _ _ _ _ _ a l c L' (po_heaps _ _ _ Hp) HL Hcl) as (w' & E & Hg' & Hk);
    rewrite E; cbn [mbind res_bind]; do 2 eexists; (split; [done|]); (split; [|exact Hk]);
    (apply proc_ok_world; [exact Hg'|by eapply push_remote_registry]).
  all: destruct (remote_dealloc_large_ok _ _ _ _ _ a l L' (po_heaps _ _ _ Hp) HL Hcl) as [Hg' Hk];
    do 2 eexists; (split; [done|]); (split; [|exact Hk]); (apply proc_ok_world; [exact Hg'|]);
    apply hr_dealloc_large.
Qed.

(** *** The first allocation of a thread *)

Lemma registry_count : heap_count (hr_metrics (w_pool (p_world p))) = Z.of_nat (base.size (p_heaps p)).
Proof.
  destruct Hp as [_ [Hl Hc Hnd _] Hrd _ _ _ _ _ _]. set (pm := hr_metrics (w_pool (p_world p))) in *.
  assert (dom (p_heaps p) = list_to_set (C := gset Z) (registered pm)) as Hdom.
  { apply set_eq. intros k. by rewrite elem_of_dom, elem_of_list_to_set, Hrd. }
  assert (length (registered pm) = Z.to_nat (heap_count pm)) as Hlen
    by (unfold registered; rewrite length_take, Hl; unfold MAX_HEAPS in *; lia).
  rewrite <- (size_dom (p_heaps p)), Hdom, size_list_to_set, Hlen by done. lia.
Qed.

(** Registering a new heap at [ptr] in the process [q], which is [p] with that heap. *)
Lemma register_ok q ptr :
  Z.of_nat (base.size (p_heaps p)) < MAX_HEAPS → p_heaps p !! ptr = None →
  p_world q = p_world p → p_heaps q = <[ptr := Heap_new (p_next p)]> (p_heaps p) → p_next q = p_next p + 1 →
  ∃ w2 hs2 g2, PagePool_register_heap q ptr = Ok (set_heaps (set_world q w2) hs2) ∧ w_mem w2 = proc_mem p ∧
    (∀ k, is_Some (hs2 !! k) ↔ k = ptr ∨ is_Some (p_heaps p !! k)) ∧
    heaps_ok hs2 (p_next q) w2 L g2 ∧ registry_inv (heap_counters hs2) (hr_metrics (w_pool w2)) ∧
    (∀ k, k ∈ registered (hr_metrics (w_pool w2)) ↔ is_Some (hs2 !! k)).
Proof.
  intros Hroom Hnone Hqw Hqh Hqn. pose proof registry_count as Hcount.
  destruct Hp as [Hh Hr Hrd _ _ _ _ _ _]. destruct (heap_new_ok _ _ _ _ _ ptr Hh Hnone) as [g1 Hh1].
  rewrite <- Hqh, <- Hqn in Hh1. unfold PagePool_register_heap. rewrite Hqw. cbn zeta.
  set (pm := hr_metrics (w_pool (p_world p))) in *.
  assert (ptr ∉ registered pm) as Hnot by (rewrite Hrd, Hnone; by intros []).
  assert (heap_counters (p_heaps q) !! ptr = Some HeapMetrics_ZERO) as Hz
    by (unfold heap_counters; by rewrite Hqh, lookup_fmap, lookup_insert_eq).
  destruct (register_heap_ok (heap_counters (p_heaps q)) pm ptr HeapMetrics_ZERO)
    as (st' & pm' & E & Hr' & Hreg' & Hsame & _); [|lia|exact Hz|exact Hnot|].
  { eapply registry_inv_quiet; [exact Hr|done|]. intros k hm Hk. unfold heap_counters. rewrite Hqh.
    rewrite !lookup_fmap, lookup_insert_ne by (by intros ->). by eauto. }
  destruct (register_shape _ _ _ _ _ E) as (ptrs & count & d & Hpm').
  destruct (put_counters_recounted _ _ Hsame) as [Hrec Hst].
  rewrite E. cbn [mbind res_bind]. do 2 eexists. exists g1. split; [done|].
  assert (∀ k, is_Some (put_counters (p_heaps q) st' !! k) ↔ k = ptr ∨ is_Some (p_heaps p !! k)) as Hdom.
  { intros k. rewrite (recounted_dom _ _ k Hrec), Hqh, lookup_insert.
    case_decide; [subst; split; [by left|by eexists]|]. split; [by right|by intros [->|?]]. }
  cbn [w_pool set_pool]. rewrite hr_get_set. split; [|split_and!].
  - unfold w_mem. cbn. apply hr_mem.
  - exact Hdom.
  - rewrite Hpm'. apply heaps_ok_registry. by eapply heaps_ok_recounted.
  - rewrite Hst. exact Hr'.
  - intros k. rewrite Hreg', Hdom, elem_of_app, list_elem_of_singleton, Hrd. tauto.
Qed.

(** At capacity it panics. *)
Lemma register_full q ptr :
  MAX_HEAPS ≤ Z.of_nat (base.size (p_heaps p)) → p_world q = p_world p →
  PagePool_register_heap q ptr = Panic PanicAssert.
Proof.
  intros Hfull Hqw. unfold PagePool_register_heap, PoolMetrics_register_heap. rewrite Hqw, registry_count.
  by rewrite (proj2 (Z.ltb_ge _ _) Hfull).
Qed.

Lemma ensure_key_ok q A :
  libc_owns (p_libc q) A →
  if match p_key q with Some _ => false | None => negb (fst (fst (pthread_key_create (p_libc q))) =? 0) end
  then ensure_key q = Panic PanicAssert
  else ∃ k key c, ensure_key q = Ok (k, mkProcess (p_world q) (p_heaps q) (p_next q) c key (p_cell q) (p_specific q)) ∧
    libc_owns c A.
Proof.
  intros Hc. unfold ensure_key. destruct (p_key q) as [key|] eqn:Hk.
  - exists key, (Some key), (p_libc q). split; [|done]. destruct q. cbn in *. by subst.
  - destruct (pthread_key_create (p_libc q)) as [[ret key] c] eqn:E. cbn [fst snd].
    pose proof (pthread_key_create_ok _ _ _ _ _ Hc E). destruct (ret =? 0); [|done]. cbn [negb].
    by exists key, (Some key), c.
Qed.

(** The thread [t] got the heap at [ptr]. *)
Lemma proc_ok_started t ptr q L' g' :
  HEAP_get p t = 0 → p_heaps p !! ptr = None → ptr ≠ 0 → (16 | ptr) →
  (∀ k, is_Some (p_heaps q !! k) ↔ k = ptr ∨ is_Some (p_heaps p !! k)) →
  (∀ t', HEAP_get q t' = if decide (t' = t) then ptr else HEAP_get p t') →
  (∀ t' k, p_specific q !! t' = Some k → t' = t ∧ k = ptr ∨ p_specific p !! t' = Some k) →
  libc_owns (p_libc q) ({[ptr]} ∪ dom (p_heaps p)) → 0 ≤ p_next q →
  heaps_ok (p_heaps q) (p_next q) (p_world q) L' g' →
  registry_inv (heap_counters (p_heaps q)) (hr_metrics (w_pool (p_world q))) →
  (∀ k, k ∈ registered (hr_metrics (w_pool (p_world q))) ↔ is_Some (p_heaps q !! k)) →
  proc_ok q L' g'.
Proof.
  intros Hcell Hnone Hnz Hal Hdom Hget Hspec Hlc Hnx Hh Hr Hrd.
  assert (∀ t', HEAP_get p t' ≠ ptr) as Hnew.
  { intros t' Heq. destruct (po_cell _ _ _ Hp t') as [?|[Hd|Hs]].
    - congruence.
    - rewrite Hd in Heq. subst ptr. by apply (addr_not_destroyed DESTROYED).
    - rewrite Heq, Hnone in Hs. by destruct Hs. }
  assert (dom (p_heaps q) = {[ptr]} ∪ dom (p_heaps p)) as Hd.
  { apply set_eq. intros k. rewrite elem_of_union, elem_of_singleton, !elem_of_dom. apply Hdom. }
  destruct Hp as [_ _ _ Hcl Hown Hsp _ Had _]. split; try done.
  - intros t'. rewrite Hget, !Hdom. case_decide; [by right; right; left|].
    destruct (Hcl t') as [?|[?|?]]; auto.
  - intros t1 t2. rewrite !Hget, Hdom. case_decide; case_decide; subst; try done.
    + intros _ Heq. by destruct (Hnew t2).
    + intros _ Heq. by destruct (Hnew t1).
    + intros [Heq|Hs] Heq'; [by destruct (Hnew t1)|by apply Hown].
  - intros t1 k. rewrite Hget, Hdom. intros [[-> ->]|[Hk Hs]%Hsp]%Hspec; [rewrite decide_True by done; auto|].
    rewrite decide_False; [auto|]. intros ->. destruct (Had k Hs). congruence.
  - by rewrite Hd.
  - intros k [->|Hs]%Hdom; [done|by apply Had].
Qed.

Lemma set_specific_ok q t key ptr A :
  libc_owns (p_libc q) A →
  ∃ c sp, set_specific q t key ptr = mkProcess (p_world q) (p_heaps q) (p_next q) c (p_key q) (p_cell q) sp ∧
    libc_owns c A ∧ ∀ t' k, sp !! t' = Some k → t' = t ∧ k = ptr ∨ p_specific q !! t' = Some k.
Proof.
  intros Hc. unfold set_specific. destruct (pthread_setspecific (p_libc q) key ptr) as [ret c] eqn:E.
  do 2 eexists. split; [done|]. split; [by eapply pthread_setspecific_ok|]. intros t' k.
  destruct (ret =? 0); [|by right]. rewrite lookup_insert. case_decide; [intros [= <-]; by left|by right].
Qed.

(** The thread's first allocation gets a heap, or panics where [start_panics] says. *)
Lemma init_heap_ok t :
  HEAP_get p t = 0 → p_next p + 1 < 2 ^ 64 →
  if start_panics p then init_heap p t = Panic PanicAssert else
  ∃ ptr p' g', init_heap p t = Ok (ptr, p') ∧ proc_ok p' L g' ∧ proc_mem p' = proc_mem p ∧
    (ptr ≠ 0 → is_Some (p_heaps p' !! ptr)) ∧ (∀ t', HEAP_get p' t' = if decide (t' = t) then ptr else HEAP_get p t').
Proof.
  intros Hcell Hn. unfold start_panics, init_heap. destruct (libc_malloc (p_libc p) size_of_HeapTy) as [ptr c] eqn:Em.
  destruct (libc_malloc_ok _ _ size_of_HeapTy _ _ (po_libc _ _ _ Hp) eq_refl Em) as [[-> Hc]|(Hnz & Hal & Hfresh & Hc)].
  { cbn [Z.eqb negb andb]. exists 0, (set_libc p c), g. split; [done|]. split; [destruct Hp; by split|].
    split; [done|]. split; [done|]. intros t'. case_decide; [by subst|done]. }
  rewrite (proj2 (Z.eqb_neq _ _) Hnz). unfold next_heap_id. pose proof (po_next _ _ _ Hp).
  cbn [set_libc p_world p_heaps p_next p_libc p_key p_cell p_specific negb andb].
  rewrite wadd_small by (unfold uint; lia).
  assert (p_heaps p !! ptr = None) as Hnone by by apply not_elem_of_dom.
  set (q := mkProcess _ _ _ _ _ _ _).
  destruct (Z.leb_spec MAX_HEAPS (Z.of_nat (base.size (p_heaps p)))) as [Hfull|Hroom]; cbn [orb].
  { by rewrite (register_full q ptr Hfull). }
  destruct (register_ok q ptr Hroom Hnone) as (w2 & hs2 & g2 & E & Hm2 & Hdom2 & Hh2 & Hr2 & Hrd2); [done..|].
  rewrite E. cbn [mbind res_bind]. set (q2 := HEAP_set _ t ptr).
  pose proof (ensure_key_ok q2 ({[ptr]} ∪ dom (p_heaps p)) Hc) as Hkey.
  change (p_key q2) with (p_key p) in Hkey. change (p_libc q2) with c in Hkey. destruct (match p_key p with Some _ => _ | None => _ end).
  { by rewrite Hkey. }
  destruct Hkey as (k & key & c2 & -> & Hc2). cbn [mbind res_bind].
  destruct (set_specific_ok (mkProcess (p_world q2) (p_heaps q2) (p_next q2) c2 key (p_cell q2) (p_specific q2)) t k ptr _ Hc2)
    as (c3 & sp & -> & Hc3 & Hsp3).
  do 2 eexists. exists g2. split; [done|].
  assert (∀ t', HEAP_get q2 t' = if decide (t' = t) then ptr else HEAP_get p t') as Hget.
  { intros t'. unfold HEAP_get. cbn. rewrite lookup_insert. case_decide; case_decide; try done; by subst. }
  split; [|split; [exact Hm2|split; [intros _; apply Hdom2; by left|exact Hget]]].
  eapply (proc_ok_started t ptr); try done. cbn. lia.
Qed.

(** What is known of a first allocation that returned. *)
Lemma init_heap_returned t ptr p' :
  HEAP_get p t = 0 → p_next p + 1 < 2 ^ 64 → init_heap p t = Ok (ptr, p') →
  ∃ g', proc_ok p' L g' ∧ proc_mem p' = proc_mem p ∧ (ptr ≠ 0 → is_Some (p_heaps p' !! ptr)) ∧
    ∀ t', HEAP_get p' t' = if decide (t' = t) then ptr else HEAP_get p t'.
Proof.
  intros Hcell Hn E. pose proof (init_heap_ok t Hcell Hn) as Hok. destruct (start_panics p); [congruence|].
  destruct Hok as (ptr1 & p1 & g1 & E1 & Hx). rewrite E in E1. injection E1 as <- <-. by exists g1.
Qed.

(** *** Thread exit *)

Lemma deregister_ok q ptr :
  is_Some (p_heaps p !! ptr) → p_world q = p_world p → p_heaps q = p_heaps p →
  ∃ w2 hs2, PagePool_deregister_heap q ptr = Ok (set_heaps (set_world q w2) hs2) ∧ w_mem w2 = proc_mem p ∧
    recounted (p_heaps p) hs2 ∧ heaps_ok hs2 (p_next p) w2 L g ∧
    registry_inv (heap_counters hs2) (hr_metrics (w_pool w2)) ∧
    ptr :: registered (hr_metrics (w_pool w2)) ≡ₚ registered (hr_metrics (w_pool (p_world p))).
Proof.
  intros Hptr Hqw Hqh. destruct Hp as [Hh Hr Hrd _ _ _ _ _ _]. apply Hrd in Hptr.
  destruct (deregister_heap_ok _ _ _ Hr Hptr) as (st' & pm' & E & Hr' & Hperm & Hsame & _).
  destruct (deregister_shape _ _ _ _ _ E) as (ptrs & count & d & Hpm').
  destruct (put_counters_recounted _ _ Hsame) as [Hrec Hst].
  unfold PagePool_deregister_heap. rewrite Hqw, Hqh. cbn zeta. rewrite E. cbn [mbind res_bind].
  do 2 eexists. split; [done|]. cbn [w_pool set_pool]. rewrite hr_get_set. split; [|split_and!].
  - unfold w_mem. cbn. apply hr_mem.
  - exact Hrec.
  - rewrite Hpm'. apply heaps_ok_registry. by eapply heaps_ok_recounted.
  - rewrite Hst. exact Hr'.
  - exact Hperm.
Qed.

(** The thread [t] gave up the heap at [ptr]. *)
Lemma proc_ok_exited t ptr q L' g' :
  HEAP_get p t = ptr → is_Some (p_heaps p !! ptr) →
  (∀ k, is_Some (p_heaps q !! k) ↔ k ≠ ptr ∧ is_Some (p_heaps p !! k)) →
  (∀ t', HEAP_get q t' = if decide (t' = t) then DESTROYED else HEAP_get p t') →
  p_specific q = delete t (p_specific p) → p_libc q = libc_free (p_libc p) ptr → p_next q = p_next p →
  heaps_ok (p_heaps q) (p_next q) (p_world q) L' g' →
  registry_inv (heap_counters (p_heaps q)) (hr_metrics (w_pool (p_world q))) →
  (∀ k, k ∈ registered (hr_metrics (w_pool (p_world q))) ↔ is_Some (p_heaps q !! k)) →
  proc_ok q L' g'.
Proof.
  intros Hcell Hptr Hdom Hget Hspec Hlc Hnext Hh Hr Hrd.
  assert (¬ is_Some (p_heaps p !! DESTROYED)) as Hnone.
  { intros Hd. destruct (po_addr _ _ _ Hp _ Hd) as [_ Hd']. by apply addr_not_destroyed in Hd'. }
  destruct Hp as [_ _ _ Hcl Hown Hsp Hlb Had Hnx]. split; try done.
  - intros t'. rewrite Hget, Hdom. case_decide as Heq; [right; by left|].
    destruct (Hcl t') as [?|[?|Hs']]; [by left|right; by left|]. right. right. split; [|done].
    intros Heq'. apply Heq. symmetry. apply Hown; [by rewrite Hcell|congruence].
  - intros t1 t2. rewrite !Hget. case_decide; case_decide; subst; try done.
    + rewrite Hdom. by intros [_ ?].
    + intros Hs1 Heq. rewrite Heq, Hdom in Hs1. by destruct Hs1.
    + rewrite Hdom. intros [_ Hs1]. by apply Hown.
  - intros t1 k. rewrite Hget, Hdom, Hspec. intros [Ht [Heq Hk1]%Hsp]%lookup_delete_Some.
    rewrite decide_False by done. split; [done|]. split; [|done]. intros ->.
    apply Ht. symmetry. apply Hown; [by rewrite Heq|congruence].
  - assert (dom (p_heaps q) = dom (p_heaps p) ∖ {[ptr]}) as ->.
    { apply set_eq. intros k. rewrite elem_of_difference, elem_of_singleton, !elem_of_dom, Hdom. tauto. }
    rewrite Hlc. apply libc_free_ok; [done|by apply elem_of_dom].
  - intros k [_ Hk1]%Hdom. by apply Had.
  - by rewrite Hnext.
Qed.

Lemma thread_exit_ok t :
  ∃ p' g', thread_exit p t = Ok p' ∧ proc_ok p' L g' ∧ keeps L (proc_mem p) (proc_mem p') ∧
    (∀ t', HEAP_get p' t' =
       if decide (t' = t ∧ is_Some (p_specific p !! t)) then DESTROYED else HEAP_get p t').
Proof.
  unfold thread_exit. destruct (p_specific p !! t) as [ptr|] eqn:Hs.
  2: { exists p, g. do 3 (split; [done|]). intros t'. by rewrite decide_False by (by intros [_ [x Hx]]). }
  pose proof Hs as [Hcell Hptr]%(po_specific _ _ _ Hp). destruct (po_addr _ _ _ Hp ptr Hptr) as [Hnz Hal].
  pose proof (addr_not_destroyed _ Hal) as Hnd. rewrite (proj2 (Z.eqb_neq _ _) Hnz). unfold heap_destructor.
  rewrite (proj2 (Z.eqb_neq _ _) Hnz), (proj2 (Z.eqb_neq _ _) Hnd). cbn [orb]. set (q := mkProcess _ _ _ _ _ _ _).
  destruct (deregister_ok q ptr Hptr) as (w2 & hs2 & -> & Hm2 & Hrec & Hh2 & Hr2 & Hperm); [done|done|].
  cbn [mbind res_bind]. unfold heap_at. cbn [p_heaps set_heaps].
  destruct (proj2 (recounted_dom _ _ ptr Hrec) Hptr) as [h Hh]. rewrite Hh. cbn [res_of_option mbind res_bind p_world set_world set_heaps].
  destruct (heap_drop_ok _ _ _ _ _ ptr h Hh2 Hh) as (h' & w' & g' & E & Hg' & Hk & _).
  rewrite E. cbn [mbind res_bind]. do 2 eexists. split; [done|].
  pose proof (Heap_drop_registry _ _ _ _ E) as Hreg. unfold registry in Hreg.
  pose proof (ri_nodup _ _ (po_registry _ _ _ Hp)) as Hnot. rewrite <- Hperm in Hnot.
  apply NoDup_cons in Hnot as [Hnot _].
  set (p' := HEAP_set _ t DESTROYED).
  assert (∀ t', HEAP_get p' t' = if decide (t' = t) then DESTROYED else HEAP_get p t') as Hget.
  { intros t'. unfold HEAP_get. cbn. rewrite lookup_insert. case_decide; case_decide; try done; by subst. }
  assert (∀ k, is_Some (p_heaps p' !! k) ↔ k ≠ ptr ∧ is_Some (p_heaps p !! k)) as Hdom.
  { intros k. change (p_heaps p') with (delete ptr hs2). rewrite <- (recounted_dom _ _ k Hrec), lookup_delete.
    case_decide as Hk1; [subst; split; [by intros []|by intros [? _]]|].
    split; [intros ?; split; [by intros ->|done]|by intros [_ ?]]. }
  split; [|split].
  - eapply (proc_ok_exited t ptr); try done.
    + eapply registry_inv_quiet; [exact Hr2|exact Hreg|]. intros k hm Hkr Hhm. exists hm. split; [|done].
      change (p_heaps p') with (delete ptr hs2). unfold heap_counters in *. rewrite lookup_fmap in *.
      rewrite lookup_delete_ne; [done|]. intros ->. by apply Hnot.
    + intros k. change (hr_metrics (w_pool (p_world p'))) with (hr_metrics (w_pool w')).
      rewrite Hdom, <- (po_registered _ _ _ Hp), <- Hperm, (registered_of _ _ Hreg), elem_of_cons.
      split; [|tauto]. intros Hkr. split; [by intros ->|by right].
  - intros b x Hb Hx. unfold proc_mem. cbn. rewrite (Hk b x Hb Hx). by rewrite Hm2.
  - intros t'. rewrite Hget. apply decide_ext. split; [|tauto]. intros ->. split; [done|by eexists].
Qed.

End call.

(** *** Allocation *)

(** Why a call on thread [t] may answer null. *)
Definition refused p (t : Z) l p' : Prop :=
  HEAP_get p t = DESTROYED ∨ (HEAP_get p t = 0 ∧ fst (libc_malloc (p_libc p) size_of_HeapTy) = 0) ∨
  exhausted l (p_world p').

Lemma init_heap_null p t p' : init_heap p t = Ok (0, p') → fst (libc_malloc (p_libc p) size_of_HeapTy) = 0.
Proof.
  unfold init_heap. destruct (libc_malloc _ _) as [ptr c]. destruct (Z.eqb_spec ptr 0); [done|].
  destruct (next_heap_id _). intros E. bind_inv E as p1 E1. bind_inv E as [k p2] E2. injection E as -> _. done.
Qed.

Lemma alloc_ok p L g (Hp : proc_ok p L g) t l :
  layout_valid l → ids_left p t →
  if alloc_panics p t l then ClMalloc_alloc p t l = Panic PanicAssert else
  ∃ r p' g', ClMalloc_alloc p t l = Ok (r, p') ∧
    proc_ok p' (if (size l =? 0) || (r =? 0) then L else (r, l) :: L) g' ∧
    keeps L (proc_mem p) (proc_mem p') ∧ (r = 0 → refused p t l p') ∧
    (∀ t', HEAP_get p t' = DESTROYED → HEAP_get p' t' = DESTROYED) ∧
    (HEAP_get p t = DESTROYED → size l ≠ 0 → r = 0).
Proof.
  intros Hv Hids. unfold ClMalloc_alloc, alloc_panics, refused. destruct (Z.eqb_spec (size l) 0) as [Hz|Hsz]; cbn [negb andb orb].
  { exists (align l), p, g. do 3 (split; [done|]). destruct Hv as ([k Hk] & _). pose proof (pow2_pos (align l)).
    split; [|done]. intros Ha. exfalso. rewrite Ha in *. lia. }
  assert (request_ok l) as Hl by (split; [done|destruct Hv as (_ & ? & _); lia]).
  destruct (Z.eqb_spec (HEAP_get p t) DESTROYED) as [Hd|Hnd].
  { rewrite Hd. cbn [Z.eqb DESTROYED andb]. exists 0, p, g. do 3 (split; [done|]). split; [by left|done]. }
  destruct (Z.eqb_spec (HEAP_get p t) 0) as [Hz|Hnz]; cbn [andb].
  - pose proof (init_heap_ok p L g Hp t Hz (Hids Hz)) as Hinit.
    destruct (start_panics p); [by rewrite Hinit|]. destruct Hinit as (ptr & p1 & g1 & E & Hp1 & Hm1 & Hs1 & Hc1). rewrite E.
    assert (∀ t', HEAP_get p t' = DESTROYED → HEAP_get p1 t' = DESTROYED) as Hdd.
    { intros t' Hd. rewrite Hc1. case_decide; [subst; congruence|done]. }
    cbn [mbind res_bind]. destruct (Z.eqb_spec ptr 0) as [->|Hpz].
    + exists 0, p1, g1. split; [done|]. split; [done|]. rewrite Hm1. split; [done|].
      split; [|done]. intros _. right. left. split; [done|by eapply init_heap_null].
    + destruct (heap_alloc_at_ok p1 L g1 Hp1 ptr l (Hs1 Hpz) Hl) as (r & p2 & g2 & E2 & Hp2 & Hk & Hc2 & Hx).
      exists r, p2, g2. split; [exact E2|]. split; [exact Hp2|]. rewrite <- Hm1. split; [exact Hk|].
      split; [intros Hr; right; right; by apply Hx|]. split; [|done].
      intros t' Hd. unfold HEAP_get. rewrite Hc2. by apply Hdd.
  - cbn [mbind res_bind]. rewrite (proj2 (Z.eqb_neq _ _) Hnz).
    destruct (po_cell _ _ _ Hp t) as [?|[?|Hs]]; [done|done|].
    destruct (heap_alloc_at_ok p L g Hp (HEAP_get p t) l Hs Hl) as (r & p2 & g2 & E2 & Hp2 & Hk & Hc2 & Hx).
    exists r, p2, g2. split; [exact E2|]. split; [exact Hp2|]. split; [exact Hk|].
    split; [intros Hr; right; right; by apply Hx|]. split; [|done].
    intros t' Hd. unfold HEAP_get. by rewrite Hc2.
Qed.

(** What is known of an allocation that returned. *)
Lemma alloc_returned p L g (Hp : proc_ok p L g) t l r p' :
  layout_valid l → ids_left p t → ClMalloc_alloc p t l = Ok (r, p') →
  ∃ g', proc_ok p' (if (size l =? 0) || (r =? 0) then L else (r, l) :: L) g' ∧ keeps L (proc_mem p) (proc_mem p') ∧
    (∀ t', HEAP_get p t' = DESTROYED → HEAP_get p' t' = DESTROYED) ∧
    (HEAP_get p t = DESTROYED → size l ≠ 0 → r = 0).
Proof.
  intros Hv Hids E. pose proof (alloc_ok p L g Hp t l Hv Hids) as Hok. destruct (alloc_panics p t l); [congruence|].
  destruct Hok as (r1 & p1 & g1 & E1 & Hp1 & Hk & _ & Hd & Hr). rewrite E in E1. injection E1 as <- <-. by exists g1.
Qed.

Lemma write_ok p L g (Hp : proc_ok p L g) x v b :
  b ∈ L → in_block b x → proc_ok (set_world p (set_mem (p_world p) (write_byte (proc_mem p) x v))) L g.
Proof.
  intros Hb Hx. apply (proc_ok_world p L g Hp); [|apply set_mem_registry].
  eapply client_write_ok; [apply Hp|exact Hb|exact Hx].
Qed.

Lemma env_ok p L g (Hp : proc_ok p L g) ptrs s :
  ∃ w', land_all (set_sched (p_world p) s) ptrs = Ok w' ∧ proc_ok (set_world p w') L g ∧
    keeps L (proc_mem p) (w_mem w').
Proof.
  destruct (lands_ok _ _ _ _ _ ptrs s (po_heaps _ _ _ Hp)) as (w' & E & Hw' & Hk). exists w'. split; [exact E|].
  split; [|exact Hk]. apply (proc_ok_world p L g Hp); [exact Hw'|]. by eapply land_all_registry.
Qed.

Lemma proc_ok_init (pool : W) (c : C) :
  pp_ok pool [] [] → hr_metrics pool = PoolMetrics_new → libc_owns c ∅ → ∃ g, proc_ok (process_new pool c) [] g.
Proof.
  intros Hpool Hpm Hc. destruct (heaps_ok_init pool 1 Hpool) as [g Hg]. exists g.
  assert (registered (hr_metrics pool) = []) as Hreg by by rewrite Hpm.
  assert (dom (p_heaps (process_new pool c)) = ∅) as Hd by apply dom_empty_L.
  split; cbn; rewrite ?Hreg; try done.
  - rewrite Hpm. split; [done|done|constructor|]. intros i ptr Hi. by rewrite <- Hpm, Hreg in Hi.
  - intros ptr. rewrite lookup_empty. split; [intros Hin; by apply elem_of_nil in Hin|by intros []].
  - intros t. by left.
  - intros t t'. rewrite lookup_empty. by intros [].
  - intros ptr. rewrite lookup_empty. by intros [].
Qed.

(** The simulation: one step of the process is one step of the abstract allocator. *)
Definition proc_rel (s : process W C * list block) (a : alloc_spec) : Prop :=
  (∃ g, proc_ok (fst s) (snd s) g) ∧ a = mkAllocSpec (snd s) (read_byte (proc_mem (fst s))).

Lemma proc_sim_step s e s' a :
  proc_rel s a → process_step s e s' → ∃ a', alloc_spec_step a e a' ∧ proc_rel s' a'.
Proof.
  intros [[g Hp] ->] Hstep. destruct Hstep as [p L t l r p' [Hv Hids] E|mode p L L' t a l p' Hpos HL E|
    mode p L t a l p' Hz E|p L t p' E|p L x v (b & Hb & Hx)|p L ptrs s w' E]; cbn [fst snd] in *.
  - destruct (alloc_returned p L g Hp t l r p' Hv Hids E) as (g' & Hp' & Hk & _).
    destruct (Z.eqb_spec (size l) 0) as [Hz|Hnz]; cbn [orb] in *.
    + unfold ClMalloc_alloc in E. rewrite Hz in E. injection E as <- <-.
      eexists. split; [by apply spec_palloc_zst|]. split; [by eexists|done].
    + assert (0 < size l) as Hpos by (destruct Hv as (_ & ? & _); lia). destruct (Z.eqb_spec r 0) as [->|Hr].
      * eexists. split; [by apply spec_palloc_null|]. split; [by eexists|done].
      * pose proof (po_heaps _ _ _ Hp') as Hc. eexists. split; [|split; [by eexists|done]].
        apply spec_palloc; [done|done| | |exact Hk].
        -- destruct (consistent_blocks _ _ _ _ (ex_intro _ _ Hc)) as [[Hu _]%Forall_cons _]. exact Hu.
        -- intros b x Hb. exact (consistent_fresh _ _ _ _ _ _ b x (ex_intro _ _ Hc) Hb).
  - destruct (dealloc_ok p L g Hp mode t a l L' Hpos HL) as (p1 & g' & E' & Hp' & Hk).
    rewrite E in E'. injection E' as <-. eexists. split; [by apply spec_pdealloc|]. split; [by eexists|done].
  - unfold ClMalloc_dealloc in E. rewrite Hz in E. cbn in E. injection E as <-.
    eexists. split; [by apply spec_pdealloc_zst|]. split; [by eexists|done].
  - destruct (thread_exit_ok p L g Hp t) as (p1 & g' & E' & Hp' & Hk & _).
    rewrite E in E'. injection E' as <-. eexists. split; [by apply spec_pexit|]. split; [by eexists|done].
  - eexists. split; [|split; [eexists; by eapply write_ok|done]].
    eapply spec_pwrite; [exact Hb|exact Hx|]. intros b' y _ _. unfold proc_mem, w_mem. cbn.
    rewrite pp_mem_set, read_byte_write. destruct (Z.eqb_spec y x) as [->|Hne]; [by rewrite decide_True|].
    by rewrite decide_False.
  - destruct (env_ok p L g Hp ptrs s) as (w1 & E' & Hp' & Hk). rewrite E in E'. injection E' as <-.
    eexists. split; [by apply spec_penv|]. split; [by eexists|done].
Qed.

(** ** Properties *)

Context (pool : W) (c : C) (Hpool : pp_ok pool [] []) (Hnew : hr_metrics pool = PoolMetrics_new)
  (Hlibc : libc_owns c ∅).

Lemma proc_rel_init : proc_rel (process_new pool c, []) (mkAllocSpec [] (read_byte (pp_mem pool))).
Proof. split; [by apply proc_ok_init|done]. Qed.

(** C1. Whatever the threads of a process do, their calls of the global
    allocator, thread exits and writes into their blocks are a run of the
    abstract allocator, event for event: every block handed out is aligned for
    its layout and disjoint from all blocks still held, frees from any thread
    (also after its exit) give back exactly their block, and the bytes of the
    held blocks change only by the program's own writes.  A free of another
    thread may push its slot at any later time, also in the middle of an
    allocation or an exit of the slab's owner ([PEnv]). *)
Theorem process_refines es p L :
  run process_step (process_new pool c, []) es (p, L) →
  ∃ a, run alloc_spec_step (mkAllocSpec [] (read_byte (pp_mem pool))) es a ∧
    as_blocks a = L ∧ as_byte a = read_byte (proc_mem p).
Proof.
  intros Hrun. destruct (run_simulation _ _ _ proc_sim_step _ _ _ _ proc_rel_init Hrun) as (a & Ha & _ & ->).
  by eexists.
Qed.

Lemma process_reachable es p L :
  run process_step (process_new pool c, []) es (p, L) → ∃ g, proc_ok p L g.
Proof.
  intros Hrun. destruct (run_simulation _ _ _ proc_sim_step _ _ _ _ proc_rel_init Hrun) as (a & _ & Hp & _). exact Hp.
Qed.

(** C2. In every state a process reaches, every free and every thread exit
    returns, and every allocation returns but for one case: the first
    allocation of a thread panics, and does so exactly when [malloc] has memory
    for the thread's heap but 1024 heaps are registered already, or the process
    has no key yet and [pthread_key_create] fails ([alloc_panics]).  No other
    assertion fails, no index is out of range and nothing dereferences a slab
    or a heap that is not there, also when frees of other threads land during
    the call.  An allocation answers null only on a thread that exited, when
    [malloc] has no memory for the thread's heap, or when the pool is out of
    memory.  The only bound: fewer than 2^64 heaps were made ([ids_left]). *)
Theorem process_total es p L t :
  run process_step (process_new pool c, []) es (p, L) →
  (∀ l, layout_valid l → ids_left p t →
     if alloc_panics p t l then ClMalloc_alloc p t l = Panic PanicAssert
     else ∃ r p', ClMalloc_alloc p t l = Ok (r, p') ∧ (r = 0 → refused p t l p')) ∧
  (∀ mode a l, (a, l) ∈ L → ∃ p', ClMalloc_dealloc mode p t a l = Ok p') ∧
  (∃ p', thread_exit p t = Ok p') ∧
  (∀ ptrs s, ∃ w', land_all (set_sched (p_world p) s) ptrs = Ok w').
Proof.
  intros Hrun. destruct (process_reachable es p L Hrun) as [g Hg]. split_and!.
  - intros l Hv Hids. pose proof (alloc_ok p L g Hg t l Hv Hids) as Hok. destruct (alloc_panics p t l); [exact Hok|].
    destruct Hok as (r & p' & g' & E & _ & _ & Hr & _). by exists r, p'.
  - intros mode a l Hin. apply list_elem_of_split in Hin as (l1 & l2 & ->).
    assert (0 < size l) as Hpos.
    { pose proof (so_client _ _ _ _ _ (po_heaps _ _ _ Hg)) as HF. rewrite Forall_app, Forall_cons in HF.
      by destruct HF as (_ & [_ ?] & _). }
    destruct (dealloc_ok p _ g Hg mode t a l (l1 ++ l2) Hpos) as (p' & g' & E & _); [by rewrite Permutation_middle|].
    by exists p'.
  - destruct (thread_exit_ok p L g Hg t) as (p' & g' & E & _). by exists p'.
  - intros ptrs s. destruct (env_ok p L g Hg ptrs s) as (w' & E & _). by exists w'.
Qed.

(** C34. A thread whose heap was destroyed never gets another: its cell stays
    [DESTROYED] whatever happens later, and every allocation on it answers
    null. *)
Theorem exited_thread_gets_nothing es p L t es' p' L' :
  run process_step (process_new pool c, []) es (p, L) → HEAP_get p t = DESTROYED →
  run process_step (p, L) es' (p', L') →
  HEAP_get p' t = DESTROYED ∧ ∀ l r, PAlloc t l r ∈ es' → 0 < size l → r = 0.
Proof.
  intros Hrun Hd Hrun'. destruct (process_reachable es p L Hrun) as [g Hg].
  remember (p, L) as s eqn:Hs. remember (p', L') as s' eqn:Hs'.
  revert p L g Hs Hg Hd. clear Hrun. induction Hrun' as [s|s1 e s2 es' s3 Hstep Hrun IH]; intros p L g -> Hg Hd.
  { injection Hs' as -> ->. split; [done|]. intros l r Hin. by apply elem_of_nil in Hin. }
  assert (∃ g2, proc_ok (fst s2) (snd s2) g2) as [g2 Hg2].
  { assert (proc_rel (p, L) (mkAllocSpec L (read_byte (proc_mem p)))) as Hrel by (split; [by eexists|done]).
    destruct (proc_sim_step _ _ _ _ Hrel Hstep) as (a & _ & Hp & _). exact Hp. }
  assert (HEAP_get (fst s2) t = DESTROYED ∧ ∀ l r, e = PAlloc t l r → 0 < size l → r = 0) as [Hd2 He].
  { inversion Hstep as [q L1 t1 l r q' [Hv Hids] E|mode q L1 L2 t1 a l q' Hpos HL E|mode q L1 t1 a l q' Hz E|
      q L1 t1 q' E|q L1 x v Ha|q L1 ptrs sc w' E]; subst; cbn [fst]; (split; [|try done]).
    - destruct (alloc_returned p L g Hg t1 l r q' Hv Hids E) as (g' & _ & _ & Hc & _). by apply Hc.
    - intros l0 r0 [= -> -> ->] Hpos.
      destruct (alloc_returned p L g Hg t l0 r0 q' Hv Hids E) as (g' & _ & _ & _ & Hc). apply Hc; [done|lia].
    - unfold ClMalloc_dealloc in E. destruct (size l =? 0); [by injection E as <-|].
      destruct (_ && _).
      + bind_inv E as h E1. bind_inv E as [h1 w1] E2. by injection E as <-.
      + bind_inv E as idx E1. destruct idx; [bind_inv E as w1 E2|]; by injection E as <-.
    - unfold ClMalloc_dealloc in E. rewrite Hz in E. by injection E as <-.
    - destruct (thread_exit_ok p L g Hg t1) as (q1 & g' & E' & _ & _ & Hc). rewrite E in E'. injection E' as <-.
      rewrite Hc. by case_decide.
    - done.
    - done. }
  destruct s2 as [p2 L2]. destruct (IH Hs' p2 L2 g2 eq_refl Hg2 Hd2) as [Hd3 Hes]. split; [done|].
  intros l r [Heq|Hin]%elem_of_cons; [by apply (He l r)|by apply Hes].
Qed.
End spec.

(** ** A concrete process *)

(** A C library that never reuses memory: its state is the next free address. *)
Definition demo_libc := Z.

#[export] Instance DemoLibc : Libc demo_libc := {
  libc_malloc c n := (c, c + (n / 16 + 1) * 16);
  libc_free c _ := c;
  pthread_key_create c := (0, 7, c);
  pthread_setspecific c _ _ := (0, c);
}.

#[export] Instance DemoLibc_laws : LibcLaws demo_libc.
Proof.
  refine {| libc_owns c A := 0 < c ∧ (16 | c) ∧ ∀ p, p ∈ A → p < c |}.
  - intros c A n p c' (Hc & Hd & HA) Hn [= <- <-]. right. pose proof (Z.div_pos n 16 ltac:(lia) ltac:(lia)).
    split_and!; [lia|done|intros Hin; specialize (HA c Hin); lia|lia| |].
    + apply Z.divide_add_r; [done|by apply Z.divide_factor_r].
    + intros p [->%elem_of_singleton|Hp%HA]%elem_of_union; lia.
  - intros c A p (Hc & Hd & HA) _. split_and!; [done|done|]. intros q [Hq _]%elem_of_difference. by apply HA.
  - by intros c A ret key c' Hc [= <- <- <-].
  - by intros c A key ptr ret c' Hc [= <- <-].
Defined.

Definition demo_proc : process (PagePool demo_kernel) demo_libc := process_new demo_pool 4096.

Lemma demo_libc_owns : libc_owns (4096 : demo_libc) ∅.
Proof. split; [done|]. split; [by exists 256|]. set_solver. Qed.

Lemma demo_metrics : hr_metrics demo_pool = PoolMetrics_new.
Proof. vm_compute. reflexivity. Qed.

(** Thread 1 allocates a block and exits; thread 2 frees the block. *)
Definition answer (r : res (Z * process (PagePool demo_kernel) demo_libc)) : Z :=
  match r with Ok (a, _) => a | Panic _ => -1 end.
Definition after_alloc (r : res (Z * process (PagePool demo_kernel) demo_libc)) :=
  match r with Ok (_, p) => p | Panic _ => demo_proc end.
Definition after_call (r : res (process (PagePool demo_kernel) demo_libc)) :=
  match r with Ok p => p | Panic _ => demo_proc end.

Definition demo_p1 := after_alloc (ClMalloc_alloc demo_proc 1 l16).
Definition demo_a : Z := answer (ClMalloc_alloc demo_proc 1 l16).
Definition demo_p2 := after_call (thread_exit demo_p1 1).
Definition demo_p3 := after_call (ClMalloc_dealloc PushNow demo_p2 2 demo_a l16).

Lemma answered r : answer r ≠ -1 → r = Ok (answer r, after_alloc r).
Proof. by destruct r as [[]|]. Qed.

Lemma called r : match r with Ok _ => true | Panic _ => false end = true → r = Ok (after_call r).
Proof. by destruct r. Qed.

Lemma demo_ids (p : process (PagePool demo_kernel) demo_libc) t : (p_next p + 1 <? 2 ^ 64) = true → ids_left p t.
Proof. by intros ?%Z.ltb_lt _. Qed.

Lemma demo_alloc_step : process_step (demo_proc, []) (PAlloc 1 l16 demo_a) (demo_p1, [(demo_a, l16)]).
Proof.
  pose proof (step_palloc demo_proc [] 1 l16 demo_a demo_p1) as Hs.
  assert ((size l16 =? 0) || (demo_a =? 0) = false) as Hn by (vm_compute; reflexivity).
  rewrite Hn in Hs. apply Hs.
  - split; [apply l16_ok|]. apply demo_ids. vm_compute. reflexivity.
  - apply answered. intros Ha. assert (answer (ClMalloc_alloc demo_proc 1 l16) =? -1 = false) as Hb
      by (vm_compute; reflexivity). by rewrite Ha in Hb.
Qed.

Lemma demo_run2 : run process_step (demo_proc, []) [PAlloc 1 l16 demo_a; PExit 1] (demo_p2, [(demo_a, l16)]).
Proof.
  econstructor; [exact demo_alloc_step|]. econstructor; [|constructor]. apply step_pexit.
  apply called. vm_compute. reflexivity.
Qed.

(** Thread 2 frees the block of thread 1, but its push lands only while thread 1
    drains the slab to exit. *)
Definition demo_p4 := after_call (ClMalloc_dealloc PushLater demo_p1 2 demo_a l16).
Definition demo_p5 := set_world demo_p4 (set_sched (p_world demo_p4) [[demo_a]]).
Definition demo_p6 := after_call (thread_exit demo_p5 1).

Lemma demo_run6 :
  run process_step (demo_proc, [])
    [PAlloc 1 l16 demo_a; PDealloc 2 demo_a l16; PEnv [] [[demo_a]]; PExit 1] (demo_p6, []).
Proof.
  econstructor; [exact demo_alloc_step|].
  apply (run_cons process_step _ _ (demo_p4, [])).
  { apply (step_pdealloc PushLater); [done|done|]. apply called. vm_compute. reflexivity. }
  apply (run_cons process_step _ _ (demo_p5, [])); [by apply step_penv|].
  econstructor; [|constructor]. apply step_pexit. apply called. vm_compute. reflexivity.
Qed.

(** Nothing is in flight any more, and the exit found the slab free: it is cached. *)
Example demo_landed :
  (w_flight (p_world demo_p4), w_flight (p_world demo_p6), w_cache_len (p_world demo_p6)) = ([(demo_a, 4)], [], 1).
Proof. vm_compute. reflexivity. Qed.

Lemma process_refines_witness :
  ∃ a, run alloc_spec_step (mkAllocSpec [] (read_byte ∅))
    [PAlloc 1 l16 demo_a; PDealloc 2 demo_a l16; PEnv [] [[demo_a]]; PExit 1] a ∧ as_blocks a = [].
Proof.
  destruct (process_refines demo_pool (4096 : demo_libc) demo_pool_ok demo_metrics demo_libc_owns _ _ _ demo_run6)
    as (a & Ha & Hb & _). exists a. split; [exact Ha|exact Hb].
Defined.

Lemma process_total_witness : ∃ r p', ClMalloc_alloc demo_p2 2 l16 = Ok (r, p').
Proof.
  destruct (process_total demo_pool (4096 : demo_libc) demo_pool_ok demo_metrics demo_libc_owns _ _ _ 2 demo_run2) as [Ha _].
  assert (alloc_panics demo_p2 2 l16 = false) as Hnp by (vm_compute; reflexivity). specialize (Ha l16). rewrite Hnp in Ha.
  destruct Ha as (r & p' & E & _); [apply l16_ok| |].
  - apply demo_ids. vm_compute. reflexivity.
  - exists r, p'. exact E.
Defined.

Lemma exited_thread_gets_nothing_witness : HEAP_get demo_p2 1 = DESTROYED ∧ HEAP_get demo_p3 1 = DESTROYED.
Proof.
  assert (HEAP_get demo_p2 1 = DESTROYED) as Hd by (vm_compute; reflexivity). split; [exact Hd|].
  refine (proj1 (exited_thread_gets_nothing demo_pool (4096 : demo_libc) demo_pool_ok demo_metrics demo_libc_owns
    _ _ _ 1 [PDealloc 2 demo_a l16] demo_p3 [] demo_run2 Hd _)).
  econstructor; [|constructor]. apply (step_pdealloc PushNow); [reflexivity|reflexivity|].
  apply called. vm_compute. reflexivity.
Defined.

(** ** A C library without keys

    Its calls on keys answer the return codes of its state. *)
Record poor_libc := mkPoor { pl_libc : demo_libc; pl_create : Z; pl_set : Z }.

#[export] Instance PoorLibc : Libc poor_libc := {
  libc_malloc c n := let '(p, l) := libc_malloc (pl_libc c) n in (p, mkPoor l (pl_create c) (pl_set c));
  libc_free c p := mkPoor (libc_free (pl_libc c) p) (pl_create c) (pl_set c);
  pthread_key_create c := (pl_create c, 7, c);
  pthread_setspecific c _ _ := (pl_set c, c);
}.

#[export] Instance PoorLibc_laws : LibcLaws poor_libc.
Proof.
  refine {| libc_owns c A := libc_owns (pl_libc c) A |}.
  - intros c A n p c' Hc Hn E. apply (libc_malloc_ok (pl_libc c) A n p (pl_libc c') Hc Hn). by injection E as <- <-.
  - intros c A p Hc Hp. by apply (libc_free_ok (pl_libc c)).
  - by intros c A ret key c' Hc [= <- <- <-].
  - by intros c A key ptr ret c' Hc [= <- <-].
Defined.

Definition poor_process (create set : Z) : process (PagePool demo_kernel) poor_libc :=
  process_new demo_pool (mkPoor 4096 create set).

(** No key can be had ([EAGAIN]): the first allocation panics, as [alloc_panics] says. *)
Example key_failure_panics :
  alloc_panics (poor_process 11 0) 1 l16 = true ∧ ClMalloc_alloc (poor_process 11 0) 1 l16 = Panic PanicAssert.
Proof. vm_compute. done. Qed.

(** The heaps left when thread 1 has allocated a block, freed it and exited. *)
Definition heaps_left (create set : Z) : res nat :=
  '(a, p) ← ClMalloc_alloc (poor_process create set) 1 l16;
  p ← ClMalloc_dealloc PushNow p 1 a l16;
  p ← thread_exit p 1;
  Ok (base.size (p_heaps p)).

(** The value of the key cannot be set ([ENOMEM]): nobody notices, the
    destructor does not run, and the heap of the exited thread stays for good. *)
Theorem setspecific_failure_leaks_heap : heaps_left 0 0 = Ok 0%nat ∧ heaps_left 0 12 = Ok 1%nat.
Proof. vm_compute. done. Qed.
