(* ===== verification/Accounting.v ===== *)
(** * The process and its metrics ([src/src/global.rs], [ClMalloc::snapshot])

    What a snapshot of a running process says about the blocks the program
    holds.  A [gauge] is a difference of two cumulative counters; [weight] is
    what a block adds to it.  The sum of the counters of all heaps, dead ones
    included, always reads as the blocks held plus the blocks freed on threads
    without a heap: such frees reach no counter. *)

From stdpp Require Import functions base numbers list gmap.
From Stdlib Require Import ZArith Lia.
From S2P Require Import Prelude SizeClass LinkMem Slab SlabList Sys Metrics Pool PoolSeq PagePort Heap HeapInv HeapOps HeapSpec HeapQuiet HeapCounts Global GlobalSpec.

Local Open Scope Z_scope.
Local Open Scope clm_scope.
Arguments class_index : simpl never.
Arguments class_size : simpl never.
Arguments Heap_alloc : simpl never.
Arguments Heap_drop : simpl never.

(** ** Gauges *)

Inductive gauge := GCount (c : nat) | GBytes (c : nat) | GTotal | GLarge.

Definition read (g : gauge) (h : HeapMetrics) : Z :=
  match g with
  | GCount c => default 0 (class_alloc_count h !! c) - default 0 (class_dealloc_count h !! c)
  | GBytes c => default 0 (class_alloc_bytes h !! c) - default 0 (class_free_bytes h !! c)
  | GTotal => alloc_bytes h - free_bytes h
  | GLarge => large_alloc_bytes h - large_dealloc_bytes h
  end.

(** What a block of layout [l] is accounted as: its class, or its size. *)
Definition weight (g : gauge) (l : Layout) : Z :=
  match class_index l with
  | Ok (Some k) =>
      match g with
      | GCount c => if k =? Z.of_nat c then 1 else 0
      | GBytes c => if k =? Z.of_nat c then class_size k else 0
      | GTotal => class_size k
      | GLarge => 0
      end
  | _ =>
      match g with
      | GTotal | GLarge => size l
      | _ => 0
      end
  end.

Definition weights (g : gauge) (ls : list Layout) : Z := foldr (λ l acc, weight g l + acc) 0 ls.

Lemma weights_app g l k : weights g (l ++ k) = weights g l + weights g k.
Proof. induction l as [|a l IH]; cbn; [done|]. unfold weights in *. lia. Qed.

#[export] Instance weights_perm g : Proper ((≡ₚ) ==> (=)) (weights g).
Proof. intros l k Hp. unfold weights. induction Hp; cbn; lia. Qed.

(** Equal modulo 2^64. *)
Definition same64 (x y : Z) : Prop := wrap 64 x = wrap 64 y.

#[export] Instance same64_equivalence : Equivalence same64.
Proof. unfold same64. split; [by intros x|by intros x y|]. intros x y z. by intros -> ->. Qed.

Lemma same64_add x x' y y' : same64 x x' → same64 y y' → same64 (x + y) (x' + y').
Proof. unfold same64, wrap. intros H1 H2. by rewrite Zplus_mod, H1, H2, <- Zplus_mod. Qed.

#[export] Instance same64_add_proper : Proper (same64 ==> same64 ==> same64) Z.add.
Proof. intros x x' Hx y y' Hy. by apply same64_add. Qed.

Lemma same64_eq x y : x = y → same64 x y.
Proof. by intros ->. Qed.

Lemma same64_wadd x y u v : same64 ((x +[64] y) - (u +[64] v)) ((x - u) + (y - v)).
Proof. unfold same64, wadd, wrap. rewrite <- Zminus_mod. f_equal. lia. Qed.

(** Adding counters adds the gauges. *)
Lemma read_accumulate g a b :
  class_arrays_ok a → class_arrays_ok b →
  same64 (read g (HeapMetrics_accumulate a b)) (read g a + read g b).
Proof.
  intros (A1 & A2 & A3 & A4) (B1 & B2 & B3 & B4).
  assert (∀ (x y u v : list Z) c, length x = length y → length u = length v → length x = length u →
    same64 (default 0 (zip_with (wadd 64) x y !! c) - default 0 (zip_with (wadd 64) u v !! c))
      ((default 0 (x !! c) - default 0 (u !! c)) + (default 0 (y !! c) - default 0 (v !! c)))) as Hzip.
  { intros x y u v c Hxy Huv Hxu. rewrite !lookup_zip_with. destruct (x !! c) as [xc|] eqn:Ex.
    - pose proof (lookup_lt_Some _ _ _ Ex). destruct (lookup_lt_is_Some_2 y c) as [yc ->]; [lia|].
      destruct (lookup_lt_is_Some_2 u c) as [uc ->]; [lia|]. destruct (lookup_lt_is_Some_2 v c) as [vc ->]; [lia|].
      apply same64_wadd.
    - apply lookup_ge_None in Ex. rewrite (lookup_ge_None_2 y), (lookup_ge_None_2 u), (lookup_ge_None_2 v) by lia. done. }
  destruct g; cbn [read HeapMetrics_accumulate class_alloc_count class_dealloc_count class_alloc_bytes class_free_bytes
    alloc_bytes free_bytes large_alloc_bytes large_dealloc_bytes]; first [apply Hzip; congruence|apply same64_wadd].
Qed.

(** What one event adds. *)
Lemma read_class_event g (c : nat) v :
  (c < Z.to_nat NUM_CLASSES)%nat →
  same64 (read g (delta (CtAlloc (Z.of_nat c) v)))
    (match g with GCount k => if decide (c = k) then 1 else 0 | GBytes k => if decide (c = k) then v else 0
     | GTotal => v | GLarge => 0 end) ∧
  same64 (read g (delta (CtDealloc (Z.of_nat c) v)))
    (match g with GCount k => if decide (c = k) then - 1 else 0 | GBytes k => if decide (c = k) then - v else 0
     | GTotal => - v | GLarge => 0 end).
Proof.
  intros Hc. assert (∀ u, arr_update ZERO_ARRAY (Z.of_nat c) (λ x, inc x u) = Ok (<[c := inc 0 u]> ZERO_ARRAY)) as Hz.
  { intros u. apply (arr_update_ok ZERO_ARRAY c 0 (λ x, inc x u)). by apply lookup_replicate. }
  assert (∀ k, default 0 (ZERO_ARRAY !! k) = 0) as Hd.
  { intros k. destruct (ZERO_ARRAY !! k) as [x|] eqn:E; [|done]. by apply lookup_replicate in E as [-> _]. }
  assert (∀ u k, default 0 (<[c := inc 0 u]> ZERO_ARRAY !! k) = if decide (c = k) then wrap 64 u else 0) as Hi.
  { intros u k. rewrite list_lookup_insert. case_decide as E1; case_decide as E2; naive_solver. }
  assert (∀ u, same64 (wrap 64 u - 0) u ∧ same64 (0 - wrap 64 u) (- u)) as Hs.
  { intros u. unfold same64, wrap. rewrite Z.sub_0_r, Zmod_mod. split; [done|].
    by rewrite Zminus_mod, Zmod_mod, <- Zminus_mod. }
  unfold delta, apply_counter, HeapMetrics_on_alloc, HeapMetrics_on_dealloc.
  change (class_alloc_count zero_counters) with ZERO_ARRAY. change (class_dealloc_count zero_counters) with ZERO_ARRAY.
  change (class_alloc_bytes zero_counters) with ZERO_ARRAY. change (class_free_bytes zero_counters) with ZERO_ARRAY.
  rewrite !Hz. cbn [mbind res_bind].
  change (alloc_bytes zero_counters) with 0. change (free_bytes zero_counters) with 0.
  destruct g; cbn [read class_alloc_count class_dealloc_count class_alloc_bytes class_free_bytes
    alloc_bytes free_bytes large_alloc_bytes large_dealloc_bytes]; rewrite ?Hi, ?Hd;
    try case_decide; try (by split); try (split; apply Hs).
Qed.

Lemma read_large_event g v :
  same64 (read g (delta (CtLargeAlloc v))) (match g with GTotal | GLarge => v | _ => 0 end) ∧
  same64 (read g (delta (CtLargeDealloc v))) (match g with GTotal | GLarge => - v | _ => 0 end).
Proof.
  assert (∀ k, default 0 (ZERO_ARRAY !! k) - default 0 (ZERO_ARRAY !! k) = 0) as Hd by (intros k; lia).
  unfold delta, apply_counter, HeapMetrics_on_large_alloc, HeapMetrics_on_large_dealloc.
  destruct g; cbn [read class_alloc_count class_dealloc_count class_alloc_bytes class_free_bytes
    alloc_bytes free_bytes large_alloc_bytes large_dealloc_bytes].
  1,2: change (class_alloc_count zero_counters) with ZERO_ARRAY; change (class_dealloc_count zero_counters) with ZERO_ARRAY;
    change (class_alloc_bytes zero_counters) with ZERO_ARRAY; change (class_free_bytes zero_counters) with ZERO_ARRAY;
    by rewrite Hd.
  all: change (alloc_bytes zero_counters) with 0; change (free_bytes zero_counters) with 0;
    change (large_alloc_bytes zero_counters) with 0; change (large_dealloc_bytes zero_counters) with 0;
    unfold inc, wadd, same64, wrap; rewrite ?Z.sub_0_r, ?Z.add_0_l, ?Zmod_mod; split; [done|];
    by rewrite Zminus_mod, Zmod_mod, <- Zminus_mod.
Qed.

Lemma read_remote_event g n : same64 (read g (delta (CtRemoteFree n))) 0.
Proof.
  unfold delta, apply_counter, HeapMetrics_on_remote_free.
  destruct g; cbn [read class_alloc_count class_dealloc_count class_alloc_bytes class_free_bytes
    alloc_bytes free_bytes large_alloc_bytes large_dealloc_bytes]; unfold same64; f_equal;
    try (vm_compute; reflexivity);
    change (class_alloc_count zero_counters) with (class_dealloc_count zero_counters);
    change (class_alloc_bytes zero_counters) with (class_free_bytes zero_counters); lia.
Qed.

(** An allocated block adds its weight, a freed one takes it away. *)
Lemma read_block_events g l :
  request_ok l →
  same64 (read g (delta (alloc_event l))) (weight g l) ∧ same64 (read g (delta (dealloc_event l))) (- weight g l).
Proof.
  intros Hr. unfold alloc_event, dealloc_event, weight. destruct (request_class l Hr) as [(c & -> & Hc & _)| ->].
  - change NUM_CLASSES with 49 in Hc. destruct (Z_of_nat_complete c) as [n ->]; [lia|].
    destruct (read_class_event g n (class_size (Z.of_nat n))) as [Ha Hd];
      [change (Z.to_nat NUM_CLASSES) with 49%nat; lia|].
    destruct g as [k|k| |]; [| |by split..]; case_decide as E; destruct (Z.eqb_spec (Z.of_nat n) (Z.of_nat k));
      try lia; by split.
  - destruct (read_large_event g (size l)) as [Ha Hd]. destruct g; split; (exact Ha || exact Hd).
Qed.

(** ** Changes of the counters of all heaps *)

Abbreviation counter_state := (hm_store * PoolMetrics)%type.

(** From [s] to [s'] every gauge of the sum of all counters grows by [d]. *)
Definition moves (s s' : counter_state) (d : gauge → Z) : Prop :=
  metrics_inv s → metrics_inv s' ∧
    ∀ g, same64 (read g (total_counters s')) (read g (total_counters s) + d g).

Lemma moves_refl s : moves s s (λ _, 0).
Proof. intros Hs. split; [done|]. intros g. apply same64_eq. lia. Qed.

Lemma moves_trans s1 s2 s3 d1 d2 : moves s1 s2 d1 → moves s2 s3 d2 → moves s1 s3 (λ g, d1 g + d2 g).
Proof.
  intros H1 H2 Hi. destruct (H1 Hi) as [Hi2 E1]. destruct (H2 Hi2) as [Hi3 E2]. split; [done|].
  intros g. by rewrite (E2 g), (E1 g), Z.add_assoc.
Qed.

Lemma moves_same s s' d d' : moves s s' d → (∀ g, same64 (d g) (d' g)) → moves s s' d'.
Proof.
  intros H1 Hd Hi. destruct (H1 Hi) as [Hi2 E1]. split; [done|]. intros g.
  by rewrite (E1 g), (Hd g).
Qed.

Lemma total_ok s : metrics_inv s → hm_ok (total_counters s).
Proof.
  destruct s as [st pm]. intros [_ _ Hok Hd]. cbn [fst snd] in *. unfold total_counters.
  assert (Forall hm_ok (live_counters st (registered pm))) as Hl.
  { apply Forall_forall. intros h (ptr & _ & Hp)%list_elem_of_omap. apply fmap_Some in Hp as (h0 & Hp & ->).
    apply (Hok ptr h0 Hp). }
  induction Hl as [|h l Hh Hl IH]; cbn [foldr]; apply accumulate_ok; try done.
  - exact hm_ok_zero.
  - apply Hd.
  - apply IH.
Qed.

Lemma total_arrays s : metrics_inv s → class_arrays_ok (total_counters s).
Proof. intros Hs. apply (total_ok s Hs). Qed.

Lemma moves_exec s e s' :
  metrics_exec s e = Ok s' → moves s s' (λ g, match e with MCount _ c => read g (delta c) | _ => 0 end).
Proof.
  intros E Hi. destruct (metrics_exec_ok s e s' Hi E) as [Hi' ->]. split; [done|]. intros g.
  destruct e as [ptr|ptr|ptr c]; cbn [deltas omap list_omap foldr].
  1,2: apply same64_eq; lia.
  rewrite Z.add_comm. apply read_accumulate; [apply delta_arrays|by apply total_arrays].
Qed.

(** Only the registry of the pool's metrics matters. *)
Lemma moves_quiet st pm pm' : registry_of pm' = registry_of pm → moves (st, pm) (st, pm') (λ _, 0).
Proof.
  intros Hr [Hreg Hdom Hok Hd]. cbn [fst snd] in *. pose proof (registered_of _ _ Hr) as Hrd.
  assert (dead pm' = dead pm) as Hdd by (unfold registry_of in Hr; by injection Hr).
  split.
  - split; cbn [fst snd]; rewrite ?Hrd, ?Hdd; try done. eapply registry_inv_quiet; [done|done|]. eauto.
  - intros g. unfold total_counters. rewrite Hrd, Hdd. apply same64_eq. lia.
Qed.

Lemma store_registry_same st ptr idx st' : store_registry_idx st ptr idx = Ok st' → same_counters st st'.
Proof.
  unfold store_registry_idx. intros E. bind_inv E as h Eh. apply res_of_option_ok in Eh. injection E as <-.
  intros k. rewrite lookup_insert. case_decide; [subst; by rewrite Eh|done].
Qed.

Lemma register_same st pm ptr st' pm' : PoolMetrics_register_heap st pm ptr = Ok (st', pm') → same_counters st st'.
Proof.
  unfold PoolMetrics_register_heap. destruct (negb _); [done|]. intros E. bind_inv E as ptrs E1.
  bind_inv E as st1 E2. injection E as <- _. by eapply store_registry_same.
Qed.

Lemma deregister_same st pm ptr st' pm' : PoolMetrics_deregister_heap st pm ptr = Ok (st', pm') → same_counters st st'.
Proof.
  unfold PoolMetrics_deregister_heap. intros E. bind_inv E as hm E1. bind_inv E as [st1 ptrs] E2.
  bind_inv E as ptrs' E3. injection E as <- _. destruct (negb _); [|by injection E2 as <- _].
  bind_inv E2 as moved E4. bind_inv E2 as ptrs2 E5. bind_inv E2 as st2 E6. injection E2 as <- _.
  by eapply store_registry_same.
Qed.

(** ** Steps of a process *)

Section accounting.
Context {W C : Type} `{HeapRegistryLaws W} `{LibcLaws C}.
Implicit Types (p q : process W C) (L : list block) (U : list Layout).

(** The counters of the running heaps, and the registry. *)
Definition counter_state_of p : counter_state := (heap_counters (p_heaps p), hr_metrics (w_pool (p_world p))).

Definition has_heap p (t : Z) : bool := negb (HEAP_get p t =? 0) && negb (HEAP_get p t =? DESTROYED).

(** The free of a block that no heap counts. *)
Definition uncounted p (e : proc_event) : list Layout :=
  match e with
  | PDealloc t _ l => if (0 <? size l) && negb (has_heap p t) then [l] else []
  | _ => []
  end.

Lemma counters_insert hs ptr h : heap_counters (<[ptr := h]> hs) = <[ptr := hp_metrics h]> (heap_counters hs).
Proof. unfold heap_counters. by rewrite fmap_insert. Qed.

Lemma counters_lookup hs ptr h : hs !! ptr = Some h → heap_counters hs !! ptr = Some (hp_metrics h).
Proof. intros Hp. unfold heap_counters. by rewrite lookup_fmap, Hp. Qed.

Lemma moves_count (st : hm_store) pm ptr hm e hm' :
  st !! ptr = Some hm → apply_counter hm e = Ok hm' →
  moves (st, pm) (<[ptr := hm']> st, pm) (λ g, read g (delta e)).
Proof.
  intros Hs He. apply (moves_exec (st, pm) (MCount ptr e)). cbn [metrics_exec]. rewrite Hs.
  cbn [res_of_option mbind res_bind]. by rewrite He.
Qed.

(** A heap runs and counts an event. *)
Lemma moves_heap p ptr h h' w' e :
  p_heaps p !! ptr = Some h → quiet h (p_world p) h' w' →
  apply_counter (hp_metrics h) e = Ok (hp_metrics h') →
  moves (counter_state_of p) (counter_state_of (set_heaps (set_world p w') (<[ptr := h']> (p_heaps p))))
    (λ g, read g (delta e)).
Proof.
  intros Hp [Hq _] He. unfold counter_state_of. cbn [set_heaps set_world p_heaps p_world]. rewrite counters_insert.
  eapply moves_same; [eapply moves_trans; [|by apply moves_quiet]|].
  - eapply moves_count; [by apply counters_lookup|exact He].
  - intros g. apply same64_eq. lia.
Qed.

Lemma moves_heap_idle p ptr h h' w' :
  p_heaps p !! ptr = Some h → quiet h (p_world p) h' w' → hp_metrics h' = hp_metrics h →
  moves (counter_state_of p) (counter_state_of (set_heaps (set_world p w') (<[ptr := h']> (p_heaps p)))) (λ _, 0).
Proof.
  intros Hp [Hq _] He. unfold counter_state_of. cbn [set_heaps set_world p_heaps p_world].
  rewrite counters_insert, He, insert_id; [by apply moves_quiet|by apply counters_lookup].
Qed.

Lemma moves_world p w' :
  registry w' = registry (p_world p) → moves (counter_state_of p) (counter_state_of (set_world p w')) (λ _, 0).
Proof. intros Hq. unfold counter_state_of. cbn. by apply moves_quiet. Qed.

Lemma moves_register p q w' hs' ptr id :
  p_heaps p !! ptr = None → p_world q = p_world p → p_heaps q = <[ptr := Heap_new id]> (p_heaps p) →
  PagePool_register_heap q ptr = Ok (set_heaps (set_world q w') hs') →
  moves (counter_state_of p) (heap_counters hs', hr_metrics (w_pool w')) (λ _, 0).
Proof.
  intros Hnone Hw Hh E. unfold PagePool_register_heap in E. rewrite Hw, Hh in E.
  bind_inv E as [st pm] E1. injection E as <- <-.
  destruct (put_counters_recounted _ _ (register_same _ _ _ _ _ E1)) as [_ ->].
  cbn [w_pool set_pool]. rewrite hr_get_set. rewrite counters_insert in E1.
  apply (moves_exec (counter_state_of p) (MRegister ptr) (st, pm)). cbn [metrics_exec counter_state_of].
  unfold heap_counters at 1. by rewrite lookup_fmap, Hnone.
Qed.

(** The thread's first allocation. *)
Lemma moves_init p L g t ptr p' :
  proc_ok p L g → init_heap p t = Ok (ptr, p') → moves (counter_state_of p) (counter_state_of p') (λ _, 0).
Proof.
  intros Hp E. unfold init_heap in E. destruct (libc_malloc (p_libc p) size_of_HeapTy) as [a c] eqn:Em.
  destruct (Z.eqb_spec a 0) as [Ha|Ha]; [injection E as <- <-; apply moves_refl|].
  assert (p_heaps p !! a = None) as Hnone.
  { destruct (libc_malloc_ok _ _ size_of_HeapTy _ _ (po_libc _ _ _ Hp) eq_refl Em) as [[? _]|(_ & _ & Hf & _)]; [done|].
    by apply not_elem_of_dom. }
  destruct (next_heap_id _) as [id next]. bind_inv E as q1 E1. bind_inv E as [k q2] E2. injection E as <- <-.
  assert (∃ w' hs', q1 = set_heaps (set_world (mkProcess (p_world p) (<[a := Heap_new id]> (p_heaps p)) next c
    (p_key p) (p_cell p) (p_specific p)) w') hs') as (w' & hs' & ->).
  { unfold PagePool_register_heap in E1. bind_inv E1 as [st pm] E3. injection E1 as <-. by eexists _, _. }
  pose proof (moves_register p (mkProcess (p_world p) (<[a := Heap_new id]> (p_heaps p)) next c
    (p_key p) (p_cell p) (p_specific p)) w' hs' a id Hnone eq_refl eq_refl E1) as Hm.
  assert (counter_state_of (set_specific q2 t k a) = counter_state_of q2) as ->
    by (unfold set_specific; by destruct (pthread_setspecific _ _ _)).
  assert (counter_state_of q2 = (heap_counters hs', hr_metrics (w_pool w'))) as ->; [|exact Hm].
  unfold ensure_key in E2. destruct (p_key _); [by injection E2 as <- <-|].
  destruct (pthread_key_create _) as [[ret key] c2]. destruct (ret =? 0); [by injection E2 as <- <-|done].
Qed.

Lemma moves_alloc_at p L g ptr l r p' :
  proc_ok p L g → is_Some (p_heaps p !! ptr) → request_ok l → heap_alloc_at p ptr l = Ok (r, p') →
  moves (counter_state_of p) (counter_state_of p') (λ x, if r =? 0 then 0 else weight x l).
Proof.
  intros Hp [h Hh] Hl E. unfold heap_alloc_at, heap_at in E. rewrite Hh in E. cbn [res_of_option mbind res_bind] in E.
  bind_inv E as [[ro h'] w'] E1. injection E as <- <-.
  destruct (heap_alloc_ok _ _ _ _ _ ptr h l 0 (po_heaps _ _ _ Hp) Hh Hl) as (r2 & h2 & w2 & g2 & E2 & Hg2 & _).
  rewrite E1 in E2. injection E2 as <- <- <-. pose proof (Heap_alloc_quiet _ _ _ _ _ _ _ E1) as Hq.
  pose proof (Heap_alloc_counted _ _ _ _ _ _ _ E1) as Hc. destruct ro as [a|]; cbn [default] in *.
  - destruct (consistent_blocks _ _ _ _ (ex_intro _ _ Hg2)) as [[(_ & Ha & _) _]%Forall_cons _]. cbn in Ha.
    change (id a) with a. destruct (Z.eqb_spec a 0); [lia|].
    eapply moves_same; [eapply moves_heap; [exact Hh|exact Hq|exact Hc]|].
    intros x. exact (proj1 (read_block_events x l Hl)).
  - by apply moves_heap_idle with (h := h).
Qed.

Lemma moves_alloc p L g t l r p' :
  proc_ok p L g → layout_valid l → 0 < size l → ids_left p t → ClMalloc_alloc p t l = Ok (r, p') →
  moves (counter_state_of p) (counter_state_of p') (λ x, if r =? 0 then 0 else weight x l).
Proof.
  intros Hp Hv Hpos Hids E. unfold ClMalloc_alloc in E. destruct (Z.eqb_spec (size l) 0); [lia|].
  destruct (HEAP_get p t =? DESTROYED); [injection E as <- <-; apply moves_refl|].
  destruct (Z.eqb_spec (HEAP_get p t) 0) as [Hz|Hnz].
  - bind_inv E as [ptr p1] E1. pose proof (moves_init p L g t ptr p1 Hp E1) as Hm.
    destruct (init_heap_returned p L g Hp t ptr p1 Hz (Hids Hz) E1) as (g1 & Hp1 & _ & Hs & _).
    destruct (Z.eqb_spec ptr 0); [injection E as <- <-; exact Hm|].
    eapply moves_same; [eapply moves_trans; [exact Hm|]|].
    + eapply (moves_alloc_at p1 L g1 ptr l r p'); [done|by apply Hs|by split|exact E].
    + intros x. apply same64_eq. lia.
  - cbn [mbind res_bind] in E. destruct (Z.eqb_spec (HEAP_get p t) 0); [lia|].
    destruct (po_cell _ _ _ Hp t) as [?|[Hd|Hs]]; [done| |].
    + unfold heap_alloc_at, heap_at in E. destruct (p_heaps p !! HEAP_get p t) as [h|] eqn:Hh; [|done].
      destruct (po_addr _ _ _ Hp (HEAP_get p t)) as [_ Hal]; [by eexists|]. by apply addr_not_destroyed in Hal.
    + eapply moves_alloc_at; [done|done|by split|exact E].
Qed.

Lemma moves_dealloc mode p L g t a l L' p' :
  proc_ok p L g → 0 < size l → L ≡ₚ (a, l) :: L' → ClMalloc_dealloc mode p t a l = Ok p' →
  moves (counter_state_of p) (counter_state_of p') (λ x, if has_heap p t then - weight x l else 0).
Proof.
  intros Hp Hpos HL E. unfold ClMalloc_dealloc in E. destruct (Z.eqb_spec (size l) 0); [lia|].
  fold (has_heap p t) in E. assert (request_ok l) as Hr.
  { pose proof (so_client _ _ _ _ _ (po_heaps _ _ _ Hp)) as HF. rewrite HL in HF. by apply Forall_cons in HF as [? _]. }
  destruct (has_heap p t).
  - bind_inv E as h E1. unfold heap_at in E1. apply res_of_option_ok in E1. bind_inv E as [h' w'] E2. injection E as <-.
    pose proof (Heap_dealloc_quiet _ _ _ _ _ _ _ E2) as Hq.
    destruct (Heap_dealloc_counted _ _ _ _ _ _ _ E2) as (hm & Hm & Hor).
    assert (quiet h (p_world p) (with_metrics h' hm) w') as Hq1.
    { destruct Hq as [Hq Hi]. split; [exact Hq|]. destruct Hor as [Hh|Hh]; unfold reg_idx in *; rewrite Hh in Hi; exact Hi. }
    pose proof (moves_heap p _ h (with_metrics h' hm) w' _ E1 Hq1 Hm) as H1'.
    eapply moves_same; [eapply moves_trans; [exact H1'|]|].
    + unfold counter_state_of. cbn [set_heaps set_world p_heaps p_world]. rewrite !counters_insert. cbn [with_metrics hp_metrics].
      destruct Hor as [->|Hh]; [apply moves_refl|].
      rewrite <- (insert_insert_eq (heap_counters (p_heaps p)) (HEAP_get p t) (hp_metrics h') hm).
      eapply moves_same; [eapply (moves_count _ _ _ hm (CtRemoteFree 1)); [apply lookup_insert_eq|by rewrite Hh]|].
      intros x. apply read_remote_event.
    + intros x. cbn beta. destruct (read_block_events x l Hr) as [_ Hd]. rewrite Hd. apply same64_eq. lia.
  - bind_inv E as c E1. destruct c as [idx|].
    + bind_inv E as w' E2. injection E as <-. apply moves_world. by eapply push_remote_registry.
    + injection E as <-. apply moves_world. apply hr_dealloc_large.
Qed.

Lemma moves_exit p L g t p' :
  proc_ok p L g → thread_exit p t = Ok p' → moves (counter_state_of p) (counter_state_of p') (λ _, 0).
Proof.
  intros Hp E. unfold thread_exit in E. destruct (p_specific p !! t) as [ptr|]; [|injection E as <-; apply moves_refl].
  destruct (ptr =? 0); [injection E as <-; apply moves_refl|]. unfold heap_destructor in E.
  destruct (_ || _); [injection E as <-; apply moves_refl|]. bind_inv E as p1 E1. bind_inv E as h E2.
  bind_inv E as [h' w'] E3. injection E as <-. unfold PagePool_deregister_heap in E1.
  bind_inv E1 as [st pm] E4. injection E1 as <-. cbn [p_heaps p_world w_pool] in *.
  destruct (put_counters_recounted _ _ (deregister_same _ _ _ _ _ E4)) as [_ Hst].
  apply Heap_drop_registry in E3. unfold registry in E3. cbn [set_heaps set_world set_pool p_world w_pool] in E3.
  rewrite hr_get_set in E3. unfold counter_state_of.
  cbn [HEAP_set set_libc set_heaps set_world p_heaps p_world]. unfold heap_counters at 2. rewrite fmap_delete.
  fold (heap_counters (put_counters (p_heaps p) st)). rewrite Hst.
  eapply moves_same; [eapply moves_trans; [|apply moves_quiet; exact E3]|].
  - apply (moves_exec (heap_counters (p_heaps p), hr_metrics (w_pool (p_world p))) (MDeregister ptr)).
    cbn [metrics_exec]. by rewrite E4.
  - intros x. by apply same64_eq.
Qed.

(** One step of the process moves the gauges by the blocks that come and go. *)
Lemma moves_step p L g e p' L' :
  proc_ok p L g → process_step (p, L) e (p', L') →
  moves (counter_state_of p) (counter_state_of p')
    (λ x, weights x (snd <$> L') + weights x (uncounted p e) - weights x (snd <$> L)).
Proof.
  intros Hp Hstep. inversion Hstep as [q L1 t l r q' [Hv Hids] E|mode q L1 L2 t a l q' Hpos HL E|
    mode q L1 t a l q' Hz E|q L1 t q' E|q L1 x v (b & Hb & Hx)|q L1 ptrs sc w' E]; subst; cbn [uncounted].
  - destruct (Z.eqb_spec (size l) 0) as [Hz|Hz]; cbn [orb].
    + unfold ClMalloc_alloc in E. rewrite Hz in E. injection E as <- <-.
      eapply moves_same; [apply moves_refl|]. intros x. apply same64_eq. cbn. lia.
    + eapply moves_same; [eapply (moves_alloc p L g t l r); [done|done| |done|done]|].
      * destruct Hv as (_ & ? & _). lia.
      * intros x. apply same64_eq. destruct (r =? 0); unfold weights; cbn; lia.
  - eapply moves_same; [by eapply (moves_dealloc mode p L g t a l L')|]. intros x. apply same64_eq.
    destruct (Z.ltb_spec 0 (size l)); [|lia]. cbn [andb]. rewrite HL. cbn [fmap list_fmap snd].
    destruct (has_heap p t); unfold weights; cbn; lia.
  - unfold ClMalloc_dealloc in E. rewrite Hz in E. injection E as <-. rewrite Hz.
    eapply moves_same; [apply moves_refl|]. intros x. apply same64_eq. cbn. lia.
  - eapply moves_same; [by eapply moves_exit|]. intros x. apply same64_eq. cbn. lia.
  - eapply moves_same; [apply moves_world, set_mem_registry|]. intros y. apply same64_eq. cbn. lia.
  - eapply moves_same; [eapply moves_world, land_all_registry, E|]. intros y. apply same64_eq. cbn. lia.
Qed.

(** A run with the list of frees that no heap counted. *)
Definition metered (s : process W C * list block * list Layout) (e : proc_event)
    (s' : process W C * list block * list Layout) : Prop :=
  process_step (fst s) e (fst s') ∧ snd s' = uncounted (fst (fst s)) e ++ snd s.

Record accounted p L U : Prop := {
  ac_proc : ∃ g, proc_ok p L g;
  ac_inv : metrics_inv (counter_state_of p);
  ac_freed : Forall request_ok U;
  ac_gauge x : same64 (read x (total_counters (counter_state_of p))) (weights x (snd <$> L) + weights x U);
}.

Lemma accounted_step s e s' :
  accounted (fst (fst s)) (snd (fst s)) (snd s) → metered s e s' → accounted (fst (fst s')) (snd (fst s')) (snd s').
Proof.
  destruct s as [[p L] U], s' as [[p' L'] U']. cbn [fst snd]. intros [[g Hp] Hi Hf Hg] [Hstep HU].
  cbn [fst snd] in *. subst U'. destruct (moves_step p L g e p' L' Hp Hstep Hi) as [Hi' Hg']. split; [|done| |].
  - assert (proc_rel (p, L) (mkAllocSpec L (read_byte (proc_mem p)))) as Hrel by (split; [by eexists|done]).
    by destruct (proc_sim_step _ _ _ _ Hrel Hstep) as (a & _ & Hp' & _).
  - apply Forall_app. split; [|done]. pose proof (so_client _ _ _ _ _ (po_heaps _ _ _ Hp)) as HF.
    inversion Hstep as [|mode q L1 L2 t a l q' Hpos HL E|mode q L1 t a l q' Hz E| | |]; subst; cbn [uncounted]; try constructor.
    + rewrite HL in HF. apply Forall_cons in HF as [? _]. case_match; [by apply Forall_singleton|by apply Forall_nil].
    + rewrite Hz. constructor.
  - intros x. rewrite (Hg' x), (Hg x), weights_app. apply same64_eq. lia.
Qed.

Lemma accounted_run pool c es p L U :
  pp_ok pool [] [] → hr_metrics pool = PoolMetrics_new → libc_owns c ∅ →
  run metered (process_new pool c, [], []) es (p, L, U) → accounted p L U.
Proof.
  intros Hpool Hpm Hc Hrun.
  apply (run_invariant metered (λ s, accounted (fst (fst s)) (snd (fst s)) (snd s)) _ _ _ accounted_step) in Hrun; [exact Hrun|].
  cbn [fst snd]. assert (counter_state_of (process_new pool c) = metrics_init) as E.
  { unfold counter_state_of, metrics_init. cbn. rewrite Hpm. unfold heap_counters. by rewrite fmap_empty. }
  split; [by apply proc_ok_init|rewrite E; apply metrics_inv_init|constructor|].
  intros x. rewrite E, total_init. apply same64_eq. unfold weights. cbn.
  destruct x; cbn [read zero_counters counters set_registry_idx HeapMetrics_ZERO class_alloc_count class_dealloc_count
    class_alloc_bytes class_free_bytes alloc_bytes free_bytes large_alloc_bytes large_dealloc_bytes]; lia.
Qed.
End accounting.

(** ** Snapshots *)

Section snapshots.
Context {P C : Type} `{PageAllocatorLaws P} `{LibcLaws C}.
Implicit Types (p : process (PagePool P) C) (L : list block) (U : list Layout).

Definition ClMalloc_snapshot (p : process (PagePool P) C) : res MetricsSnapshot :=
  snapshot (w_pool (p_world p)) (heap_counters (p_heaps p)).

(** The blocks of class [c] among the layouts [ls]. *)
Definition class_members (c : nat) (ls : list Layout) : Z := weights (GCount c) ls.

Lemma class_bytes (c : nat) ls : weights (GBytes c) ls = class_members c ls * class_size (Z.of_nat c).
Proof.
  unfold class_members, weights. induction ls as [|l ls IH]; cbn [foldr]; [done|]. rewrite IH.
  unfold weight at 1 3. destruct (class_index l) as [[k|]|]; [|lia..]. destruct (Z.eqb_spec k (Z.of_nat c)); [subst|]; lia.
Qed.

Lemma live_diff_exact a d n : uint 64 a → uint 64 d → same64 (a - d) n → - 2 ^ 63 ≤ n < 2 ^ 63 → live_diff a d = n.
Proof.
  intros Ha Hd Hn Hr. unfold same64, live_diff, cast_signed, wsub, wrap, uint in *. change (64 - 1) with 63.
  assert (∃ k, a - d = n + k * 2 ^ 64) as [k Hk].
  { exists ((a - d) / 2 ^ 64 - n / 2 ^ 64). pose proof (Z.div_mod (a - d) (2 ^ 64) ltac:(lia)).
    pose proof (Z.div_mod n (2 ^ 64) ltac:(lia)). lia. }
  repeat case_bool; zdiv.
Qed.

Lemma class_members_nonneg c ls : 0 ≤ class_members c ls.
Proof.
  unfold class_members, weights. induction ls as [|l ls IH]; cbn [foldr]; [done|].
  unfold weight at 1. destruct (class_index l) as [[k|]|]; [|lia..]. case_match; lia.
Qed.

Lemma total_nonneg ls : Forall request_ok ls → 0 ≤ weights GTotal ls.
Proof.
  induction 1 as [|l ls Hl Hls IH]; [done|]. cbn. fold (weights GTotal ls). unfold weight.
  destruct (request_class l Hl) as [(c & -> & Hc & _)| ->].
  - change NUM_CLASSES with 49 in Hc. pose proof (class_size_bounds c ltac:(lia)). lia.
  - destruct Hl as [_ ?]. lia.
Qed.

(** The entry of a class in the arrays of a sum of counters. *)
Lemma class_entries h (c : nat) :
  hm_ok h → (c < Z.to_nat NUM_CLASSES)%nat →
  ∃ a d x y, class_alloc_count h !! c = Some a ∧ class_dealloc_count h !! c = Some d ∧
    class_alloc_bytes h !! c = Some x ∧ class_free_bytes h !! c = Some y ∧
    uint 64 a ∧ uint 64 d ∧ uint 64 x ∧ uint 64 y.
Proof.
  intros ((L1 & L2 & L3 & L4) & U1 & U2 & U3 & U4 & _) Hc.
  destruct (lookup_lt_is_Some_2 (class_alloc_count h) c) as [a Ha]; [lia|].
  destruct (lookup_lt_is_Some_2 (class_dealloc_count h) c) as [d Hd]; [lia|].
  destruct (lookup_lt_is_Some_2 (class_alloc_bytes h) c) as [x Hx]; [lia|].
  destruct (lookup_lt_is_Some_2 (class_free_bytes h) c) as [y Hy]; [lia|].
  exists a, d, x, y. do 4 (split; [done|]). split; [exact (Forall_lookup_1 _ _ _ _ U1 Ha)|].
  split; [exact (Forall_lookup_1 _ _ _ _ U2 Hd)|]. split; [exact (Forall_lookup_1 _ _ _ _ U3 Hx)|].
  exact (Forall_lookup_1 _ _ _ _ U4 Hy).
Qed.

(** C3. A snapshot of a process, taken at any time, reports for every size
    class exactly the number of its blocks that the program holds, and their
    bytes, plus those it freed on threads without a heap: whatever threads
    allocated, freed each other's blocks and exited, no other event is missed or
    counted twice.  The bytes allocated are exact as well, unless the cumulative
    counter of allocated bytes wrapped. *)
Theorem process_snapshot_exact (pool : PagePool P) (c : C) es p L U :
  pp_ok pool [] [] → hr_metrics pool = PoolMetrics_new → libc_owns c ∅ →
  run metered (process_new pool c, [], []) es (p, L, U) →
  ∃ s, ClMalloc_snapshot p = Ok s ∧
    (free_bytes (ms_heaps s) ≤ alloc_bytes (ms_heaps s) → weights GTotal ((snd <$> L) ++ U) < 2 ^ 63 →
     ms_allocated s = weights GTotal ((snd <$> L) ++ U)) ∧
    ∀ k : nat, (k < Z.to_nat NUM_CLASSES)%nat →
      let n := class_members k ((snd <$> L) ++ U) in
      n * class_size (Z.of_nat k) < 2 ^ 63 →
      class_live_count s !! k = Some n ∧ class_live_bytes s !! k = Some (n * class_size (Z.of_nat k)).
Proof.
  intros Hpool Hpm Hc Hrun. pose proof (accounted_run pool c es p L U Hpool Hpm Hc Hrun) as [[g0 Hp] Hi HU Hg].
  unfold ClMalloc_snapshot, snapshot.
  match goal with |- context [PoolMetrics_aggregate_heap_metrics ?st ?pm ?s0] =>
    destruct (aggregate_from st pm s0 Hi eq_refl) as (s & Hs & Hh) end. rewrite Hs.
  cbn [mbind res_bind]. eexists. split; [done|]. split.
  { cbn [ms_heaps ms_allocated MetricsSnapshot_finalize]. intros Hle Hlt.
    pose proof (Hg GTotal) as G. rewrite <- weights_app in G. cbn [read] in G.
    assert (uint 64 (alloc_bytes (ms_heaps s)) ∧ uint 64 (free_bytes (ms_heaps s))) as [Ua Uf].
    { rewrite Hh. destruct (total_ok _ Hi) as (_ & _ & _ & _ & _ & HF).
      apply Forall_cons in HF as [? HF]. by apply Forall_cons in HF as [? _]. }
    assert (0 ≤ weights GTotal ((snd <$> L) ++ U)) as Hnn.
    { apply total_nonneg. apply Forall_app. split; [|exact HU]. apply Forall_fmap, (so_client _ _ _ _ _ (po_heaps _ _ _ Hp)). }
    rewrite Hh in *. change (total_counters _) with (total_counters (counter_state_of p)) in *.
    unfold same64, saturating_sub, uint in *. rewrite (wrap_small 64 (weights _ _)) in G by (unfold uint; lia).
    rewrite wrap_small in G by (unfold uint; lia). lia. }
  intros k Hk. set (n := class_members k _). intros Hn.
  destruct (class_entries _ k (total_ok _ Hi) Hk) as (a & d & x & y & Ha & Hd & Hx & Hy & Ua & Ud & Ux & Uy).
  pose proof (Hg (GCount k)) as G1. pose proof (Hg (GBytes k)) as G2. cbn [read] in G1, G2.
  rewrite Ha, Hd, <- weights_app in G1. rewrite Hx, Hy, <- weights_app, class_bytes in G2. cbn [default] in G1, G2.
  assert (0 ≤ n) as Hn0 by apply class_members_nonneg.
  change (Z.to_nat NUM_CLASSES) with 49%nat in Hk. pose proof (class_size_bounds (Z.of_nat k) ltac:(lia)) as Hsz.
  cbn [class_live_count class_live_bytes MetricsSnapshot_finalize]. rewrite Hh.
  change (total_counters _) with (total_counters (counter_state_of p)). rewrite !lookup_zip_with, Ha, Hd, Hx, Hy.
  cbn [mbind option_bind]. split; f_equal; apply live_diff_exact; try done; unfold n in *; nia.
Qed.
End snapshots.

(** Thread 1 allocates a block and exits, thread 2, which has no heap, frees it. *)
Lemma demo_metered :
  run metered (demo_proc, [], []) [PAlloc 1 l16 demo_a; PExit 1; PDealloc 2 demo_a l16] (demo_p3, [], [l16]).
Proof.
  apply (run_cons metered _ _ (demo_p1, [(demo_a, l16)], [])); [split; [exact demo_alloc_step|reflexivity]|].
  apply (run_cons metered _ _ (demo_p2, [(demo_a, l16)], [])).
  { split; [|reflexivity]. apply step_pexit. apply called. vm_compute. reflexivity. }
  assert (uncounted demo_p2 (PDealloc 2 demo_a l16) = [l16]) as Hu by (vm_compute; reflexivity).
  apply (run_cons metered _ _ (demo_p3, [], [l16])); [|constructor]. split; [|cbn [fst snd]; rewrite Hu; reflexivity].
  apply (step_pdealloc PushNow); [done|done|]. apply called. vm_compute. reflexivity.
Qed.

(** The free is missing from the snapshot: no block is held, one is reported live. *)
Lemma process_snapshot_exact_witness :
  ∃ s, ClMalloc_snapshot demo_p3 = Ok s ∧ class_live_count s !! 4%nat = Some 1.
Proof.
  destruct (process_snapshot_exact demo_pool (4096 : demo_libc) _ _ _ _ demo_pool_ok demo_metrics demo_libc_owns demo_metered)
    as (s & E & _ & Hs). exists s. split; [exact E|].
  assert (class_members 4 (([] : list block).*2 ++ [l16]) = 1) as Hn by (vm_compute; reflexivity).
  destruct (Hs 4%nat) as [Hc _]; [vm_compute; lia|rewrite Hn; vm_compute; reflexivity|]. rewrite Hc, Hn. reflexivity.
Defined.
