(* ===== verification/Gauges.v ===== *)
(** * The gauges of a snapshot ([src/src/pool.rs], [PagePool::snapshot])

    [mapped], [active] and [allocated] measure the same process at three
    levels: what the page allocator gave to the pool, the slab pages and large
    blocks the pool gave out, and the blocks the heaps gave to the program.
    Here is what each of them reads after any run, and that they are ordered. *)

From stdpp Require Import base numbers list gmap.
From Stdlib Require Import ZArith Lia.
From S2P Require Import Prelude SizeClass LinkMem Slab SlabSpec SlabList Sys Metrics Pool PoolInv PoolSpec PoolSeq PagePort Heap HeapInv HeapEnv HeapOps HeapSpec Global GlobalSpec Accounting.

Local Open Scope Z_scope.
Local Open Scope clm_scope.
Arguments SLAB_SIZE : simpl never.
Arguments SEGMENT_SIZE : simpl never.
Arguments class_index : simpl never.
Arguments class_size : simpl never.

(** ** Disjoint blocks in a range *)

Lemma block_bytes_nonneg (L : list block) : Forall (λ b, 0 < size (snd b)) L → 0 ≤ bytes_of L.
Proof.
  induction 1 as [|[a l] L Hb HL IH]; [done|]. rewrite bytes_of_cons. cbn in Hb. lia.
Qed.

Lemma disjoint_filter (Q : block → Prop) `{∀ b, Decision (Q b)} (L : list block) :
  blocks_disjoint L → blocks_disjoint (filter Q L) ∧ blocks_disjoint (filter (λ b, ¬ Q b) L).
Proof.
  intros Hd. assert (blocks_disjoint (filter Q L ++ filter (λ b, ¬ Q b) L)) as Hd'.
  { eapply pairwise_perm; [|symmetry; apply filter_app_complement|exact Hd]. intros b c Hbc x Hx Hx'. by apply (Hbc x). }
  by apply pairwise_app in Hd' as (? & ? & _).
Qed.

(** Disjoint blocks between [lo] and [hi] have at most [hi - lo] bytes. *)
Lemma disjoint_bytes (L : list block) : ∀ lo hi,
  Forall (λ b, 0 < size (snd b)) L → Forall (λ b, lo ≤ fst b ∧ fst b + size (snd b) ≤ hi) L →
  blocks_disjoint L → lo ≤ hi → bytes_of L ≤ hi - lo.
Proof.
  induction L as [L IH] using (induction_ltof1 _ length). intros lo hi Hpos Hin Hd Hle.
  destruct L as [|[a l] L]; [by cbn; lia|].
  apply Forall_cons in Hpos as [Hl Hpos]. apply Forall_cons in Hin as [[Hlo Hhi] Hin].
  cbn [fst snd] in *. destruct Hd as [Hb Hd]. set (Q := λ b : block, fst b < a).
  assert (∀ x, Decision (Q x)) as HQ by (intros x; unfold Q; apply _).
  rewrite bytes_of_cons, <- (filter_app_complement Q L), bytes_of_app.
  destruct (disjoint_filter Q L Hd) as [Hd1 Hd2]. rewrite Forall_forall in Hpos, Hin, Hb.
  assert (ltof _ length (filter Q L) ((a, l) :: L) ∧ ltof _ length (filter (λ x, ¬ Q x) L) ((a, l) :: L)) as [Hl1 Hl2].
  { pose proof (length_filter Q L). pose proof (length_filter (λ x, ¬ Q x) L). unfold ltof. cbn. lia. }
  assert (bytes_of (filter Q L) ≤ a - lo) as H1.
  { apply (IH _ Hl1); [|..|done|lia]; apply Forall_forall; intros b [HQb Hbl]%list_elem_of_filter; [by apply Hpos|].
    destruct (Hin b Hbl) as [Hb1 Hb2]. split; [done|]. pose proof (Hpos b Hbl). unfold Q in HQb.
    destruct (Z.le_gt_cases (fst b + size (snd b)) a); [done|].
    exfalso. apply (Hb b Hbl a); unfold in_block; cbn; lia. }
  assert (bytes_of (filter (λ x, ¬ Q x) L) ≤ hi - (a + size l)) as H2; [|lia].
  apply (IH _ Hl2); [|..|done|lia]; apply Forall_forall; intros b [HQb Hbl]%list_elem_of_filter; [by apply Hpos|].
  destruct (Hin b Hbl) as [Hb1 Hb2]. split; [|done]. pose proof (Hpos b Hbl). unfold Q in HQb.
  destruct (Z.le_gt_cases (a + size l) (fst b)); [done|].
  exfalso. apply (Hb b Hbl (fst b)); unfold in_block; cbn; lia.
Qed.

(** Blocks sorted into pages by [f]: what fits in each page fits in all of them. *)
Lemma sorted_bytes (f : block → Z) (K : Z) (pages : list Z) : ∀ L : list block,
  (∀ b, b ∈ L → f b ∈ pages) → NoDup pages →
  (∀ p, p ∈ pages → bytes_of (filter (λ b, f b = p) L) ≤ K) → bytes_of L ≤ K * Z.of_nat (length pages).
Proof.
  induction pages as [|p pages IH]; intros L Hf Hnd HK.
  - destruct L as [|b L]; [cbn; lia|]. exfalso. destruct (not_elem_of_nil (f b)). apply Hf. by left.
  - apply NoDup_cons in Hnd as [Hp Hnd]. rewrite <- (filter_app_complement (λ b, f b = p) L), bytes_of_app.
    pose proof (HK p ltac:(by left)) as HKp. cbn [length].
    assert (bytes_of (filter (λ b, f b ≠ p) L) ≤ K * Z.of_nat (length pages)); [|lia].
    apply IH; [|done|].
    + intros b [Hbp Hb]%list_elem_of_filter. specialize (Hf b Hb). apply elem_of_cons in Hf as [?|?]; done.
    + intros q Hq. rewrite list_filter_filter. etrans; [|apply (HK q); by right].
      apply Z.eq_le_incl. f_equal. apply list_filter_iff. intros b. split; [by intros []|]. intros <-.
      split; [done|]. by intros <-.
Qed.

Lemma equal_bytes (f : Z → block) (n : Z) (l : list Z) :
  (∀ x, size (snd (f x)) = n) → bytes_of (f <$> l) = n * Z.of_nat (length l).
Proof.
  intros Hf. induction l as [|x l IH]; [cbn; lia|]. rewrite fmap_cons, (surjective_pairing (f x)), bytes_of_cons, IH, Hf.
  cbn [length]. lia.
Qed.

(** ** What the blocks of the program weigh *)

Section weights.
Context (L : list block) (HL : Forall (λ b, request_ok (snd b)) L).

Lemma large_weight : weights GLarge (snd <$> L) = bytes_of (larges_of L).
Proof.
  induction HL as [|[a l] L' Hr HL' IH]; [done|]. cbn [fmap list_fmap snd]. unfold weights in *. cbn [foldr].
  rewrite IH by done. unfold weight. destruct (request_class l Hr) as [(c & Hc & _)|Hc]; rewrite Hc.
  - by rewrite (larges_of_small _ _ c).
  - by rewrite larges_of_large, bytes_of_cons.
Qed.

Lemma total_weight : weights GTotal (snd <$> L) = bytes_of (slot_block <$> slots_of L) + bytes_of (larges_of L).
Proof.
  induction HL as [|[a l] L' Hr HL' IH]; [done|]. cbn [fmap list_fmap snd]. unfold weights in *. cbn [foldr].
  rewrite IH by done. unfold weight. destruct (request_class l Hr) as [(c & Hc & _)|Hc]; rewrite Hc.
  - rewrite (larges_of_small _ _ c), (slots_of_small _ _ c) by done. rewrite fmap_cons. unfold slot_block at 2.
    rewrite bytes_of_cons. cbn [fst snd size]. lia.
  - rewrite larges_of_large, slots_of_large, bytes_of_cons by done. lia.
Qed.
End weights.

(** ** The three levels *)

Section levels.
Context {P : Type} `{PageAllocatorLaws P}.
Implicit Types (w : PagePool P).

(** The segments of the pool. *)
Definition segments_of w : list Z := take (Z.to_nat (segment_count (state w))) (segments (state w)).

(** What the pool got from the page allocator, below what it handed out. *)
Lemma pool_levels w pages larges :
  pool_ok w pages larges → Forall (λ b, 0 < size (snd b)) larges →
  let B := (seg_block <$> segments_of w) ++ larges in
  pa_owns (page_alloc w) B ∧ bytes_of B < 2 ^ 64 ∧
  SLAB_SIZE * Z.of_nat (length pages) + bytes_of larges ≤ bytes_of B ∧
  segment_count (state w) * SEGMENT_SIZE + bytes_of larges = bytes_of B ∧
  outstanding_slabs (state w) = Z.of_nat (length pages) ∧ large_mapped_bytes (state w) = bytes_of larges.
Proof.
  intros [(S & D & C & [Hi Ho] & _) Hst] Hpos. destruct (pi_tables _ _ _ _ _ _ Hi) as (Hc & _ & _ & Ht).
  assert (segments_of w = S) as -> by (unfold segments_of; by rewrite Hc, Nat2Z.id).
  cbv zeta. split; [exact Ho|]. pose proof (pa_owns_ok _ _ Ho) as [Hok Hd].
  assert (bytes_of ((seg_block <$> S) ++ larges) ≤ 2 ^ 64 - 1) as Hlt.
  { apply disjoint_bytes; [| |exact Hd|lia].
    - apply Forall_app. split; [|done]. by apply Forall_fmap, Forall_true.
    - eapply Forall_impl; [exact Hok|]. intros b (_ & ? & ?). lia. }
  assert (SLAB_SIZE * Z.of_nat (length pages) ≤ SEGMENT_SIZE * Z.of_nat (length S)) as Hle.
  { pose proof (Permutation_length (pi_parts _ _ _ _ _ _ Hi)) as Hlen. rewrite !length_app, length_all_pages in Hlen.
    change SLAB_SIZE with 65536. change SEGMENT_SIZE with 2097152. lia. }
  pose proof (block_bytes_nonneg larges Hpos) as Hnn.
  rewrite bytes_of_app, (equal_bytes seg_block SEGMENT_SIZE) in * by done.
  change SLAB_SIZE with 65536 in *. change SEGMENT_SIZE with 2097152 in *.
  split; [lia|]. split; [lia|]. split; [lia|]. destruct Hst as [_ _ -> ->].
  split; apply wrap_small; unfold uint; lia.
Qed.
End levels.

Section slots.
Context {W : Type} `{PagePortLaws W}.
Implicit Types (w : world W).

(** The slots in use fit in the slab pages. *)
Lemma slots_in_pages held larges w g :
  winv held larges w g → bytes_of (slot_block <$> held) ≤ SLAB_SIZE * Z.of_nat (length (slab_pages w)).
Proof.
  intros Hw.
  assert (∀ b, b ∈ slot_block <$> held → ∃ s h loc rem, b = slot_block s ∧ s ∈ held ∧
    ls_hdrs (w_slabs w) !! SlabHeader_from_ptr (fst s) = Some h ∧
    slab_inv (SlabHeader_from_ptr (fst s)) (w_mem w) h loc rem (live (SlabHeader_from_ptr (fst s)) held) ∧
    slot_size h = class_size (snd s) ∧ SlabHeader_from_ptr (fst s) ≤ fst s ∧
    fst s + class_size (snd s) ≤ SlabHeader_from_ptr (fst s) + SLAB_SIZE ∧ 0 < class_size (snd s)) as Hin.
  { intros b (s & -> & Hs)%list_elem_of_fmap.
    destruct (held_slab held larges w g s Hw Hs) as (h & loc & rem & Hh & Hi & Hsz & Hlo & Hhi).
    exists s, h, loc, rem. pose proof (geo_size h (static_geometry h (si_static _ _ _ _ _ _ Hi))).
    change SLAB_SIZE with 65536. split_and!; try done; lia. }
  apply (sorted_bytes (λ b, SlabHeader_from_ptr (fst b))).
  - intros b (s & h & _ & _ & -> & _ & Hh & _)%Hin. apply elem_of_slab_pages. by exists h.
  - apply NoDup_elements.
  - intros p _. replace SLAB_SIZE with (p + SLAB_SIZE - p) by lia. apply disjoint_bytes.
    + apply Forall_forall. intros b [_ (s & h & _ & _ & -> & _ & _ & _ & _ & _ & _ & ?)%Hin]%list_elem_of_filter. done.
    + apply Forall_forall. intros b [<- (s & h & _ & _ & -> & _ & _ & _ & _ & ? & ? & ?)%Hin]%list_elem_of_filter.
      done.
    + apply disjoint_filter. pose proof (user_disjoint held larges w g Hw) as Hd.
      by apply pairwise_app in Hd as [Hd _].
    + change SLAB_SIZE with 65536. lia.
Qed.
End slots.

(** ** Snapshots *)

Lemma aggregate_mapped st pm s0 s :
  PoolMetrics_aggregate_heap_metrics st pm s0 = Ok s → ms_mapped s = ms_mapped s0.
Proof.
  unfold PoolMetrics_aggregate_heap_metrics. intros E. bind_inv E as s1 E1. injection E as <-. cbn [ms_mapped].
  change (ms_mapped s0) with (ms_mapped (MetricsSnapshot_accumulate_heap s0 (dead pm))).
  revert E1. generalize (MetricsSnapshot_accumulate_heap s0 (dead pm)). generalize (take (Z.to_nat (heap_count pm)) (heap_ptrs pm)).
  intros l. induction l as [|a l IH]; intros t E1; cbn [accumulate_live] in E1; [by injection E1 as <-|].
  bind_inv E1 as h E2. by apply IH in E1.
Qed.

(** A difference of counters that did not wrap is the gauge. *)
Lemma saturating_exact a d n :
  uint 64 a → uint 64 d → d ≤ a → same64 (a - d) n → uint 64 n → saturating_sub a d = n.
Proof.
  intros Ha Hd Hle Hs Hn. unfold same64, saturating_sub in *. rewrite !wrap_small in Hs by (unfold uint in *; lia). lia.
Qed.

Section gauges.
Context {P C : Type} `{PageAllocatorLaws P} `{LibcLaws C}.
Implicit Types (p : process (PagePool P) C) (L : list block) (U : list Layout).

(** The slab pages out of the pool: the heaps', the abandoned ones and the cached ones. *)
Definition pages_out p : Z :=
  Z.of_nat (length (slab_pages (p_world p))) + w_cache_len (p_world p).

(** The blocks the pool has from the page allocator. *)
Definition mapped_blocks p L : list block := (seg_block <$> segments_of (w_pool (p_world p))) ++ larges_of L.

(** The three levels of a process between two calls. *)
Lemma process_levels p L g :
  proc_ok p L g →
  let B := mapped_blocks p L in
  let s := state (w_pool (p_world p)) in
  pa_owns (page_alloc (w_pool (p_world p))) B ∧ bytes_of B < 2 ^ 64 ∧
  segment_count s * SEGMENT_SIZE + large_mapped_bytes s = bytes_of B ∧
  large_mapped_bytes s = weights GLarge (snd <$> L) ∧ outstanding_slabs s = pages_out p ∧
  0 ≤ pages_out p ∧ 0 ≤ weights GLarge (snd <$> L) ∧ 0 ≤ weights GTotal (snd <$> L) ≤ pages_out p * SLAB_SIZE + weights GLarge (snd <$> L) ∧
  pages_out p * SLAB_SIZE + weights GLarge (snd <$> L) ≤ bytes_of B.
Proof.
  intros Hp. pose proof (po_heaps _ _ _ Hp) as [Hw (_ & _ & Hsp) HL _ _ _]. unfold hinv in Hw.
  pose proof (wi_pool _ _ _ _ Hw) as Hpool. rewrite Hsp, app_nil_r in Hpool.
  assert (Forall (λ b, 0 < size (snd b)) (larges_of L)) as Hpos.
  { apply Forall_forall. intros b [_ Hb]%list_elem_of_filter. rewrite Forall_forall in HL. apply (HL b Hb). }
  destruct (pool_levels _ _ _ Hpool Hpos) as (Ho & Hlt & Hle & Hm & Hout & Hlm).
  pose proof (slots_in_pages _ _ _ _ Hw) as Hsl. rewrite fmap_app, bytes_of_app in Hsl.
  assert (∀ sl : list slot, sl ⊆ slots_of L ++ w_flight (p_world p) → 0 ≤ bytes_of (slot_block <$> sl)) as Hsp0.
  { intros sl Hin. apply block_bytes_nonneg, Forall_fmap, Forall_forall. intros x Hx%Hin.
    destruct (held_slab _ _ _ _ x Hw Hx) as (h & loc & rem & _ & Hi & Hsz & _). cbn. rewrite <- Hsz.
    pose proof (geo_size h (static_geometry h (si_static _ _ _ _ _ _ Hi))). lia. }
  pose proof (Hsp0 (slots_of L) ltac:(set_solver)). pose proof (Hsp0 (w_flight (p_world p)) ltac:(set_solver)).
  pose proof (block_bytes_nonneg _ Hpos). cbv zeta. unfold pages_out, mapped_blocks.
  rewrite large_weight, total_weight by done. destruct (wi_cache_len _ _ _ _ Hw) as [-> _].
  rewrite length_app, Nat2Z.inj_add in *. change SLAB_SIZE with 65536 in *. split_and!; try done; lia.
Qed.

(** C4. The gauges of a snapshot, at any time of any process.  [mapped] is
    exactly the size of the segments and large blocks that the page allocator
    has given to the pool and not got back.  [active] is the slab pages out of
    the pool plus the live large blocks, and is at most [mapped], unless a large
    block was freed on a thread without a heap or a cumulative counter wrapped.
    If every free was counted, [allocated] is at most [active]: the slots in use
    fit in the slab pages, which fit in the segments. *)
Theorem process_gauges (pool : PagePool P) (c : C) es p L U :
  pp_ok pool [] [] → hr_metrics pool = PoolMetrics_new → libc_owns c ∅ →
  run metered (process_new pool c, [], []) es (p, L, U) →
  ∃ s, ClMalloc_snapshot p = Ok s ∧
    pa_owns (page_alloc (w_pool (p_world p))) (mapped_blocks p L) ∧
    ms_mapped s = bytes_of (mapped_blocks p L) ∧
    (large_dealloc_bytes (ms_heaps s) ≤ large_alloc_bytes (ms_heaps s) → weights GLarge U = 0 →
     ms_active s = pages_out p * SLAB_SIZE + weights GLarge (snd <$> L) ∧ ms_active s ≤ ms_mapped s) ∧
    (large_dealloc_bytes (ms_heaps s) ≤ large_alloc_bytes (ms_heaps s) →
     free_bytes (ms_heaps s) ≤ alloc_bytes (ms_heaps s) → U = [] → ms_allocated s ≤ ms_active s).
Proof.
  intros Hpool Hpm Hc Hrun. pose proof (accounted_run pool c es p L U Hpool Hpm Hc Hrun) as [[g Hp] Hi HU Hg].
  destruct (process_levels p L g Hp) as (Ho & Hlt & Hm & Hlm & Hout & Hp0 & Hl0 & Ht & Hle). unfold ClMalloc_snapshot, snapshot.
  match goal with |- context [PoolMetrics_aggregate_heap_metrics ?st ?pm ?s0] =>
    destruct (aggregate_from st pm s0 Hi eq_refl) as (s & Hs & Hh); pose proof (aggregate_mapped st pm s0 s Hs) as Hmm end.
  rewrite Hs. cbn [mbind res_bind]. eexists. split; [done|]. split; [exact Ho|].
  cbn [ms_mapped ms_active ms_heaps ms_allocated MetricsSnapshot_finalize] in *.
  rewrite Hh. change (total_counters _) with (total_counters (counter_state_of p)).
  assert (ms_mapped s = bytes_of (mapped_blocks p L)) as ->.
  { rewrite Hmm. unfold wadd. rewrite Hm. apply wrap_small. unfold uint. change SLAB_SIZE with 65536 in *. lia. }
  split; [done|].
  destruct (total_ok _ Hi) as (_ & _ & _ & _ & _ & Hu). repeat setoid_rewrite Forall_cons in Hu.
  destruct Hu as (Ua & Uf & _ & _ & Ula & Uld & _).
  assert (∀ r, weights GLarge U = 0 →
    large_dealloc_bytes (total_counters (counter_state_of p)) ≤ large_alloc_bytes (total_counters (counter_state_of p)) →
    r = (outstanding_slabs (state (w_pool (p_world p))) * SLAB_SIZE) +[64]
      saturating_sub (large_alloc_bytes (total_counters (counter_state_of p))) (large_dealloc_bytes (total_counters (counter_state_of p))) →
    r = pages_out p * SLAB_SIZE + weights GLarge (snd <$> L)) as Hact.
  { intros r HU0 Hld ->. pose proof (Hg GLarge) as G. rewrite HU0, Z.add_0_r in G. cbn [read] in G.
    change SLAB_SIZE with 65536 in *.
    rewrite (saturating_exact _ _ (weights GLarge (snd <$> L))) by (done || (unfold uint; lia)).
    unfold wadd. rewrite Hout. apply wrap_small. unfold uint. lia. }
  split.
  - intros Hld HU0. rewrite (Hact _ HU0 Hld eq_refl). by split.
  - intros Hld Hfr ->. rewrite (Hact _ eq_refl Hld eq_refl). pose proof (Hg GTotal) as G. rewrite Z.add_0_r in G. cbn [read] in G.
    rewrite (saturating_exact _ _ (weights GTotal (snd <$> L))) by (done || (unfold uint; change SLAB_SIZE with 65536 in *; lia)).
    apply Ht.
Qed.
End gauges.

(** ** At a concrete process *)

Definition gauges_of (r : res MetricsSnapshot) : option (Z * Z * Z) :=
  match r with Ok s => Some (ms_allocated s, ms_active s, ms_mapped s) | Panic _ => None end.

Lemma demo_metered1 : run metered (demo_proc, [], []) [PAlloc 1 l16 demo_a] (demo_p1, [(demo_a, l16)], []).
Proof.
  apply (run_cons metered _ _ (demo_p1, [(demo_a, l16)], [])); [split; [exact demo_alloc_step|reflexivity]|constructor].
Qed.

(** One block of 16 bytes, in one page of one segment. *)
Lemma process_gauges_witness :
  gauges_of (ClMalloc_snapshot demo_p1) = Some (16, 65536, 2097152) ∧
  ∃ s, ClMalloc_snapshot demo_p1 = Ok s ∧ ms_allocated s ≤ ms_active s ≤ ms_mapped s.
Proof.
  split; [vm_compute; reflexivity|].
  destruct (process_gauges demo_pool (4096 : demo_libc) _ _ _ _ demo_pool_ok demo_metrics demo_libc_owns demo_metered1)
    as (s & E & _ & _ & Ha & Hb). exists s. split; [exact E|].
  assert (match ClMalloc_snapshot demo_p1 with
    | Ok s => (large_dealloc_bytes (ms_heaps s) <=? large_alloc_bytes (ms_heaps s)) && (free_bytes (ms_heaps s) <=? alloc_bytes (ms_heaps s))
    | Panic _ => false end = true) as Hv by (vm_compute; reflexivity).
  rewrite E in Hv. apply andb_prop in Hv as [Hl%Z.leb_le Hf%Z.leb_le].
  split; [exact (Hb Hl Hf eq_refl)|exact (proj2 (Ha Hl eq_refl))].
Defined.

(** [active] also counts pages without a live block: here the one block of the
    page has been freed. *)
Definition demo_freed := after_call (ClMalloc_dealloc PushNow demo_p1 1 demo_a l16).

Example active_counts_empty_page : gauges_of (ClMalloc_snapshot demo_freed) = Some (0, 65536, 2097152).
Proof. vm_compute. reflexivity. Qed.

(** A large block that is freed on a thread without a heap leaves [mapped] but
    never [active], nor [allocated]: both exceed what is mapped. *)
Definition large_layout : Layout := mkLayout 1048576 8.
Definition demo_large := after_alloc (ClMalloc_alloc demo_proc 1 large_layout).
Definition demo_large_freed :=
  after_call (ClMalloc_dealloc PushNow demo_large 2 (answer (ClMalloc_alloc demo_proc 1 large_layout)) large_layout).

Example active_exceeds_mapped :
  gauges_of (ClMalloc_snapshot demo_large) = Some (1048576, 1048576, 1048576) ∧
  gauges_of (ClMalloc_snapshot demo_large_freed) = Some (1048576, 1048576, 0).
Proof. split; vm_compute; reflexivity. Qed.

(** A slab that was abandoned with one live block stays on the abandoned list,
    and [active], after that block is freed: only an allocation of its class,
    which drains it, would find that it is free. *)
Definition freed_abandoned : Z := default 0 (w_abandoned (p_world demo_p3) !! 4%nat).

Example freed_abandoned_stays :
  freed_abandoned = SlabHeader_from_ptr demo_a ∧
  (w ← slab_drain_at (p_world demo_p3) freed_abandoned;
   h ← get_header (w_slabs w) freed_abandoned; Ok (Slab_is_fully_free h)) = Ok true ∧
  outstanding_slabs (state (w_pool (p_world demo_p3))) = 1.
Proof. split_and!; vm_compute; reflexivity. Qed.
