(* ===== verification/F64.v ===== *)
(** * The [f64] operations of the profiler

    IEEE binary64 numbers as the Standard Library's [spec_float], rounded to
    nearest even, with the conversions and the rounding functions of Rust's
    [f64] that [src/src/pprof.rs] uses.  The transcendental functions [ln] and
    [exp] are not here: Rust leaves their precision open, so they are parameters
    where they are used. *)

From stdpp Require Import base numbers.
From Stdlib Require Import ZArith Lia.
From Stdlib Require Import SpecFloat.
From S2P Require Import Prelude.

Local Open Scope Z_scope.

Abbreviation f64 := spec_float.

(** [n as f64] for an integer *)
Definition f64_of_Z (n : Z) : f64 := binary_normalize 53 1024 n 0 false.

Definition f64_mul : f64 → f64 → f64 := SFmul 53 1024.
Definition f64_div : f64 → f64 → f64 := SFdiv 53 1024.
Definition f64_sub : f64 → f64 → f64 := SFsub 53 1024.
Definition f64_opp : f64 → f64 := SFopp.
Definition f64_lt : f64 → f64 → bool := SFltb.
Definition f64_le : f64 → f64 → bool := SFleb.

Definition f64_zero : f64 := S754_zero false.
Definition f64_one : f64 := f64_of_Z 1.
Definition f64_MIN_POSITIVE : f64 := S754_finite false (2 ^ 52) (-1074).

(** [f64::max]: the other operand of a NaN *)
Definition f64_max (x y : f64) : f64 :=
  match x, y with
  | S754_nan, _ => y
  | _, S754_nan => x
  | _, _ => if f64_lt x y then y else x
  end.

(** An integer of a given sign as a float; a zero keeps the sign. *)
Definition f64_integral (s : bool) (n : Z) : f64 :=
  if n =? 0 then S754_zero s else f64_of_Z (if s then - n else n).

(** [f64::ceil]: towards plus infinity *)
Definition f64_ceil (x : f64) : f64 :=
  match x with
  | S754_finite s m e =>
      if 0 <=? e then x
      else f64_integral s (if s then Z.pos m / 2 ^ (- e) else div_ceil (Z.pos m) (2 ^ (- e)))
  | _ => x
  end.

(** [f64::round]: to the nearest integer, halves away from zero *)
Definition f64_round (x : f64) : f64 :=
  match x with
  | S754_finite s m e =>
      if 0 <=? e then x else f64_integral s ((Z.pos m + 2 ^ (- e - 1)) / 2 ^ (- e))
  | _ => x
  end.

(** [x as u64]: truncation, saturating, zero for NaN *)
Definition f64_to_u64 (x : f64) : Z :=
  match x with
  | S754_finite false m e => Z.min (2 ^ 64 - 1) (if 0 <=? e then Z.pos m * 2 ^ e else Z.pos m / 2 ^ (- e))
  | S754_infinity false => 2 ^ 64 - 1
  | _ => 0
  end.

Lemma f64_to_u64_uint x : uint 64 (f64_to_u64 x).
Proof.
  unfold uint. destruct x as [s|[]| |[] m e]; cbn; try lia. case_match eqn:He; [lia|].
  pose proof (Z.div_pos (Z.pos m) (2 ^ (- e)) ltac:(lia) ltac:(apply Z.pow_pos_nonneg; lia)). lia.
Qed.

Example f64_ceil_tests :
  f64_ceil (f64_div (f64_of_Z 7) (f64_of_Z 2)) = f64_of_Z 4 ∧
  f64_ceil (f64_div (f64_of_Z (-7)) (f64_of_Z 2)) = f64_of_Z (-3) ∧
  f64_round (f64_div (f64_of_Z 5) (f64_of_Z 2)) = f64_of_Z 3 ∧
  f64_round (f64_div (f64_of_Z (-1)) (f64_of_Z 2)) = f64_of_Z (-1) ∧
  f64_to_u64 (f64_div (f64_of_Z 19) (f64_of_Z 10)) = 1 ∧
  f64_to_u64 (f64_of_Z (2 ^ 70)) = 2 ^ 64 - 1.
Proof. repeat split; vm_compute; reflexivity. Qed.
