(* ===== verification/Pprof.v ===== *)
(** * The heap profiler ([src/src/pprof.rs], sampling and tables)

    Configuration, the byte countdown of a heap's sampler, the table of
    distinct stacks with their counters, and the side table of sampled
    pointers.  Floats are those of [F64]; the logarithm and the exponential,
    whose precision Rust does not fix, and the random generator of the [rand]
    crate are parameters ([PprofEnv]), and so
    are the frames of a backtrace.  The profile built from this state is in
    [Profile]. *)

From stdpp Require Import base numbers list gmap.
From Stdlib Require Import ZArith Lia.
From S2P Require Import Prelude F64.

Local Open Scope Z_scope.
Local Open Scope clm_scope.

(** ** Signed 64-bit arithmetic *)

(** The representative of [x] modulo 2^64 that an [i64] holds. *)
Definition to_i64 (x : Z) : Z := cast_signed 64 (wrap 64 x).

(** ** Configuration *)

Definition DEFAULT_SAMPLE_INTERVAL : Z := 512 * 1024.

Record PprofConfig := mkPprofConfig { sample_interval : Z }.
Definition PprofConfig_default : PprofConfig := mkPprofConfig DEFAULT_SAMPLE_INTERVAL.

(** ** Sampling *)

(** [rand::rngs::SmallRng] with its uniform draw from [0, 1), and libm. *)
Class PprofEnv (R : Type) := {
  seed_from_u64 : Z → R;
  random : R → f64 * R;
  ln : f64 → f64;
  exp : f64 → f64;
}.

Section pprof.
Context {R : Type} `{PprofEnv R}.

Definition geometric (rng : R) (mean : Z) : Z * R :=
  let '(u, rng) := random rng in
  let u := if f64_le u f64_zero then f64_MIN_POSITIVE else u in
  let result := f64_mul (f64_opp (f64_of_Z mean)) (ln u) in
  (Z.max (f64_to_u64 (f64_ceil result)) 1, rng).

(** The literal [1e-6]: the quotient of two exact integers, rounded once. *)
Definition f64_1e_6 : f64 := f64_div f64_one (f64_of_Z 1000000).

Definition unbiased_weight (size interval : Z) : Z :=
  let z := f64_of_Z size in
  let r := f64_of_Z interval in
  let ratio := f64_div z r in
  if f64_lt ratio f64_1e_6 then interval else
  let w := f64_div z (f64_sub f64_one (exp (f64_opp ratio))) in
  f64_to_u64 (f64_max (f64_round (f64_div w z)) f64_one).

Record Sampler := mkSampler { countdown : Z; rng : R; interval : Z }.

(** [i] is the value of [SAMPLE_INTERVAL]. *)
Definition Sampler_new (seed i : Z) : Sampler :=
  let '(c, r) := geometric (seed_from_u64 seed) i in mkSampler (cast_signed 64 c) r i.

Definition Sampler_reset (s : Sampler) : Sampler :=
  let '(c, r) := geometric (rng s) (interval s) in mkSampler (cast_signed 64 c) r (interval s).

Definition Sampler_check (s : Sampler) (size : Z) : bool * Sampler :=
  let s := mkSampler (to_i64 (countdown s - cast_signed 64 size)) (rng s) (interval s) in
  if countdown s <=? 0 then (true, Sampler_reset s) else (false, s).

(** ** Stacks and sampled pointers *)

Record StackCounters := mkCounters {
  alloc_count : Z;
  sc_alloc_bytes : Z;
  live_count : Z;
  live_bytes : Z;
}.

(** Frames are instruction pointers; the map is from stacks to indices of the counters. *)
Record StackTable := mkStackTable { map : gmap (list Z) Z; counters : list StackCounters }.
Definition StackTable_new : StackTable := mkStackTable ∅ [].

Definition StackTable_intern (st : StackTable) (frames : list Z) : Z * StackTable :=
  let next_id := wrap 32 (Z.of_nat (length (counters st))) in
  match map st !! frames with
  | Some id => (id, st)
  | None => (next_id, mkStackTable (<[frames := next_id]> (map st)) (counters st ++ [mkCounters 0 0 0 0]))
  end.

Record SampleRecord := mkRecord { stack_id : Z; sr_size : Z; class_idx : Z }.

Record PprofState := mkPprofState { stacks : StackTable; side : gmap Z SampleRecord }.
Definition PprofState_new : PprofState := mkPprofState StackTable_new ∅.

(** ** The profiler's global state *)

(** [PROF_ACTIVE], [SAMPLE_INTERVAL], [PPROF] and the threads whose [IN_PPROF] is set. *)
Record pprof := mkPprof {
  PROF_ACTIVE : bool;
  SAMPLE_INTERVAL : Z;
  PPROF : option PprofState;
  IN_PPROF : gset Z;
}.

Definition pprof_init : pprof := mkPprof false DEFAULT_SAMPLE_INTERVAL None ∅.

Definition set_pprof_config (p : pprof) (config : option PprofConfig) : res pprof :=
  match config with
  | Some c =>
      if 0 <? sample_interval c then Ok (mkPprof true (sample_interval c) (PPROF p) (IN_PPROF p))
      else Panic PanicAssert
  | None => Ok (mkPprof false (SAMPLE_INTERVAL p) (PPROF p) (IN_PPROF p))
  end.

Definition pprof_config (p : pprof) : option PprofConfig :=
  if PROF_ACTIVE p then Some (mkPprofConfig (SAMPLE_INTERVAL p)) else None.

Definition should_sample (p : pprof) : bool := PROF_ACTIVE p.

(** [ReentrancyGuard::acquire] and its [Drop]. *)
Definition guard_acquire (p : pprof) (t : Z) : bool * pprof :=
  (bool_decide (t ∉ IN_PPROF p), mkPprof (PROF_ACTIVE p) (SAMPLE_INTERVAL p) (PPROF p) ({[t]} ∪ IN_PPROF p)).
Definition guard_drop (p : pprof) (t : Z) : pprof :=
  mkPprof (PROF_ACTIVE p) (SAMPLE_INTERVAL p) (PPROF p) (IN_PPROF p ∖ {[t]}).

(** [held]: the calling thread is inside [with_state] already.  The mutex
    [PPROF] is not reentrant, so it would wait for itself. *)
Definition with_state (held : bool) (p : pprof) (f : PprofState → res PprofState) : res pprof :=
  if held then Panic PanicDeadlock else
  st ← f (default PprofState_new (PPROF p));
  Ok (mkPprof (PROF_ACTIVE p) (SAMPLE_INTERVAL p) (Some st) (IN_PPROF p)).

Definition count_sample (weight size : Z) (c : StackCounters) : StackCounters :=
  mkCounters (alloc_count c +[64] weight) (sc_alloc_bytes c +[64] wrap 64 (weight * size))
    (to_i64 (live_count c + cast_signed 64 weight))
    (to_i64 (live_bytes c + cast_signed 64 (wrap 64 (weight * size)))).

Definition uncount_sample (weight size : Z) (c : StackCounters) : StackCounters :=
  mkCounters (alloc_count c) (sc_alloc_bytes c)
    (to_i64 (live_count c - cast_signed 64 weight))
    (to_i64 (live_bytes c - cast_signed 64 (wrap 64 (weight * size)))).

(** [stack] is the whole backtrace, of which at most 128 frames are taken. *)
Definition record_sample_in (held : bool) (p : pprof) (t ptr size class_idx : Z) (stack : list Z) : res pprof :=
  let '(guard, p) := guard_acquire p t in
  if negb guard then Ok p else
  let frames := take 128 stack in
  let interval := SAMPLE_INTERVAL p in
  p ← with_state held p (λ state,
    let '(stack_id, stacks) := StackTable_intern (stacks state) frames in
    let weight := unbiased_weight size interval in
    counters ← arr_update (counters stacks) stack_id (count_sample weight size);
    Ok (mkPprofState (mkStackTable (map stacks) counters)
          (<[ptr := mkRecord stack_id size class_idx]> (side state))));
  Ok (guard_drop p t).

Definition maybe_remove_sample_in (held : bool) (p : pprof) (t ptr : Z) : res pprof :=
  let '(guard, p) := guard_acquire p t in
  if negb guard then Ok p else
  p ← with_state held p (λ state,
    match side state !! ptr with
    | None => Ok state
    | Some record =>
        let weight := unbiased_weight (sr_size record) (SAMPLE_INTERVAL p) in
        counters ← arr_update (counters (stacks state)) (stack_id record)
                     (uncount_sample weight (sr_size record));
        Ok (mkPprofState (mkStackTable (map (stacks state)) counters) (delete ptr (side state)))
    end);
  Ok (guard_drop p t).

(** Called by a thread that does not hold [PPROF]. *)
Definition record_sample : pprof → Z → Z → Z → Z → list Z → res pprof := record_sample_in false.
Definition maybe_remove_sample : pprof → Z → Z → res pprof := maybe_remove_sample_in false.

(** ** The hooks in the heap ([src/src/heap.rs]) *)

Definition maybe_sample (p : pprof) (s : Sampler) (t ptr size class_idx : Z) (stack : list Z)
    : res (Sampler * pprof) :=
  if should_sample p then
    let '(hit, s) := Sampler_check s size in
    if hit then p ← record_sample p t ptr size class_idx stack; Ok (s, p) else Ok (s, p)
  else Ok (s, p).

(** What [Heap::dealloc] does first. *)
Definition dealloc_hook (p : pprof) (t ptr : Z) : res pprof :=
  if should_sample p then maybe_remove_sample p t ptr else Ok p.

(** ** The countdown *)

Fixpoint Sampler_run (s : Sampler) (sizes : list Z) : list bool * Sampler :=
  match sizes with
  | [] => ([], s)
  | size :: sizes =>
      let '(b, s) := Sampler_check s size in
      let '(bs, s) := Sampler_run s sizes in (b :: bs, s)
  end.

Definition i64_nat (x : Z) : Prop := 0 ≤ x < 2 ^ 63.

Lemma to_i64_small x : - 2 ^ 63 ≤ x < 2 ^ 63 → to_i64 x = x.
Proof.
  intros Hx. unfold to_i64, cast_signed, wrap. change (64 - 1) with 63.
  destruct (Z.ltb_spec (x mod 2 ^ 64) (2 ^ 63)); destruct (Z.le_gt_cases 0 x);
    (rewrite Z.mod_small in * by lia) || (rewrite <- (Z.mod_add x 1) in * by lia; rewrite Z.mod_small in * by lia); lia.
Qed.

Lemma wrap_to_i64 x : wrap 64 (to_i64 x) = wrap 64 x.
Proof.
  unfold to_i64, cast_signed. pose proof (wrap_bound 64 x ltac:(lia)) as Hb. unfold uint in Hb.
  case_match; [by apply wrap_small|]. unfold wrap in *. rewrite <- (Z.mod_add (x mod 2 ^ 64 - 2 ^ 64) 1) by lia.
  rewrite Z.mod_small by lia. lia.
Qed.

Lemma to_i64_eq x y : wrap 64 x = wrap 64 y → to_i64 x = to_i64 y.
Proof. unfold to_i64. by intros ->. Qed.

(** Adding or subtracting modulo 2^64 what an [i64] holds. *)
Lemma to_i64_add x y : to_i64 (to_i64 x + cast_signed 64 (wrap 64 y)) = to_i64 (x + y).
Proof.
  apply to_i64_eq. fold (to_i64 y). rewrite <- wrap_add, wrap_to_i64, wrap_add, Z.add_comm, <- wrap_add.
  rewrite wrap_to_i64, wrap_add. f_equal. lia.
Qed.

Lemma to_i64_sub x y : to_i64 (to_i64 (x + y) - cast_signed 64 (wrap 64 y)) = to_i64 x.
Proof.
  apply to_i64_eq. fold (to_i64 y). rewrite <- wrap_sub, wrap_to_i64, wrap_sub.
  unfold wrap. rewrite Zminus_mod. pose proof (wrap_to_i64 y) as Hy. unfold wrap in Hy. rewrite Hy.
  rewrite <- Zminus_mod. f_equal. lia.
Qed.

Lemma Sampler_check_spec s size :
  i64_nat (countdown s) → i64_nat size →
  Sampler_check s size =
    if countdown s <=? size then (true, Sampler_reset s)
    else (false, mkSampler (countdown s - size) (rng s) (interval s)).
Proof.
  unfold i64_nat. intros Hc Hs. unfold Sampler_check. cbn [countdown].
  assert (cast_signed 64 size = size) as -> by (unfold cast_signed; change (64 - 1) with 63; by destruct (Z.ltb_spec size (2 ^ 63)); [|lia]).
  rewrite to_i64_small by lia. destruct (Z.leb_spec (countdown s - size) 0), (Z.leb_spec (countdown s) size); try lia; done.
Qed.

(** Checks that stay below the countdown only subtract. *)
Lemma Sampler_run_quiet s sizes rest :
  i64_nat (countdown s) → Forall i64_nat sizes → sum_Z sizes < countdown s →
  Sampler_run s (sizes ++ rest) =
    let '(bs, s') := Sampler_run (mkSampler (countdown s - sum_Z sizes) (rng s) (interval s)) rest in
    (replicate (length sizes) false ++ bs, s').
Proof.
  revert s. induction sizes as [|z sizes IH]; intros s Hc Hs Hlt; cbn [app Sampler_run sum_Z foldr length replicate].
  - replace (countdown s - 0) with (countdown s) by lia. destruct s. cbn. by destruct (Sampler_run _ rest).
  - apply Forall_cons in Hs as [Hz Hs]. cbn [sum_Z foldr] in Hlt. fold (sum_Z sizes) in *.
    assert (0 ≤ sum_Z sizes) as Hpos by (clear -Hs; unfold i64_nat in *; induction Hs; cbn in *; unfold sum_Z in *; lia).
    rewrite Sampler_check_spec by done. unfold i64_nat in *. destruct (Z.leb_spec (countdown s) z); [lia|].
    rewrite IH; cbn [countdown rng interval]; [|lia|done|lia].
    replace (countdown s - z - sum_Z sizes) with (countdown s - (z + sum_Z sizes)) by lia.
    by destruct (Sampler_run _ rest).
Qed.

(** ** The tables *)

Inductive pprof_event :=
  | PRecord (t ptr size class_idx : Z) (stack : list Z)
  | PRemove (t ptr : Z).

Definition pprof_exec (p : pprof) (e : pprof_event) : res pprof :=
  match e with
  | PRecord t ptr size c stack => record_sample p t ptr size c stack
  | PRemove t ptr => maybe_remove_sample p t ptr
  end.

Fixpoint pprof_run (p : pprof) (es : list pprof_event) : res pprof :=
  match es with
  | [] => Ok p
  | e :: es => p ← pprof_exec p e; pprof_run p es
  end.

(** A sample is its stack and size; the samples taken so far, and those of blocks not yet freed. *)
Abbreviation sample := (list Z * Z)%type.
Record samples := mkSamples { taken : list sample; held : gmap Z sample }.

Definition samples_step (s : samples) (e : pprof_event) : samples :=
  match e with
  | PRecord _ ptr size _ stack =>
      mkSamples ((take 128 stack, size) :: taken s) (<[ptr := (take 128 stack, size)]> (held s))
  | PRemove _ ptr => mkSamples (taken s) (delete ptr (held s))
  end.

(** A sampled block is not sampled again before it is freed. *)
Definition fresh_sample (s : samples) (e : pprof_event) : Prop :=
  match e with PRecord _ ptr _ _ _ => held s !! ptr = None | PRemove _ _ => True end.

Fixpoint fresh_run (s : samples) (es : list pprof_event) : Prop :=
  match es with [] => True | e :: es => fresh_sample s e ∧ fresh_run (samples_step s e) es end.

Definition samples_after (es : list pprof_event) : samples := foldl samples_step (mkSamples [] ∅) es.

(** What the samples of stack [f] weigh, [w] being the weight of a size. *)
Definition share (f : list Z) (w : Z → Z) (x : sample) : Z := if decide (fst x = f) then w (snd x) else 0.
Definition taken_sum (f : list Z) (w : Z → Z) (l : list sample) : Z := foldr (λ x acc, share f w x + acc) 0 l.
Definition held_sum (f : list Z) (w : Z → Z) (m : gmap Z sample) : Z :=
  map_fold (λ _ x acc, share f w x + acc) 0 m.

Lemma held_sum_insert f w m ptr x :
  m !! ptr = None → held_sum f w (<[ptr := x]> m) = share f w x + held_sum f w m.
Proof. intros Hm. unfold held_sum. rewrite (map_fold_insert_L _ _ ptr x m); [done|intros; lia|done]. Qed.

Lemma held_sum_delete f w m ptr x :
  m !! ptr = Some x → held_sum f w m = share f w x + held_sum f w (delete ptr m).
Proof. intros Hm. unfold held_sum. rewrite (map_fold_delete_L _ _ ptr x m); [done|intros; lia|done]. Qed.

Record counted (i : Z) (s : samples) (f : list Z) (c : StackCounters) : Prop := {
  ct_alloc : alloc_count c = wrap 64 (taken_sum f (λ z, unbiased_weight z i) (taken s));
  ct_alloc_bytes : sc_alloc_bytes c = wrap 64 (taken_sum f (λ z, unbiased_weight z i * z) (taken s));
  ct_live : live_count c = to_i64 (held_sum f (λ z, unbiased_weight z i) (held s));
  ct_live_bytes : live_bytes c = to_i64 (held_sum f (λ z, unbiased_weight z i * z) (held s));
}.

Record tables_ok (i : Z) (n : nat) (s : samples) (st : PprofState) : Prop := {
  to_ids f id : map (stacks st) !! f = Some id → 0 ≤ id < Z.of_nat (length (counters (stacks st)));
  to_inj f f' id : map (stacks st) !! f = Some id → map (stacks st) !! f' = Some id → f = f';
  to_counted f id c : map (stacks st) !! f = Some id → counters (stacks st) !! Z.to_nat id = Some c →
    counted i s f c;
  to_unseen f : map (stacks st) !! f = None → f ∉ fst <$> taken s ∧ ∀ ptr x, held s !! ptr = Some x → fst x ≠ f;
  to_side ptr : side st !! ptr = None ↔ held s !! ptr = None;
  to_record ptr r x : side st !! ptr = Some r → held s !! ptr = Some x →
    map (stacks st) !! fst x = Some (stack_id r) ∧ sr_size r = snd x;
  to_length : (length (counters (stacks st)) ≤ n)%nat;
}.

Lemma share_other f w x : fst x ≠ f → share f w x = 0.
Proof. intros Hne. unfold share. by rewrite decide_False. Qed.

Lemma share_same f w z : share f w (f, z) = w z.
Proof. unfold share. by rewrite decide_True. Qed.

Lemma taken_sum_unseen f w l : f ∉ fst <$> l → taken_sum f w l = 0.
Proof.
  induction l as [|x l IH]; [done|]. cbn. intros [Hne Hf]%not_elem_of_cons.
  fold (taken_sum f w l). rewrite share_other by (by intros <-). by rewrite IH.
Qed.

Lemma held_sum_unseen f w m : (∀ ptr x, m !! ptr = Some x → fst x ≠ f) → held_sum f w m = 0.
Proof.
  induction m as [|ptr x m Hm IH] using map_ind; intros Hf; [done|].
  rewrite held_sum_insert by done. rewrite share_other, IH; [done| |by apply (Hf ptr); apply lookup_insert_eq].
  intros ptr' x' Hx. apply (Hf ptr'). rewrite lookup_insert_ne; [done|]. intros ->. congruence.
Qed.

(** Interning a stack gives it an index and changes no count. *)
Lemma intern_tables i n s st f id stk :
  tables_ok i n s st → Z.of_nat n < 2 ^ 32 → StackTable_intern (stacks st) f = (id, stk) →
  map stk !! f = Some id ∧ tables_ok i (S n) s (mkPprofState stk (side st)).
Proof.
  intros [Hid Hinj Hct Hun Hsd Hrec Hlen] Hn. unfold StackTable_intern.
  destruct (map (stacks st) !! f) as [id'|] eqn:Hf.
  { intros [= <- <-]. split; [done|]. split; try done. cbn. lia. }
  intros [= <- <-]. cbn [map counters stacks side]. rewrite wrap_small by (unfold uint; lia).
  split; [apply lookup_insert_eq|]. set (len := Z.of_nat (length (counters (stacks st)))).
  split; cbn [map counters stacks side].
  - intros f' id'. rewrite length_app, lookup_insert. cbn. case_decide; [intros [= <-]; lia|].
    intros Hf'%Hid. lia.
  - intros f1 f2 id'. rewrite !lookup_insert. case_decide; case_decide; subst; try done.
    + intros [= <-] H2%Hid. lia.
    + intros H1%Hid [= <-]. lia.
    + apply Hinj.
  - intros f' id' c. rewrite lookup_insert. case_decide as Heq.
    + subst f'. intros [= <-]. unfold len. rewrite Nat2Z.id. rewrite list_lookup_middle by done. intros [= <-].
      destruct (Hun f Hf) as [Ht Hh]. split; cbn; by rewrite ?taken_sum_unseen, ?held_sum_unseen.
    + intros Hf' [[_ Hc]|[Hge _]]%lookup_snoc_Some.
      * by apply (Hct f' id').
      * apply Hid in Hf'. lia.
  - intros f'. rewrite lookup_insert. case_decide; [done|]. apply Hun.
  - exact Hsd.
  - intros ptr r x Hr Hx. destruct (Hrec ptr r x Hr Hx) as [Hm Hz]. split; [|done].
    rewrite lookup_insert_ne; [done|]. intros ->. congruence.
  - rewrite length_app. cbn. lia.
Qed.

(** Changing the counters of one stack along with the samples. *)
Lemma update_tables i n s s' st f id side' (g : StackCounters → StackCounters) :
  tables_ok i n s st → map (stacks st) !! f = Some id →
  (∀ c, counted i s f c → counted i s' f (g c)) →
  (∀ f' c, f' ≠ f → counted i s f' c → counted i s' f' c) →
  (∀ f', f' ≠ f → f' ∈ fst <$> taken s' → f' ∈ fst <$> taken s) →
  (∀ ptr x, held s' !! ptr = Some x → fst x ≠ f → held s !! ptr = Some x) →
  (∀ ptr, side' !! ptr = None ↔ held s' !! ptr = None) →
  (∀ ptr r x, side' !! ptr = Some r → held s' !! ptr = Some x →
     map (stacks st) !! fst x = Some (stack_id r) ∧ sr_size r = snd x) →
  ∃ cs, arr_update (counters (stacks st)) id g = Ok cs ∧
    tables_ok i n s' (mkPprofState (mkStackTable (map (stacks st)) cs) side').
Proof.
  intros [Hid Hinj Hct Hun Hsd Hrec Hlen] Hf Hg Ho Ht Hh Hsd' Hrec'. pose proof (Hid f id Hf) as Hr.
  destruct (arr_get_total (counters (stacks st)) id Hr) as (c & Hc & Hlk).
  exists (<[Z.to_nat id := g c]> (counters (stacks st))). unfold arr_update. rewrite Hc. cbn [mbind res_bind].
  split; [by apply arr_set_total|]. split; cbn [map counters stacks side]; try done.
  - intros f' id' Hf'. rewrite length_insert. by apply (Hid f').
  - intros f' id' c' Hf'. rewrite list_lookup_insert. case_decide as Heq.
    + destruct Heq as [Heq _]. assert (id' = id) as -> by (apply Hid in Hf'; lia).
      rewrite (Hinj f' f id Hf' Hf). intros [= <-]. apply Hg. by apply (Hct f id).
    + intros Hc'. apply Ho; [|by apply (Hct f' id')]. intros ->. rewrite Hf in Hf'. injection Hf' as <-.
      apply Heq. split; [done|]. by eapply lookup_lt_Some.
  - intros f' Hf'. assert (f' ≠ f) as Hne by congruence. destruct (Hun f' Hf') as [Hn Hn']. split.
    + by intros Hin%Ht.
    + intros ptr x Hx Heq. apply (Hn' ptr x); [|done]. apply Hh; [done|]. congruence.
  - by rewrite length_insert.
Qed.

(** ** Machine types *)

Record counter_typed (c : StackCounters) : Prop := {
  cty_count : uint 64 (alloc_count c);
  cty_bytes : uint 64 (sc_alloc_bytes c);
  cty_live : - 2 ^ 63 ≤ live_count c < 2 ^ 63;
  cty_live_bytes : - 2 ^ 63 ≤ live_bytes c < 2 ^ 63;
}.

(** Every index into the counters is in range, every counter is a machine word. *)
Record state_typed (st : PprofState) : Prop := {
  sty_map : map_Forall (λ _ id, 0 ≤ id < Z.of_nat (length (counters (stacks st)))) (map (stacks st));
  sty_side : map_Forall (λ _ r, 0 ≤ stack_id r < Z.of_nat (length (counters (stacks st)))) (side st);
  sty_counters : Forall counter_typed (counters (stacks st));
}.

(** A change of configuration, a sample, and the free of a block. *)
Inductive pprof_op :=
  | OpConfig (config : option PprofConfig)
  | OpSample (t ptr size class_idx : Z) (stack : list Z)
  | OpFree (t ptr : Z).

Definition pprof_do (p : pprof) (op : pprof_op) : res pprof :=
  match op with
  | OpConfig config => set_pprof_config p config
  | OpSample t ptr size c stack => record_sample p t ptr size c stack
  | OpFree t ptr => dealloc_hook p t ptr
  end.

(** What an operation finds afterwards.  The assertion of [set_pprof_config] is
    its first step, so when it fails (and the program goes on) nothing changed. *)
Definition pprof_attempt (p : pprof) (op : pprof_op) : pprof :=
  match pprof_do p op with Ok p' => p' | Panic _ => p end.
Definition pprof_after (p : pprof) (ops : list pprof_op) : pprof := foldl pprof_attempt p ops.

(** [set_pprof_config] asserts that the interval is positive. *)
Definition bad_config (op : pprof_op) : bool :=
  match op with OpConfig (Some c) => sample_interval c <=? 0 | _ => false end.

Definition is_sample (op : pprof_op) : bool := match op with OpSample _ _ _ _ _ => true | _ => false end.
Definition samples_of (ops : list pprof_op) : Z := Z.of_nat (length (List.filter is_sample ops)).

(** The arguments are machine words. *)
Definition op_typed (op : pprof_op) : Prop :=
  match op with
  | OpConfig (Some c) => uint 64 (sample_interval c)
  | OpSample _ _ size _ _ => uint 64 size
  | _ => True
  end.

(** How many objects and bytes the counters move by, at most. *)
Definition sample_load (p : pprof) (size : Z) : Z := unbiased_weight size (SAMPLE_INTERVAL p) * (1 + size).
Definition op_load (p : pprof) (op : pprof_op) : Z :=
  match op with
  | OpConfig _ => 0
  | OpSample _ _ size _ _ => sample_load p size
  | OpFree _ ptr =>
      match side (default PprofState_new (PPROF p)) !! ptr with
      | Some r => sample_load p (sr_size r)
      | None => 0
      end
  end.
Fixpoint pprof_load (p : pprof) (ops : list pprof_op) : Z :=
  match ops with
  | [] => 0
  | op :: ops => op_load p op + pprof_load (pprof_attempt p op) ops
  end.

(** [count_sample] and [uncount_sample] over the integers. *)
Definition plain_count (weight size : Z) (c : StackCounters) : StackCounters :=
  mkCounters (alloc_count c + weight) (sc_alloc_bytes c + weight * size)
    (live_count c + weight) (live_bytes c + weight * size).
Definition plain_uncount (weight size : Z) (c : StackCounters) : StackCounters :=
  mkCounters (alloc_count c) (sc_alloc_bytes c) (live_count c - weight) (live_bytes c - weight * size).

Lemma to_i64_typed x : - 2 ^ 63 ≤ to_i64 x < 2 ^ 63.
Proof.
  unfold to_i64, cast_signed. pose proof (wrap_bound 64 x ltac:(lia)) as Hb. unfold uint in Hb.
  change (64 - 1) with 63. destruct (Z.ltb_spec (wrap 64 x) (2 ^ 63)); lia.
Qed.

Lemma count_typed w z c : counter_typed c → counter_typed (count_sample w z c).
Proof. intros [H1 H2 H3 H4]. split; cbn; apply wrap_bound || apply to_i64_typed; lia. Qed.

Lemma uncount_typed w z c : counter_typed c → counter_typed (uncount_sample w z c).
Proof. intros [H1 H2 H3 H4]. split; cbn; done || apply to_i64_typed. Qed.

Lemma intern_typed st f id stk :
  state_typed st → Z.of_nat (length (counters (stacks st))) < 2 ^ 32 →
  StackTable_intern (stacks st) f = (id, stk) →
  state_typed (mkPprofState stk (side st)) ∧ 0 ≤ id < Z.of_nat (length (counters stk)) ∧
  (length (counters stk) ≤ S (length (counters (stacks st))))%nat.
Proof.
  intros [Hm Hs Hc] Hlen. unfold StackTable_intern. destruct (map (stacks st) !! f) as [id'|] eqn:Hf.
  - intros [= <- <-]. split; [by split|]. pose proof (Hm f id' Hf). cbn in *. lia.
  - intros [= <- <-]. rewrite wrap_small by (unfold uint; lia).
    split; [split|]; cbn [stacks map counters side]; rewrite ?length_app; cbn [length]; [| | |lia].
    + intros f' i. rewrite lookup_insert. case_decide; [intros [= <-]; lia|]. intros Hi%Hm. lia.
    + intros q r Hr%Hs. lia.
    + apply Forall_app. split; [done|]. repeat constructor; cbn; lia.
Qed.

Lemma update_typed st cs id g side' :
  state_typed st → arr_update (counters (stacks st)) id g = Ok cs →
  (∀ c, counter_typed c → counter_typed (g c)) →
  map_Forall (λ _ r, 0 ≤ stack_id r < Z.of_nat (length (counters (stacks st)))) side' →
  state_typed (mkPprofState (mkStackTable (map (stacks st)) cs) side') ∧
  length cs = length (counters (stacks st)).
Proof.
  intros [Hm Hs Hc] Hu Hg Hside. unfold arr_update in Hu. apply res_bind_ok in Hu as (c & Hget & Hset).
  apply arr_get_inv in Hget as Hc'. destruct Hc' as [Hi Hl]. unfold arr_set in Hset. rewrite Hget in Hset.
  injection Hset as <-. rewrite length_insert. split; [|done].
  split; cbn [stacks map counters side]; rewrite ?length_insert; [done|done|].
  apply Forall_insert; [done|]. apply Hg. by eapply Forall_lookup_1.
Qed.

(** Between two calls, with at most [n] stacks. *)
Record pprof_typed (n : nat) (p : pprof) : Prop := {
  pt_idle : IN_PPROF p = ∅;
  pt_state : state_typed (default PprofState_new (PPROF p));
  pt_length : (length (counters (stacks (default PprofState_new (PPROF p)))) ≤ n)%nat;
}.

Lemma record_sample_typed n p t ptr size c stack :
  pprof_typed n p → Z.of_nat n < 2 ^ 32 →
  ∃ p', record_sample p t ptr size c stack = Ok p' ∧ pprof_typed (S n) p'.
Proof.
  intros [Hidle Hst Hlen] Hn. unfold record_sample, record_sample_in, guard_acquire. rewrite Hidle.
  rewrite bool_decide_eq_true_2 by set_solver. cbn [negb]. unfold with_state.
  cbn [PPROF SAMPLE_INTERVAL PROF_ACTIVE IN_PPROF]. set (st := default PprofState_new (PPROF p)) in *.
  destruct (StackTable_intern (stacks st) (take 128 stack)) as [id stk] eqn:Hin.
  destruct (intern_typed st (take 128 stack) id stk Hst) as (Hst' & Hid & Hl); [lia|done|].
  destruct (arr_update_total (counters stk) id (count_sample (unbiased_weight size (SAMPLE_INTERVAL p)) size) Hid)
    as (cs & Hu & _). rewrite Hu. cbn [mbind res_bind]. eexists. split; [done|].
  destruct (update_typed _ cs id _ (<[ptr := mkRecord id size c]> (side st)) Hst' Hu) as [Hty Hlcs].
  - intros c0. apply count_typed.
  - apply map_Forall_insert_2; [done|]. apply Hst'.
  - split; cbn [guard_drop IN_PPROF PPROF default]; [set_solver|done|]. cbn in Hlcs |- *. lia.
Qed.

Lemma dealloc_hook_typed n p t ptr :
  pprof_typed n p → ∃ p', dealloc_hook p t ptr = Ok p' ∧ pprof_typed n p'.
Proof.
  intros Hp. unfold dealloc_hook. destruct (should_sample p); [|by exists p]. destruct Hp as [Hidle Hst Hlen].
  unfold maybe_remove_sample, maybe_remove_sample_in, guard_acquire. rewrite Hidle.
  rewrite bool_decide_eq_true_2 by set_solver. cbn [negb]. unfold with_state.
  cbn [PPROF SAMPLE_INTERVAL PROF_ACTIVE IN_PPROF]. set (st := default PprofState_new (PPROF p)) in *.
  destruct (side st !! ptr) as [r|] eqn:Hr.
  - pose proof (sty_side _ Hst ptr r Hr) as Hid.
    destruct (arr_update_total (counters (stacks st)) (stack_id r)
      (uncount_sample (unbiased_weight (sr_size r) (SAMPLE_INTERVAL p)) (sr_size r)) Hid) as (cs & Hu & _).
    rewrite Hu. cbn [mbind res_bind]. eexists. split; [done|].
    destruct (update_typed _ cs _ _ (delete ptr (side st)) Hst Hu) as [Hty Hlcs].
    + intros c0. apply uncount_typed.
    + apply map_Forall_delete, Hst.
    + split; cbn [guard_drop IN_PPROF PPROF default]; [set_solver|done|]. cbn in Hlcs |- *. lia.
  - cbn [mbind res_bind]. eexists. split; [done|].
    split; cbn [guard_drop IN_PPROF PPROF default]; [set_solver|done|done].
Qed.

Lemma set_config_typed n p config p' : pprof_typed n p → set_pprof_config p config = Ok p' → pprof_typed n p'.
Proof.
  intros [Hidle Hst Hlen]. destruct config as [c|]; cbn; [destruct (0 <? _); [|done]|]; intros [= <-]; by split.
Qed.

(** One operation: it panics exactly for the interval 0. *)
Lemma pprof_do_typed n p op :
  pprof_typed n p → Z.of_nat n < 2 ^ 32 →
  (if bad_config op then pprof_do p op = Panic PanicAssert else ∃ p', pprof_do p op = Ok p') ∧
  pprof_typed (if is_sample op then S n else n) (pprof_attempt p op).
Proof.
  intros Hp Hn. unfold pprof_attempt. destruct op as [config|t ptr size c stack|t ptr]; cbn [pprof_do bad_config is_sample].
  - destruct (set_pprof_config p config) as [p'|e] eqn:E.
    + split; [|by eapply set_config_typed]. destruct config as [c|]; [|by exists p']. cbn in E.
      destruct (Z.ltb_spec 0 (sample_interval c)); [|done]. destruct (Z.leb_spec (sample_interval c) 0); [lia|by exists p'].
    + split; [|done]. destruct config as [c|]; [|done]. cbn in E.
      destruct (Z.ltb_spec 0 (sample_interval c)); [done|]. destruct (Z.leb_spec (sample_interval c) 0); [done|lia].
  - destruct (record_sample_typed n p t ptr size c stack Hp Hn) as (p' & -> & Hp'). split; [by exists p'|done].
  - destruct (dealloc_hook_typed n p t ptr Hp) as (p' & -> & Hp'). split; [by exists p'|done].
Qed.

Lemma pprof_after_typed ops : ∀ n p,
  pprof_typed n p → Z.of_nat n + samples_of ops < 2 ^ 32 →
  ∃ n', pprof_typed n' (pprof_after p ops) ∧ Z.of_nat n' < 2 ^ 32.
Proof.
  induction ops as [|op ops IH]; intros n p Hp Hn; [exists n; split; [done|change (samples_of []) with 0 in Hn; lia]|].
  destruct (pprof_do_typed n p op Hp) as [_ Hp']; [unfold samples_of in Hn; lia|]. unfold samples_of in *.
  cbn [pprof_after foldl List.filter] in *. destruct (is_sample op); cbn [length] in *; (eapply IH; [exact Hp'|lia]).
Qed.

(** *** No wrap-around *)

Lemma unbiased_weight_uint size i : uint 64 i → uint 64 (unbiased_weight size i).
Proof. intros Hi. unfold unbiased_weight. case_match; [done|apply f64_to_u64_uint]. Qed.

(** Counters between [-B] and [B]. *)
Record counter_within (B : Z) (c : StackCounters) : Prop := {
  cw_count : 0 ≤ alloc_count c ≤ B;
  cw_bytes : 0 ≤ sc_alloc_bytes c ≤ B;
  cw_live : - B ≤ live_count c ≤ B;
  cw_live_bytes : - B ≤ live_bytes c ≤ B;
}.

Lemma cast_plain x : 0 ≤ x < 2 ^ 63 → cast_signed 64 x = x.
Proof. intros Hx. unfold cast_signed. change (64 - 1) with 63. by destruct (Z.ltb_spec x (2 ^ 63)); [|lia]. Qed.

Lemma count_within B w z c :
  counter_within B c → 0 ≤ w → 0 ≤ z → B + w * (1 + z) < 2 ^ 63 →
  count_sample w z c = plain_count w z c ∧ counter_within (B + w * (1 + z)) (count_sample w z c).
Proof.
  intros [H1 H2 H3 H4] Hw Hz Hlt. assert (0 ≤ w * z) by nia. assert (w * (1 + z) = w + w * z) as Heq by lia. rewrite Heq in *.
  assert (count_sample w z c = plain_count w z c) as ->.
  { unfold count_sample, plain_count. rewrite (wrap_small 64 (w * z)) by (unfold uint; lia).
    rewrite !wadd_small by (unfold uint; lia). rewrite !cast_plain, !to_i64_small by lia. done. }
  split; [done|]. split; cbn; lia.
Qed.

Lemma uncount_within B w z c :
  counter_within B c → 0 ≤ w → 0 ≤ z → B + w * (1 + z) < 2 ^ 63 →
  uncount_sample w z c = plain_uncount w z c ∧ counter_within (B + w * (1 + z)) (uncount_sample w z c).
Proof.
  intros [H1 H2 H3 H4] Hw Hz Hlt. assert (0 ≤ w * z) by nia. assert (w * (1 + z) = w + w * z) as Heq by lia. rewrite Heq in *.
  assert (uncount_sample w z c = plain_uncount w z c) as ->.
  { unfold uncount_sample, plain_uncount. rewrite (wrap_small 64 (w * z)) by (unfold uint; lia).
    rewrite !cast_plain, !to_i64_small by lia. done. }
  split; [done|]. split; cbn; lia.
Qed.

Lemma arr_update_Forall {A} (P Q : A → Prop) (l l' : list A) i g :
  arr_update l i g = Ok l' → Forall P l → (∀ c, P c → Q c) → (∀ c, P c → Q (g c)) → Forall Q l'.
Proof.
  intros (c & _ & Hl & ->)%arr_update_inv HP Hw Hg. apply Forall_insert; [by eapply Forall_impl|].
  apply Hg. by eapply Forall_lookup_1.
Qed.

Lemma intern_counters (P : StackCounters → Prop) st f id stk :
  StackTable_intern st f = (id, stk) → P (mkCounters 0 0 0 0) → Forall P (counters st) → Forall P (counters stk).
Proof.
  unfold StackTable_intern. destruct (map st !! f); intros [= <- <-] H0 HP; [done|]. apply Forall_app. auto.
Qed.

(** Interval and sizes of samples are not negative. *)
Record pprof_sane (p : pprof) : Prop := {
  ps_interval : uint 64 (SAMPLE_INTERVAL p);
  ps_side : map_Forall (λ _ r, 0 ≤ sr_size r) (side (default PprofState_new (PPROF p)));
}.

(** No counter exceeds [B]. *)
Definition pprof_within (B : Z) (p : pprof) : Prop :=
  Forall (counter_within B) (counters (stacks (default PprofState_new (PPROF p)))).

Lemma counter_within_mono B B' c : B ≤ B' → counter_within B c → counter_within B' c.
Proof. intros HB [H1 H2 H3 H4]. split; lia. Qed.

Lemma pprof_within_mono B B' p : B ≤ B' → pprof_within B p → pprof_within B' p.
Proof. intros HB Hp. eapply Forall_impl; [exact Hp|]. intros c. by apply counter_within_mono. Qed.

Lemma weight_nonneg p size : pprof_sane p → 0 ≤ unbiased_weight size (SAMPLE_INTERVAL p).
Proof. intros Hp. apply unbiased_weight_uint, Hp. Qed.

Lemma op_load_nonneg p op : pprof_sane p → op_typed op → 0 ≤ op_load p op.
Proof.
  intros Hp Hop. destruct op as [config|t ptr size c stack|t ptr]; cbn in *; [done| |].
  - pose proof (weight_nonneg p size Hp). unfold sample_load. destruct Hop. nia.
  - destruct (side _ !! ptr) as [r|] eqn:Hr; [|done]. pose proof (weight_nonneg p (sr_size r) Hp).
    pose proof (ps_side _ Hp ptr r Hr). unfold sample_load. cbn in *. nia.
Qed.

(** What a sample and a free leave, the guard apart. *)
Lemma record_sample_result p t ptr size c stack p' :
  IN_PPROF p = ∅ → record_sample p t ptr size c stack = Ok p' →
  let st := default PprofState_new (PPROF p) in
  ∃ id stk cs, StackTable_intern (stacks st) (take 128 stack) = (id, stk) ∧
    arr_update (counters stk) id (count_sample (unbiased_weight size (SAMPLE_INTERVAL p)) size) = Ok cs ∧
    SAMPLE_INTERVAL p' = SAMPLE_INTERVAL p ∧
    PPROF p' = Some (mkPprofState (mkStackTable (map stk) cs) (<[ptr := mkRecord id size c]> (side st))).
Proof.
  intros Hidle E. unfold record_sample, record_sample_in, guard_acquire in E.
  rewrite Hidle, bool_decide_eq_true_2 in E by set_solver. cbn [negb] in E.
  unfold with_state in E. cbn [PPROF SAMPLE_INTERVAL PROF_ACTIVE IN_PPROF] in E.
  destruct (StackTable_intern _ _) as [id stk] eqn:Hin. bind_inv E as p1 E1. injection E as <-.
  bind_inv E1 as st E2. injection E1 as <-. bind_inv E2 as cs E3. injection E2 as <-. by exists id, stk, cs.
Qed.

Lemma remove_sample_result p t ptr p' :
  IN_PPROF p = ∅ → maybe_remove_sample p t ptr = Ok p' →
  let st := default PprofState_new (PPROF p) in
  SAMPLE_INTERVAL p' = SAMPLE_INTERVAL p ∧
  match side st !! ptr with
  | None => PPROF p' = Some st
  | Some r => ∃ cs,
      arr_update (counters (stacks st)) (stack_id r)
        (uncount_sample (unbiased_weight (sr_size r) (SAMPLE_INTERVAL p)) (sr_size r)) = Ok cs ∧
      PPROF p' = Some (mkPprofState (mkStackTable (map (stacks st)) cs) (delete ptr (side st)))
  end.
Proof.
  intros Hidle E. unfold maybe_remove_sample, maybe_remove_sample_in, guard_acquire in E.
  rewrite Hidle, bool_decide_eq_true_2 in E by set_solver. cbn [negb] in E.
  unfold with_state in E. cbn [PPROF SAMPLE_INTERVAL PROF_ACTIVE IN_PPROF] in E.
  bind_inv E as p1 E1. injection E as <-. bind_inv E1 as st E2. injection E1 as <-. split; [done|].
  destruct (side (default PprofState_new (PPROF p)) !! ptr) as [r|]; [|by injection E2 as <-].
  bind_inv E2 as cs E3. injection E2 as <-. by exists cs.
Qed.

Lemma pprof_do_within B p op :
  IN_PPROF p = ∅ → pprof_sane p → op_typed op →
  pprof_sane (pprof_attempt p op) ∧
  (0 ≤ B → B + op_load p op < 2 ^ 63 → pprof_within B p → pprof_within (B + op_load p op) (pprof_attempt p op)).
Proof.
  intros Hidle Hp Hop. pose proof (op_load_nonneg p op Hp Hop) as Hl.
  assert (pprof_within B p → pprof_within (B + op_load p op) p) as Hmono by (apply pprof_within_mono; lia).
  unfold pprof_attempt. destruct (pprof_do p op) as [p'|e] eqn:E; [|by split; [|intros _ _]].
  destruct op as [config|t ptr size c stack|t ptr]; cbn [pprof_do op_typed op_load] in *.
  - destruct Hp. destruct config as [c|]; cbn in E; [destruct (0 <? _); [|done]|]; injection E as <-; (split; [by split|auto]).
  - destruct (record_sample_result _ _ _ _ _ _ _ Hidle E) as (id & stk & cs & Hin & Hu & Hi & Hst).
    split; [split; rewrite ?Hi, ?Hst; [apply Hp|apply map_Forall_insert_2; [apply Hop|apply Hp]]|].
    intros HB Hlt Hw. unfold pprof_within. rewrite Hst. eapply arr_update_Forall; [exact Hu| | |].
    + eapply intern_counters; [exact Hin| |exact Hw]. split; cbn; lia.
    + intros c0. apply counter_within_mono. lia.
    + intros c0 Hc0. by apply (count_within B _ size c0); [|apply weight_nonneg|apply Hop|].
  - unfold dealloc_hook in E. destruct (should_sample p); [|injection E as <-; by split; [|intros _ _]].
    destruct (remove_sample_result _ _ _ _ Hidle E) as [Hi Hst].
    destruct (side (default PprofState_new (PPROF p)) !! ptr) as [r|] eqn:Hr.
    2: { split; [split; rewrite ?Hi, ?Hst; apply Hp|]. intros _ _ Hw. unfold pprof_within. rewrite Hst. by apply Hmono. }
    destruct Hst as (cs & Hu & Hst). split; [split; rewrite ?Hi, ?Hst; [apply Hp|apply map_Forall_delete, Hp]|].
    intros HB Hlt Hw. unfold pprof_within. rewrite Hst. eapply arr_update_Forall; [exact Hu|exact Hw| |].
    + intros c0. apply counter_within_mono. lia.
    + intros c0 Hc0. by apply (uncount_within B _ (sr_size r) c0); [|apply weight_nonneg|apply (ps_side _ Hp ptr)|].
Qed.

Lemma pprof_load_nonneg ops : ∀ n p,
  pprof_typed n p → pprof_sane p → Forall op_typed ops → Z.of_nat n + samples_of ops < 2 ^ 32 → 0 ≤ pprof_load p ops.
Proof.
  induction ops as [|op ops IH]; intros n p Hp Hs Hty Hn; [done|]. apply Forall_cons in Hty as [Ho Hty].
  cbn [pprof_load]. pose proof (op_load_nonneg p op Hs Ho).
  destruct (pprof_do_typed n p op Hp) as [_ Hp']; [unfold samples_of in Hn; lia|].
  destruct (pprof_do_within 0 p op (pt_idle _ _ Hp) Hs Ho) as [Hs' _].
  assert (0 ≤ pprof_load (pprof_attempt p op) ops); [|lia]. eapply IH; [exact Hp'|done..|].
  unfold samples_of in *. cbn [List.filter] in Hn. destruct (is_sample op); cbn [length] in *; lia.
Qed.

Lemma pprof_after_within ops : ∀ B n p,
  0 ≤ B → pprof_typed n p → pprof_sane p → pprof_within B p → Forall op_typed ops →
  Z.of_nat n + samples_of ops < 2 ^ 32 → B + pprof_load p ops < 2 ^ 63 →
  pprof_within (B + pprof_load p ops) (pprof_after p ops).
Proof.
  induction ops as [|op ops IH]; intros B n p HB Hp Hs Hw Hty Hn Hlt; [cbn [pprof_load]; by rewrite Z.add_0_r|].
  apply Forall_cons in Hty as [Ho Hty]. cbn [pprof_load] in *. pose proof (op_load_nonneg p op Hs Ho).
  destruct (pprof_do_typed n p op Hp) as [_ Hp']; [unfold samples_of in Hn; lia|].
  destruct (pprof_do_within B p op (pt_idle _ _ Hp) Hs Ho) as [Hs' Hw'].
  assert (Z.of_nat (if is_sample op then S n else n) + samples_of ops < 2 ^ 32) as Hn'.
  { unfold samples_of in *. cbn [List.filter] in Hn. destruct (is_sample op); cbn [length] in *; lia. }
  pose proof (pprof_load_nonneg ops _ _ Hp' Hs' Hty Hn'). rewrite Z.add_assoc.
  eapply (IH (B + op_load p op)); [lia|exact Hp'|done| |done|done|lia]. apply Hw'; [done|lia|done].
Qed.

Lemma pprof_init_typed : pprof_typed 0 pprof_init.
Proof. split; cbn; [done| |done]. split; cbn; by try apply map_Forall_empty. Qed.

Lemma pprof_init_sane : pprof_sane pprof_init.
Proof. split; cbn; [vm_compute; split; congruence|by apply map_Forall_empty]. Qed.

Lemma count_counted i s f z ptr c :
  uint 64 i → held s !! ptr = None → counted i s f c →
  counted i (mkSamples ((f, z) :: taken s) (<[ptr := (f, z)]> (held s))) f
    (count_sample (unbiased_weight z i) z c).
Proof.
  intros Hi Hp [E1 E2 E3 E4]. pose proof (wrap_small _ _ (unbiased_weight_uint z i Hi)) as Hw.
  split; cbn [taken held taken_sum foldr count_sample alloc_count sc_alloc_bytes live_count live_bytes];
    rewrite ?held_sum_insert, ?share_same, ?E1, ?E2, ?E3, ?E4 by done; unfold wadd.
  - rewrite wrap_add. f_equal. fold (taken_sum f (λ z, unbiased_weight z i) (taken s)). lia.
  - rewrite Z.add_comm, wrap_add, Z.add_comm, wrap_add. f_equal.
    fold (taken_sum f (λ z, unbiased_weight z i * z) (taken s)). lia.
  - rewrite <- Hw at 1. rewrite to_i64_add. f_equal. lia.
  - rewrite to_i64_add. f_equal. lia.
Qed.

Lemma uncount_counted i s f z ptr c :
  uint 64 i → held s !! ptr = Some (f, z) → counted i s f c →
  counted i (mkSamples (taken s) (delete ptr (held s))) f (uncount_sample (unbiased_weight z i) z c).
Proof.
  intros Hi Hp [E1 E2 E3 E4]. pose proof (wrap_small _ _ (unbiased_weight_uint z i Hi)) as Hw.
  rewrite (held_sum_delete _ _ _ _ _ Hp), share_same, Z.add_comm in E3.
  rewrite (held_sum_delete _ _ _ _ _ Hp), share_same, Z.add_comm in E4.
  split; cbn [taken held uncount_sample alloc_count sc_alloc_bytes live_count live_bytes]; try done.
  - rewrite E3. rewrite <- Hw at 2. apply to_i64_sub.
  - rewrite E4. apply to_i64_sub.
Qed.

(** Samples of other stacks do not matter. *)
Lemma counted_other i s f' c taken' held' :
  (∀ w, taken_sum f' w taken' = taken_sum f' w (taken s)) → (∀ w, held_sum f' w held' = held_sum f' w (held s)) →
  counted i s f' c → counted i (mkSamples taken' held') f' c.
Proof. intros Ht Hh [E1 E2 E3 E4]. split; cbn [taken held]; by rewrite ?Ht, ?Hh. Qed.

(** The profiler between two calls. *)
Record pprof_ok (i : Z) (n : nat) (s : samples) (p : pprof) : Prop := {
  pk_interval : SAMPLE_INTERVAL p = i;
  pk_idle : IN_PPROF p = ∅;
  pk_tables : tables_ok i n s (default PprofState_new (PPROF p));
}.

Lemma record_sample_ok i n s p t ptr size c stack :
  uint 64 i → pprof_ok i n s p → held s !! ptr = None → Z.of_nat n < 2 ^ 32 →
  ∃ p', record_sample p t ptr size c stack = Ok p' ∧
    pprof_ok i (S n) (samples_step s (PRecord t ptr size c stack)) p'.
Proof.
  intros Hi [Hint Hidle Htab] Hp Hn. unfold record_sample, record_sample_in, guard_acquire. rewrite Hidle.
  rewrite bool_decide_eq_true_2 by set_solver. cbn [negb]. unfold with_state.
  cbn [PPROF SAMPLE_INTERVAL PROF_ACTIVE IN_PPROF]. rewrite Hint. set (f := take 128 stack).
  destruct (StackTable_intern (stacks (default PprofState_new (PPROF p))) f) as [id stk] eqn:Hin.
  destruct (intern_tables _ _ _ _ _ _ _ Htab Hn Hin) as [Hf Ht1].
  destruct (update_tables i (S n) s (mkSamples ((f, size) :: taken s) (<[ptr := (f, size)]> (held s))) _ f id
    (<[ptr := mkRecord id size c]> (side (default PprofState_new (PPROF p)))) (count_sample (unbiased_weight size i) size) Ht1 Hf)
    as (cs & E & Ht2).
  - intros c0. by apply count_counted.
  - intros f' c0 Hne. apply counted_other; intros w; cbn [taken_sum foldr].
    + rewrite share_other; [done|]. cbn. by intros ->.
    + rewrite held_sum_insert, share_other; [done| |done]. cbn. by intros ->.
  - intros f' Hne. cbn. by intros [->|?]%elem_of_cons.
  - intros ptr' x. cbn [held]. rewrite lookup_insert. case_decide; [by intros [= <-] Hne; destruct Hne|done].
  - intros ptr'. cbn [held]. rewrite !lookup_insert. case_decide; [done|]. apply (to_side _ _ _ _ Htab).
  - intros ptr' r x. cbn [held]. rewrite !lookup_insert. case_decide; [by intros [= <-] [= <-]|].
    apply (to_record _ _ _ _ Ht1).
  - cbn [stacks map counters side] in E, Ht2 |- *. rewrite E. cbn [mbind res_bind]. eexists. split; [done|].
    split; cbn [guard_drop SAMPLE_INTERVAL IN_PPROF PPROF default]; [done|set_solver|exact Ht2].
Qed.

Lemma remove_sample_ok i n s p t ptr :
  uint 64 i → pprof_ok i n s p →
  ∃ p', maybe_remove_sample p t ptr = Ok p' ∧ pprof_ok i n (samples_step s (PRemove t ptr)) p'.
Proof.
  intros Hi [Hint Hidle Htab]. unfold maybe_remove_sample, maybe_remove_sample_in, guard_acquire. rewrite Hidle.
  rewrite bool_decide_eq_true_2 by set_solver. cbn [negb]. unfold with_state.
  cbn [PPROF SAMPLE_INTERVAL PROF_ACTIVE IN_PPROF]. rewrite Hint. set (st := default PprofState_new (PPROF p)) in *.
  destruct (side st !! ptr) as [r|] eqn:Hr.
  2: { assert (held s !! ptr = None) as Hh by by apply (to_side _ _ _ _ Htab).
       cbn [mbind res_bind]. eexists. split; [done|].
       split; cbn [guard_drop SAMPLE_INTERVAL IN_PPROF PPROF default samples_step]; [done|set_solver|].
       rewrite delete_id by done. by destruct s. }
  destruct (held s !! ptr) as [[f z]|] eqn:Hh; [|apply (to_side _ _ _ _ Htab) in Hh; congruence].
  destruct (to_record _ _ _ _ Htab ptr r _ Hr Hh) as [Hf Hz]. cbn [fst snd] in *. rewrite Hz.
  destruct (update_tables i n s (mkSamples (taken s) (delete ptr (held s))) st f (stack_id r)
    (delete ptr (side st)) (uncount_sample (unbiased_weight z i) z) Htab Hf) as (cs & E & Ht2).
  - intros c0. by apply uncount_counted.
  - intros f' c0 Hne. apply counted_other; intros w; [done|].
    rewrite (held_sum_delete _ _ _ _ _ Hh), share_other; [done|]. cbn. by intros ->.
  - done.
  - intros ptr' x. cbn [held]. intros [_ Hx]%lookup_delete_Some _. done.
  - intros ptr'. cbn [held]. rewrite !lookup_delete. case_decide; [done|]. apply (to_side _ _ _ _ Htab).
  - intros ptr' r' x. cbn [held]. intros [_ Hr']%lookup_delete_Some [_ Hx]%lookup_delete_Some.
    by apply (to_record _ _ _ _ Htab ptr').
  - rewrite E. cbn [mbind res_bind]. eexists. split; [done|].
    split; cbn [guard_drop SAMPLE_INTERVAL IN_PPROF PPROF default]; [done|set_solver|exact Ht2].
Qed.

Lemma pprof_run_ok i es : ∀ n s p,
  uint 64 i → pprof_ok i n s p → fresh_run s es → Z.of_nat n + Z.of_nat (length es) < 2 ^ 32 →
  ∃ p' n', pprof_run p es = Ok p' ∧ pprof_ok i n' (foldl samples_step s es) p'.
Proof.
  induction es as [|e es IH]; intros n s p Hi Hp Hf Hn; [by exists p, n|]. destruct Hf as [Hfr Hf].
  cbn [length] in Hn. cbn [pprof_run foldl].
  assert (∃ p1 n1, pprof_exec p e = Ok p1 ∧ pprof_ok i n1 (samples_step s e) p1 ∧ (n1 ≤ S n)%nat)
    as (p1 & n1 & E & Hp1 & Hn1).
  { destruct e as [t ptr size c stack|t ptr]; cbn [pprof_exec].
    - destruct (record_sample_ok i n s p t ptr size c stack) as (p1 & E & Hp1); [done|done|done|lia|].
      exists p1, (S n). split; [done|]. split; [done|lia].
    - destruct (remove_sample_ok i n s p t ptr) as (p1 & E & Hp1); [done|done|].
      exists p1, n. split; [done|]. split; [done|lia]. }
  rewrite E. cbn [mbind res_bind]. apply (IH n1); [done|done|done|lia].
Qed.

(** ** Properties *)

(** C39. A sampler takes its sample at exactly the allocation with which the
    bytes allocated since its last draw reach the countdown, and at none
    before; then it draws again from the untouched generator. *)
Theorem sampler_exact (s : Sampler) (sizes : list Z) (size : Z) :
  i64_nat (countdown s) → Forall i64_nat sizes → i64_nat size →
  sum_Z sizes < countdown s ≤ sum_Z sizes + size →
  Sampler_run s (sizes ++ [size]) = (replicate (length sizes) false ++ [true], Sampler_reset s).
Proof.
  intros Hc Hs Hz [Hlt Hle]. rewrite Sampler_run_quiet by done. cbn [Sampler_run].
  assert (0 ≤ sum_Z sizes) by (clear -Hs; unfold i64_nat in *; induction Hs; cbn in *; unfold sum_Z in *; lia).
  rewrite Sampler_check_spec; cbn [countdown]; [|unfold i64_nat in *; lia|done].
  destruct (Z.leb_spec (countdown s - sum_Z sizes) size); [done|lia].
Qed.

(** At a fixed interval, after any samples and frees on any threads, the
    counters of every stack are exact: the cumulative ones are the sum over
    all samples taken of that stack, the live ones the sum over those whose
    block was not freed, each with the weight of its size; every stack sampled
    has its counters, no call panics and no guard stays set. *)
Theorem live_counts_exact (p : pprof) (es : list pprof_event) :
  PPROF p = None → IN_PPROF p = ∅ → uint 64 (SAMPLE_INTERVAL p) →
  fresh_run (mkSamples [] ∅) es → Z.of_nat (length es) < 2 ^ 32 →
  ∃ p', pprof_run p es = Ok p' ∧ IN_PPROF p' = ∅ ∧
    let st := stacks (default PprofState_new (PPROF p')) in
    (∀ f, f ∈ fst <$> taken (samples_after es) →
       ∃ id c, map st !! f = Some id ∧ counters st !! Z.to_nat id = Some c) ∧
    (∀ f id c, map st !! f = Some id → counters st !! Z.to_nat id = Some c →
       counted (SAMPLE_INTERVAL p) (samples_after es) f c).
Proof.
  intros Hnone Hidle Hi Hf Hn.
  destruct (pprof_run_ok (SAMPLE_INTERVAL p) es 0 (mkSamples [] ∅) p) as (p' & n' & E & [_ Hid Ht]);
    [done| |done|lia|].
  { split; [done|done|]. rewrite Hnone. cbn. split; cbn; try done; set_solver. }
  exists p'. split; [exact E|]. split; [exact Hid|]. cbn zeta. split; [|apply Ht].
  intros f Hin. destruct (map (stacks (default PprofState_new (PPROF p'))) !! f) as [id|] eqn:Hm.
  - pose proof (to_ids _ _ _ _ Ht f id Hm) as Hr.
    destruct (lookup_lt_is_Some_2 (counters (stacks (default PprofState_new (PPROF p')))) (Z.to_nat id)) as [c Hc];
      [lia|]. by exists id, c.
  - destruct (to_unseen _ _ _ _ Ht f Hm) as [Hno _]. by destruct Hno.
Qed.
(** C38. Whatever the program does with the profiler, changes of the interval,
    switching it off and on and frees of blocks never sampled included, with
    fewer than 2^32 samples (their stacks are numbered in an [u32]): every
    counter stays in its machine type, every stack and every record of the side
    table has its counters and no guard stays set; the next call panics if it
    sets the interval 0, and else returns.  Counters of the release profile
    wrap around, but only after 2^63: as long as the objects and bytes counted
    so far, with their weights ([pprof_load]), and those of the next sample or
    free together stay below that, its additions, subtractions and products are
    those of the integers. *)
Theorem pprof_typed_always (ops : list pprof_op) :
  Forall op_typed ops → samples_of ops < 2 ^ 32 →
  let p := pprof_after pprof_init ops in
  IN_PPROF p = ∅ ∧ state_typed (default PprofState_new (PPROF p)) ∧
  (∀ op, if bad_config op then pprof_do p op = Panic PanicAssert else ∃ p', pprof_do p op = Ok p') ∧
  ∀ c w z, c ∈ counters (stacks (default PprofState_new (PPROF p))) → 0 ≤ w → 0 ≤ z →
    pprof_load pprof_init ops + w * (1 + z) < 2 ^ 63 →
    count_sample w z c = plain_count w z c ∧ uncount_sample w z c = plain_uncount w z c.
Proof.
  intros Hty Hn p. destruct (pprof_after_typed ops 0 pprof_init) as (n & Hp & Hn'); [exact pprof_init_typed|lia|].
  split; [apply Hp|]. split; [apply Hp|]. split; [intros op; by apply (pprof_do_typed n p op Hp)|].
  intros c w z Hc Hw Hz Hlt.
  pose proof (pprof_load_nonneg ops 0 pprof_init pprof_init_typed pprof_init_sane Hty ltac:(lia)).
  pose proof (pprof_after_within ops 0 0 pprof_init) as Hcs.
  assert (0 ≤ w * (1 + z)) by nia.
  specialize (Hcs ltac:(lia) pprof_init_typed pprof_init_sane (Forall_nil_2 _) Hty ltac:(lia) ltac:(lia)).
  unfold pprof_within in Hcs. rewrite Forall_forall in Hcs. specialize (Hcs c Hc).
  split; [eapply count_within|eapply uncount_within]; try done; lia.
Qed.
End pprof.

(** ** A concrete instance *)

(** A generator that counts, and constants in place of the logarithm and the exponential. *)
#[export] Instance DemoEnv : PprofEnv Z := {
  seed_from_u64 seed := seed;
  random r := (f64_div (f64_of_Z (r mod 7)) (f64_of_Z 7), r + 1);
  ln _ := f64_of_Z (-1);
  exp _ := f64_div f64_one (f64_of_Z 2);
}.

Example float_tests : fst (geometric 3 512) = 512 ∧ unbiased_weight 512 512 = 2 ∧ unbiased_weight 1 (2 ^ 21) = 2 ^ 21.
Proof. by vm_compute. Qed.

Lemma sampler_exact_witness :
  Sampler_run (mkSampler 100 0 512) [40; 40; 30] = ([false; false; true], Sampler_reset (mkSampler 100 0 512)).
Proof.
  apply (sampler_exact (mkSampler 100 0 512) [40; 40] 30); [split; cbn; lia| |split; lia|cbn; lia].
  repeat constructor; cbn; lia.
Defined.

Definition demo_events : list pprof_event :=
  [PRecord 1 4096 64 3 [10; 20]; PRecord 2 8192 16 0 [10; 20]; PRemove 1 8192].

Lemma live_counts_exact_witness :
  fresh_run (mkSamples [] ∅) demo_events ∧ ∃ p', pprof_run pprof_init demo_events = Ok p' ∧ IN_PPROF p' = ∅.
Proof.
  split; [by vm_compute|].
  destruct (live_counts_exact pprof_init demo_events) as (p' & E & Hi & _);
    [reflexivity|reflexivity|vm_compute; split; congruence|by vm_compute|vm_compute; reflexivity|].
  exists p'. split; [exact E|exact Hi].
Defined.

Definition demo_ops : list pprof_op :=
  [OpFree 1 4096; OpConfig (Some PprofConfig_default); OpSample 1 4096 64 3 [10; 20]; OpConfig None; OpFree 1 4096;
   OpConfig (Some (mkPprofConfig 1)); OpFree 2 4096].

Lemma pprof_typed_always_witness :
  pprof_do (pprof_after pprof_init demo_ops) (OpConfig (Some (mkPprofConfig 0))) = Panic PanicAssert ∧
  ∃ c, counters (stacks (default PprofState_new (PPROF (pprof_after pprof_init demo_ops)))) = [c] ∧
    count_sample 100 (2 ^ 40) c = plain_count 100 (2 ^ 40) c.
Proof.
  destruct (pprof_typed_always demo_ops) as (_ & _ & Hp & Hc); [|vm_compute; reflexivity|].
  { repeat (apply Forall_cons; split; [cbn; unfold uint; try done; lia|]). apply Forall_nil. exact I. }
  split; [apply (Hp (OpConfig (Some (mkPprofConfig 0))))|].
  assert (∃ c, counters (stacks (default PprofState_new (PPROF (pprof_after pprof_init demo_ops)))) = [c]) as [c Hcs]
    by (vm_compute; by eexists).
  exists c. split; [exact Hcs|]. apply (Hc c 100 (2 ^ 40)); [rewrite Hcs; left|lia|lia|].
  vm_compute. reflexivity.
Defined.

(** The weight of a freed sample is computed with the interval in force at the
    free: when the interval changed in between, the live counters of the stack
    do not return to zero although none of its blocks is live. *)
Lemma interval_change_skews_live :
  (p ← set_pprof_config pprof_init (Some (mkPprofConfig (2 ^ 21)));
   p ← record_sample p 1 4096 1 0 [10; 20];
   p ← set_pprof_config p (Some (mkPprofConfig (2 ^ 22)));
   p ← maybe_remove_sample p 1 4096;
   let st := default PprofState_new (PPROF p) in
   Ok (bool_decide (side st = ∅), live_count <$> counters (stacks st))) = Ok (true, [- 2 ^ 21]).
Proof. vm_compute. reflexivity. Qed.

(** Samples freed while profiling is off stay in the side table. *)
Lemma inactive_free_keeps_sample :
  (p ← set_pprof_config pprof_init (Some PprofConfig_default);
   p ← record_sample p 1 4096 64 3 [10; 20];
   p ← set_pprof_config p None;
   p ← dealloc_hook p 1 4096;
   Ok (bool_decide (is_Some (side (default PprofState_new (PPROF p)) !! 4096)))) = Ok true.
Proof. vm_compute. reflexivity. Qed.
