(* ===== verification/Protobuf.v ===== *)
(** * The protobuf encoder of the profiler ([src/src/pprof.rs], the encoder part)

    Varints, fields and the string table of a profile, on lists of bytes.  The
    encoders append to a buffer, as in the code.  [parse_message] is a decoder
    of the wire format, written from the format's definition; the theorems say
    that it recovers what the encoders were given. *)

From stdpp Require Import base numbers list gmap strings pretty.
From Stdlib Require Import ZArith Lia Ascii.
From S2P Require Import Prelude.

Local Open Scope Z_scope.

(** ** Encoding *)

(** The loop of [encode_varint]; a 64-bit value takes at most ten turns. *)
Fixpoint varint_loop (fuel : nat) (buf : list Z) (val : Z) : list Z :=
  match fuel with
  | O => buf
  | S fuel =>
      let byte := Z.land val 127 in
      let val := Z.shiftr val 7 in
      if val =? 0 then buf ++ [byte] else varint_loop fuel (buf ++ [Z.lor byte 128]) val
  end.

Definition encode_varint (buf : list Z) (val : Z) : list Z := varint_loop 10 buf val.

Definition encode_varint_field (buf : list Z) (field val : Z) : list Z :=
  encode_varint (encode_varint buf (Z.shiftl field 3)) val.

Definition encode_field (buf : list Z) (field : Z) (data : list Z) : list Z :=
  let buf := encode_varint buf (Z.lor (Z.shiftl field 3) 2) in
  let buf := encode_varint buf (Z.of_nat (length data)) in
  buf ++ data.

Definition encode_bytes_field (buf : list Z) (field : Z) (data : list Z) : list Z :=
  encode_field buf field data.

Definition encode_value_type (type_idx unit_idx : Z) : list Z :=
  encode_varint_field (encode_varint_field [] 1 type_idx) 2 unit_idx.

Definition encode_label (key str_val : Z) : list Z :=
  encode_varint_field (encode_varint_field [] 1 key) 2 str_val.

(** ** The string table *)

(** A string is the list of its bytes. *)
Abbreviation bytes := (list Z).

Record StringTable := mkStringTable { table : list bytes; st_map : gmap bytes Z }.

Definition StringTable_new : StringTable := mkStringTable [] ∅.

Definition StringTable_intern (st : StringTable) (s : bytes) : Z * StringTable :=
  match st_map st !! s with
  | Some idx => (idx, st)
  | None =>
      let idx := Z.of_nat (length (table st)) in
      (idx, mkStringTable (table st ++ [s]) (<[s := idx]> (st_map st)))
  end.

(** ** The wire format *)

(** A field with its number: a varint, or bytes with their length. *)
Inductive wire := Varint (v : Z) | Bytes (data : bytes).
Abbreviation field := (Z * wire)%type.

Fixpoint decode_varint (l : bytes) : option (Z * bytes) :=
  match l with
  | [] => None
  | b :: l =>
      if b <? 128 then Some (b, l)
      else '(v, l) ← decode_varint l; Some (b - 128 + 128 * v, l)
  end.

Definition decode_field (l : bytes) : option (field * bytes) :=
  '(key, l) ← decode_varint l;
  match key mod 8 with
  | 0 => '(v, l) ← decode_varint l; Some ((key / 8, Varint v), l)
  | 2 =>
      '(n, l) ← decode_varint l;
      if Z.of_nat (length l) <? n then None
      else Some ((key / 8, Bytes (take (Z.to_nat n) l)), drop (Z.to_nat n) l)
  | _ => None
  end.

Fixpoint parse_fields (fuel : nat) (l : bytes) : option (list field) :=
  match l with
  | [] => Some []
  | _ =>
      match fuel with
      | O => None
      | S fuel => '(f, l) ← decode_field l; fs ← parse_fields fuel l; Some (f :: fs)
      end
  end.

(** A field takes at least one byte, so the length bounds their number. *)
Definition parse_message (l : bytes) : option (list field) := parse_fields (length l) l.

(** The fields of a message written one after the other. *)
Definition encode_one (buf : bytes) (f : field) : bytes :=
  match snd f with
  | Varint v => encode_varint_field buf (fst f) v
  | Bytes data => encode_field buf (fst f) data
  end.

Definition encode_fields (buf : bytes) (fs : list field) : bytes := foldl encode_one buf fs.

Definition field_ok (f : field) : Prop :=
  1 ≤ fst f < 2 ^ 29 ∧
  match snd f with Varint v => uint 64 v | Bytes data => Z.of_nat (length data) < 2 ^ 64 end.

(** Every element is a byte. *)
Definition is_bytes (l : bytes) : Prop := Forall (uint 8) l.

(** ** Varints *)

Lemma low_bits val : 0 ≤ val → Z.land val 127 = val mod 128 ∧ Z.shiftr val 7 = val / 128.
Proof.
  intros Hv. split.
  - change 127 with (Z.ones 7). by rewrite Z.land_ones.
  - by rewrite Z.shiftr_div_pow2.
Qed.

Lemma high_bit b : 0 ≤ b < 128 → Z.lor b 128 = b + 128.
Proof.
  intros Hb. assert (Forall (λ b, Z.lor b 128 = b + 128) (seqZ 0 128)) as Hall
    by (apply (bool_decide_unpack _); by vm_compute).
  rewrite Forall_forall in Hall. apply Hall. apply elem_of_seqZ. lia.
Qed.

(** Encoders append. *)
Lemma varint_loop_app fuel : ∀ buf val, varint_loop fuel buf val = buf ++ varint_loop fuel [] val.
Proof.
  induction fuel as [|fuel IH]; intros buf val; cbn [varint_loop]; [by rewrite app_nil_r|].
  case_match; [done|]. by rewrite IH, (IH ([] ++ _)), app_assoc.
Qed.

Lemma encode_varint_app buf val : encode_varint buf val = buf ++ encode_varint [] val.
Proof. apply varint_loop_app. Qed.

Lemma encode_one_app buf f : encode_one buf f = buf ++ encode_one [] f.
Proof.
  unfold encode_one, encode_varint_field, encode_field. destruct (snd f);
    rewrite encode_varint_app, (encode_varint_app buf), (encode_varint_app (encode_varint [] _));
    by rewrite <- ?app_assoc.
Qed.

Lemma encode_fields_app fs : ∀ buf, encode_fields buf fs = buf ++ encode_fields [] fs.
Proof.
  induction fs as [|f fs IH]; intros buf; cbn; [by rewrite app_nil_r|]. unfold encode_fields in *.
  by rewrite IH, (IH (encode_one [] f)), encode_one_app, app_assoc.
Qed.

Lemma decode_varint_loop fuel : ∀ val rest,
  0 ≤ val < 2 ^ (7 * Z.of_nat fuel) → fuel ≠ O →
  decode_varint (varint_loop fuel [] val ++ rest) = Some (val, rest).
Proof.
  induction fuel as [|fuel IH]; intros val rest Hv Hf; [done|]. cbn [varint_loop].
  destruct (low_bits val) as [-> ->]; [lia|]. pose proof (Z.mod_pos_bound val 128 ltac:(lia)) as Hm.
  pose proof (Z.div_mod val 128 ltac:(lia)) as Hd. destruct (Z.eqb_spec (val / 128) 0) as [Hz|Hnz].
  - cbn. destruct (Z.ltb_spec (val mod 128) 128); [|lia]. do 2 f_equal. lia.
  - rewrite varint_loop_app, high_bit by lia. cbn [app decode_varint].
    destruct (Z.ltb_spec (val mod 128 + 128) 128); [lia|].
    assert (0 < val / 128) by (pose proof (Z.div_pos val 128 ltac:(lia) ltac:(lia)); lia).
    assert (val / 128 < 2 ^ (7 * Z.of_nat fuel)) as Hlt.
    { apply Z.div_lt_upper_bound; [lia|]. replace (7 * Z.of_nat (S fuel)) with (7 + 7 * Z.of_nat fuel) in Hv by lia.
      rewrite Z.pow_add_r in Hv by lia. change (2 ^ 7) with 128 in Hv. lia. }
    rewrite IH; [|lia|]; [|intros ->; cbn in Hlt; lia]. cbn. do 2 f_equal. lia.
Qed.

Lemma decode_encode_varint val rest :
  uint 64 val → decode_varint (encode_varint [] val ++ rest) = Some (val, rest).
Proof. intros Hv. unfold uint in Hv. apply decode_varint_loop; [|done]. cbn. lia. Qed.

Lemma varint_loop_bytes fuel : ∀ val, 0 ≤ val → is_bytes (varint_loop fuel [] val).
Proof.
  induction fuel as [|fuel IH]; intros val Hv; cbn [varint_loop]; [constructor|].
  destruct (low_bits val Hv) as [-> ->]. pose proof (Z.mod_pos_bound val 128 ltac:(lia)).
  unfold is_bytes in *. case_match.
  - repeat constructor; cbn; lia.
  - rewrite varint_loop_app, high_bit by lia. apply Forall_app. split; [repeat constructor; lia|].
    apply IH. apply Z.div_pos; lia.
Qed.

(** ** Fields *)

Lemma field_key n w : 1 ≤ n < 2 ^ 29 → 0 ≤ w < 8 → w = 0 ∨ w = 2 →
  uint 64 (n * 8 + w) ∧ (n * 8 + w) / 8 = n ∧ (n * 8 + w) mod 8 = w.
Proof.
  intros Hn Hw _. unfold uint. split; [lia|]. split.
  - rewrite Z.div_add_l by lia. rewrite Z.div_small by lia. lia.
  - rewrite Z.add_comm, Z.mod_add by lia. by apply Z.mod_small.
Qed.

Lemma shifted_key n : Z.shiftl n 3 = n * 8 + 0 ∧ Z.lor (Z.shiftl n 3) 2 = n * 8 + 2.
Proof.
  rewrite Z.shiftl_mul_pow2 by lia. change (2 ^ 3) with 8. split; [lia|].
  rewrite <- Z.add_nocarry_lor; [done|]. change 8 with (2 ^ 3). rewrite <- Z.shiftl_mul_pow2 by lia.
  apply Z.bits_inj'. intros i Hi. rewrite Z.land_spec, Z.bits_0.
  destruct (decide (i < 3)) as [Hlt|Hge]; [by rewrite Z.shiftl_spec_low|].
  assert (Z.testbit 2 i = false) as ->; [|apply andb_false_r].
  apply Z.bits_above_log2; [done|]. change (Z.log2 2) with 1. lia.
Qed.

Lemma decode_encode_one f rest :
  field_ok f → decode_field (encode_one [] f ++ rest) = Some (f, rest).
Proof.
  destruct f as [n v]. intros [Hn Hv]. unfold encode_one, encode_varint_field, encode_field, decode_field.
  cbn [fst snd] in *. destruct (shifted_key n) as [E0 E2]. destruct v as [v|data].
  - rewrite encode_varint_app, <- app_assoc, E0. destruct (field_key n 0 Hn) as (Hu & Hd & Hm); [lia|by left|].
    rewrite decode_encode_varint by done. cbn [mbind option_bind]. rewrite Hm, decode_encode_varint by done.
    cbn [mbind option_bind]. by rewrite Hd.
  - rewrite (encode_varint_app (encode_varint _ _)), <- !app_assoc, E2.
    destruct (field_key n 2 Hn) as (Hu & Hd & Hm); [lia|by right|].
    rewrite decode_encode_varint by done. cbn [mbind option_bind]. rewrite Hm, decode_encode_varint
      by (unfold uint; lia). cbn [mbind option_bind]. rewrite length_app.
    destruct (Z.ltb_spec (Z.of_nat (length data + length rest)) (Z.of_nat (length data))); [lia|].
    by rewrite Hd, Nat2Z.id, take_app_length, drop_app_length.
Qed.

Lemma encode_one_nonempty f : (0 < length (encode_one [] f))%nat.
Proof.
  unfold encode_one, encode_varint_field, encode_field.
  assert (∀ buf val, (0 < length (encode_varint buf val))%nat) as Hpos.
  { intros buf val. unfold encode_varint. generalize 9%nat as n. intros n. cbn [varint_loop].
    case_match; [rewrite length_app; cbn; lia|]. rewrite varint_loop_app, !length_app. cbn. lia. }
  destruct (snd f); [apply Hpos|]. rewrite length_app. pose proof (Hpos (encode_varint [] (Z.lor (Z.shiftl (fst f) 3) 2))
    (Z.of_nat (length data))). lia.
Qed.

Lemma parse_fields_ok fs : ∀ fuel,
  Forall field_ok fs → (length (encode_fields [] fs) ≤ fuel)%nat →
  parse_fields fuel (encode_fields [] fs) = Some fs.
Proof.
  induction fs as [|f fs IH]; intros fuel Hok Hfuel; [by destruct fuel|].
  apply Forall_cons in Hok as [Hf Hok].
  assert (encode_fields [] (f :: fs) = encode_one [] f ++ encode_fields [] fs) as E
    by (cbn; by rewrite <- encode_fields_app).
  rewrite E in *. pose proof (encode_one_nonempty f) as Hne. rewrite length_app in Hfuel.
  destruct fuel as [|fuel]; [lia|]. pose proof (decode_encode_one f (encode_fields [] fs) Hf) as Hd.
  destruct (encode_one [] f ++ encode_fields [] fs) as [|b l] eqn:Hl; [apply (f_equal length) in Hl; rewrite length_app in Hl; cbn in Hl; lia|].
  cbn [parse_fields]. rewrite Hd. cbn [mbind option_bind]. rewrite IH by (done || lia). done.
Qed.

Lemma parse_encode_fields fs : Forall field_ok fs → parse_message (encode_fields [] fs) = Some fs.
Proof. intros Hok. by apply parse_fields_ok. Qed.

Lemma encode_fields_bytes fs :
  Forall (λ f, 0 ≤ fst f ∧ match snd f with Varint v => 0 ≤ v | Bytes d => is_bytes d end) fs →
  is_bytes (encode_fields [] fs).
Proof.
  unfold is_bytes. induction 1 as [|[n v] fs [Hn Hv] Hfs IH]; [constructor|]. cbn [encode_fields foldl].
  fold (encode_fields (encode_one [] (n, v)) fs). rewrite encode_fields_app. apply Forall_app. split; [|done].
  assert (∀ x, 0 ≤ x → Forall (uint 8) (encode_varint [] x)) as Hb by (intros; by apply varint_loop_bytes).
  destruct (shifted_key n) as [E0 E2]. cbn [fst snd] in *.
  unfold encode_one, encode_varint_field, encode_field. cbn [fst snd]. destruct v as [v|d].
  - rewrite encode_varint_app, E0. apply Forall_app. split; apply Hb; lia.
  - rewrite encode_varint_app, E2. apply Forall_app. split; [|done]. apply Forall_app. split; apply Hb; lia.
Qed.

(** ** The string table *)

(** The map is the index of the table. *)
Definition strings_ok (st : StringTable) : Prop :=
  ∀ s i, st_map st !! s = Some i ↔ 0 ≤ i ∧ table st !! Z.to_nat i = Some s.

Lemma strings_ok_new : strings_ok StringTable_new.
Proof. intros s i. cbn. rewrite lookup_empty. split; [done|by intros [_ ?]]. Qed.

(** Interning finds or appends the string; the others keep their index. *)
Lemma intern_ok st s idx st' :
  strings_ok st → StringTable_intern st s = (idx, st') →
  strings_ok st' ∧ 0 ≤ idx ∧ table st' !! Z.to_nat idx = Some s ∧ table st `prefix_of` table st'.
Proof.
  intros Hok. unfold StringTable_intern. destruct (st_map st !! s) as [i|] eqn:Hs.
  - intros [= <- <-]. apply Hok in Hs as [Hi Ht]. by split_and!.
  - intros [= <- <-]. split; [|split; [lia|split]].
    + intros s' i. cbn. rewrite lookup_insert. case_decide as Heq; [subst s'|].
      * split; [intros [= <-]; split; [lia|]; rewrite Nat2Z.id; by apply list_lookup_middle|].
        intros [Hi [Ht|[Hge Ht]]%lookup_snoc_Some]; [|f_equal; lia].
        exfalso. destruct Ht as [_ Ht]. assert (st_map st !! s = Some i) as Hc by (apply Hok; done). congruence.
      * rewrite (Hok s' i). split; intros [Hi Ht]; (split; [done|]).
        -- by apply lookup_app_l_Some.
        -- apply lookup_snoc_Some in Ht as [[_ Ht]|[_ Ht]]; [done|congruence].
    + rewrite Nat2Z.id. by apply list_lookup_middle.
    + by eexists.
Qed.

(** ** Properties *)

(** Whatever fields are written with [encode_varint_field] and
    [encode_field], one after the other, a reader of the wire format recovers
    exactly these fields in this order. *)
Theorem message_roundtrip (fs : list field) :
  Forall field_ok fs → parse_message (encode_fields [] fs) = Some fs.
Proof. apply parse_encode_fields. Qed.

Definition demo_fields : list field := [(1, Varint 300); (2, Bytes [7; 200]); (12, Varint (2 ^ 64 - 1))].

Lemma message_roundtrip_witness :
  encode_fields [] demo_fields =
    [8; 172; 2; 18; 2; 7; 200; 96; 255; 255; 255; 255; 255; 255; 255; 255; 255; 1] ∧
  parse_message (encode_fields [] demo_fields) = Some demo_fields.
Proof.
  split; [vm_compute; reflexivity|]. apply message_roundtrip.
  repeat constructor; cbn; unfold uint; lia.
Defined.
