(* ===== verification/Profile.v ===== *)
(** * The dumped profile ([src/src/pprof.rs], [build_profile])

    The protobuf message [dump] writes, before compression.  The orders in
    which the hash maps are walked are arguments ([order] for the stacks,
    [records] for the side table), and so are the symbols a backtrace library
    finds for an address and the time. *)

From stdpp Require Import base numbers list gmap strings pretty.
From Stdlib Require Import ZArith Lia Ascii.
From S2P Require Import Prelude Protobuf Pprof.

Local Open Scope Z_scope.
Local Open Scope clm_scope.

(** ** Text *)

Definition str (s : string) : bytes := (λ a, Z.of_nat (nat_of_ascii a)) <$> String.list_ascii_of_string s.

(** [format!("{}", n)] and [format!("0x{:x}", n)]. *)
Definition decimal (n : Z) : bytes := str (pretty n).

Fixpoint hex_loop (fuel : nat) (n : Z) (acc : bytes) : bytes :=
  match fuel with
  | O => acc
  | S fuel =>
      let d := n mod 16 in
      let acc := (if d <? 10 then 48 + d else 87 + d) :: acc in
      if n / 16 =? 0 then acc else hex_loop fuel (n / 16) acc
  end.
Definition hex (n : Z) : bytes := str "0x" ++ hex_loop 16 n [].

(** ** Locations and functions *)

Record location_state := mkLocState {
  locations : list (Z * Z);
  loc_map : gmap Z Z;
  functions : list (Z * Z);
  func_map : gmap Z Z;
  loc_strings : StringTable;
}.

Section profile.
(** The names [backtrace::resolve] reports for an address, in order. *)
Context (symbols : Z → list (option bytes)).

Definition resolve_symbol (ip : Z) (strings : StringTable) : Z * StringTable :=
  StringTable_intern strings (foldl (λ name sym, default name sym) (hex ip) (symbols ip)).

(** The body of the loop over the frames. *)
Definition add_location (ls : location_state) (ip : Z) : location_state :=
  match loc_map ls !! ip with
  | Some _ => ls
  | None =>
      let '(func_id, ls) :=
        match func_map ls !! ip with
        | Some fid => (fid, ls)
        | None =>
            let fid := Z.of_nat (base.size (func_map ls)) + 1 in
            let '(name, strings) := resolve_symbol ip (loc_strings ls) in
            (fid, mkLocState (locations ls) (loc_map ls) (functions ls ++ [(fid, name)])
                    (<[ip := fid]> (func_map ls)) strings)
        end in
      let loc_id := Z.of_nat (base.size (loc_map ls)) + 1 in
      mkLocState (locations ls ++ [(loc_id, func_id)]) (<[ip := loc_id]> (loc_map ls))
        (functions ls) (func_map ls) (loc_strings ls)
  end.

Definition build_locations (order : list (list Z * Z)) (strings : StringTable) : location_state :=
  foldl (λ ls entry, foldl add_location ls (fst entry)) (mkLocState [] ∅ [] ∅ strings) order.

(** ** Samples *)

(** The [location_id] fields. *)
Fixpoint encode_frames (buf : bytes) (lm : gmap Z Z) (frames : list Z) : res bytes :=
  match frames with
  | [] => Ok buf
  | ip :: frames =>
      loc_id ← res_of_option PanicIndex (lm !! ip);
      encode_frames (encode_varint_field buf 1 loc_id) lm frames
  end.

Definition encode_values (buf : bytes) (c : StackCounters) : bytes :=
  let buf := encode_varint_field buf 2 (alloc_count c) in
  let buf := encode_varint_field buf 2 (sc_alloc_bytes c) in
  let buf := encode_varint_field buf 2 (cast_unsigned 64 (live_count c)) in
  encode_varint_field buf 2 (cast_unsigned 64 (live_bytes c)).

(** One turn of the loop over the stacks. *)
Definition encode_sample (st_size_class : Z) (records : list SampleRecord) (cs : list StackCounters)
    (lm : gmap Z Z) (profile : bytes) (strings : StringTable) (entry : list Z * Z)
    : res (bytes * StringTable) :=
  let '(frames, id) := entry in
  c ← arr_get cs id;
  if (alloc_count c =? 0) && (live_count c =? 0) then Ok (profile, strings) else
  sample ← encode_frames [] lm frames;
  let sample := encode_values sample c in
  let '(sample, strings) :=
    match list_find (λ r, stack_id r = id) records with
    | Some (_, record) =>
        let '(class_str, strings) := StringTable_intern strings (decimal (class_idx record)) in
        (encode_field sample 3 (encode_label st_size_class class_str), strings)
    | None => (sample, strings)
    end in
  Ok (encode_field profile 2 sample, strings).

Fixpoint encode_samples (st_size_class : Z) (records : list SampleRecord) (cs : list StackCounters)
    (lm : gmap Z Z) (profile : bytes) (strings : StringTable) (order : list (list Z * Z))
    : res (bytes * StringTable) :=
  match order with
  | [] => Ok (profile, strings)
  | entry :: order =>
      '(profile, strings) ← encode_sample st_size_class records cs lm profile strings entry;
      encode_samples st_size_class records cs lm profile strings order
  end.

(** ** The message *)

Definition encode_location (profile : bytes) (l : Z * Z) : bytes :=
  let '(loc_id, func_id) := l in
  let loc := encode_varint_field [] 1 loc_id in
  let line := encode_varint_field [] 1 func_id in
  encode_field profile 4 (encode_field loc 4 line).

Definition encode_function (profile : bytes) (f : Z * Z) : bytes :=
  let '(func_id, name_idx) := f in
  let func := encode_varint_field [] 1 func_id in
  let func := encode_varint_field func 2 name_idx in
  encode_field profile 5 (encode_varint_field func 3 name_idx).

(** The strings interned before the walk; the last eight are named by index. *)
Definition initial_strings : list bytes :=
  str <$> [""; "alloc_objects"; "alloc_space"; "inuse_objects"; "inuse_space"; "count"; "bytes";
           "size_class"; "space"]%string.

Definition intern_all (strings : StringTable) (l : list bytes) : list Z * StringTable :=
  foldl (λ '(ids, strings) s, let '(i, strings) := StringTable_intern strings s in (ids ++ [i], strings))
    ([], strings) l.

Definition build_profile (order : list (list Z * Z)) (records : list SampleRecord)
    (state : PprofState) (interval nanos : Z) : res bytes :=
  let '(ids, strings) := intern_all StringTable_new initial_strings in
  match ids with
  | [_; st_alloc_objects; st_alloc_space; st_inuse_objects; st_inuse_space; st_count; st_bytes;
     st_size_class; st_space] =>
      let ls := build_locations order strings in
      let profile := foldl (λ profile '(type_idx, unit_idx),
          encode_field profile 1 (encode_value_type type_idx unit_idx)) []
        [(st_alloc_objects, st_count); (st_alloc_space, st_bytes);
         (st_inuse_objects, st_count); (st_inuse_space, st_bytes)] in
      '(profile, strings) ← encode_samples st_size_class records (counters (stacks state)) (loc_map ls)
                              profile (loc_strings ls) order;
      let profile := foldl encode_location profile (locations ls) in
      let profile := foldl encode_function profile (functions ls) in
      let profile := foldl (λ profile s, encode_bytes_field profile 6 s) profile (table strings) in
      let profile := encode_varint_field profile 9 nanos in
      let profile := encode_field profile 11 (encode_value_type st_space st_bytes) in
      Ok (encode_varint_field profile 12 interval)
  | _ => Panic PanicUnreachable
  end.
End profile.
