(* ===== verification/ProfileSpec.v ===== *)
(** * Reading a dumped profile ([src/src/pprof.rs], [build_profile])

    A reader of the pprof format, written from the format's definition: the
    fields of the message, the string table, and the locations and functions
    resolved by their identifiers.  The theorem is that what a reader gets out
    of the bytes of [build_profile] is the state of the profiler. *)

From stdpp Require Import base numbers list gmap strings pretty.
From Stdlib Require Import ZArith Lia Ascii.
From S2P Require Import Prelude Protobuf Pprof Profile.

Local Open Scope Z_scope.
Local Open Scope clm_scope.

(** ** The reader *)

(** The values of the varint fields and of the bytes fields with number [n]. *)
Definition varints (n : Z) (fs : list field) : list Z :=
  omap (λ f, match snd f with Varint v => if fst f =? n then Some v else None | _ => None end) fs.
Definition payloads (n : Z) (fs : list field) : list bytes :=
  omap (λ f, match snd f with Bytes d => if fst f =? n then Some d else None | _ => None end) fs.

Record sample_view := mkView {
  sv_frames : list bytes;
  sv_values : list Z;
  sv_labels : list (bytes * bytes);
}.

Record profile_view := mkProfileView {
  pv_types : list (bytes * bytes);
  pv_samples : list sample_view;
  pv_time : list Z;
  pv_period_type : list (bytes * bytes);
  pv_period : list Z;
}.

Definition string_at (tbl : list bytes) (i : Z) : option bytes := tbl !! Z.to_nat i.

(** [ValueType] and [Label]: two indices of the string table. *)
Definition read_pair (tbl : list bytes) (b : bytes) : option (bytes * bytes) :=
  fs ← parse_message b;
  i ← head (varints 1 fs); j ← head (varints 2 fs);
  s ← string_at tbl i; t ← string_at tbl j; Some (s, t).

(** [Location]: its id and the function of its only line. *)
Definition read_location (b : bytes) : option (Z * Z) :=
  fs ← parse_message b;
  id ← head (varints 1 fs);
  line ← head (payloads 4 fs);
  ls ← parse_message line;
  fid ← head (varints 1 ls); Some (id, fid).

(** [Function]: its id and the index of its name. *)
Definition read_function (b : bytes) : option (Z * Z) :=
  fs ← parse_message b;
  id ← head (varints 1 fs); name ← head (varints 2 fs); Some (id, name).

Definition read_frame (tbl : list bytes) (locs funs : gmap Z Z) (loc_id : Z) : option bytes :=
  fid ← locs !! loc_id; name ← funs !! fid; string_at tbl name.

Definition read_sample (tbl : list bytes) (locs funs : gmap Z Z) (b : bytes) : option sample_view :=
  fs ← parse_message b;
  frames ← mapM (read_frame tbl locs funs) (varints 1 fs);
  labels ← mapM (read_pair tbl) (payloads 3 fs);
  Some (mkView frames (varints 2 fs) labels).

(** The string table starts with the empty string. *)
Definition read_profile (b : bytes) : option profile_view :=
  fs ← parse_message b;
  let tbl := payloads 6 fs in
  _ ← (if decide (head tbl = Some []) then Some () else None);
  locs ← mapM read_location (payloads 4 fs);
  funs ← mapM read_function (payloads 5 fs);
  types ← mapM (read_pair tbl) (payloads 1 fs);
  samples ← mapM (read_sample tbl (list_to_map locs) (list_to_map funs)) (payloads 2 fs);
  period_type ← mapM (read_pair tbl) (payloads 11 fs);
  Some (mkProfileView types samples (varints 9 fs) period_type (varints 12 fs)).

(** ** What the profile should say *)

Section view.
Context (symbols : Z → list (option bytes)).

(** The last name reported for the address, or the address in hexadecimal. *)
Definition symbol_name (ip : Z) : bytes := foldl (λ name sym, default name sym) (hex ip) (symbols ip).

Definition view_sample (records : list SampleRecord) (cs : list StackCounters) (entry : list Z * Z)
    : option sample_view :=
  c ← cs !! Z.to_nat (snd entry);
  if (alloc_count c =? 0) && (live_count c =? 0) then None else
  Some (mkView (symbol_name <$> fst entry)
    [alloc_count c; sc_alloc_bytes c; cast_unsigned 64 (live_count c); cast_unsigned 64 (live_bytes c)]
    (match list_find (λ r, stack_id r = snd entry) records with
     | Some (_, r) => [(str "size_class", decimal (class_idx r))]
     | None => []
     end)).

Definition view_profile (order : list (list Z * Z)) (records : list SampleRecord)
    (state : PprofState) (interval nanos : Z) : profile_view :=
  mkProfileView
    [(str "alloc_objects", str "count"); (str "alloc_space", str "bytes");
     (str "inuse_objects", str "count"); (str "inuse_space", str "bytes")]
    (omap (view_sample records (counters (stacks state))) order)
    [nanos] [(str "space", str "bytes")] [interval].
End view.

(** ** Fields *)

Lemma varints_app n fs gs : varints n (fs ++ gs) = varints n fs ++ varints n gs.
Proof. apply omap_app. Qed.

Lemma payloads_app n fs gs : payloads n (fs ++ gs) = payloads n fs ++ payloads n gs.
Proof. apply omap_app. Qed.

Lemma varints_varint n k (l : list Z) :
  varints n ((λ v, (k, Varint v)) <$> l) = if k =? n then l else [].
Proof.
  induction l as [|v l IH]; [by case_match|]. unfold varints in *. rewrite fmap_cons. cbn [omap list_omap fst snd].
  rewrite IH. by case_match.
Qed.

Lemma varints_bytes n k (l : list bytes) : varints n ((λ d, (k, Bytes d)) <$> l) = [].
Proof. by induction l. Qed.

Lemma payloads_varint n k (l : list Z) : payloads n ((λ v, (k, Varint v)) <$> l) = [].
Proof. by induction l. Qed.

Lemma payloads_bytes n k (l : list bytes) :
  payloads n ((λ d, (k, Bytes d)) <$> l) = if k =? n then l else [].
Proof.
  induction l as [|v l IH]; [by case_match|]. unfold payloads in *. rewrite fmap_cons. cbn [omap list_omap fst snd].
  rewrite IH. by case_match.
Qed.

Create HintDb wire.
#[export] Hint Rewrite varints_app payloads_app varints_varint varints_bytes payloads_varint payloads_bytes : wire.

(** The selected fields of a list of fields written out. *)
Ltac wire := autorewrite with wire; cbn - [varints payloads]; autorewrite with wire; cbn.

Lemma encode_fields_snoc buf fs gs : encode_fields buf (fs ++ gs) = encode_fields (encode_fields buf fs) gs.
Proof. apply foldl_app. Qed.

Lemma encode_fields_length f fs :
  f ∈ fs → (length (encode_one [] f) ≤ length (encode_fields [] fs))%nat.
Proof.
  induction 1 as [f fs|f g fs Hin IH]; cbn; fold (encode_fields (encode_one [] f) fs);
    try fold (encode_fields (encode_one [] g) fs); rewrite encode_fields_app, length_app; lia.
Qed.

Lemma encode_fields_data n d fs :
  (n, Bytes d) ∈ fs → (length d ≤ length (encode_fields [] fs))%nat.
Proof.
  intros Hin%encode_fields_length. unfold encode_one, encode_field in Hin. cbn in Hin.
  rewrite length_app in Hin. lia.
Qed.

Lemma encode_fields_count fs : (length fs ≤ length (encode_fields [] fs))%nat.
Proof.
  induction fs as [|f fs IH]; [done|]. cbn. fold (encode_fields (encode_one [] f) fs).
  rewrite encode_fields_app, length_app. pose proof (encode_one_nonempty f). lia.
Qed.

(** Fields of constant small number whose data is in the message. *)
Lemma fields_ok fs :
  Z.of_nat (length (encode_fields [] fs)) < 2 ^ 64 →
  Forall (λ f, 1 ≤ fst f < 16 ∧ match snd f with Varint v => uint 64 v | Bytes _ => True end) fs →
  parse_message (encode_fields [] fs) = Some fs.
Proof.
  intros Hlen Hok. apply parse_encode_fields. rewrite Forall_forall in *. intros [n w] Hin.
  destruct (Hok _ Hin) as [Hn Hw]. split; [cbn in *; lia|]. destruct w as [v|d]; [done|].
  apply encode_fields_data in Hin. cbn. lia.
Qed.

(** ** Short messages *)

Definition pair_fields (i j : Z) : list field := [(1, Varint i); (2, Varint j)].

Lemma encode_value_type_fields i j : encode_value_type i j = encode_fields [] (pair_fields i j).
Proof. done. Qed.

Lemma encode_label_fields i j : encode_label i j = encode_fields [] (pair_fields i j).
Proof. done. Qed.

Lemma varint_length fuel : ∀ val, (length (varint_loop fuel [] val) ≤ fuel)%nat.
Proof.
  induction fuel as [|fuel IH]; intros val; cbn [varint_loop]; [done|]. case_match; [cbn; lia|].
  rewrite varint_loop_app, length_app. specialize (IH (Z.shiftr val 7)). cbn. lia.
Qed.

Lemma varint_field_length n v : (length (encode_one [] (n, Varint v)) ≤ 20)%nat.
Proof.
  unfold encode_one, encode_varint_field. cbn [fst snd]. rewrite encode_varint_app, length_app.
  pose proof (varint_length 10 (Z.shiftl n 3)). pose proof (varint_length 10 v).
  unfold encode_varint in *. lia.
Qed.

(** A message of a few varints. *)
Lemma parse_varints fs :
  (length fs ≤ 8)%nat → Forall (λ f, 1 ≤ fst f < 16 ∧ ∃ v, snd f = Varint v ∧ uint 64 v) fs →
  parse_message (encode_fields [] fs) = Some fs ∧ (length (encode_fields [] fs) ≤ 20 * length fs)%nat.
Proof.
  intros Hlen Hok. assert (length (encode_fields [] fs) ≤ 20 * length fs)%nat as Hb.
  { clear Hlen. induction Hok as [|[n w] fs (Hn & v & Hw & Hv) Hok IH]; [done|]. cbn in Hw. subst w. cbn [encode_fields foldl].
    fold (encode_fields (encode_one [] (n, Varint v)) fs). rewrite encode_fields_app, length_app.
    pose proof (varint_field_length n v). cbn [length]. lia. }
  split; [|done]. apply fields_ok; [lia|]. eapply Forall_impl; [exact Hok|].
  intros [n w] (Hn & v & Hw & Hv). cbn in *. by subst w.
Qed.

Lemma read_pair_ok tbl i j s t :
  uint 64 i → uint 64 j → string_at tbl i = Some s → string_at tbl j = Some t →
  read_pair tbl (encode_fields [] (pair_fields i j)) = Some (s, t).
Proof.
  intros Hi Hj Es Et. unfold read_pair.
  unfold string_at in *.
  destruct (parse_varints (pair_fields i j)) as [-> _]; [cbn; lia| |by cbn; rewrite Es; cbn; rewrite Et].
  repeat constructor; cbn; eauto; lia.
Qed.

Definition location_fields (l : Z * Z) : list field :=
  [(1, Varint (fst l)); (4, Bytes (encode_fields [] [(1, Varint (snd l))]))].
Definition function_fields (f : Z * Z) : list field :=
  [(1, Varint (fst f)); (2, Varint (snd f)); (3, Varint (snd f))].

Lemma encode_location_fields profile l :
  encode_location profile l = encode_one profile (4, Bytes (encode_fields [] (location_fields l))).
Proof. destruct l. unfold encode_location, location_fields, encode_fields, encode_one. cbn [foldl fst snd]. reflexivity. Qed.

Lemma encode_function_fields profile f :
  encode_function profile f = encode_one profile (5, Bytes (encode_fields [] (function_fields f))).
Proof. destruct f. unfold encode_function, function_fields, encode_fields, encode_one. cbn [foldl fst snd]. reflexivity. Qed.

Lemma read_function_ok f :
  uint 64 (fst f) → uint 64 (snd f) → read_function (encode_fields [] (function_fields f)) = Some f.
Proof.
  intros H1 H2. unfold read_function. destruct (parse_varints (function_fields f)) as [-> _]; [cbn; lia| |by destruct f].
  repeat constructor; cbn; eauto; lia.
Qed.

Lemma read_location_ok l :
  uint 64 (fst l) → uint 64 (snd l) → read_location (encode_fields [] (location_fields l)) = Some l.
Proof.
  intros H1 H2. unfold read_location.
  destruct (parse_varints [(1, Varint (snd l))]) as [Hl Hlen]; [cbn; lia|repeat constructor; cbn; eauto; lia|].
  unfold location_fields. set (line := encode_fields [] [(1, Varint (snd l))]) in *. clearbody line. cbn [length] in Hlen.
  rewrite parse_encode_fields.
  - cbn. rewrite Hl. by destruct l.
  - repeat constructor; cbn; unfold uint in *; lia.
Qed.

Lemma mapM_fmap_ok {A B C} (f : B → option C) (g : A → B) (h : A → C) (l : list A) :
  Forall (λ a, f (g a) = Some (h a)) l → mapM f (g <$> l) = Some (h <$> l).
Proof. induction 1 as [|a l Ha Hl IH]; [done|]. cbn. by rewrite Ha; cbn; rewrite IH. Qed.

(** ** Strings *)

Lemma prefix_at tbl tbl' i s :
  tbl `prefix_of` tbl' → string_at tbl i = Some s → string_at tbl' i = Some s.
Proof. intros Hp Hs. by eapply prefix_lookup_Some. Qed.

Lemma string_bound tbl i s : 0 ≤ i → string_at tbl i = Some s → i < Z.of_nat (length tbl).
Proof. intros Hi Hs%lookup_lt_Some. lia. Qed.

(** [intern_ok] in terms of [string_at]. *)
Lemma intern_at st s idx st' :
  strings_ok st → StringTable_intern st s = (idx, st') →
  strings_ok st' ∧ table st `prefix_of` table st' ∧ string_at (table st') idx = Some s ∧
  0 ≤ idx < Z.of_nat (length (table st')).
Proof.
  intros Hok Hin. destruct (intern_ok _ _ _ _ Hok Hin) as (Hok' & Hi & Hs & Hp).
  split_and!; [done..|]. by eapply string_bound.
Qed.

(** ** Locations *)

Section locations.
Context (symbols : Z → list (option bytes)).

(** The names of the frames, as the tables under construction give them. *)
Record locs_ok (ls : location_state) : Prop := {
  lo_strings : strings_ok (loc_strings ls);
  lo_dom ip : is_Some (loc_map ls !! ip) ↔ is_Some (func_map ls !! ip);
  lo_ids : fst <$> locations ls = seqZ 1 (Z.of_nat (base.size (loc_map ls)));
  lo_fids : fst <$> functions ls = seqZ 1 (Z.of_nat (base.size (func_map ls)));
  lo_func l : l ∈ locations ls → 1 ≤ snd l ≤ Z.of_nat (base.size (func_map ls));
  lo_name f : f ∈ functions ls → 0 ≤ snd f < Z.of_nat (length (table (loc_strings ls)));
  lo_entry ip id : loc_map ls !! ip = Some id → ∃ fid name, (id, fid) ∈ locations ls ∧
    (fid, name) ∈ functions ls ∧ string_at (table (loc_strings ls)) name = Some (symbol_name symbols ip);
}.

Lemma locs_ok_new st : strings_ok st → locs_ok (mkLocState [] ∅ [] ∅ st).
Proof.
  intros Hst. split; cbn; try done.
  - intros l. by rewrite elem_of_nil.
  - intros l. by rewrite elem_of_nil.
Qed.

Lemma seqZ_snoc n : seqZ 1 (Z.of_nat (S n)) = seqZ 1 (Z.of_nat n) ++ [Z.of_nat n + 1].
Proof.
  replace (Z.of_nat (S n)) with (Z.of_nat n + 1) by lia. rewrite seqZ_app by lia. f_equal.
  replace (1 + Z.of_nat n) with (Z.of_nat n + 1) by lia. done.
Qed.

(** What the loop over the frames keeps. *)
Definition locs_step (ls ls' : location_state) : Prop :=
  table (loc_strings ls) `prefix_of` table (loc_strings ls') ∧
  (∀ ip, is_Some (loc_map ls !! ip) → is_Some (loc_map ls' !! ip)).

#[export] Instance locs_step_preorder : PreOrder locs_step.
Proof.
  split.
  - by intros ls.
  - intros l1 l2 l3 [P1 M1] [P2 M2]. split; [by etrans|naive_solver].
Qed.

Lemma add_location_ok ls ip :
  locs_ok ls → let ls' := add_location symbols ls ip in
  locs_ok ls' ∧ locs_step ls ls' ∧ is_Some (loc_map ls' !! ip).
Proof.
  intros Hok. cbn zeta. unfold add_location. destruct (loc_map ls !! ip) as [id|] eqn:Hl.
  { split; [done|]. split; [reflexivity|]. by exists id. }
  destruct Hok as [Hst Hdom Hids Hfids Hfun Hname Hent].
  assert (func_map ls !! ip = None) as Hf.
  { apply eq_None_not_Some. rewrite <- Hdom. by rewrite Hl. }
  rewrite Hf. unfold resolve_symbol. fold (symbol_name symbols ip).
  destruct (StringTable_intern (loc_strings ls) (symbol_name symbols ip)) as [name st] eqn:Hin.
  destruct (intern_at _ _ _ _ Hst Hin) as (Hst' & Hp & Hs & Hb). pose proof (prefix_length _ _ Hp) as Hpl.
  split; [|split; [split; [exact Hp|]|]]; cbn [loc_map func_map locations functions loc_strings].
  2: { intros ip'. rewrite lookup_insert. case_decide; [done|auto]. }
  2: { rewrite lookup_insert_eq. by eexists. }
  split; cbn [loc_map func_map locations functions loc_strings]; rewrite ?map_size_insert_None by done.
  - done.
  - intros ip'. rewrite !lookup_insert. case_decide; [by split; eexists|]. apply Hdom.
  - rewrite fmap_app, Hids, seqZ_snoc. done.
  - rewrite fmap_app, Hfids, seqZ_snoc. done.
  - intros l [Hin'%Hfun| ->%list_elem_of_singleton]%elem_of_app; cbn; lia.
  - intros f [Hin'%Hname| ->%list_elem_of_singleton]%elem_of_app; cbn; lia.
  - intros ip' id. rewrite lookup_insert. case_decide as Heq.
    + subst ip'. intros [= <-]. eexists _, name. rewrite !elem_of_app, !list_elem_of_singleton. split_and!; eauto.
    + intros (fid & nm & H1 & H2 & H3)%Hent. exists fid, nm. rewrite !elem_of_app. split_and!; eauto.
      by eapply prefix_at.
Qed.

Lemma add_locations_ok frames : ∀ ls,
  locs_ok ls → let ls' := foldl (add_location symbols) ls frames in
  locs_ok ls' ∧ locs_step ls ls' ∧ Forall (λ ip, is_Some (loc_map ls' !! ip)) frames.
Proof.
  induction frames as [|ip frames IH]; intros ls Hok; cbn zeta; cbn [foldl]; [by split_and!; [|reflexivity|constructor]|].
  destruct (add_location_ok ls ip Hok) as (Hok1 & Hs1 & Hi). destruct (IH _ Hok1) as (Hok2 & Hs2 & Hfs).
  split; [done|]. split; [by etrans|]. constructor; [|done]. by apply Hs2.
Qed.

Lemma build_locations_ok order : ∀ st,
  strings_ok st → let ls := build_locations symbols order st in
  locs_ok ls ∧ table st `prefix_of` table (loc_strings ls) ∧
  Forall (λ e, Forall (λ ip, is_Some (loc_map ls !! ip)) (fst e)) order.
Proof.
  intros st Hst. cbn zeta. unfold build_locations. pose proof (locs_ok_new st Hst) as Hok.
  change (table st) with (table (loc_strings (mkLocState [] ∅ [] ∅ st))). revert Hok.
  generalize (mkLocState [] ∅ [] ∅ st) as ls0. clear Hst.
  enough (∀ ls0, locs_ok ls0 → let ls := foldl (λ ls entry, foldl (add_location symbols) ls entry.1) ls0 order in
    locs_ok ls ∧ locs_step ls0 ls ∧ Forall (λ e, Forall (λ ip, is_Some (loc_map ls !! ip)) (fst e)) order) as Hall.
  { intros ls0 Hok. destruct (Hall ls0 Hok) as (H1 & [H2 _] & H3). by split_and!. }
  induction order as [|[frames id] order IH]; intros ls0 Hok; cbn zeta; cbn [foldl fst];
    [by split_and!; [|reflexivity|constructor]|].
  destruct (add_locations_ok frames ls0 Hok) as (Hok1 & Hs1 & Hf1). destruct (IH _ Hok1) as (Hok2 & Hs2 & Hf2).
  split; [done|]. split; [by etrans|]. constructor; [|done]. cbn. eapply Forall_impl; [exact Hf1|]. apply Hs2.
Qed.

(** A reader finds the name of every frame through the two tables. *)
Lemma read_frame_ok ls tbl ip id :
  locs_ok ls → table (loc_strings ls) `prefix_of` tbl → loc_map ls !! ip = Some id →
  read_frame tbl (list_to_map (locations ls)) (list_to_map (functions ls)) id = Some (symbol_name symbols ip).
Proof.
  intros Hok Hp Hl. destruct (lo_entry _ Hok ip id Hl) as (fid & name & H1 & H2 & H3). unfold read_frame.
  apply (elem_of_list_to_map_1 (M := gmap Z)) in H1 as ->; [|rewrite (lo_ids _ Hok); apply NoDup_seqZ]. cbn [mbind option_bind].
  apply (elem_of_list_to_map_1 (M := gmap Z)) in H2 as ->; [|rewrite (lo_fids _ Hok); apply NoDup_seqZ]. cbn [mbind option_bind].
  by eapply prefix_at.
Qed.

(** The identifiers count the locations and functions. *)
Lemma loc_id_bound ls ip id :
  locs_ok ls → loc_map ls !! ip = Some id → 1 ≤ id ≤ Z.of_nat (length (locations ls)).
Proof.
  intros Hok Hl. destruct (lo_entry _ Hok ip id Hl) as (fid & name & H1 & _).
  assert (id ∈ fst <$> locations ls) as Hin by (apply list_elem_of_fmap; by exists (id, fid)).
  pose proof (lo_ids _ Hok) as Hids. rewrite Hids in Hin. apply elem_of_seqZ in Hin.
  apply (f_equal length) in Hids. rewrite length_fmap, length_seqZ in Hids. lia.
Qed.

Lemma location_bound ls l :
  locs_ok ls → l ∈ locations ls →
  1 ≤ fst l ≤ Z.of_nat (length (locations ls)) ∧ 1 ≤ snd l ≤ Z.of_nat (length (functions ls)).
Proof.
  intros Hok Hin. pose proof (lo_func _ Hok l Hin). pose proof (lo_ids _ Hok) as Hids. pose proof (lo_fids _ Hok) as Hfids.
  assert (fst l ∈ fst <$> locations ls) as Hin' by (by apply list_elem_of_fmap_2).
  rewrite Hids in Hin'. apply elem_of_seqZ in Hin'. apply (f_equal length) in Hids, Hfids.
  rewrite length_fmap, length_seqZ in Hids, Hfids. lia.
Qed.

Lemma function_bound ls f :
  locs_ok ls → f ∈ functions ls →
  1 ≤ fst f ≤ Z.of_nat (length (functions ls)) ∧ 0 ≤ snd f < Z.of_nat (length (table (loc_strings ls))).
Proof.
  intros Hok Hin. pose proof (lo_name _ Hok f Hin). pose proof (lo_fids _ Hok) as Hfids.
  assert (fst f ∈ fst <$> functions ls) as Hin' by (by apply list_elem_of_fmap_2).
  rewrite Hfids in Hin'. apply elem_of_seqZ in Hin'. apply (f_equal length) in Hfids.
  rewrite length_fmap, length_seqZ in Hfids. lia.
Qed.
End locations.

(** ** Samples *)

Definition sample_fields (ids : list Z) (c : StackCounters) (label : list bytes) : list field :=
  ((λ v, (1, Varint v)) <$> ids) ++
  ((λ v, (2, Varint v)) <$> [alloc_count c; sc_alloc_bytes c; cast_unsigned 64 (live_count c);
                             cast_unsigned 64 (live_bytes c)]) ++
  ((λ d, (3, Bytes d)) <$> label).

Lemma encode_frames_ok lm frames ids : ∀ buf,
  mapM (λ ip, lm !! ip) frames = Some ids →
  encode_frames buf lm frames = Ok (encode_fields buf ((λ v, (1, Varint v)) <$> ids)).
Proof.
  revert ids. induction frames as [|ip frames IH]; intros ids buf; cbn [mapM encode_frames]; [by intros [= <-]|].
  intros (id & Hid & (rest & Hr & [= <-])%bind_Some)%bind_Some. rewrite Hid. cbn [res_of_option mbind res_bind].
  by rewrite (IH rest).
Qed.

Lemma encode_values_fields buf c :
  encode_values buf c = encode_fields buf ((λ v, (2, Varint v)) <$> [alloc_count c; sc_alloc_bytes c;
    cast_unsigned 64 (live_count c); cast_unsigned 64 (live_bytes c)]).
Proof.
  unfold encode_values, encode_fields. cbn [fmap list_fmap foldl]. unfold encode_one. cbn [fst snd]. reflexivity.
Qed.

Lemma one_sample buf d : encode_fields buf ((λ d, (2, Bytes d)) <$> [d]) = encode_field buf 2 d.
Proof. done. Qed.

Lemma sample_label ids c key class_str :
  encode_fields [] (sample_fields ids c [encode_fields [] (pair_fields key class_str)]) =
  encode_field (encode_fields [] (((λ v, (1, Varint v)) <$> ids) ++ ((λ v, (2, Varint v)) <$>
    [alloc_count c; sc_alloc_bytes c; cast_unsigned 64 (live_count c); cast_unsigned 64 (live_bytes c)])))
    3 (encode_label key class_str).
Proof.
  rewrite encode_label_fields. unfold sample_fields. rewrite app_assoc, (encode_fields_snoc [] (_ ++ _)). reflexivity.
Qed.

Section samples.
Context (symbols : Z → list (option bytes)) (records : list SampleRecord) (cs : list StackCounters).
Context (lm : gmap Z Z) (st_size_class : Z).

(** A stack of the table: its counters exist and its frames have locations. *)
Definition entry_ok (e : list Z * Z) : Prop :=
  0 ≤ snd e < Z.of_nat (length cs) ∧ Forall (λ ip, is_Some (lm !! ip)) (fst e).

Definition counters_ok : Prop := Forall counter_typed cs.

(** What the reader needs of the rest of the message. *)
Record reads (tbl : list bytes) (locs funs : gmap Z Z) : Prop := {
  rd_length : Z.of_nat (length tbl) < 2 ^ 64;
  rd_frame ip id : lm !! ip = Some id →
    uint 64 id ∧ read_frame tbl locs funs id = Some (symbol_name symbols ip);
}.

(** The message of a stack reads as the view of the stack. *)
Definition describes (st : StringTable) (ds : list bytes) (views : list sample_view) : Prop :=
  ∀ tbl locs funs, table st `prefix_of` tbl → reads tbl locs funs →
    Forall (λ d, Z.of_nat (length d) < 2 ^ 64) ds → mapM (read_sample tbl locs funs) ds = Some views.

Lemma frames_ids e :
  entry_ok e → ∃ ids, mapM (λ ip, lm !! ip) (fst e) = Some ids.
Proof. intros [_ Hf]. by apply mapM_is_Some. Qed.

Lemma read_frames tbl locs funs frames ids :
  reads tbl locs funs → mapM (λ ip, lm !! ip) frames = Some ids →
  Forall (uint 64) ids ∧ mapM (read_frame tbl locs funs) ids = Some (symbol_name symbols <$> frames).
Proof.
  intros Hrd. revert ids. induction frames as [|ip frames IH]; intros ids; cbn [mapM];
    [by intros [= <-]|].
  intros (id & Hid & (rest & Hr & [= <-])%bind_Some)%bind_Some.
  destruct (rd_frame _ _ _ Hrd ip id Hid) as [Hu Hn]. destruct (IH rest Hr) as [Hus Hns].
  split; [by constructor|]. cbn [mapM]. rewrite Hn. cbn [mbind option_bind]. by rewrite Hns.
Qed.

Lemma read_sample_ok tbl locs funs frames ids c label labels :
  reads tbl locs funs → mapM (λ ip, lm !! ip) frames = Some ids →
  uint 64 (alloc_count c) → uint 64 (sc_alloc_bytes c) →
  mapM (read_pair tbl) label = Some labels →
  Z.of_nat (length (encode_fields [] (sample_fields ids c label))) < 2 ^ 64 →
  read_sample tbl locs funs (encode_fields [] (sample_fields ids c label)) =
    Some (mkView (symbol_name symbols <$> frames)
      [alloc_count c; sc_alloc_bytes c; cast_unsigned 64 (live_count c); cast_unsigned 64 (live_bytes c)] labels).
Proof.
  intros Hrd Hids Ha Hb Hlab Hlen. destruct (read_frames _ _ _ _ _ Hrd Hids) as [Hu Hf].
  unfold read_sample. rewrite fields_ok; [|done|].
  - unfold sample_fields. cbn [mbind option_bind].
    rewrite !varints_app, !payloads_app, !varints_varint, !varints_bytes, !payloads_varint, !payloads_bytes.
    cbn [Z.eqb Pos.eqb app]. rewrite !app_nil_r, Hf. cbn [mbind option_bind]. by rewrite Hlab.
  - unfold sample_fields. rewrite !Forall_app, !Forall_fmap. split_and!.
    + eapply Forall_impl; [exact Hu|]. cbn. intros x ?. split; [lia|done].
    + rewrite !Forall_cons. unfold compose. cbn. pose proof (wrap_bound 64 (live_count c) ltac:(lia)).
      pose proof (wrap_bound 64 (live_bytes c) ltac:(lia)). by split_and!; try lia.
    + apply Forall_forall. cbn. intros d _. split; [lia|done].
Qed.

Lemma encode_sample_ok profile st e :
  strings_ok st → 0 ≤ st_size_class → string_at (table st) st_size_class = Some (str "size_class") →
  entry_ok e → counters_ok →
  ∃ ds st', encode_sample st_size_class records cs lm profile st e =
      Ok (encode_fields profile ((λ d, (2, Bytes d)) <$> ds), st') ∧
    strings_ok st' ∧ table st `prefix_of` table st' ∧
    describes st' ds (omap (view_sample symbols records cs) [e]).
Proof.
  intros Hst Hsc Hkey He Hcs. destruct (frames_ids e He) as [ids Hids]. destruct e as [frames id].
  destruct He as [Hr _]. cbn [fst snd] in *. destruct (arr_get_total cs id Hr) as (c & Hget & Hc).
  pose proof (Forall_lookup_1 _ _ _ _ Hcs Hc) as [Ha Hb _ _]. unfold encode_sample. rewrite Hget. cbn [mbind res_bind].
  cbn [omap list_omap]. unfold view_sample at 1. cbn [fst snd]. rewrite Hc. cbn [mbind option_bind].
  destruct ((alloc_count c =? 0) && (live_count c =? 0)).
  { exists [], st. split_and!; [done|done|done|]. by intros tbl locs funs. }
  rewrite (encode_frames_ok lm frames ids) by done. cbn [mbind res_bind]. rewrite encode_values_fields, <- encode_fields_snoc.
  destruct (list_find (λ r, stack_id r = id) records) as [[k r]|].
  - destruct (StringTable_intern st (decimal (class_idx r))) as [class_str st'] eqn:Hin.
    destruct (intern_at _ _ _ _ Hst Hin) as (Hst' & Hp & Hs & Hi).
    exists [encode_fields [] (sample_fields ids c [encode_fields [] (pair_fields st_size_class class_str)])], st'.
    split; [by rewrite one_sample, sample_label|]. split; [done|]. split; [done|].
    intros tbl locs funs Hpt Hrd Hlen. apply Forall_cons in Hlen as [Hlen _]. cbn [mapM].
    assert (string_at tbl st_size_class = Some (str "size_class")) as Hk by exact (prefix_at _ _ _ _ (transitivity Hp Hpt) Hkey).
    assert (string_at tbl class_str = Some (decimal (class_idx r))) as Hv by (by eapply prefix_at).
    pose proof (rd_length _ _ _ Hrd). pose proof (string_bound _ _ _ Hsc Hk).
    pose proof (string_bound _ _ _ (proj1 Hi) Hv).
    erewrite read_sample_ok; [|done|done|done|done| |done]; [done|]. cbn [mapM].
    rewrite (read_pair_ok tbl st_size_class class_str (str "size_class") (decimal (class_idx r))); [done|unfold uint; lia..|exact Hk|exact Hv].
  - exists [encode_fields [] (sample_fields ids c [])], st.
    split; [by rewrite one_sample; unfold sample_fields; rewrite fmap_nil, app_nil_r|]. split; [done|]. split; [done|].
    intros tbl locs funs Hpt Hrd Hlen. apply Forall_cons in Hlen as [Hlen _]. cbn [mapM].
    by erewrite read_sample_ok.
Qed.

Lemma mapM_app_some {A B} (f : A → option B) l k bs ds :
  mapM f l = Some bs → mapM f k = Some ds → mapM f (l ++ k) = Some (bs ++ ds).
Proof.
  revert bs. induction l as [|a l IH]; intros bs; cbn [mapM app]; [by intros [= <-]|].
  intros (b & Hb & (bs' & Hl & [= <-])%bind_Some)%bind_Some Hk. rewrite Hb. cbn [mbind option_bind].
  by rewrite (IH bs').
Qed.

Lemma encode_samples_ok order : ∀ profile st,
  strings_ok st → 0 ≤ st_size_class → string_at (table st) st_size_class = Some (str "size_class") →
  Forall entry_ok order → counters_ok →
  ∃ ds st', encode_samples st_size_class records cs lm profile st order =
      Ok (encode_fields profile ((λ d, (2, Bytes d)) <$> ds), st') ∧
    strings_ok st' ∧ table st `prefix_of` table st' ∧
    describes st' ds (omap (view_sample symbols records cs) order).
Proof.
  induction order as [|e order IH]; intros profile st Hst Hsc Hkey He Hcs.
  { exists [], st. split_and!; [done..|]. by intros tbl locs funs. }
  apply Forall_cons in He as [He Hes].
  destruct (encode_sample_ok profile st e Hst Hsc Hkey He Hcs) as (ds1 & st1 & E1 & Hst1 & Hp1 & D1).
  destruct (IH (encode_fields profile ((λ d, (2, Bytes d)) <$> ds1)) st1) as (ds2 & st2 & E2 & Hst2 & Hp2 & D2);
    [done|done|by eapply prefix_at|done|done|].
  exists (ds1 ++ ds2), st2. cbn [encode_samples]. rewrite E1. cbn [mbind res_bind]. rewrite E2, <- encode_fields_snoc, fmap_app.
  split; [done|]. split; [done|]. split; [by etrans|].
  intros tbl locs funs Hpt Hrd [Hl1 Hl2]%Forall_app. change (e :: order) with ([e] ++ order). rewrite omap_app.
  apply mapM_app_some; [apply D1|apply D2]; try done. by etrans.
Qed.
End samples.

(** ** The message *)

Lemma intern_all_ok l : ∀ ids st,
  strings_ok st → strings_ok (snd (foldl (λ '(ids, strings) s,
    let '(i, strings) := StringTable_intern strings s in (ids ++ [i], strings)) (ids, st) l)).
Proof.
  induction l as [|s l IH]; intros ids st Hst; cbn [foldl]; [done|].
  destruct (StringTable_intern st s) as [i st'] eqn:Hin. apply IH. by eapply intern_at.
Qed.

(** The indices of the strings interned first. *)
Lemma initial_ok :
  ∃ st, intern_all StringTable_new initial_strings = ([0; 1; 2; 3; 4; 5; 6; 7; 8], st) ∧
    strings_ok st ∧ table st = initial_strings.
Proof.
  exists (snd (intern_all StringTable_new initial_strings)). split; [by vm_compute|].
  split; [apply intern_all_ok, strings_ok_new|by vm_compute].
Qed.

Definition profile_fields (ds : list bytes) (ls : location_state) (tbl : list bytes) (nanos interval : Z)
    : list field :=
  ((λ d, (1, Bytes d)) <$> ((λ p, encode_fields [] (pair_fields (fst p) (snd p))) <$> [(1, 5); (2, 6); (3, 5); (4, 6)])) ++
  ((λ d, (2, Bytes d)) <$> ds) ++
  ((λ d, (4, Bytes d)) <$> ((λ l, encode_fields [] (location_fields l)) <$> locations ls)) ++
  ((λ d, (5, Bytes d)) <$> ((λ f, encode_fields [] (function_fields f)) <$> functions ls)) ++
  ((λ d, (6, Bytes d)) <$> tbl) ++
  ((λ v, (9, Varint v)) <$> [nanos]) ++
  ((λ d, (11, Bytes d)) <$> [encode_fields [] (pair_fields 8 6)]) ++
  ((λ v, (12, Varint v)) <$> [interval]).

Lemma encode_each {A} (g : bytes → A → bytes) (h : A → field) l : ∀ buf,
  (∀ buf a, g buf a = encode_one buf (h a)) → foldl g buf l = encode_fields buf (h <$> l).
Proof. induction l as [|a l IH]; intros buf Hg; [done|]. cbn. rewrite Hg. by apply IH. Qed.

Section message.
Context (symbols : Z → list (option bytes)).

Lemma build_profile_fields order records state interval nanos :
  order ≡ₚ map_to_list (Pprof.map (stacks state)) → state_typed state →
  ∃ ds ls st, build_profile symbols order records state interval nanos =
      Ok (encode_fields [] (profile_fields ds ls (table st) nanos interval)) ∧
    locs_ok symbols ls ∧ table (loc_strings ls) `prefix_of` table st ∧ initial_strings `prefix_of` table st ∧
    describes symbols (loc_map ls) st ds (omap (view_sample symbols records (counters (stacks state))) order).
Proof.
  intros Hord [Hids _ Hcs]. unfold build_profile. destruct initial_ok as (st0 & -> & Hst0 & Htbl).
  destruct (build_locations_ok symbols order st0 Hst0) as (Hls & Hp0 & Hin).
  set (ls := build_locations symbols order st0) in *. clearbody ls. rewrite Htbl in Hp0.
  set (types := foldl _ [] _). destruct (encode_samples_ok symbols records (counters (stacks state)) (loc_map ls) 7
    order types (loc_strings ls)) as (ds & st & E & Hst & Hp & Hd); [by apply lo_strings in Hls|done| |idtac|done|].
  - eapply prefix_at; [exact Hp0|]. by vm_compute.
  - apply Forall_forall. intros [f id] He. split; [|by rewrite Forall_forall in Hin; apply (Hin _ He)].
    rewrite Hord, elem_of_map_to_list in He. by apply (Hids f).
  - exists ds, ls, st. split; [|split_and!; [done|done|by etrans|done]]. rewrite E. cbn [mbind res_bind].
    f_equal. unfold profile_fields. rewrite !encode_fields_snoc.
    rewrite (encode_each encode_location (λ l, (4, Bytes (encode_fields [] (location_fields l)))))
      by (intros; apply encode_location_fields).
    rewrite (encode_each encode_function (λ l, (5, Bytes (encode_fields [] (function_fields l)))))
      by (intros; apply encode_function_fields).
    rewrite (encode_each _ (λ d, (6, Bytes d))) by done. rewrite <- !list_fmap_compose. reflexivity.
Qed.

(** The parts of the message by field number. *)
Lemma profile_payloads n ds ls tbl nanos interval :
  payloads n (profile_fields ds ls tbl nanos interval) =
    (if 1 =? n then (λ p, encode_fields [] (pair_fields (fst p) (snd p))) <$> [(1, 5); (2, 6); (3, 5); (4, 6)] else []) ++
    (if 2 =? n then ds else []) ++
    (if 4 =? n then (λ l, encode_fields [] (location_fields l)) <$> locations ls else []) ++
    (if 5 =? n then (λ f, encode_fields [] (function_fields f)) <$> functions ls else []) ++
    (if 6 =? n then tbl else []) ++
    (if 11 =? n then [encode_fields [] (pair_fields 8 6)] else []).
Proof. unfold profile_fields. by rewrite !payloads_app, !payloads_varint, !payloads_bytes, app_nil_r. Qed.

Lemma profile_varints n ds ls tbl nanos interval :
  varints n (profile_fields ds ls tbl nanos interval) =
    (if 9 =? n then [nanos] else []) ++ (if 12 =? n then [interval] else []).
Proof. unfold profile_fields. by rewrite !varints_app, !varints_varint, !varints_bytes. Qed.

(** The lengths the reader's bounds come from. *)
Lemma profile_lengths ds ls tbl nanos interval :
  let out := encode_fields [] (profile_fields ds ls tbl nanos interval) in
  (length tbl ≤ length out)%nat ∧ (length (locations ls) ≤ length out)%nat ∧
  (length (functions ls) ≤ length out)%nat ∧ Forall (λ d, (length d ≤ length out)%nat) ds.
Proof.
  cbn zeta. pose proof (encode_fields_count (profile_fields ds ls tbl nanos interval)) as Hc.
  split; [|split; [|split]].
  1-3: etrans; [|exact Hc]; unfold profile_fields; rewrite !length_app, !length_fmap; lia.
  apply Forall_forall. intros d Hd. apply (encode_fields_data 2). unfold profile_fields.
  apply elem_of_app. right. apply elem_of_app. left. apply list_elem_of_fmap. by exists d.
Qed.

Lemma parse_profile ds ls tbl nanos interval :
  Z.of_nat (length (encode_fields [] (profile_fields ds ls tbl nanos interval))) < 2 ^ 64 →
  uint 64 nanos → uint 64 interval →
  parse_message (encode_fields [] (profile_fields ds ls tbl nanos interval)) =
    Some (profile_fields ds ls tbl nanos interval).
Proof.
  intros Hlen Hn Hi. apply fields_ok; [done|]. unfold profile_fields. rewrite !Forall_app.
  split_and!; apply Forall_fmap, Forall_forall; intros x Hx; cbn; (split; [lia|]); try done.
  all: by apply list_elem_of_singleton in Hx as ->.
Qed.

Lemma read_profile_fields ds ls tbl nanos interval views :
  let out := encode_fields [] (profile_fields ds ls tbl nanos interval) in
  Z.of_nat (length out) < 2 ^ 64 → uint 64 nanos → uint 64 interval →
  locs_ok symbols ls → table (loc_strings ls) `prefix_of` tbl → initial_strings `prefix_of` tbl →
  (reads symbols (loc_map ls) tbl (list_to_map (locations ls)) (list_to_map (functions ls)) →
   Forall (λ d, Z.of_nat (length d) < 2 ^ 64) ds →
   mapM (read_sample tbl (list_to_map (locations ls)) (list_to_map (functions ls))) ds = Some views) →
  read_profile out = Some (mkProfileView
    [(str "alloc_objects", str "count"); (str "alloc_space", str "bytes");
     (str "inuse_objects", str "count"); (str "inuse_space", str "bytes")]
    views [nanos] [(str "space", str "bytes")] [interval]).
Proof.
  intros out Hlen Hn Hi Hls Hp Hp0 Hviews.
  destruct (profile_lengths ds ls tbl nanos interval) as (Ltbl & Lloc & Lfun & Lds). fold out in Ltbl, Lloc, Lfun, Lds.
  pose proof (prefix_length _ _ Hp) as Lstr. unfold read_profile, out. rewrite parse_profile by done. fold out.
  clearbody out. cbn [mbind option_bind]. rewrite !profile_payloads, !profile_varints. cbn [Z.eqb Pos.eqb app].
  rewrite !app_nil_r. destruct Hp0 as [rest Htbl]. rewrite decide_True by (by subst tbl). cbn [mbind option_bind].
  assert (∀ i s, initial_strings !! Z.to_nat i = Some s → string_at tbl i = Some s) as Hat.
  { intros i s Hs. apply (prefix_at initial_strings); [by eexists|done]. }
  assert (∀ i j s t, 0 ≤ i < 9 → 0 ≤ j < 9 → initial_strings !! Z.to_nat i = Some s →
    initial_strings !! Z.to_nat j = Some t → read_pair tbl (encode_fields [] (pair_fields i j)) = Some (s, t)) as Hpair.
  { intros i j s t Hi' Hj' Hs Ht. apply read_pair_ok; [unfold uint; lia..| |]; by apply Hat. }
  rewrite (mapM_fmap_ok read_location _ id).
  2: { apply Forall_forall. intros l Hl. pose proof (location_bound _ _ _ Hls Hl).
       change (id l) with l. apply read_location_ok; unfold uint; lia. }
  cbn [mbind option_bind]. rewrite (mapM_fmap_ok read_function _ id).
  2: { apply Forall_forall. intros f Hf. pose proof (function_bound _ _ _ Hls Hf).
       change (id f) with f. apply read_function_ok; unfold uint; lia. }
  cbn [mbind option_bind]. rewrite !list_fmap_id, Hviews; [|split; [lia|]|].
  - cbn [fmap list_fmap mapM fst snd].
    rewrite (Hpair 1 5 (str "alloc_objects") (str "count")), (Hpair 2 6 (str "alloc_space") (str "bytes")),
      (Hpair 3 5 (str "inuse_objects") (str "count")), (Hpair 4 6 (str "inuse_space") (str "bytes")),
      (Hpair 8 6 (str "space") (str "bytes")) by (done || lia || by vm_compute). done.
  - intros ip id Hid. pose proof (loc_id_bound _ _ _ _ Hls Hid). split; [unfold uint; lia|].
    by apply (read_frame_ok symbols _ _ ip).
  - eapply Forall_impl; [exact Lds|]. cbn. intros d Hd. lia.
Qed.

(** Reading back a dumped profile gives the state of the profiler: for
    every stack with samples, in the order walked, the names of its frames,
    its four counters and the size class of its side-table record, then the
    time, the types and the interval.  The message is always produced. *)
Theorem profile_roundtrip (order : list (list Z * Z)) (records : list SampleRecord)
    (state : PprofState) (interval nanos : Z) :
  order ≡ₚ map_to_list (Pprof.map (stacks state)) → state_typed state →
  uint 64 interval → uint 64 nanos →
  ∃ out, build_profile symbols order records state interval nanos = Ok out ∧
    (Z.of_nat (length out) < 2 ^ 64 →
     read_profile out = Some (view_profile symbols order records state interval nanos)).
Proof.
  intros Hord Hst Hi Hn.
  destruct (build_profile_fields order records state interval nanos Hord Hst) as (ds & ls & st & E & Hls & Hp & Hp0 & Hd).
  eexists. split; [exact E|]. intros Hlen.
  exact (read_profile_fields _ _ _ _ _ _ Hlen Hn Hi Hls Hp Hp0 (Hd (table st) _ _ (reflexivity _))).
Qed.
End message.

(** A state with two stacks, one of them without samples. *)
Definition demo_symbols (ip : Z) : list (option bytes) := if ip =? 10 then [None; Some (str "main")] else [].
Definition demo_state : PprofState :=
  mkPprofState (mkStackTable (<[[10; 255] := 0]> (<[[20] := 1]> ∅)) [mkCounters 3 192 2 128; mkCounters 0 0 0 0])
    (<[4096 := mkRecord 0 64 3]> ∅).

Lemma profile_roundtrip_witness :
  ∃ out, build_profile demo_symbols [([10; 255], 0); ([20], 1)] [mkRecord 0 64 3] demo_state 524288 1700 = Ok out ∧
    read_profile out = Some (mkProfileView
      [(str "alloc_objects", str "count"); (str "alloc_space", str "bytes");
       (str "inuse_objects", str "count"); (str "inuse_space", str "bytes")]
      [mkView [str "main"; str "0xff"] [3; 192; 2; 128] [(str "size_class", str "3")]]
      [1700] [(str "space", str "bytes")] [524288]).
Proof.
  destruct (profile_roundtrip demo_symbols [([10; 255], 0); ([20], 1)] [mkRecord 0 64 3] demo_state 524288 1700)
    as (out & E & Hr).
  - apply (bool_decide_unpack _). by vm_compute.
  - split; [apply (bool_decide_unpack _); by vm_compute..|]. repeat constructor; cbn; lia.
  - by vm_compute.
  - by vm_compute.
  - exists out. split; [exact E|]. assert (Z.of_nat (length out) < 1000) as Hlen.
    { revert E. vm_compute. by intros [= <-]. }
    rewrite Hr by lia. by vm_compute.
Defined.
