(* ===== verification/Dump.v ===== *)
(** * Dumping the profile ([src/src/pprof.rs], [dump]; [src/src/global.rs])

    The profile is built under the reentrancy guard and the lock of the
    profiler's state, and goes through the gzip encoder of [flate2] to the
    caller's writer.  The allocations and frees of the build itself run the
    profiler's hooks on the same thread ([own_call]): it is the guard that keeps
    them from asking for the lock again ([unguarded_build_deadlocks] shows what
    happens without it).  Encoder and writer are parameters ([Gzip]); what the
    code relies on is in [GzipLaws].  The theorem is that who decompresses and
    reads what a successful dump wrote gets the profiler's state. *)

From stdpp Require Import base numbers list gmap strings.
From Stdlib Require Import ZArith Lia.
From S2P Require Import Prelude Protobuf Pprof Profile ProfileSpec.

Local Open Scope Z_scope.
Local Open Scope clm_scope.

(** ** The encoder and the writer *)

(** [std::io::Result<()>]. *)
Inductive io_result (Err : Type) := IoOk | IoErr (e : Err).
Arguments IoOk {Err}.
Arguments IoErr {Err} e.

(** [E] is [GzEncoder<&mut dyn Write>], [Wr] the state of the writer.  An encoder
    that is dropped before [finish] tries to finish and ignores errors. *)
Class Gzip (Wr E Err : Type) := {
  gz_new : Wr → E;
  gz_write_all : E → bytes → io_result Err * E;
  gz_finish : E → io_result Err * Wr;
  gz_drop : E → Wr;
}.

(** [gz_state e out plain]: the writer held [out] when the encoder was made, and
    [plain] was written to the encoder since. *)
Class GzipLaws (Wr E Err : Type) `{Gzip Wr E Err} := {
  written : Wr → bytes;
  gunzip : bytes → option bytes;
  gz_state : E → bytes → bytes → Prop;
  gz_new_ok w : gz_state (gz_new w) (written w) [];
  gz_write_ok e out plain b e' :
    gz_state e out plain → gz_write_all e b = (IoOk, e') → gz_state e' out (plain ++ b);
  gz_finish_ok e out plain w :
    gz_state e out plain → gz_finish e = (IoOk, w) →
    ∃ z, written w = out ++ z ∧ gunzip z = Some plain;
}.

(** ** [dump] *)

(** A call of the allocator by the profile being built: an allocation that the
    sampler of the thread's heap chose to sample, or a free. *)
Inductive own_call :=
  | OwnAlloc (ptr size class_idx : Z) (stack : list Z)
  | OwnFree (ptr : Z).

Section own.
Context {R : Type} `{PprofEnv R}.

(** The hook it runs on thread [t], which holds the lock of [PPROF]. *)
Definition own_hook (t : Z) (p : pprof) (o : own_call) : res pprof :=
  match o with
  | OwnAlloc ptr size class_idx stack => record_sample_in true p t ptr size class_idx stack
  | OwnFree ptr => if should_sample p then maybe_remove_sample_in true p t ptr else Ok p
  end.

Fixpoint own_hooks (t : Z) (p : pprof) (os : list own_call) : res pprof :=
  match os with
  | [] => Ok p
  | o :: os => p ← own_hook t p o; own_hooks t p os
  end.

(** [with_state] for a function that only reads, and whose own allocations and
    frees are [own]. *)
Definition with_state_read {A} (p : pprof) (t : Z) (own : list own_call) (f : PprofState → res A) : res (A * pprof) :=
  let state := default PprofState_new (PPROF p) in
  let p := mkPprof (PROF_ACTIVE p) (SAMPLE_INTERVAL p) (Some state) (IN_PPROF p) in
  a ← f state;
  p ← own_hooks t p own;
  Ok (a, p).

(** A thread that has the guard does not sample: its hooks return at once,
    without asking for the lock, held or not. *)
Lemma guarded_hooks_idle (held : bool) (p : pprof) (t : Z) :
  t ∈ IN_PPROF p →
  (∀ ptr size c stack, record_sample_in held p t ptr size c stack = Ok p) ∧
  (∀ ptr, maybe_remove_sample_in held p t ptr = Ok p).
Proof.
  intros Ht. unfold record_sample_in, maybe_remove_sample_in, guard_acquire. rewrite bool_decide_eq_false_2 by auto.
  cbn [negb]. assert ({[t]} ∪ IN_PPROF p = IN_PPROF p) as -> by set_solver. by destruct p.
Qed.

Lemma guarded_hooks_return (p : pprof) (t : Z) :
  t ∈ IN_PPROF p →
  (∀ ptr size c stack, record_sample p t ptr size c stack = Ok p) ∧ (∀ ptr, maybe_remove_sample p t ptr = Ok p).
Proof. apply guarded_hooks_idle. Qed.

Lemma own_hooks_idle t p own : t ∈ IN_PPROF p → own_hooks t p own = Ok p.
Proof.
  intros Ht. destruct (guarded_hooks_idle true p t Ht) as [Hr Hm]. induction own as [|o own IH]; [done|].
  cbn [own_hooks]. destruct o; cbn [own_hook]; rewrite ?Hr, ?Hm; [|case_match]; exact IH.
Qed.

(** Without the guard a sampled allocation of the build waits for the lock that
    its own thread holds. *)
Lemma unguarded_build_deadlocks t p ptr size c stack own :
  t ∉ IN_PPROF p → own_hooks t p (OwnAlloc ptr size c stack :: own) = Panic PanicDeadlock.
Proof.
  intros Ht. cbn [own_hooks own_hook]. unfold record_sample_in, guard_acquire. by rewrite bool_decide_eq_true_2.
Qed.
End own.

Section dump.
Context {Wr E Err R : Type} `{Gzip Wr E Err} `{PprofEnv R}.
Context (symbols : Z → list (option bytes)).

(** The encoder over the bytes of the profile: [write_all], then [finish]. *)
Definition write_profile (writer : Wr) (profile_bytes : bytes) : io_result Err * Wr :=
  let '(r, encoder) := gz_write_all (gz_new writer) profile_bytes in
  match r with
  | IoErr e => (IoErr e, gz_drop encoder)
  | IoOk => gz_finish encoder
  end.

(** [_guard] is dropped on every way out, if it was had. *)
Definition dump (p : pprof) (t : Z) (own : list own_call) (order : list (list Z * Z)) (records : list SampleRecord) (nanos : Z)
    (writer : Wr) : res (io_result Err * pprof * Wr) :=
  let '(_guard, p) := guard_acquire p t in
  '(profile_bytes, p) ← with_state_read p t own (λ state,
    build_profile symbols order records state (SAMPLE_INTERVAL p) nanos);
  let '(r, writer) := write_profile writer profile_bytes in
  Ok (r, (if (_guard : bool) then guard_drop p t else p), writer).

Definition ClMalloc_set_pprof_config (p : pprof) (config : option PprofConfig) : res pprof :=
  set_pprof_config p config.

Definition ClMalloc_dump_heap_profile (p : pprof) (t : Z) (own : list own_call) (order : list (list Z * Z))
    (records : list SampleRecord) (nanos : Z) (writer : Wr) : res (io_result Err * pprof * Wr) :=
  dump p t own order records nanos writer.

(** What a dump leaves behind: a state that was not there yet is made. *)
Definition initialised (p : pprof) : pprof :=
  mkPprof (PROF_ACTIVE p) (SAMPLE_INTERVAL p) (Some (default PprofState_new (PPROF p))) (IN_PPROF p).

Lemma guard_release p t st :
  let '(g, q) := guard_acquire p t in
  (if g then guard_drop (mkPprof (PROF_ACTIVE q) (SAMPLE_INTERVAL q) st (IN_PPROF q)) t
   else mkPprof (PROF_ACTIVE q) (SAMPLE_INTERVAL q) st (IN_PPROF q)) =
  mkPprof (PROF_ACTIVE p) (SAMPLE_INTERVAL p) st (IN_PPROF p).
Proof.
  unfold guard_acquire, guard_drop. cbn [PROF_ACTIVE SAMPLE_INTERVAL IN_PPROF PPROF].
  case_bool_decide; f_equal; set_solver.
Qed.

Lemma dump_shape p t own order records nanos w out :
  build_profile symbols order records (default PprofState_new (PPROF p)) (SAMPLE_INTERVAL p) nanos = Ok out →
  dump p t own order records nanos w =
    Ok (fst (write_profile w out), initialised p, snd (write_profile w out)).
Proof.
  intros E1. unfold dump, with_state_read. pose proof (guard_release p t (Some (default PprofState_new (PPROF p)))) as Hg.
  unfold guard_acquire in *. cbn [PROF_ACTIVE SAMPLE_INTERVAL IN_PPROF PPROF] in *. rewrite E1. cbn [mbind res_bind].
  rewrite own_hooks_idle by (apply elem_of_union; left; by apply elem_of_singleton). cbn [mbind res_bind].
  destruct (write_profile w out) as [r w']. cbn [fst snd]. unfold initialised. by rewrite Hg.
Qed.
End dump.

Section readable.
Context {Wr E Err R : Type} `{GzipLaws Wr E Err} `{PprofEnv R}.
Context (symbols : Z → list (option bytes)).

Lemma write_profile_ok (w w' : Wr) out :
  write_profile w out = (IoOk (Err := Err), w') → ∃ z, written w' = written w ++ z ∧ gunzip z = Some out.
Proof.
  unfold write_profile. destruct (gz_write_all (gz_new w) out) as [[|e] enc] eqn:E1; [|done].
  intros E2. eapply gz_finish_ok; [|exact E2]. exact (gz_write_ok _ _ [] _ _ (gz_new_ok w) E1).
Qed.

(** C35. A dump always returns and changes nothing of the profiler, whatever it
    allocates and frees itself while it holds the lock, sampled or not ([own]):
    the switch, the interval, the tables and the guards are what they were, also
    when the writer failed.  When it reports success, it appended to the writer a gzip
    stream, and a reader of the pprof format gets from it the profiler's
    state: for every stack with samples the names of its frames, its four
    counters and the size class of its side-table record, then the time, the
    types and the interval. *)
Theorem dump_readable (p : pprof) (t : Z) (own : list own_call) (order : list (list Z * Z)) (records : list SampleRecord)
    (nanos : Z) (w : Wr) :
  let state := default PprofState_new (PPROF p) in
  order ≡ₚ map_to_list (Pprof.map (stacks state)) → records ≡ₚ (map_to_list (side state)).*2 →
  state_typed state → uint 64 (SAMPLE_INTERVAL p) → uint 64 nanos →
  ∃ r w', ClMalloc_dump_heap_profile symbols p t own order records nanos w = Ok (r, initialised p, w') ∧
    (r = IoOk → ∃ z out, written w' = written w ++ z ∧ gunzip z = Some out ∧
       (Z.of_nat (length out) < 2 ^ 64 →
        read_profile out = Some (view_profile symbols order records state (SAMPLE_INTERVAL p) nanos))).
Proof.
  intros state Hord _ Hst Hi Hn.
  destruct (profile_roundtrip symbols order records state (SAMPLE_INTERVAL p) nanos Hord Hst Hi Hn) as (out & E1 & Hr).
  exists (fst (write_profile w out)), (snd (write_profile w out)). split; [by apply dump_shape|].
  intros Hok. destruct (write_profile w out) as [r w'] eqn:E2. cbn [fst snd] in *. subst r.
  destruct (write_profile_ok w w' out E2) as (z & Hz & Hg). exists z, out.
  split; [exact Hz|]. split; [exact Hg|exact Hr].
Qed.
End readable.

(** ** A concrete encoder *)

(** A writer with room for so many bytes. *)
Record sink := mkSink { sink_out : bytes; sink_room : Z }.

(** The stand-in format: the magic number of gzip, then the data as it is.  The
    encoder holds the data back until the end. *)
Definition gzip_magic : bytes := [31; 139].
Record store_encoder := mkStore { se_sink : sink; se_data : bytes }.

Definition store_finish (e : store_encoder) : io_result unit * sink :=
  let z := gzip_magic ++ se_data e in
  if Z.of_nat (length z) <=? sink_room (se_sink e)
  then (IoOk, mkSink (sink_out (se_sink e) ++ z) (sink_room (se_sink e) - Z.of_nat (length z)))
  else (IoErr tt, se_sink e).

Definition store_gunzip (z : bytes) : option bytes :=
  if decide (take 2 z = gzip_magic) then Some (drop 2 z) else None.

Lemma store_gunzip_length z out : store_gunzip z = Some out → (length out ≤ length z)%nat.
Proof. unfold store_gunzip. case_decide; [|done]. intros [= <-]. rewrite length_drop. lia. Qed.

#[export] Instance StoreGzip : Gzip sink store_encoder unit := {
  gz_new w := mkStore w [];
  gz_write_all e b := (IoOk, mkStore (se_sink e) (se_data e ++ b));
  gz_finish := store_finish;
  gz_drop e := snd (store_finish e);
}.

#[export] Instance StoreGzip_laws : GzipLaws sink store_encoder unit.
Proof.
  refine {|
    written := sink_out;
    gunzip := store_gunzip;
    gz_state e out plain := sink_out (se_sink e) = out ∧ se_data e = plain |}.
  - done.
  - intros e out plain b e' [<- <-] [= <-]. done.
  - intros e out plain w [<- <-]. cbn. unfold store_finish. case_match; [|done]. intros [= <-].
    by exists (gzip_magic ++ se_data e).
Defined.

(** The profiler with two stacks, one of them without samples. *)
Definition demo_profiler : pprof := mkPprof true 524288 (Some demo_state) ∅.
(** The build samples an allocation of its own and frees a sampled block. *)
Definition demo_own : list own_call := [OwnAlloc 8192 64 3 [10]; OwnFree 4096].
Definition demo_dump (room : Z) : res (io_result unit * pprof * sink) :=
  ClMalloc_dump_heap_profile (R := Z) demo_symbols demo_profiler 1 demo_own [([10; 255], 0); ([20], 1)] [mkRecord 0 64 3] 1700
    (mkSink [1; 2; 3] room).

(** The writer is full: the error is reported, and nothing else happened. *)
Example dump_error : demo_dump 100 = Ok (IoErr tt, demo_profiler, mkSink [1; 2; 3] 100).
Proof. vm_compute. reflexivity. Qed.

Definition dumped (r : res (io_result unit * pprof * sink)) : bool :=
  match r with Ok (IoOk, _, w) => Z.of_nat (length (sink_out w)) <? 1000 | _ => false end.

Lemma dump_readable_witness :
  ∃ w z out, demo_dump 4096 = Ok (IoOk, demo_profiler, w) ∧ sink_out w = [1; 2; 3] ++ z ∧ gunzip z = Some out ∧
    read_profile out = Some (view_profile demo_symbols [([10; 255], 0); ([20], 1)] [mkRecord 0 64 3] demo_state 524288 1700).
Proof.
  destruct (dump_readable (R := Z) demo_symbols demo_profiler 1 demo_own [([10; 255], 0); ([20], 1)] [mkRecord 0 64 3] 1700
    (mkSink [1; 2; 3] 4096)) as (r & w & E & Hr).
  - apply (bool_decide_unpack _). by vm_compute.
  - assert ((map_to_list (side demo_state)).*2 = [mkRecord 0 64 3]) as Hs by (vm_compute; reflexivity).
    change ([mkRecord 0 64 3] ≡ₚ (map_to_list (side demo_state)).*2). by rewrite Hs.
  - split; [apply (bool_decide_unpack _); by vm_compute..|]. repeat constructor; cbn; lia.
  - by vm_compute.
  - by vm_compute.
  - assert (dumped (demo_dump 4096) = true) as Hd by (vm_compute; reflexivity). unfold demo_dump, dumped in Hd.
    rewrite E in Hd. destruct r as [|e]; [|discriminate Hd]. apply Z.ltb_lt in Hd.
    destruct (Hr eq_refl) as (z & out & Hz & Hg & Hread). exists w, z, out.
    split; [exact E|]. split; [exact Hz|]. split; [exact Hg|]. apply Hread.
    apply store_gunzip_length in Hg. change (sink_out w = [1; 2; 3] ++ z) in Hz. rewrite Hz, length_app in Hd. lia.
Defined.
