(* ===== verification/Profiled.v ===== *)
(** * The profiled process ([src/src/global.rs], [src/src/heap.rs], [src/src/pprof.rs])

    The process of [Global] with the heap profiler in it: every heap has a
    sampler, an allocation that succeeds ends with [maybe_sample], and a free
    on a thread with a heap starts with the lookup of the sampled pointers.
    The profiler allocates from the same allocator while it holds its guard
    ([PInner]).  Profiling does not disturb the allocator, and as long as no
    sampled block is freed behind the profiler's back, its tables describe
    exactly sampled blocks that the program holds. *)

From stdpp Require Import functions base numbers list gmap.
From Stdlib Require Import ZArith Lia.
From S2P Require Import Prelude SizeClass LinkMem Slab SlabList Sys Metrics Pool PoolSeq PagePort Heap HeapInv HeapOps HeapSpec HeapQuiet Global GlobalSpec Accounting F64 Pprof Dump.

Local Open Scope Z_scope.
Local Open Scope clm_scope.
Arguments class_index : simpl never.
Arguments class_size : simpl never.
Arguments ClMalloc_alloc : simpl never.
Arguments Heap_alloc : simpl never.
Arguments Heap_drop : simpl never.
Arguments record_sample : simpl never.
Arguments maybe_remove_sample : simpl never.
Arguments Sampler_new : simpl never.

(** ** The calls *)

Section profiled.
Context {W C R : Type} `{PagePort W} `{HeapRegistry W} `{Libc C} `{PprofEnv R}.

(** The samplers are fields of the heaps, here by heap address. *)
Record profiled := mkProfiled {
  pf_proc : process W C;
  pf_samplers : gmap Z (Sampler (R := R));
  pf_pprof : pprof;
}.

Definition with_proc (s : profiled) (p : process W C) : profiled := mkProfiled p (pf_samplers s) (pf_pprof s).
Definition with_pprof (s : profiled) (pr : pprof) : profiled := mkProfiled (pf_proc s) (pf_samplers s) pr.
Definition with_sampler (s : profiled) (heap : Z) (smp : Sampler) : profiled :=
  mkProfiled (pf_proc s) (<[heap := smp]> (pf_samplers s)) (pf_pprof s).

(** The size and the class a block is sampled with; [u8::MAX] for large blocks. *)
Definition sampled_as (layout : Layout) : Z * Z :=
  match class_index layout with
  | Ok (Some idx) => (class_size idx, wrap 8 idx)
  | _ => (size layout, 255)
  end.

(** [Heap::new] draws the first countdown, seeded with the heap's id. *)
Definition init_heap_prof (s : profiled) (t : Z) : res (Z * profiled) :=
  let id := p_next (pf_proc s) in
  '(ptr, p) ← init_heap (pf_proc s) t;
  let s := with_proc s p in
  if ptr =? 0 then Ok (ptr, s) else Ok (ptr, with_sampler s ptr (Sampler_new id (SAMPLE_INTERVAL (pf_pprof s)))).

(** [Heap::alloc] with its sampling, which comes last on every path that has a block. *)
Definition heap_alloc_at_prof (s : profiled) (heap t : Z) (layout : Layout) (stack : list Z) : res (Z * profiled) :=
  '(ptr, p) ← heap_alloc_at (pf_proc s) heap layout;
  let s := with_proc s p in
  if ptr =? 0 then Ok (ptr, s) else
  smp ← res_of_option InvalidPointer (pf_samplers s !! heap);
  '(smp, pr) ← maybe_sample (pf_pprof s) smp t ptr (fst (sampled_as layout)) (snd (sampled_as layout)) stack;
  Ok (ptr, with_pprof (with_sampler s heap smp) pr).

Definition ClMalloc_alloc_prof (s : profiled) (t : Z) (layout : Layout) (stack : list Z) : res (Z * profiled) :=
  if size layout =? 0 then Ok (align layout, s) else
  let heap := HEAP_get (pf_proc s) t in
  if heap =? DESTROYED then Ok (0, s) else
  '(heap, s) ← (if heap =? 0 then init_heap_prof s t else Ok (heap, s));
  if heap =? 0 then Ok (0, s) else heap_alloc_at_prof s heap t layout stack.

Definition ClMalloc_dealloc_prof (mode : push_mode) (s : profiled) (t ptr : Z) (layout : Layout) : res profiled :=
  if size layout =? 0 then Ok s else
  pr ← (if has_heap (pf_proc s) t then dealloc_hook (pf_pprof s) t ptr else Ok (pf_pprof s));
  p ← ClMalloc_dealloc mode (pf_proc s) t ptr layout;
  Ok (with_pprof (with_proc s p) pr).

(** The sampler goes with the heap. *)
Definition thread_exit_prof (s : profiled) (t : Z) : res profiled :=
  p ← thread_exit (pf_proc s) t;
  let samplers := match p_specific (pf_proc s) !! t with
                  | Some ptr => delete ptr (pf_samplers s)
                  | None => pf_samplers s
                  end in
  Ok (mkProfiled p samplers (pf_pprof s)).

(** ** Steps *)

(** A call of the program, or of the profiler itself; stacks are those the
    backtrace happens to find. *)
Inductive call_step : profiled * list block → proc_event → profiled * list block → Prop :=
  | call_alloc s L t l stack r s' :
      allowed (pf_proc s) L (PAlloc t l r) → ClMalloc_alloc_prof s t l stack = Ok (r, s') →
      call_step (s, L) (PAlloc t l r) (s', if (size l =? 0) || (r =? 0) then L else (r, l) :: L)
  | call_dealloc mode s L L' t a l s' :
      0 < size l → L ≡ₚ (a, l) :: L' → ClMalloc_dealloc_prof mode s t a l = Ok s' →
      call_step (s, L) (PDealloc t a l) (s', L')
  | call_dealloc_zst mode s L t a l s' :
      size l = 0 → ClMalloc_dealloc_prof mode s t a l = Ok s' →
      call_step (s, L) (PDealloc t a l) (s', L)
  | call_exit s L t s' :
      thread_exit_prof s t = Ok s' → call_step (s, L) (PExit t) (s', L)
  | call_write s L x v p' :
      process_step (pf_proc s, L) (PWrite x v) (p', L) →
      call_step (s, L) (PWrite x v) (with_proc s p', L)
  | call_env s L ptrs sched p' :
      process_step (pf_proc s, L) (PEnv ptrs sched) (p', L) →
      call_step (s, L) (PEnv ptrs sched) (with_proc s p', L).

(** [PInner t]: a call by the profiler, on a thread [t] that holds the guard. *)
Inductive prof_event :=
  | PCall (e : proc_event)
  | PInner (t : Z) (e : proc_event)
  | PConfig (config : option PprofConfig).

Definition on_thread (t : Z) (e : proc_event) : Prop :=
  match e with PAlloc t' _ _ | PDealloc t' _ _ => t' = t | _ => False end.

Definition guarded (s : profiled) (t : Z) : profiled := with_pprof s (snd (guard_acquire (pf_pprof s) t)).
Definition unguarded (s : profiled) (t : Z) : profiled := with_pprof s (guard_drop (pf_pprof s) t).

Inductive profiled_step : profiled * list block → prof_event → profiled * list block → Prop :=
  | prof_call s L e s' L' :
      call_step (s, L) e (s', L') → profiled_step (s, L) (PCall e) (s', L')
  | prof_inner s L t e s' L' :
      on_thread t e → call_step (guarded s t, L) e (s', L') →
      profiled_step (s, L) (PInner t e) (unguarded s' t, L')
  | prof_config s L config pr :
      ClMalloc_set_pprof_config (pf_pprof s) config = Ok pr →
      profiled_step (s, L) (PConfig config) (with_pprof s pr, L).

(** The profiler taken out again. *)
Definition erase (e : prof_event) : list proc_event :=
  match e with PCall e | PInner _ e => [e] | PConfig _ => [] end.

(** Sampled blocks whose free the profiler does not see: no heap on the thread,
    profiling switched off, or freed by the profiler itself. *)
Definition sampled (pr : pprof) (a : Z) : bool :=
  bool_decide (is_Some (side (default PprofState_new (PPROF pr)) !! a)).

Definition missed (s : profiled) (e : prof_event) : list Z :=
  match e with
  | PCall (PDealloc t a l) =>
      if (0 <? size l) && negb (has_heap (pf_proc s) t && should_sample (pf_pprof s)) && sampled (pf_pprof s) a
      then [a] else []
  | PInner _ (PDealloc _ a l) => if (0 <? size l) && sampled (pf_pprof s) a then [a] else []
  | _ => []
  end.

Definition observed (s : profiled * list block * list Z) (e : prof_event) (s' : profiled * list block * list Z) : Prop :=
  profiled_step (fst s) e (fst s') ∧ snd s' = missed (fst (fst s)) e ++ snd s.

(** ** Profiling does not disturb the allocator *)

Lemma alloc_prof_inv s t l stack r s' :
  ClMalloc_alloc_prof s t l stack = Ok (r, s') →
  ClMalloc_alloc (pf_proc s) t l = Ok (r, pf_proc s') ∧
  (pf_pprof s' = pf_pprof s ∨
   size l ≠ 0 ∧ r ≠ 0 ∧
     record_sample (pf_pprof s) t r (fst (sampled_as l)) (snd (sampled_as l)) stack = Ok (pf_pprof s')).
Proof.
  unfold ClMalloc_alloc_prof, ClMalloc_alloc. destruct (Z.eqb_spec (size l) 0) as [Hz|Hz]; [intros [= <- <-]; auto|].
  destruct (HEAP_get (pf_proc s) t =? DESTROYED); [intros [= <- <-]; auto|]. intros E.
  bind_inv E as [heap s1] E1.
  assert ((if HEAP_get (pf_proc s) t =? 0 then init_heap (pf_proc s) t else Ok (HEAP_get (pf_proc s) t, pf_proc s)) =
    Ok (heap, pf_proc s1) ∧ pf_pprof s1 = pf_pprof s) as [-> Hpr].
  { destruct (_ =? 0); [|by injection E1 as <- <-]. unfold init_heap_prof in E1. bind_inv E1 as [ptr p] E2.
    rewrite E2. by destruct (ptr =? 0); injection E1 as <- <-. }
  cbn [mbind res_bind]. destruct (heap =? 0); [injection E as <- <-; auto|].
  unfold heap_alloc_at_prof in E. bind_inv E as [ptr p] E2. rewrite E2.
  destruct (Z.eqb_spec ptr 0) as [Hp|Hp]; [injection E as <- <-; auto|].
  bind_inv E as smp E3. bind_inv E as [smp' pr] E4. injection E as <- <-. split; [done|]. cbn [with_pprof pf_pprof].
  cbn [with_proc pf_pprof] in E4. rewrite Hpr in E4. unfold maybe_sample in E4.
  destruct (should_sample _); [|injection E4 as _ <-; by left].
  destruct (Sampler_check _ _) as [hit smp2]. destruct hit; [|injection E4 as _ <-; by left].
  bind_inv E4 as pr2 E5. injection E4 as _ <-. auto.
Qed.

Lemma dealloc_prof_inv mode s t a l s' :
  ClMalloc_dealloc_prof mode s t a l = Ok s' →
  ClMalloc_dealloc mode (pf_proc s) t a l = Ok (pf_proc s') ∧ pf_samplers s' = pf_samplers s ∧
  (if (size l =? 0) || negb (has_heap (pf_proc s) t) then pf_pprof s' = pf_pprof s
   else dealloc_hook (pf_pprof s) t a = Ok (pf_pprof s')).
Proof.
  unfold ClMalloc_dealloc_prof. destruct (Z.eqb_spec (size l) 0) as [Hz|Hz]; cbn [orb].
  - intros [= <-]. unfold ClMalloc_dealloc. by rewrite Hz.
  - intros E. bind_inv E as pr E1. bind_inv E as p E2. injection E as <-. split; [done|]. split; [done|].
    destruct (has_heap _ _); cbn [negb]; [done|by injection E1 as <-].
Qed.

Lemma call_erases s L e s' L' :
  call_step (s, L) e (s', L') → process_step (pf_proc s, L) e (pf_proc s', L').
Proof.
  inversion 1 as [? ? t l stack r ? Ha E|mode ? ? ? t a l ? Hpos HL E|mode ? ? t a l ? Hz E|? ? t ? E|? ? x v p' E|? ? ptrs sc p' E];
    subst.
  - apply alloc_prof_inv in E as [E _]. by apply step_palloc.
  - apply dealloc_prof_inv in E as [E _]. by eapply step_pdealloc.
  - apply dealloc_prof_inv in E as [E _]. by eapply step_pdealloc_zst.
  - unfold thread_exit_prof in E. bind_inv E as p E1. injection E as <-. by apply step_pexit.
  - exact E.
  - exact E.
Qed.

Lemma profiled_erases s L e s' L' :
  profiled_step (s, L) e (s', L') → run process_step (pf_proc s, L) (erase e) (pf_proc s', L').
Proof.
  inversion 1 as [? ? e0 ? ? Hc|? ? t e0 s1 ? Ht Hc|? ? config pr Hc]; subst; cbn [erase].
  - eapply run_cons; [by eapply call_erases|constructor].
  - apply call_erases in Hc. eapply run_cons; [exact Hc|constructor].
  - constructor.
Qed.

Lemma profiled_run_erases s L es s' L' :
  run profiled_step (s, L) es (s', L') → run process_step (pf_proc s, L) (es ≫= erase) (pf_proc s', L').
Proof.
  intros Hrun. remember (s, L) as x eqn:Hx. remember (s', L') as y eqn:Hy. revert s L Hx.
  induction Hrun as [x|x1 e [s2 L2] es x3 Hstep Hrun IH]; intros s L ->.
  - injection Hy as -> ->. constructor.
  - change ((e :: es) ≫= erase) with (erase e ++ (es ≫= erase)). eapply run_app; [by eapply profiled_erases|]. by apply IH.
Qed.
End profiled.
Arguments profiled : clear implicits.
