(* ===== verification/ProfiledSpec.v ===== *)
(** * What the profiler of a process shows

    [profiled_process_correct]: with the profiler in it a process still refines
    the abstract allocator; its calls panic only where those of [GlobalSpec] do,
    and when the interval is set to 0.
    [live_profile_exact]: the tables of the profiler against the blocks the
    program holds. *)

From stdpp Require Import functions base numbers list gmap.
From Stdlib Require Import ZArith Lia.
From S2P Require Import Prelude SizeClass LinkMem Slab SlabList Sys Metrics Pool PoolSeq PagePort Heap HeapInv HeapOps HeapSpec HeapQuiet Global GlobalSpec Accounting F64 Pprof Dump Profiled.

Local Open Scope Z_scope.
Local Open Scope clm_scope.
Arguments class_index : simpl never.
Arguments class_size : simpl never.
Arguments ClMalloc_alloc : simpl never.
Arguments Heap_alloc : simpl never.
Arguments Heap_drop : simpl never.
Arguments record_sample : simpl never.
Arguments maybe_remove_sample : simpl never.
Arguments Sampler_new : simpl never.

Section spec.
Context {W C R : Type} `{HeapRegistryLaws W} `{LibcLaws C} `{PprofEnv R}.
Implicit Types (s : profiled W C R) (p q : process W C) (L : list block) (pr : pprof).

(** ** Samplers *)

(** The heap of every thread has its sampler. *)
Definition samplers_ok s : Prop :=
  ∀ t, is_Some (p_heaps (pf_proc s) !! HEAP_get (pf_proc s) t) →
    is_Some (pf_samplers s !! HEAP_get (pf_proc s) t).

(** A cell that did not change holds a heap now only if it did before. *)
Lemma cell_heap p q L L' g g' t :
  proc_ok p L g → proc_ok q L' g' → HEAP_get q t = HEAP_get p t →
  is_Some (p_heaps q !! HEAP_get q t) → is_Some (p_heaps p !! HEAP_get p t).
Proof.
  intros Hp Hq Heq Hs. destruct (po_addr _ _ _ Hq _ Hs) as [Hnz Hal]. rewrite Heq in Hnz, Hal.
  destruct (po_cell _ _ _ Hp t) as [?|[Hd|?]]; [done| |done]. rewrite Hd in Hal. by apply addr_not_destroyed in Hal.
Qed.

Lemma samplers_cells s s' L L' g g' :
  proc_ok (pf_proc s) L g → proc_ok (pf_proc s') L' g' → samplers_ok s →
  (∀ t, HEAP_get (pf_proc s') t = HEAP_get (pf_proc s) t) →
  (∀ k, is_Some (pf_samplers s !! k) → is_Some (pf_samplers s' !! k)) → samplers_ok s'.
Proof.
  intros Hp Hq Hs Hc Hk t Ht. rewrite Hc. apply Hk, Hs. eapply cell_heap; [exact Hp|exact Hq|apply Hc|exact Ht].
Qed.

Lemma same_cells p q t : p_cell q = p_cell p → HEAP_get q t = HEAP_get p t.
Proof. unfold HEAP_get. by intros ->. Qed.

Lemma init_prof_ok s L g t :
  proc_ok (pf_proc s) L g → samplers_ok s → HEAP_get (pf_proc s) t = 0 →
  p_next (pf_proc s) + 1 < 2 ^ 64 →
  if start_panics (pf_proc s) then init_heap_prof s t = Panic PanicAssert else
  ∃ ptr s' g', init_heap_prof s t = Ok (ptr, s') ∧ proc_ok (pf_proc s') L g' ∧ samplers_ok s' ∧
    pf_pprof s' = pf_pprof s ∧ (ptr ≠ 0 → is_Some (p_heaps (pf_proc s') !! ptr) ∧ HEAP_get (pf_proc s') t = ptr).
Proof.
  intros Hp Hs Hz Hids. pose proof (init_heap_ok _ L g Hp t Hz Hids) as Hinit. unfold init_heap_prof.
  destruct (start_panics (pf_proc s)); [by rewrite Hinit|].
  destruct Hinit as (ptr & p1 & g1 & E & Hp1 & _ & Hptr & Hcell). rewrite E. cbn [mbind res_bind].
  assert (∀ t', t' ≠ t → HEAP_get p1 t' = HEAP_get (pf_proc s) t') as Hne by (intros t' Ht; rewrite Hcell; by rewrite decide_False).
  assert (HEAP_get p1 t = ptr) as Ht by (rewrite Hcell; by rewrite decide_True).
  assert (∀ t', t' ≠ t → is_Some (p_heaps p1 !! HEAP_get p1 t') → is_Some (pf_samplers s !! HEAP_get p1 t')) as Hold.
  { intros t' Hn Hx. rewrite Hne by done. apply Hs. eapply cell_heap; [exact Hp|exact Hp1|by apply Hne|exact Hx]. }
  destruct (Z.eqb_spec ptr 0) as [Hp0|Hp0].
  - exists ptr, (with_proc s p1), g1. do 2 (split; [done|]). split; [|done]. intros t' Hx. cbn in *.
    destruct (decide (t' = t)) as [->|Hn]; [|by apply Hold]. rewrite Ht in Hx.
    by destruct (po_addr _ _ _ Hp1 _ Hx) as [? _].
  - do 2 eexists. exists g1. split; [done|]. split; [exact Hp1|]. split; [|split; [done|by split; [apply Hptr|]]].
    intros t' Hx. cbn in *. apply lookup_insert_is_Some. destruct (decide (t' = t)) as [->|Hn]; [by left|].
    destruct (decide (ptr = HEAP_get p1 t')); [by left|right]. split; [done|]. by apply Hold.
Qed.

(** ** Calls return *)

(** The hooks of thread [t] return. *)
Definition hooks_ok pr (t : Z) : Prop :=
  (∀ ptr size c stack, ∃ pr', record_sample pr t ptr size c stack = Ok pr') ∧
  (∀ ptr, ∃ pr', dealloc_hook pr t ptr = Ok pr').

Lemma maybe_sample_total pr t smp ptr size c stack :
  hooks_ok pr t → ∃ smp' pr', maybe_sample pr smp t ptr size c stack = Ok (smp', pr').
Proof.
  intros [Hr _]. unfold maybe_sample. destruct (should_sample pr); [|by do 2 eexists].
  destruct (Sampler_check smp size) as [[] smp']; [|by do 2 eexists].
  destruct (Hr ptr size c stack) as [pr' ->]. by do 2 eexists.
Qed.

Lemma alloc_at_prof_ok s L g t l stack :
  proc_ok (pf_proc s) L g → samplers_ok s → hooks_ok (pf_pprof s) t → request_ok l →
  is_Some (p_heaps (pf_proc s) !! HEAP_get (pf_proc s) t) →
  ∃ r s', heap_alloc_at_prof s (HEAP_get (pf_proc s) t) t l stack = Ok (r, s') ∧ samplers_ok s'.
Proof.
  intros Hp Hs Hh Hl Hheap. unfold heap_alloc_at_prof.
  destruct (heap_alloc_at_ok _ L g Hp (HEAP_get (pf_proc s) t) l Hheap Hl) as (r & p1 & g1 & E & Hp1 & _ & Hc & _).
  rewrite E. cbn [mbind res_bind]. assert (samplers_ok (with_proc s p1)) as Hs1.
  { eapply samplers_cells; [exact Hp|exact Hp1|exact Hs| |done]. intros t'. by apply same_cells. }
  destruct (r =? 0); [by do 2 eexists|]. cbn [with_proc pf_samplers pf_pprof].
  destruct (Hs t Hheap) as [smp Hsmp]. rewrite Hsmp. cbn [res_of_option mbind res_bind].
  destruct (maybe_sample_total (pf_pprof s) t smp r (fst (sampled_as l)) (snd (sampled_as l)) stack Hh) as (smp' & pr' & ->).
  cbn [mbind res_bind]. do 2 eexists. split; [done|].
  eapply (samplers_cells (with_proc s p1)); [exact Hp1|exact Hp1|exact Hs1|done|]. intros k. cbn. intros Hk.
  apply lookup_insert_is_Some. destruct (decide (HEAP_get (pf_proc s) t = k)); auto.
Qed.

Lemma alloc_prof_ok s L g t l stack :
  proc_ok (pf_proc s) L g → samplers_ok s → hooks_ok (pf_pprof s) t → layout_valid l → ids_left (pf_proc s) t →
  if alloc_panics (pf_proc s) t l then ClMalloc_alloc_prof s t l stack = Panic PanicAssert else
  ∃ r s', ClMalloc_alloc_prof s t l stack = Ok (r, s') ∧ samplers_ok s'.
Proof.
  intros Hp Hs Hh Hv Hids. unfold ClMalloc_alloc_prof, alloc_panics.
  destruct (Z.eqb_spec (size l) 0) as [Hz|Hz]; cbn [negb andb]; [by do 2 eexists|].
  assert (request_ok l) as Hl by (split; [done|destruct Hv as (_ & ? & _); lia]).
  destruct (Z.eqb_spec (HEAP_get (pf_proc s) t) DESTROYED) as [Hd|Hd].
  { rewrite Hd. cbn [Z.eqb DESTROYED andb]. by do 2 eexists. }
  destruct (Z.eqb_spec (HEAP_get (pf_proc s) t) 0) as [Hcell|Hcell]; cbn [andb].
  - pose proof (init_prof_ok s L g t Hp Hs Hcell (Hids Hcell)) as Hinit.
    destruct (start_panics (pf_proc s)); [by rewrite Hinit|].
    destruct Hinit as (ptr & s1 & g1 & -> & Hp1 & Hs1 & Hpr & Hptr).
    cbn [mbind res_bind]. destruct (Z.eqb_spec ptr 0) as [|Hp0]; [by do 2 eexists|].
    destruct (Hptr Hp0) as [Hx Ht]. pose proof Hx as Hx'. rewrite <- Ht in Hx'. rewrite <- Hpr in Hh.
    pose proof (alloc_at_prof_ok s1 L g1 t l stack Hp1 Hs1 Hh Hl Hx') as Hr. rewrite Ht in Hr. exact Hr.
  - cbn [mbind res_bind]. rewrite (proj2 (Z.eqb_neq _ _) Hcell). apply (alloc_at_prof_ok s L g); try done.
    by destruct (po_cell _ _ _ Hp t) as [?|[?|?]].
Qed.

Lemma dealloc_cells mode p t a l q : ClMalloc_dealloc mode p t a l = Ok q → p_cell q = p_cell p.
Proof.
  unfold ClMalloc_dealloc. destruct (size l =? 0); [by intros [= <-]|]. destruct (_ && _); intros E.
  - bind_inv E as h E1. bind_inv E as [h' w'] E2. by injection E as <-.
  - bind_inv E as idx E1. destruct idx; [bind_inv E as w' E2|]; by injection E as <-.
Qed.

Lemma dealloc_prof_ok mode s L g t a l L' :
  proc_ok (pf_proc s) L g → hooks_ok (pf_pprof s) t → 0 < size l → L ≡ₚ (a, l) :: L' →
  ∃ s', ClMalloc_dealloc_prof mode s t a l = Ok s'.
Proof.
  intros Hp [_ Hh] Hpos HL. unfold ClMalloc_dealloc_prof. destruct (Z.eqb_spec (size l) 0); [lia|].
  assert (∃ pr, (if has_heap (pf_proc s) t then dealloc_hook (pf_pprof s) t a else Ok (pf_pprof s)) = Ok pr) as [pr ->].
  { destruct (has_heap _ _); [apply Hh|by eexists]. }
  cbn [mbind res_bind]. destruct (dealloc_ok _ L g Hp mode t a l L' Hpos HL) as (p1 & g1 & -> & _).
  cbn [mbind res_bind]. by eexists.
Qed.

Lemma exit_prof_ok s L g t :
  proc_ok (pf_proc s) L g → samplers_ok s → ∃ s', thread_exit_prof s t = Ok s' ∧ samplers_ok s'.
Proof.
  intros Hp Hs. unfold thread_exit_prof. destruct (thread_exit_ok _ L g Hp t) as (p1 & g1 & E & Hp1 & _ & Hc).
  rewrite E. cbn [mbind res_bind]. eexists. split; [done|]. intros t' Hx. cbn [pf_proc pf_samplers] in *. rewrite Hc in *.
  destruct (p_specific (pf_proc s) !! t) as [ptr|] eqn:Hsp.
  - case_decide as Ht; [destruct (po_addr _ _ _ Hp1 _ Hx) as [_ Hal]; by apply addr_not_destroyed in Hal|].
    apply (po_specific _ _ _ Hp) in Hsp as [<- Hptr].
    assert (t' ≠ t) as Hne by (intros ->; apply Ht; split; [done|by eexists]).
    assert (is_Some (p_heaps (pf_proc s) !! HEAP_get (pf_proc s) t')) as Hx'.
    { eapply cell_heap; [exact Hp|exact Hp1|rewrite Hc; by rewrite decide_False|rewrite Hc; by rewrite decide_False]. }
    rewrite lookup_delete_ne; [by apply Hs|]. intros Heq. apply Hne. symmetry. by apply (po_owner _ _ _ Hp).
  - rewrite decide_False in * by (by intros [_ []]). apply Hs.
    eapply cell_heap; [exact Hp|exact Hp1|rewrite Hc; rewrite decide_False; [done|by intros [_ []]]|].
    rewrite Hc, decide_False; [done|by intros [_ []]].
Qed.

Lemma call_samplers s L g e s' L' :
  proc_ok (pf_proc s) L g → samplers_ok s → (∀ t, on_thread t e → hooks_ok (pf_pprof s) t) →
  call_step (s, L) e (s', L') → samplers_ok s'.
Proof.
  intros Hp Hs Hh Hstep. pose proof (call_erases _ _ _ _ _ Hstep) as Hps.
  assert (∃ g', proc_ok (pf_proc s') L' g') as [g' Hp'].
  { assert (proc_rel (pf_proc s, L) (mkAllocSpec L (read_byte (proc_mem (pf_proc s))))) as Hrel by (split; [by eexists|done]).
    by destruct (proc_sim_step _ _ _ _ Hrel Hps) as (a & _ & Hx & _). }
  inversion Hstep as [? ? t l stack r ? [Hv Hids] E|mode ? ? ? t a l ? Hpos HL E|mode ? ? t a l ? Hz E|? ? t ? E|
    ? ? x v p' E|? ? ptrs sc p' E]; subst.
  - pose proof (alloc_prof_ok _ _ g t l stack Hp Hs (Hh t eq_refl) Hv Hids) as Hok.
    destruct (alloc_panics (pf_proc s) t l); [congruence|].
    destruct Hok as (r1 & s1 & E1 & Hs1). rewrite E in E1. by injection E1 as _ <-.
  - apply dealloc_prof_inv in E as (E & Hsm & _). eapply samplers_cells; [exact Hp|exact Hp'|exact Hs| |by rewrite Hsm].
    intros t'. by eapply same_cells, dealloc_cells.
  - apply dealloc_prof_inv in E as (E & Hsm & _). eapply samplers_cells; [exact Hp|exact Hp'|exact Hs| |by rewrite Hsm].
    intros t'. by eapply same_cells, dealloc_cells.
  - destruct (exit_prof_ok _ _ g t Hp Hs) as (s1 & E1 & Hs1). rewrite E in E1. by injection E1 as <-.
  - eapply samplers_cells; [exact Hp|exact Hp'|exact Hs| |done]. intros t'. inversion E; subst. by apply same_cells.
  - eapply samplers_cells; [exact Hp|exact Hp'|exact Hs| |done]. intros t'. inversion E; subst. by apply same_cells.
Qed.

(** ** What a step does to the profiler *)

Lemma call_pprof s L e s' L' :
  call_step (s, L) e (s', L') →
  match e with
  | PAlloc t l r =>
      pf_pprof s' = pf_pprof s ∨ size l ≠ 0 ∧ r ≠ 0 ∧ ∃ stack,
        record_sample (pf_pprof s) t r (fst (sampled_as l)) (snd (sampled_as l)) stack = Ok (pf_pprof s')
  | PDealloc t a l =>
      if (size l =? 0) || negb (has_heap (pf_proc s) t) then pf_pprof s' = pf_pprof s
      else dealloc_hook (pf_pprof s) t a = Ok (pf_pprof s')
  | _ => pf_pprof s' = pf_pprof s
  end.
Proof.
  inversion 1 as [? ? t l stack r ? Ha E|mode ? ? ? t a l ? Hpos HL E|mode ? ? t a l ? Hz E|? ? t ? E| |]; subst; try done.
  - apply alloc_prof_inv in E as [_ [?|(? & ? & ?)]]; [by left|right]. eauto.
  - by apply dealloc_prof_inv in E as (_ & _ & ?).
  - by apply dealloc_prof_inv in E as (_ & _ & ?).
  - unfold thread_exit_prof in E. bind_inv E as p1 E1. by injection E as <-.
Qed.

Lemma hooks_guarded pr t : hooks_ok (snd (guard_acquire pr t)) t.
Proof.
  destruct (guarded_hooks_return (snd (guard_acquire pr t)) t) as [Hr Hm]; [cbn; set_solver|]. split.
  - intros. rewrite Hr. by eexists.
  - intros. unfold dealloc_hook. rewrite Hm. case_match; by eexists.
Qed.

(** Calls of the profiler itself leave its state alone. *)
Lemma inner_pprof s L t e s' L' :
  IN_PPROF (pf_pprof s) = ∅ → on_thread t e → call_step (guarded s t, L) e (s', L') →
  pf_pprof (unguarded s' t) = pf_pprof s.
Proof.
  intros Hidle Ht Hc. destruct (guarded_hooks_return (snd (guard_acquire (pf_pprof s) t)) t) as [Hr Hm]; [cbn; set_solver|].
  assert (pf_pprof s' = snd (guard_acquire (pf_pprof s) t)) as Heq.
  { apply call_pprof in Hc. cbn [guarded with_pprof pf_pprof] in Hc. destruct e as [t' l r|t' a l| | |]; cbn [on_thread] in Ht; try done; subst t'.
    - destruct Hc as [?|(_ & _ & stack & E)]; [done|]. rewrite Hr in E. by injection E as <-.
    - destruct (_ || _); [done|]. unfold dealloc_hook in Hc. rewrite Hm in Hc. case_match; by injection Hc as <-. }
  cbn [unguarded with_pprof pf_pprof]. rewrite Heq. unfold guard_drop, guard_acquire.
  cbn [snd PROF_ACTIVE SAMPLE_INTERVAL PPROF IN_PPROF]. rewrite Hidle.
  replace (({[t]} ∪ ∅ : gset Z) ∖ {[t]}) with (∅ : gset Z) by set_solver. rewrite <- Hidle. by destruct (pf_pprof s).
Qed.

(** ** Every call returns *)

Record prof_inv (n : nat) s L : Prop := {
  pi_proc : ∃ g, proc_ok (pf_proc s) L g;
  pi_samplers : samplers_ok s;
  pi_typed : pprof_typed n (pf_pprof s);
}.

Lemma hooks_typed n pr t : pprof_typed n pr → Z.of_nat n < 2 ^ 32 → hooks_ok pr t.
Proof.
  intros Hp Hn. split.
  - intros ptr size c stack. destruct (record_sample_typed n pr t ptr size c stack Hp Hn) as (pr' & E & _). by exists pr'.
  - intros ptr. destruct (dealloc_hook_typed n pr t ptr Hp) as (pr' & E & _). by exists pr'.
Qed.

Lemma typed_mono n pr : pprof_typed n pr → pprof_typed (S n) pr.
Proof. intros []. split; [done|done|lia]. Qed.

Lemma step_proc p L e p' L' g : proc_ok p L g → process_step (p, L) e (p', L') → ∃ g', proc_ok p' L' g'.
Proof.
  intros Hp Hstep. assert (proc_rel (p, L) (mkAllocSpec L (read_byte (proc_mem p)))) as Hrel by (split; [by eexists|done]).
  by destruct (proc_sim_step _ _ _ _ Hrel Hstep) as (a & _ & Hx & _).
Qed.

Lemma call_typed n s L e s' L' :
  pprof_typed n (pf_pprof s) → Z.of_nat n < 2 ^ 32 → call_step (s, L) e (s', L') → pprof_typed (S n) (pf_pprof s').
Proof.
  intros Ht Hn Hc%call_pprof. pose proof (typed_mono _ _ Ht) as Hm.
  destruct e as [t l r|t a l|t|x v|ptrs sc]; try (by rewrite Hc).
  - destruct Hc as [->|(_ & _ & stack & E)]; [done|].
    destruct (record_sample_typed n _ t r (fst (sampled_as l)) (snd (sampled_as l)) stack Ht Hn) as (pr' & E' & ?).
    rewrite E in E'. by injection E' as <-.
  - destruct (_ || _); [by rewrite Hc|]. destruct (dealloc_hook_typed n _ t a Ht) as (pr' & E' & ?).
    rewrite Hc in E'. injection E' as <-. by apply typed_mono.
Qed.

Lemma prof_inv_step n s L e s' L' :
  prof_inv n s L → Z.of_nat n < 2 ^ 32 → profiled_step (s, L) e (s', L') → prof_inv (S n) s' L'.
Proof.
  intros [[g Hp] Hs Ht] Hn Hstep. inversion Hstep as [? ? e0 ? ? Hc|? ? t e0 s1 ? Hon Hc|? ? config pr Hc]; subst.
  - split; [eapply step_proc; [exact Hp|by eapply call_erases]| |by eapply call_typed].
    eapply call_samplers; [exact Hp|exact Hs| |exact Hc]. intros t _. by eapply hooks_typed.
  - split; [eapply step_proc; [exact Hp|exact (call_erases _ _ _ _ _ Hc)]| |].
    + assert (samplers_ok s1) as Hs1; [|exact Hs1].
      eapply (call_samplers (guarded s t)); [exact Hp|exact Hs| |exact Hc]. intros t' Ht'.
      assert (t' = t) as -> by (destruct e0; cbn in *; done || congruence). apply hooks_guarded.
    + rewrite (inner_pprof s L t e0 s1 L'); [by apply typed_mono|apply Ht|done|done].
  - split; [by exists g|exact Hs|]. apply typed_mono. destruct Ht as [Hi Hst Hl]. unfold ClMalloc_set_pprof_config in Hc.
    destruct config as [c|]; cbn in Hc; [destruct (0 <? sample_interval c); [|done]|]; injection Hc as <-; by split.
Qed.

Lemma prof_inv_run s L es s' L' : ∀ n,
  prof_inv n s L → run profiled_step (s, L) es (s', L') → Z.of_nat n + Z.of_nat (length es) < 2 ^ 32 →
  ∃ n', prof_inv n' s' L' ∧ Z.of_nat n' ≤ Z.of_nat n + Z.of_nat (length es).
Proof.
  intros n Hi Hrun. remember (s, L) as x eqn:Hx. remember (s', L') as y eqn:Hy. revert n s L Hx Hi.
  induction Hrun as [x|x1 e [s2 L2] es x3 Hstep Hrun IH]; intros n s L -> Hi Hn.
  - injection Hy as -> ->. exists n. split; [done|cbn; lia].
  - cbn [length] in *. destruct (IH Hy (S n) s2 L2 eq_refl) as (n' & Hi' & Hl); [|lia|exists n'; split; [done|lia]].
    eapply prof_inv_step; [exact Hi|lia|exact Hstep].
Qed.

(** ** The tables against the blocks held *)

Definition side_of pr : gmap Z SampleRecord := side (default PprofState_new (PPROF pr)).

(** A record of the side table is that of a held block. *)
Definition side_held pr L : Prop :=
  ∀ ptr r, side_of pr !! ptr = Some r → ∃ l, (ptr, l) ∈ L ∧ (sr_size r, class_idx r) = sampled_as l.

Record live_inv (i : Z) (n : nat) (sm : samples) s L : Prop := {
  li_proc : ∃ g, proc_ok (pf_proc s) L g;
  li_tables : pprof_ok i n sm (pf_pprof s);
  li_side : side_held (pf_pprof s) L;
}.

(** The interval stays [i]. *)
Definition keeps_interval (i : Z) (e : prof_event) : Prop :=
  match e with PConfig (Some c) => sample_interval c = i | _ => True end.

Lemma pprof_ok_mono i n sm pr : pprof_ok i n sm pr → pprof_ok i (S n) sm pr.
Proof. intros [? ? []]. split; [done|done|]. split; try done. lia. Qed.

Lemma record_sample_side pr t ptr size c stack pr' :
  IN_PPROF pr = ∅ → record_sample pr t ptr size c stack = Ok pr' →
  ∃ id, side_of pr' = <[ptr := mkRecord id size c]> (side_of pr).
Proof.
  intros Hidle E. destruct (record_sample_result _ _ _ _ _ _ _ Hidle E) as (id & stk & cs & _ & _ & _ & Hst).
  exists id. unfold side_of at 1. by rewrite Hst.
Qed.

Lemma remove_sample_side pr t ptr pr' :
  IN_PPROF pr = ∅ → maybe_remove_sample pr t ptr = Ok pr' → side_of pr' = delete ptr (side_of pr).
Proof.
  intros Hidle E. destruct (remove_sample_result _ _ _ _ Hidle E) as [_ Hst]. unfold side_of.
  destruct (side (default PprofState_new (PPROF pr)) !! ptr) as [r|] eqn:Hr.
  - by destruct Hst as (cs & _ & ->).
  - rewrite Hst. by rewrite delete_id.
Qed.

(** Blocks leave only by a free. *)
Lemma kept_blocks p L e p' L' b :
  process_step (p, L) e (p', L') → b ∈ L → b ∈ L' ∨ ∃ t, e = PDealloc t (fst b) (snd b) ∧ 0 < size (snd b).
Proof.
  inversion 1 as [? ? t l r ? Ha E|mode ? ? ? t a l ? Hpos HL E|mode ? ? t a l ? Hz E|? ? t ? E|? ? x v|? ? ptrs sc]; subst;
    intros Hb; try by left.
  - left. case_match; [done|by right].
  - rewrite HL in Hb. apply elem_of_cons in Hb as [->|Hb]; [right; by exists t|by left].
Qed.

(** A step that leaves the tables alone frees no sampled block. *)
Lemma side_held_keep pr p L e p' L' :
  side_held pr L → process_step (p, L) e (p', L') →
  (∀ t a l, e = PDealloc t a l → 0 < size l → side_of pr !! a = None) → side_held pr L'.
Proof.
  intros Hs Hstep Hno ptr r Hr. destruct (Hs ptr r Hr) as (l & Hin & Heq). exists l. split; [|done].
  destruct (kept_blocks _ _ _ _ _ _ Hstep Hin) as [?|(t & -> & Hpos)]; [done|]. cbn in *.
  by rewrite (Hno t ptr l eq_refl Hpos) in Hr.
Qed.

(** A block just handed out has no record yet. *)
Lemma fresh_block p g a l L pr :
  proc_ok p ((a, l) :: L) g → side_held pr L → side_of pr !! a = None.
Proof.
  intros Hp Hs. destruct (side_of pr !! a) as [r|] eqn:Hr; [|done]. exfalso. destruct (Hs a r Hr) as (l' & Hin & _).
  pose proof (po_heaps _ _ _ Hp) as Hh. pose proof (so_client _ _ _ _ _ Hh) as HF.
  apply Forall_cons in HF as [[_ Hpos] HF]. rewrite Forall_forall in HF. destruct (HF _ Hin) as [_ Hpos']. cbn in *.
  apply (consistent_fresh _ _ _ _ _ _ (a, l') a (ex_intro _ _ Hh) Hin); unfold in_block; cbn; lia.
Qed.

Lemma sampled_none pr a : sampled pr a = false → side_of pr !! a = None.
Proof. unfold sampled. intros Hs%bool_decide_eq_false. by apply eq_None_not_Some. Qed.

Lemma live_same i n sm s L s' L' :
  live_inv i n sm s L → (∃ g, proc_ok (pf_proc s') L' g) → pf_pprof s' = pf_pprof s → side_held (pf_pprof s) L' →
  live_inv i (S n) sm s' L'.
Proof. intros [_ Ht _] Hp Heq Hs. split; [done|rewrite Heq; by apply pprof_ok_mono|by rewrite Heq]. Qed.

Lemma live_alloc i n sm s L t l r stack s' g' :
  uint 64 i → Z.of_nat n < 2 ^ 32 → live_inv i n sm s L → proc_ok (pf_proc s') ((r, l) :: L) g' →
  record_sample (pf_pprof s) t r (fst (sampled_as l)) (snd (sampled_as l)) stack = Ok (pf_pprof s') →
  ∃ sm', live_inv i (S n) sm' s' ((r, l) :: L).
Proof.
  intros Hi Hn [Hp Ht Hs] Hp' E. pose proof (fresh_block _ _ _ _ _ _ Hp' Hs) as Hfresh.
  assert (held sm !! r = None) as Hh by by apply (to_side _ _ _ _ (pk_tables _ _ _ _ Ht)).
  destruct (record_sample_ok i n sm _ t r (fst (sampled_as l)) (snd (sampled_as l)) stack Hi Ht Hh Hn) as (pr' & E' & Ht').
  rewrite E in E'. injection E' as <-. eexists. split; [by eexists|exact Ht'|].
  destruct (record_sample_side _ _ _ _ _ _ _ (pk_idle _ _ _ _ Ht) E) as [id Hside]. intros ptr rec. rewrite Hside, lookup_insert.
  case_decide; [subst; intros [= <-]; exists l; split; [by left|cbn; by destruct (sampled_as l)]|].
  intros (l' & Hin & ?)%Hs. exists l'. split; [by right|done].
Qed.

Lemma live_free i n sm s L t a l s' L' g' :
  uint 64 i → live_inv i n sm s L → proc_ok (pf_proc s') L' g' → L ≡ₚ (a, l) :: L' →
  maybe_remove_sample (pf_pprof s) t a = Ok (pf_pprof s') → ∃ sm', live_inv i (S n) sm' s' L'.
Proof.
  intros Hi [Hp Ht Hs] Hp' HL E. destruct (remove_sample_ok i n sm _ t a Hi Ht) as (pr' & E' & Ht').
  rewrite E in E'. injection E' as <-. eexists. split; [by eexists|by apply pprof_ok_mono|].
  intros ptr r. rewrite (remove_sample_side _ _ _ _ (pk_idle _ _ _ _ Ht) E). intros [Hne Hr]%lookup_delete_Some.
  destruct (Hs ptr r Hr) as (l' & Hin & ?). exists l'. split; [|done]. rewrite HL in Hin.
  apply elem_of_cons in Hin as [[= -> ->]|?]; done.
Qed.

Lemma dealloc_blocks p L t a l p' L' :
  process_step (p, L) (PDealloc t a l) (p', L') → 0 < size l → L ≡ₚ (a, l) :: L'.
Proof. inversion 1; subst; [done|lia]. Qed.

Lemma live_call i n sm s L e s' L' :
  uint 64 i → Z.of_nat n < 2 ^ 32 → live_inv i n sm s L → missed s (PCall e) = [] →
  call_step (s, L) e (s', L') → ∃ sm', live_inv i (S n) sm' s' L'.
Proof.
  intros Hi Hn Hinv Hmiss Hc. pose proof Hinv as [[g Hp] Ht Hs]. pose proof (call_erases _ _ _ _ _ Hc) as Hps.
  destruct (step_proc _ _ _ _ _ _ Hp Hps) as [g' Hp'].
  assert (pf_pprof s' = pf_pprof s → (∀ t a l, e = PDealloc t a l → 0 < size l → side_of (pf_pprof s) !! a = None) →
    ∃ sm', live_inv i (S n) sm' s' L') as Hsame.
  { intros Heq Hno. exists sm. eapply live_same; [exact Hinv|by exists g'|exact Heq|]. by eapply side_held_keep. }
  pose proof (call_pprof _ _ _ _ _ Hc) as Hpr. destruct e as [t l r|t a l|t|x v|ptrs sc]; try by apply Hsame.
  - destruct Hpr as [Heq|(Hz & Hr & stack & E)]; [by apply Hsame|].
    assert (L' = (r, l) :: L) as ->; [|by eapply live_alloc].
    inversion Hps; subst. rewrite (proj2 (Z.eqb_neq _ _) Hz), (proj2 (Z.eqb_neq _ _) Hr). done.
  - cbn [missed] in Hmiss. destruct (Z.ltb_spec 0 (size l)) as [Hpos|Hneg]; cbn [andb] in Hmiss.
    2: { apply Hsame; [|intros ? ? ? [= <- <- <-]; lia].
         inversion Hps; subst; [lia|]. by rewrite (proj2 (Z.eqb_eq (size l) 0)) in Hpr. }
    rewrite (proj2 (Z.eqb_neq (size l) 0)) in Hpr by lia. cbn [orb] in Hpr.
    destruct (has_heap (pf_proc s) t) eqn:Hheap; cbn [negb andb] in *.
    + unfold dealloc_hook in Hpr. destruct (should_sample (pf_pprof s)); cbn [negb andb] in *.
      * eapply live_free; [done|exact Hinv|exact Hp'| |exact Hpr]. by eapply dealloc_blocks.
      * apply Hsame; [by injection Hpr as <-|]. intros ? ? ? [= <- <- <-] _. apply sampled_none. by case_match.
    + apply Hsame; [done|]. intros ? ? ? [= <- <- <-] _. apply sampled_none. by case_match.
Qed.

Lemma live_step i n sm s L e s' L' :
  uint 64 i → Z.of_nat n < 2 ^ 32 → live_inv i n sm s L → missed s e = [] → keeps_interval i e →
  profiled_step (s, L) e (s', L') → ∃ sm', live_inv i (S n) sm' s' L'.
Proof.
  intros Hi Hn Hinv Hmiss Hkeep Hstep. inversion Hstep as [? ? e0 ? ? Hc|? ? t e0 s1 ? Hon Hc|? ? config pr Hc]; subst.
  - by eapply live_call.
  - pose proof Hinv as [[g Hp] Ht Hs]. exists sm. pose proof (call_erases _ _ _ _ _ Hc) as Hps.
    eapply live_same; [exact Hinv|exact (step_proc _ _ _ _ _ _ Hp Hps)| |].
    + eapply inner_pprof; [apply Ht|exact Hon|exact Hc].
    + eapply side_held_keep; [exact Hs|exact Hps|]. intros t' a l -> Hpos. cbn [missed] in Hmiss.
      apply sampled_none. destruct (Z.ltb_spec 0 (size l)); [|lia]. by case_match.
  - pose proof Hinv as [Hp [Hint Hidle Htab] Hs]. exists sm. unfold ClMalloc_set_pprof_config in Hc.
    destruct config as [c|]; cbn in Hc, Hkeep.
    + destruct (0 <? sample_interval c); [|done]. injection Hc as <-. split; [done| |exact Hs].
      apply pprof_ok_mono. by split.
    + injection Hc as <-. split; [done| |exact Hs]. apply pprof_ok_mono. by split.
Qed.

Lemma observed_empty s L U es s' L' :
  run observed (s, L, U) es (s', L', []) → U = [].
Proof.
  intros Hrun. remember (s, L, U) as x eqn:Hx. remember (s', L', []) as y eqn:Hy. revert s L U Hx.
  induction Hrun as [x|x1 e [[s2 L2] U2] es x3 [_ HU] Hrun IH]; intros s L U ->; [by injection Hy|].
  cbn in HU. specialize (IH Hy s2 L2 U2 eq_refl). subst U2. by destruct (missed s e), U.
Qed.

Lemma live_run i es : ∀ n sm s L s' L',
  uint 64 i → live_inv i n sm s L → run observed (s, L, []) es (s', L', []) → Forall (keeps_interval i) es →
  Z.of_nat n + Z.of_nat (length es) < 2 ^ 32 → ∃ sm' n', live_inv i n' sm' s' L'.
Proof.
  induction es as [|e es IH]; intros n sm s L s' L' Hi Hinv Hrun Hk Hn.
  - inversion Hrun; subst. by exists sm, n.
  - apply Forall_cons in Hk as [Hk Hks]. inversion Hrun as [|? ? s2 ? ? Hstep Hrest]; subst.
    destruct s2 as [[s2 L2] U2]. pose proof (observed_empty _ _ _ _ _ _ Hrest) as ->.
    destruct Hstep as [Hstep HU]. cbn [fst snd length] in *. rewrite app_nil_r in HU.
    destruct (live_step i n sm s L e s2 L2 Hi ltac:(lia) Hinv (eq_sym HU) Hk Hstep) as [sm2 Hinv2].
    by apply (IH (S n) sm2 s2 L2); [..|lia].
Qed.

Lemma live_inv_init i (pool : W) (c : C) pr :
  pp_ok pool [] [] → hr_metrics pool = PoolMetrics_new → libc_owns c ∅ →
  PPROF pr = None → IN_PPROF pr = ∅ → SAMPLE_INTERVAL pr = i →
  live_inv i 0 (mkSamples [] ∅) (mkProfiled (process_new pool c) ∅ pr) [].
Proof.
  intros Hpool Hpm Hc Hnone Hidle Hi. split; [by apply proc_ok_init| |].
  - split; [done|done|]. cbn [pf_pprof]. rewrite Hnone. split; cbn; try done; set_solver.
  - intros ptr r. unfold side_of. cbn [pf_pprof]. by rewrite Hnone.
Qed.

Lemma prof_inv_init (pool : W) (c : C) :
  pp_ok pool [] [] → hr_metrics pool = PoolMetrics_new → libc_owns c ∅ →
  prof_inv 0 (mkProfiled (process_new pool c) ∅ pprof_init) [].
Proof.
  intros Hpool Hpm Hc. split; [by apply proc_ok_init| |].
  - intros t [h Hh]. cbn in Hh. by rewrite lookup_empty in Hh.
  - split; cbn; [done| |done]. split; cbn; by try apply map_Forall_empty.
Qed.

(** ** Properties *)

(** C37. Profiling does not disturb the allocator.  Whatever a process does,
    with the profiler switched on, reconfigured and off at will, sampling its
    allocations and allocating itself while it holds its guard, the calls of
    program and profiler are a run of the abstract allocator.  In every state
    reached in fewer than 2^32 calls (stacks are numbered in an [u32]) the
    profiler's tables are well-formed with no guard left set, and each call
    returns, whatever stacks are found, but for two: an allocation panics
    exactly where it does without the profiler ([alloc_panics]: the thread's
    first, with the registry of heaps full or no pthread key to be had), and a
    change of the configuration exactly for the interval 0. *)
Theorem profiled_process_correct (pool : W) (c : C) es s L :
  pp_ok pool [] [] → hr_metrics pool = PoolMetrics_new → libc_owns c ∅ →
  run profiled_step (mkProfiled (process_new pool c) ∅ pprof_init, []) es (s, L) → Z.of_nat (length es) < 2 ^ 32 →
  (∃ a, run alloc_spec_step (mkAllocSpec [] (read_byte (pp_mem pool))) (es ≫= erase) a ∧
     as_blocks a = L ∧ as_byte a = read_byte (proc_mem (pf_proc s))) ∧
  IN_PPROF (pf_pprof s) = ∅ ∧ state_typed (default PprofState_new (PPROF (pf_pprof s))) ∧
  (∀ config, if bad_config (OpConfig config) then ClMalloc_set_pprof_config (pf_pprof s) config = Panic PanicAssert
     else ∃ pr, ClMalloc_set_pprof_config (pf_pprof s) config = Ok pr) ∧
  ∀ t, (∀ l stack, layout_valid l → ids_left (pf_proc s) t →
      if alloc_panics (pf_proc s) t l then ClMalloc_alloc_prof s t l stack = Panic PanicAssert
      else ∃ r s', ClMalloc_alloc_prof s t l stack = Ok (r, s')) ∧
    (∀ mode a l, (a, l) ∈ L → ∃ s', ClMalloc_dealloc_prof mode s t a l = Ok s') ∧
    (∃ s', thread_exit_prof s t = Ok s').
Proof.
  intros Hpool Hpm Hc Hrun Hlen.
  destruct (prof_inv_run _ _ _ _ _ 0 (prof_inv_init pool c Hpool Hpm Hc) Hrun) as (n & [[g Hp] Hs Ht] & Hn); [lia|].
  split; [|split; [apply Ht|split; [apply Ht|split]]].
  - pose proof (profiled_run_erases _ _ _ _ _ Hrun) as Hr. cbn [pf_proc] in Hr.
    destruct (run_simulation _ _ _ proc_sim_step _ _ _ _ (proc_rel_init pool c Hpool Hpm Hc) Hr) as (a & Ha & _ & ->).
    by eexists.
  - intros config. apply (pprof_do_typed n _ (OpConfig config) Ht). lia.
  - intros t. assert (hooks_ok (pf_pprof s) t) as Hh by (eapply hooks_typed; [exact Ht|lia]). split_and!.
    + intros l stack Hv Hids. pose proof (alloc_prof_ok s L g t l stack Hp Hs Hh Hv Hids) as Hok.
      destruct (alloc_panics (pf_proc s) t l); [exact Hok|]. destruct Hok as (r & s' & E & _). by exists r, s'.
    + intros mode a l [l1 [l2 ->]]%list_elem_of_split.
      pose proof (so_client _ _ _ _ _ (po_heaps _ _ _ Hp)) as HF. rewrite Forall_app, Forall_cons in HF.
      destruct HF as (_ & [_ Hpos] & _). eapply (dealloc_prof_ok mode s _ g t a l (l1 ++ l2)); [done..|]. by rewrite Permutation_middle.
    + destruct (exit_prof_ok s L g t Hp Hs) as (s' & E & _). by exists s'.
Qed.

(** C36. At a fixed interval, as long as no sampled block is freed where the
    profiler does not look ([missed]), the profiler's tables describe the
    program's blocks: every sampled pointer is a block the program holds, with
    its size and class; the live counters of every stack are the weighted sums
    over the sampled blocks of that stack that are held; once the program holds
    nothing, every live counter is zero. *)
Theorem live_profile_exact (pool : W) (c : C) pr es s L :
  pp_ok pool [] [] → hr_metrics pool = PoolMetrics_new → libc_owns c ∅ →
  PPROF pr = None → IN_PPROF pr = ∅ → uint 64 (SAMPLE_INTERVAL pr) →
  run observed (mkProfiled (process_new pool c) ∅ pr, [], []) es (s, L, []) →
  Forall (keeps_interval (SAMPLE_INTERVAL pr)) es → Z.of_nat (length es) < 2 ^ 32 →
  let st := stacks (default PprofState_new (PPROF (pf_pprof s))) in
  side_held (pf_pprof s) L ∧
  ∃ sm : samples,
    (∀ ptr f z, held sm !! ptr = Some (f, z) ↔
       ∃ r, side_of (pf_pprof s) !! ptr = Some r ∧ Pprof.map st !! f = Some (stack_id r) ∧ sr_size r = z) ∧
    ∀ f id k, Pprof.map st !! f = Some id → counters st !! Z.to_nat id = Some k →
      counted (SAMPLE_INTERVAL pr) sm f k ∧ (L = [] → live_count k = 0 ∧ live_bytes k = 0).
Proof.
  intros Hpool Hpm Hc Hnone Hidle Hi Hrun Hk Hlen st.
  destruct (live_run (SAMPLE_INTERVAL pr) es 0 (mkSamples [] ∅) (mkProfiled (process_new pool c) ∅ pr) [] s L)
    as (sm & n & [_ [_ _ Ht] Hs]); [done|by apply live_inv_init|done|done|lia|]. split; [exact Hs|].
  exists sm. split.
  - intros ptr f z. split.
    + intros Hh. destruct (side_of (pf_pprof s) !! ptr) as [r|] eqn:Hr.
      2: { apply (to_side _ _ _ _ Ht) in Hr. congruence. }
      destruct (to_record _ _ _ _ Ht ptr r _ Hr Hh) as [Hf Hz]. by exists r.
    + intros (r & Hr & Hf & Hz). destruct (held sm !! ptr) as [[f' z']|] eqn:Hh.
      2: { apply (to_side _ _ _ _ Ht) in Hh. unfold side_of in Hr. congruence. }
      destruct (to_record _ _ _ _ Ht ptr r _ Hr Hh) as [Hf' Hz']. cbn in *.
      rewrite (to_inj _ _ _ _ Ht f f' (stack_id r) Hf Hf'). congruence.
  - intros f id k Hf Hid. pose proof (to_counted _ _ _ _ Ht f id k Hf Hid) as Hcnt. split; [exact Hcnt|]. intros ->.
    assert (held sm = ∅) as Hemp.
    { apply map_empty. intros ptr. apply (to_side _ _ _ _ Ht).
      destruct (side (default PprofState_new (PPROF (pf_pprof s))) !! ptr) as [r|] eqn:Hr; [|done].
      destruct (Hs ptr r Hr) as (l & Hin & _). by apply elem_of_nil in Hin. }
    split; [rewrite (ct_live _ _ _ _ Hcnt)|rewrite (ct_live_bytes _ _ _ _ Hcnt)]; by rewrite Hemp.
Qed.
End spec.

(** ** A concrete process *)

Notation demo_state_of := (profiled (PagePool demo_kernel) demo_libc Z).

Definition prof_answer (r : res (Z * demo_state_of)) : Z := match r with Ok (a, _) => a | Panic _ => -1 end.
Definition prof_alloc (s : demo_state_of) (r : res (Z * demo_state_of)) : demo_state_of :=
  match r with Ok (_, s) => s | Panic _ => s end.
Definition prof_call' (s : demo_state_of) (r : res demo_state_of) : demo_state_of :=
  match r with Ok s => s | Panic _ => s end.

Lemma prof_answered s r : (prof_answer r =? -1) = false → r = Ok (prof_answer r, prof_alloc s r).
Proof. by destruct r as [[]|]. Qed.

Lemma prof_called s r : match r with Ok _ => true | Panic _ => false end = true → r = Ok (prof_call' s r).
Proof. by destruct r. Qed.

(** Profiling is on, every eight bytes. *)
Definition demo_pprof : pprof := mkPprof true 8 None ∅.
Definition prof0 : demo_state_of := mkProfiled demo_proc ∅ demo_pprof.
Definition prof1 := prof_alloc prof0 (ClMalloc_alloc_prof prof0 1 l16 [10; 20]).
Definition prof_a : Z := prof_answer (ClMalloc_alloc_prof prof0 1 l16 [10; 20]).
(** The block is freed on thread 2, which has no heap, or by thread 1. *)
Definition prof2 := prof_call' prof1 (ClMalloc_dealloc_prof PushNow prof1 2 prof_a l16).
Definition prof3 := prof_call' prof1 (ClMalloc_dealloc_prof PushNow prof1 1 prof_a l16).

Lemma prof_alloc_step : call_step (prof0, []) (PAlloc 1 l16 prof_a) (prof1, [(prof_a, l16)]).
Proof.
  pose proof (call_alloc prof0 [] 1 l16 [10; 20] prof_a prof1) as Hs.
  assert ((size l16 =? 0) || (prof_a =? 0) = false) as Hn by (vm_compute; reflexivity).
  rewrite Hn in Hs. apply Hs.
  - split; [apply l16_ok|]. apply demo_ids. vm_compute. reflexivity.
  - apply prof_answered. vm_compute. reflexivity.
Qed.

Lemma prof_free_step t :
  match ClMalloc_dealloc_prof PushNow prof1 t prof_a l16 with Ok _ => true | Panic _ => false end = true →
  call_step (prof1, [(prof_a, l16)]) (PDealloc t prof_a l16)
    (prof_call' prof1 (ClMalloc_dealloc_prof PushNow prof1 t prof_a l16), []).
Proof. intros Hok. apply (call_dealloc PushNow); [done|done|]. by apply prof_called. Qed.

(** The free of thread 2 went past the profiler: nothing is held, and the block
    is still in the side table. *)
Example heapless_free_keeps_sample :
  missed prof1 (PCall (PDealloc 2 prof_a l16)) = [prof_a] ∧ sampled (pf_pprof prof2) prof_a = true ∧
  missed prof1 (PCall (PDealloc 1 prof_a l16)) = [] ∧ sampled (pf_pprof prof3) prof_a = false.
Proof. vm_compute. done. Qed.

Lemma live_profile_exact_witness :
  sampled (pf_pprof prof1) prof_a = true ∧
  ∃ k, counters (stacks (default PprofState_new (PPROF (pf_pprof prof3)))) !! 0%nat = Some k ∧
    live_count k = 0 ∧ live_bytes k = 0.
Proof.
  split; [vm_compute; reflexivity|].
  destruct (live_profile_exact demo_pool (4096 : demo_libc) demo_pprof
    [PCall (PAlloc 1 l16 prof_a); PCall (PDealloc 1 prof_a l16)] prof3 [] demo_pool_ok demo_metrics demo_libc_owns)
    as (_ & sm & _ & Hc); [reflexivity|reflexivity|vm_compute; split; congruence| |repeat constructor|vm_compute; reflexivity|].
  - apply (run_cons observed _ _ (prof1, [(prof_a, l16)], [])).
    { split; [apply prof_call, prof_alloc_step|]. vm_compute. reflexivity. }
    apply (run_cons observed _ _ (prof3, [], [])); [|constructor]. split.
    + apply prof_call, prof_free_step. vm_compute. reflexivity.
    + vm_compute. reflexivity.
  - assert (∃ k, counters (stacks (default PprofState_new (PPROF (pf_pprof prof3)))) !! 0%nat = Some k) as [k Hk]
      by (vm_compute; by eexists).
    exists k. split; [exact Hk|]. apply (Hc [10; 20] 0 k); [vm_compute; reflexivity|exact Hk|reflexivity].
Defined.

(** Profiling is switched on, thread 1 allocates, and the profiler too. *)
Definition prof_c0 : demo_state_of := mkProfiled demo_proc ∅ pprof_init.
Definition prof_c1 : demo_state_of := with_pprof prof_c0 (mkPprof true 8 None ∅).
Definition prof_c2 := prof_alloc prof_c1 (ClMalloc_alloc_prof prof_c1 1 l16 [10; 20]).
Definition prof_c3 := unguarded (prof_alloc prof_c2 (ClMalloc_alloc_prof (guarded prof_c2 1) 1 l16 [30])) 1.
Definition prof_b : Z := prof_answer (ClMalloc_alloc_prof (guarded prof_c2 1) 1 l16 [30]).

Lemma prof_run :
  run profiled_step (prof_c0, [])
    [PConfig (Some (mkPprofConfig 8)); PCall (PAlloc 1 l16 prof_a); PInner 1 (PAlloc 1 l16 prof_b)]
    (prof_c3, [(prof_b, l16); (prof_a, l16)]).
Proof.
  apply (run_cons profiled_step _ _ (prof_c1, [])); [by apply prof_config|].
  apply (run_cons profiled_step _ _ (prof_c2, [(prof_a, l16)])); [apply prof_call, prof_alloc_step|].
  apply (run_cons profiled_step _ _ (prof_c3, [(prof_b, l16); (prof_a, l16)])); [|constructor].
  apply prof_inner; [reflexivity|].
  pose proof (call_alloc (guarded prof_c2 1) [(prof_a, l16)] 1 l16 [30] prof_b
    (prof_alloc prof_c2 (ClMalloc_alloc_prof (guarded prof_c2 1) 1 l16 [30]))) as Hs.
  assert ((size l16 =? 0) || (prof_b =? 0) = false) as Hn by (vm_compute; reflexivity).
  rewrite Hn in Hs. apply Hs.
  - split; [apply l16_ok|]. apply demo_ids. vm_compute. reflexivity.
  - apply prof_answered. vm_compute. reflexivity.
Qed.

Lemma profiled_process_correct_witness :
  ∃ s, ClMalloc_dealloc_prof PushNow prof_c3 1 prof_a l16 = Ok s ∧
    (sampled (pf_pprof prof_c3) prof_a, sampled (pf_pprof prof_c3) prof_b) = (true, false).
Proof.
  destruct (profiled_process_correct demo_pool (4096 : demo_libc) _ _ _ demo_pool_ok demo_metrics demo_libc_owns prof_run)
    as (_ & _ & _ & _ & Hc); [vm_compute; reflexivity|].
  destruct (Hc 1) as (_ & Hd & _). destruct (Hd PushNow prof_a l16) as [s E]; [right; left|].
  exists s. split; [exact E|]. vm_compute. reflexivity.
Defined.
