(* ===== verification/TestKit.v ===== *)
(** * Tests as programs

    The tests of the crate, translated statement by statement and run on the
    definitions: a test is a program over the state it works on (for most tests
    the pool, the slab headers and the heaps it has created; a process; the
    profiler), which stops at the first failed assertion.  Threads
    that are joined at once are run in place.  The pool is over [SystemAllocator]
    in most tests ([system_pool]), over [MmapAllocator] in two ([mmap_pool]). *)

From stdpp Require Import base numbers list gmap.
From Stdlib Require Import ZArith Lia.
From S2P Require Import Prelude SizeClass LinkMem Treiber Slab SlabList Sys SysAlloc Metrics Pool SlabCache PagePort Heap PoolDrop Global.

Local Open Scope Z_scope.
Local Open Scope clm_scope.

(** ** Programs, assertions and loops *)

Definition prog (S A : Type) : Type := S → res (A * S).

Section prog.
Context {S : Type}.
Implicit Types s : S.

#[global] Instance prog_ret : MRet (prog S) := λ A a s, Ok (a, s).
#[global] Instance prog_bind : MBind (prog S) := λ A B f m s,
  match m s with Ok (a, s) => f a s | Panic p => Panic p end.

Definition run_from s (t : prog S ()) : bool := match t s with Ok _ => true | Panic _ => false end.

Definition assert (b : bool) : prog S () := λ s, if b then Ok ((), s) else Panic PanicAssert.
Definition assert_eq (x y : Z) : prog S () := assert (x =? y).
Definition assert_ne (x y : Z) : prog S () := assert (negb (x =? y)).

(** [Option::unwrap]. *)
Definition unwrap {A} (o : option A) : prog S A := λ s,
  match o with Some a => Ok (a, s) | None => Panic PanicAssert end.

Definition lift {A} (r : res A) : prog S A := λ s, a ← r; Ok (a, s).

Fixpoint times {A} (n : nat) (t : prog S A) : prog S (list A) :=
  match n with
  | O => mret []
  | Datatypes.S n => a ← t; l ← times n t; mret (a :: l)
  end.

Fixpoint for_each {A} (l : list A) (f : A → prog S ()) : prog S () :=
  match l with
  | [] => mret ()
  | a :: l => _ ← f a; for_each l f
  end.

End prog.

(** [Layout::from_size_align(size, align).unwrap()]. *)
Definition layout (size align : Z) : Layout := mkLayout size align.

(** ** The state of most tests *)

Section kit.
Context {P : Type} `{PageAllocator P}.

Record tstate := mkTest { t_world : world (PagePool P); t_heaps : gmap Z Heap; t_next : Z }.

Abbreviation test := (prog tstate).

(** A test starts with an empty pool; heap ids start at 1. *)
Definition test_start (os : P) : tstate := mkTest (world_new (mkPool os ∅ PoolState_new)) ∅ 1.

Definition passes (os : P) (t : test ()) : bool := run_from (test_start os) t.

Definition get_world : test (world (PagePool P)) := λ s, Ok (t_world s, s).
Definition put_world (w : world (PagePool P)) : test () := λ s, Ok ((), mkTest w (t_heaps s) (t_next s)).
Definition on_world (f : world (PagePool P) → res (world (PagePool P))) : test () :=
  w ← get_world; w ← lift (f w); put_world w.

(** ** Heaps *)

(** [Heap::new(&pool)]; a heap is named by its id. *)
Definition heap_new : test Z := λ s,
  let '(id, next) := next_heap_id (t_next s) in
  Ok (id, mkTest (t_world s) (<[id := Heap_new id]> (t_heaps s)) next).

Definition get_heap (h : Z) : test Heap := λ s,
  heap ← res_of_option InvalidPointer (t_heaps s !! h); Ok (heap, s).
Definition put_heap (h : Z) (heap : Heap) : test () := λ s,
  Ok ((), mkTest (t_world s) (<[h := heap]> (t_heaps s)) (t_next s)).
Definition delete_heap (h : Z) : test () := λ s,
  Ok ((), mkTest (t_world s) (delete h (t_heaps s)) (t_next s)).

(** [heap.alloc(layout).unwrap()]. *)
Definition alloc (h : Z) (l : Layout) : test Z :=
  heap ← get_heap h;
  w ← get_world;
  '(r, heap, w) ← lift (Heap_alloc 2 heap w l);
  _ ← put_world w;
  _ ← put_heap h heap;
  unwrap r.

Definition dealloc (h ptr : Z) (l : Layout) : test () :=
  heap ← get_heap h;
  w ← get_world;
  '(heap, w) ← lift (Heap_dealloc PushNow heap w ptr l);
  _ ← put_world w;
  put_heap h heap.

(** The end of the scope of a heap. *)
Definition drop_heap (h : Z) : test () :=
  heap ← get_heap h;
  w ← get_world;
  '(_, w) ← lift (Heap_drop heap w);
  _ ← put_world w;
  delete_heap h.

(** The end of the scope of the pool. *)
Definition drop_pool : test () := on_world PagePool_drop.

(** [SlabRef::from_interior_ptr(ptr)], its header, and a remote free through it. *)
Definition slab_ref (ptr : Z) : Z := SlabHeader_from_ptr ptr.
Definition header (b : Z) : test SlabHeader := w ← get_world; lift (get_header (w_slabs w) b).
Definition dealloc_remote (ptr : Z) : test () := on_world (λ w, slab_dealloc_remote_at w (slab_ref ptr) ptr).

(** The methods of a slab. *)
Definition slab_alloc (b : Z) : test (option Z) :=
  w ← get_world; '(r, w) ← lift (slab_alloc_at w b); _ ← put_world w; mret r.
Definition slab_dealloc_local (b ptr : Z) : test () := on_world (λ w, slab_dealloc_local_at w b ptr).
Definition slab_drain_remote (b : Z) : test Z :=
  w ← get_world;
  hd ← header b;
  '(m, hd, n) ← lift (Slab_drain_remote (w_mem w) hd);
  _ ← put_world (set_header (set_mem w m) b hd);
  mret n.

(** [while let Some(ptr) = slab.alloc() { slots.push(ptr) }]; [fuel] bounds the slots. *)
Fixpoint slab_alloc_while (fuel : nat) (b : Z) : test (list Z) :=
  r ← slab_alloc b;
  match r, fuel with
  | None, _ => mret []
  | Some _, O => lift (Panic OutOfFuel)
  | Some ptr, S fuel => l ← slab_alloc_while fuel b; mret (ptr :: l)
  end.

(** [heap.metrics()]. *)
Definition heap_metrics (h : Z) : test HeapMetrics := heap ← get_heap h; mret (hp_metrics heap).
Definition class_counter (l : list Z) (idx : Z) : test Z := unwrap (l !! Z.to_nat idx).

(** [size_class::class_index(layout).unwrap()]. *)
Definition class_of (l : Layout) : test Z := c ← lift (class_index l); unwrap c.

(** ** The pool *)

Definition pool_alloc_slab : test Z :=
  w ← get_world;
  '(r, p) ← lift (pp_alloc_slab (w_pool w));
  _ ← put_world (set_pool w p);
  unwrap r.

Definition pool_dealloc_slab (b : Z) : test () :=
  on_world (λ w, p ← pp_dealloc_slab (w_pool w) b; Ok (set_pool w p)).

Definition pool_snapshot : test MetricsSnapshot := λ s,
  snap ← snapshot (w_pool (t_world s)) (heap_counters (t_heaps s)); Ok (snap, s).

Definition pool_alloc_large (l : Layout) : test Z :=
  w ← get_world;
  let '(r, p) := pp_alloc_large (w_pool w) l in
  _ ← put_world (set_pool w p);
  unwrap r.

Definition pool_dealloc_large (ptr : Z) (l : Layout) : test () :=
  on_world (λ w, Ok (set_pool w (pp_dealloc_large (w_pool w) ptr l))).

Definition pool_segment_count : test Z := w ← get_world; mret (segment_count (state (w_pool w))).

Definition on_registry (f : hm_store → PoolMetrics → Z → res (hm_store * PoolMetrics)) (h : Z) : test () := λ s,
  let w := t_world s in
  '(st, pm) ← f (heap_counters (t_heaps s)) (hr_metrics (w_pool w)) h;
  Ok ((), mkTest (set_pool w (hr_set_metrics (w_pool w) pm)) (put_counters (t_heaps s) st) (t_next s)).

Definition register_heap : Z → test () := on_registry PoolMetrics_register_heap.
Definition deregister_heap : Z → test () := on_registry PoolMetrics_deregister_heap.

(** ** [Heap::drain_remote_all], a helper of the tests *)

Fixpoint drain_queue (fuel : nat) (w : world (PagePool P)) (cursor : option Z) : res (world (PagePool P)) :=
  match cursor with
  | None => Ok w
  | Some base =>
      match fuel with
      | O => Panic OutOfFuel
      | S fuel =>
          w ← slab_drain_at w base;
          hd ← get_header (w_slabs w) base;
          drain_queue fuel w (next_link hd)
      end
  end.

Fixpoint drain_bins (bins : list (option Z)) (w : world (PagePool P)) : res (world (PagePool P)) :=
  match bins with
  | [] => Ok w
  | None :: bins => drain_bins bins w
  | Some b :: bins => w ← slab_drain_at w b; drain_bins bins w
  end.

Fixpoint drain_queues (n : nat) (h : Heap) (w : world (PagePool P)) (idx : Z) : res (world (PagePool P)) :=
  match n with
  | O => Ok w
  | S n =>
      w ← drain_queue (slab_fuel w) w (ls_heads (w_slabs w) !! full_heads h idx);
      w ← drain_queue (slab_fuel w) w (ls_heads (w_slabs w) !! partial_heads h idx);
      drain_queues n h w (idx + 1)
  end.

Definition Heap_drain_remote_all (h : Heap) (w : world (PagePool P)) : res (world (PagePool P)) :=
  w ← drain_bins (hp_bins h) w;
  drain_queues (Z.to_nat NUM_CLASSES) h w 0.

Definition drain_remote_all (h : Z) : test () := heap ← get_heap h; on_world (Heap_drain_remote_all heap).
End kit.
Arguments tstate : clear implicits.

(** What the tests of the crate run on: [SystemAllocator], or [MmapAllocator]. *)
Abbreviation system_test := (prog (tstate (SystemAllocator bump))).
Abbreviation mmap_test := (prog (tstate demo_kernel)).

(** ** The pools of the tests *)

Definition system_pool : SystemAllocator bump := mkSystem (mkBump 65536).
Definition mmap_pool : demo_kernel := demo0.
