(* ===== verification/HeapTests.v ===== *)
(** * The unit tests of the heap ([src/src/heap.rs], [mod tests])

    One definition per test, one example that it passes on the model. *)

From stdpp Require Import base numbers list gmap.
From Stdlib Require Import ZArith Lia.
From S2P Require Import Prelude SizeClass Slab Sys SysAlloc Metrics Pool Heap TestKit.

Local Open Scope Z_scope.

Definition dealloc_all (h : Z) (l : Layout) (ptrs : list Z) : system_test () := for_each ptrs (λ ptr, dealloc h ptr l).

(** The end of a test: its heaps and its pool are dropped. *)
Definition finish (hs : list Z) : system_test () := _ ← for_each hs drop_heap; drop_pool.

Definition heap_ids_are_unique : system_test () :=
  h1 ← heap_new; h2 ← heap_new;
  _ ← assert_ne h1 h2;
  finish [h2; h1].

Definition alloc_dealloc_round_trip : system_test () :=
  heap ← heap_new;
  _ ← for_each [8; 16; 64; 256; 1024; 4096; 32768] (λ size,
    ptr ← alloc heap (layout size 1);
    dealloc heap ptr (layout size 1));
  finish [heap].

Definition exhaust_slab_gets_new_one : system_test () :=
  heap ← heap_new;
  let l := layout 8 1 in
  first ← alloc heap l;
  hd ← header (slab_ref first);
  rest ← times (Z.to_nat (slot_count hd - 1)) (alloc heap l);
  next ← alloc heap l;
  _ ← assert_ne (slab_ref first) (slab_ref next);
  _ ← dealloc heap next l;
  _ ← dealloc_all heap l (first :: rest);
  finish [heap].

Definition drain_remote_reuses_slots : system_test () :=
  heap ← heap_new;
  let l := layout 64 1 in
  ptr ← alloc heap l;
  hd ← header (slab_ref ptr);
  others ← times (Z.to_nat (slot_count hd - 1)) (alloc heap l);
  _ ← dealloc_remote ptr;
  recovered ← alloc heap l;
  _ ← assert_eq recovered ptr;
  _ ← dealloc heap recovered l;
  _ ← dealloc_all heap l others;
  finish [heap].

Definition full_queue_scan_promotes_partial : system_test () :=
  heap ← heap_new;
  let l := layout 64 1 in
  first ← alloc heap l;
  hd ← header (slab_ref first);
  let n := Z.to_nat (slot_count hd - 1) in
  slab1_ptrs ← times n (alloc heap l);
  slab2_ptr ← alloc heap l;
  _ ← assert_ne (slab_ref first) (slab_ref slab2_ptr);
  remote ← unwrap (last slab1_ptrs);
  _ ← dealloc_remote remote;
  slab2_ptrs ← times n (alloc heap l);
  recovered ← alloc heap l;
  _ ← assert_eq (slab_ref recovered) (slab_ref first);
  _ ← dealloc heap recovered l;
  _ ← dealloc_all heap l (first :: removelast slab1_ptrs);
  _ ← dealloc_all heap l (slab2_ptr :: slab2_ptrs);
  finish [heap].

Definition large_allocation_passthrough : system_test () :=
  heap ← heap_new;
  let l := layout (Z.shiftl 1 20) 4096 in
  ptr ← alloc heap l;
  _ ← assert_eq (ptr mod 4096) 0;
  _ ← dealloc heap ptr l;
  finish [heap].

Definition drop_returns_free_slabs_to_pool : system_test () :=
  before ← pool_alloc_slab;
  _ ← pool_dealloc_slab before;
  heap ← heap_new;
  let l := layout 64 1 in
  ptr ← alloc heap l;
  _ ← dealloc heap ptr l;
  _ ← drop_heap heap;
  reused ← pool_alloc_slab;
  _ ← pool_dealloc_slab reused;
  drop_pool.

Definition cross_thread_dealloc_uses_remote : system_test () :=
  heap ← heap_new;
  let l := layout 64 1 in
  ptr ← alloc heap l;
  other ← heap_new;
  _ ← dealloc other ptr l;
  _ ← drop_heap other;
  _ ← drain_remote_all heap;
  recovered ← alloc heap l;
  _ ← assert_eq recovered ptr;
  _ ← dealloc heap recovered l;
  finish [heap].

Definition dealloc_non_active_own_slab_goes_to_local_free_list : system_test () :=
  heap ← heap_new;
  let l := layout 64 1 in
  first ← alloc heap l;
  hd ← header (slab_ref first);
  let n := Z.to_nat (slot_count hd - 1) in
  first_ptrs ← times n (alloc heap l);
  second ← alloc heap l;
  _ ← assert_ne (slab_ref first) (slab_ref second);
  freed ← unwrap (last first_ptrs);
  _ ← dealloc heap freed l;
  second_ptrs ← times n (alloc heap l);
  recovered ← alloc heap l;
  _ ← assert_eq recovered freed;
  _ ← dealloc heap recovered l;
  _ ← dealloc_all heap l (first :: removelast first_ptrs);
  _ ← dealloc_all heap l (second :: second_ptrs);
  finish [heap].

Definition dealloc_promotes_full_slab_to_partial : system_test () :=
  heap ← heap_new;
  let l := layout 64 1 in
  first ← alloc heap l;
  hd ← header (slab_ref first);
  first_ptrs ← times (Z.to_nat (slot_count hd - 1)) (alloc heap l);
  second_ptrs ← times (Z.to_nat (slot_count hd)) (alloc heap l);
  second ← unwrap (head second_ptrs);
  _ ← assert_ne (slab_ref first) (slab_ref second);
  freed ← unwrap (last first_ptrs);
  _ ← dealloc heap freed l;
  recovered ← alloc heap l;
  _ ← assert_eq recovered freed;
  _ ← dealloc heap recovered l;
  _ ← dealloc_all heap l (first :: removelast first_ptrs);
  _ ← dealloc_all heap l second_ptrs;
  finish [heap].

Definition dealloc_remote_slab_uses_atomic_push : system_test () :=
  heap ← heap_new;
  let l := layout 64 1 in
  ptrs ← times 64 (alloc heap l);
  heap2 ← heap_new;
  _ ← dealloc_all heap2 l ptrs;
  _ ← drop_heap heap2;
  _ ← drain_remote_all heap;
  _ ← times 64 (alloc heap l);
  finish [heap].

Definition abandoned_slab_is_adopted_by_new_heap : system_test () :=
  let l := layout 64 1 in
  heap1 ← heap_new;
  outstanding ← alloc heap1 l;
  _ ← drop_heap heap1;
  heap2 ← heap_new;
  ptr2 ← alloc heap2 l;
  _ ← assert_eq (slab_ref outstanding) (slab_ref ptr2);
  hd ← header (slab_ref ptr2);
  _ ← assert_eq (heap_id hd) heap2;
  _ ← dealloc heap2 outstanding l;
  _ ← dealloc heap2 ptr2 l;
  finish [heap2].

Definition abandoned_slab_with_remote_frees_after_abandon : system_test () :=
  let l := layout 64 1 in
  heap1 ← heap_new;
  ptr ← alloc heap1 l;
  _ ← drop_heap heap1;
  _ ← dealloc_remote ptr;
  heap2 ← heap_new;
  ptr2 ← alloc heap2 l;
  hd ← header (slab_ref ptr2);
  _ ← assert_eq (heap_id hd) heap2;
  _ ← dealloc heap2 ptr2 l;
  finish [heap2].

Definition cross_thread_abandon_adopt : system_test () :=
  let l := layout 256 1 in
  heap1 ← heap_new;
  raw_ptrs ← times 10 (alloc heap1 l);
  _ ← drop_heap heap1;
  heap2 ← heap_new;
  new_ptr ← alloc heap2 l;
  first ← unwrap (head raw_ptrs);
  _ ← assert_eq (slab_ref first) (slab_ref new_ptr);
  _ ← dealloc_all heap2 l raw_ptrs;
  _ ← dealloc heap2 new_ptr l;
  finish [heap2].

(** ** With the feature [metrics] *)

Definition metrics_counter_accuracy : system_test () :=
  heap ← heap_new;
  let l := layout 64 1 in
  idx ← class_of l;
  let cs := class_size idx in
  p1 ← alloc heap l;
  p2 ← alloc heap l;
  m ← heap_metrics heap;
  n ← class_counter (class_alloc_count m) idx; _ ← assert_eq n 2;
  n ← class_counter (class_alloc_bytes m) idx; _ ← assert_eq n (2 * cs);
  _ ← assert_eq (alloc_bytes m) (2 * cs);
  _ ← dealloc heap p1 l;
  m ← heap_metrics heap;
  n ← class_counter (class_dealloc_count m) idx; _ ← assert_eq n 1;
  _ ← assert_eq (free_bytes m) cs;
  _ ← dealloc heap p2 l;
  m ← heap_metrics heap;
  n ← class_counter (class_dealloc_count m) idx; _ ← assert_eq n 2;
  finish [heap].

Definition metrics_large_alloc_tracked : system_test () :=
  heap ← heap_new;
  let l := layout (Z.shiftl 1 20) 4096 in
  ptr ← alloc heap l;
  m ← heap_metrics heap;
  _ ← assert_eq (large_alloc_count m) 1;
  _ ← assert_eq (large_alloc_bytes m) (Z.shiftl 1 20);
  _ ← dealloc heap ptr l;
  m ← heap_metrics heap;
  _ ← assert_eq (large_dealloc_bytes m) (Z.shiftl 1 20);
  finish [heap].

Definition snapshot_aggregates_registered_heaps : system_test () :=
  h1 ← heap_new; h2 ← heap_new;
  _ ← register_heap h1;
  _ ← register_heap h2;
  let l := layout 64 1 in
  idx ← class_of l;
  let cs := class_size idx in
  p1 ← alloc h1 l;
  p2 ← alloc h2 l;
  snap ← pool_snapshot;
  n ← class_counter (class_alloc_count (ms_heaps snap)) idx; _ ← assert_eq n 2;
  _ ← assert_eq (alloc_bytes (ms_heaps snap)) (2 * cs);
  _ ← assert_eq (ms_allocated snap) (2 * cs);
  n ← class_counter (class_live_count snap) idx; _ ← assert_eq n 2;
  _ ← assert (2 * SLAB_SIZE <=? ms_active snap);
  _ ← assert (SEGMENT_SIZE <=? ms_mapped snap);
  _ ← dealloc h1 p1 l;
  _ ← dealloc h2 p2 l;
  _ ← deregister_heap h1;
  _ ← deregister_heap h2;
  finish [h2; h1].

Definition metrics_segment_munmap_counted : system_test () :=
  let slabs_per_seg := SEGMENT_SIZE / SLAB_SIZE in
  slabs ← times (Z.to_nat slabs_per_seg) pool_alloc_slab;
  _ ← for_each slabs pool_dealloc_slab;
  snap ← pool_snapshot;
  _ ← assert (0 <? ms_segment_munmap_count snap);
  drop_pool.

Definition metrics_abandon_adopt_counted : system_test () :=
  let l := layout 64 1 in
  idx ← class_of l;
  heap1 ← heap_new;
  outstanding ← alloc heap1 l;
  _ ← drop_heap heap1;
  snap ← pool_snapshot;
  n ← class_counter (ms_abandon_count snap) idx; _ ← assert (0 <? n);
  heap2 ← heap_new;
  _ ← alloc heap2 l;
  snap ← pool_snapshot;
  n ← class_counter (ms_adopt_count snap) idx; _ ← assert (0 <? n);
  _ ← dealloc heap2 outstanding l;
  finish [heap2].

Definition metrics_active_bytes_tracked : system_test () :=
  heap ← heap_new;
  let l := layout 64 1 in
  idx ← class_of l;
  let cs := class_size idx in
  ptr ← alloc heap l;
  m ← heap_metrics heap;
  _ ← assert_eq (alloc_bytes m) cs;
  _ ← assert_eq (free_bytes m) 0;
  _ ← dealloc heap ptr l;
  m ← heap_metrics heap;
  _ ← assert_eq (free_bytes m) cs;
  finish [heap].

Definition metrics_pool_counters : system_test () :=
  let slabs_per_seg := SEGMENT_SIZE / SLAB_SIZE in
  let num_segments := PURGE_HIGH_WATER / slabs_per_seg + 2 in
  let total := num_segments * slabs_per_seg in
  slabs ← times (Z.to_nat total) pool_alloc_slab;
  let numbered := zip (seqZ 0 total) slabs in
  let anchors := snd <$> filter (λ p, p.1 mod slabs_per_seg = 0) numbered in
  let to_free := snd <$> filter (λ p, p.1 mod slabs_per_seg ≠ 0) numbered in
  _ ← for_each to_free pool_dealloc_slab;
  snap ← pool_snapshot;
  _ ← assert (0 <? ms_pool_lock_count snap);
  _ ← assert (0 <? ms_segment_mmap_count snap);
  _ ← assert (0 <? ms_slab_purge_count snap);
  _ ← for_each anchors pool_dealloc_slab;
  drop_pool.

(** ** They pass *)

Example heap_tests_pass :
  forallb (passes system_pool)
    [heap_ids_are_unique; alloc_dealloc_round_trip; exhaust_slab_gets_new_one; drain_remote_reuses_slots;
     full_queue_scan_promotes_partial; large_allocation_passthrough; drop_returns_free_slabs_to_pool;
     cross_thread_dealloc_uses_remote; dealloc_non_active_own_slab_goes_to_local_free_list;
     dealloc_promotes_full_slab_to_partial; dealloc_remote_slab_uses_atomic_push;
     abandoned_slab_is_adopted_by_new_heap; abandoned_slab_with_remote_frees_after_abandon;
     cross_thread_abandon_adopt; metrics_counter_accuracy; metrics_large_alloc_tracked;
     snapshot_aggregates_registered_heaps; metrics_segment_munmap_counted; metrics_abandon_adopt_counted;
     metrics_active_bytes_tracked; metrics_pool_counters] = true.
Proof. vm_compute. reflexivity. Qed.
