(* ===== verification/PoolTests.v ===== *)
(** * The unit tests of the page pool ([src/src/pool.rs], [mod tests])

    The tests of one thread; what the others try is proved for every
    interleaving in [PoolSpec] and [SlabCache]. *)

From stdpp Require Import base numbers list gmap.
From Stdlib Require Import ZArith Lia.
From S2P Require Import Prelude LinkMem Slab Sys SysAlloc PageList Pool PagePort Heap TestKit.

Local Open Scope Z_scope.

(** A [HashSet] filled from a list, and the number of its elements. *)
Definition hash_set (l : list Z) : gmap Z () := foldr (λ a s, <[a := ()]> s) ∅ l.
Definition distinct (l : list Z) : Z := Z.of_nat (base.size (hash_set l)).

Definition slabs_per_segment : Z := SEGMENT_SIZE / SLAB_SIZE.

Definition alloc_slab_aligned_and_unique : system_test () :=
  slabs ← times 64 (slab ← pool_alloc_slab; _ ← assert_eq (slab mod SLAB_SIZE) 0; mret slab);
  _ ← assert_eq (distinct slabs) 64;
  _ ← for_each slabs pool_dealloc_slab;
  drop_pool.

Definition crosses_segment_boundary : system_test () :=
  slabs ← times (Z.to_nat (slabs_per_segment + 4)) pool_alloc_slab;
  _ ← assert_eq (distinct slabs) (slabs_per_segment + 4);
  _ ← for_each slabs pool_dealloc_slab;
  drop_pool.

Definition dealloc_then_reuse_from_dirty : system_test () :=
  s1 ← pool_alloc_slab;
  _ ← pool_dealloc_slab s1;
  s2 ← pool_alloc_slab;
  _ ← assert_eq s2 s1;
  _ ← pool_dealloc_slab s2;
  drop_pool.

Definition large_alloc_round_trip : system_test () :=
  let l := layout (Z.shiftl 1 20) 4096 in
  ptr ← pool_alloc_large l;
  _ ← assert_eq (ptr mod 4096) 0;
  _ ← pool_dealloc_large ptr l;
  drop_pool.

Definition mmap_alloc_round_trip : mmap_test () :=
  slab ← pool_alloc_slab;
  _ ← assert_eq (slab mod SLAB_SIZE) 0;
  _ ← pool_dealloc_slab slab;
  drop_pool.

Definition fully_free_segment_is_purged : system_test () :=
  slabs ← times (Z.to_nat slabs_per_segment) pool_alloc_slab;
  n ← pool_segment_count; _ ← assert_eq n 1;
  _ ← for_each slabs pool_dealloc_slab;
  n ← pool_segment_count; _ ← assert_eq n 0;
  fresh ← pool_alloc_slab;
  n ← pool_segment_count; _ ← assert_eq n 1;
  _ ← pool_dealloc_slab fresh;
  drop_pool.

Definition partial_segment_not_purged : system_test () :=
  slabs ← times (Z.to_nat slabs_per_segment) pool_alloc_slab;
  kept ← unwrap (last slabs);
  _ ← for_each (removelast slabs) pool_dealloc_slab;
  n ← pool_segment_count; _ ← assert_eq n 1;
  _ ← pool_dealloc_slab kept;
  n ← pool_segment_count; _ ← assert_eq n 0;
  drop_pool.

Definition uncarved_segment_not_purged : system_test () :=
  s ← pool_alloc_slab;
  _ ← pool_dealloc_slab s;
  n ← pool_segment_count; _ ← assert_eq n 1;
  drop_pool.

(** ** Purging *)

(** One slab per segment is kept, the last ones allocated. *)
Fixpoint split_anchors (slabs : list Z) (seen : gset Z) : list Z * list Z :=
  match slabs with
  | [] => ([], [])
  | slab :: slabs =>
      let seg_base := slab / SEGMENT_SIZE * SEGMENT_SIZE in
      if decide (seg_base ∈ seen) then
        let '(anchors, to_free) := split_anchors slabs seen in (anchors, slab :: to_free)
      else
        let '(anchors, to_free) := split_anchors slabs ({[seg_base]} ∪ seen) in (slab :: anchors, to_free)
  end.

(** [ptr::write_bytes(ptr, 0xAB, len)]. *)
Fixpoint write_bytes (m : mem) (ptr : Z) (len : nat) : mem :=
  match len with O => m | S len => write_bytes (write_byte m ptr 171) (ptr + 1) len end.

Fixpoint all_zero (m : mem) (ptr : Z) (len : nat) : bool :=
  match len with O => true | S len => (read_byte m ptr =? 0) && all_zero m (ptr + 1) len end.

(** Slabs are allocated until [target] comes back, at most [n]. *)
Fixpoint realloc_until (n : nat) (target : Z) : mmap_test (bool * list Z) :=
  match n with
  | O => mret (false, [])
  | S n =>
      s ← pool_alloc_slab;
      if s =? target then
        w ← get_world;
        _ ← assert (all_zero (w_mem w) (s + 8) (Z.to_nat (SLAB_SIZE - 8)));
        mret (true, [s])
      else
        '(found, l) ← realloc_until n target;
        mret (found, s :: l)
  end.

Definition purge_zeroes_slab_pages_after_threshold : mmap_test () :=
  let n := 3 * SLABS_PER_SEGMENT in
  slabs ← times (Z.to_nat n) pool_alloc_slab;
  let '(anchors, to_free) := split_anchors (reverse slabs) ∅ in
  target ← unwrap (head to_free);
  _ ← on_world (λ w, Ok (set_mem w (write_bytes (w_mem w) target (Z.to_nat SLAB_SIZE))));
  let non_target := filter (λ s, s ≠ target) to_free in
  let prefill := Z.to_nat (PURGE_HIGH_WATER - 1) in
  _ ← for_each (take prefill non_target) pool_dealloc_slab;
  _ ← pool_dealloc_slab target;
  next ← unwrap (non_target !! prefill);
  _ ← pool_dealloc_slab next;
  _ ← for_each (drop (S prefill) non_target) pool_dealloc_slab;
  '(found, reallocs) ← realloc_until (length to_free) target;
  _ ← assert found;
  _ ← for_each reallocs pool_dealloc_slab;
  _ ← for_each anchors pool_dealloc_slab;
  drop_pool.

(** ** They pass *)

Example pool_tests_pass :
  forallb (passes system_pool)
    [alloc_slab_aligned_and_unique; crosses_segment_boundary; dealloc_then_reuse_from_dirty; large_alloc_round_trip;
     fully_free_segment_is_purged; partial_segment_not_purged; uncarved_segment_not_purged] = true.
Proof. vm_compute. reflexivity. Qed.

Example mmap_tests_pass :
  forallb (passes mmap_pool) [mmap_alloc_round_trip; purge_zeroes_slab_pages_after_threshold] = true.
Proof. vm_compute. reflexivity. Qed.
