(* ===== verification/SlabTests.v ===== *)
(** * The unit tests of slabs ([src/src/slab.rs], [mod tests])

    The tests of one thread, and those whose threads each push once. *)

From stdpp Require Import base numbers list gmap.
From Stdlib Require Import ZArith Lia.
From S2P Require Import Prelude SizeClass LinkMem Treiber Slab Sys SysAlloc Pool PagePort Heap TestKit PoolTests.

Local Open Scope Z_scope.

(** [TestSlab::new]: a slab of heap 0 in memory of the global allocator. *)
Definition TestSlab_layout : Layout := layout SLAB_SIZE SLAB_SIZE.

Definition TestSlab_new (size_class_index : Z) : system_test Z :=
  w ← get_world;
  let p := w_pool w in
  let '(r, g, m) := alloc_zeroed (sa_global (page_alloc p)) (pool_mem p) TestSlab_layout in
  _ ← assert_ne r 0;
  _ ← put_world (set_header (set_pool w (mkPool (mkSystem g) m (state p))) r (SlabHeader_init size_class_index 0));
  mret r.

Definition TestSlab_drop (b : Z) : system_test () :=
  on_world (λ w, let p := w_pool w in
    let '(g, m) := std_dealloc (sa_global (page_alloc p)) (pool_mem p) b TestSlab_layout in
    Ok (set_pool w (mkPool (mkSystem g) m (state p)))).

Definition slab_is_fully_free (b : Z) : system_test bool := hd ← header b; mret (Slab_is_fully_free hd).

(** No slab has more slots than this. *)
Definition slot_fuel : nat := Z.to_nat SLAB_SIZE.

Definition interior_ptr_recovers_header : system_test () :=
  t ← TestSlab_new 0;
  r ← slab_alloc t; slot0 ← unwrap r;
  r ← slab_alloc t; slot1 ← unwrap r;
  _ ← assert_eq (slab_ref slot0) t;
  _ ← assert_eq (slab_ref slot1) t;
  _ ← slab_dealloc_local t slot1;
  _ ← slab_dealloc_local t slot0;
  TestSlab_drop t.

(** Neighbours in the list are [d] apart. *)
Fixpoint same_stride (d : Z) (l : list Z) : bool :=
  match l with
  | a :: ((b :: _) as l) => (b - a =? d) && same_stride d l
  | _ => true
  end.

Definition all_slots_same_stride : system_test () :=
  for_each [0; 5; 10; 20; 48] (λ class_idx,
    t ← TestSlab_new class_idx;
    hd ← header t;
    slots ← slab_alloc_while slot_fuel t;
    _ ← assert (negb (bool_decide (slots = [])));
    _ ← assert (same_stride (slot_size hd) slots);
    _ ← for_each slots (slab_dealloc_local t);
    TestSlab_drop t).

Definition header_fields_accessible : system_test () :=
  t ← TestSlab_new 5;
  hd ← header t;
  _ ← assert_eq (size_class_index hd) 5;
  _ ← assert (0 <? slot_count hd);
  _ ← assert_eq (slot_size hd) (class_size 5);
  TestSlab_drop t.

Definition alloc_dealloc_no_duplicates : system_test () :=
  t ← TestSlab_new 0;
  hd ← header t;
  slots ← slab_alloc_while slot_fuel t;
  _ ← assert_eq (distinct slots) (Z.of_nat (length slots));
  _ ← assert_eq (Z.of_nat (length slots)) (slot_count hd);
  r ← slab_alloc t; _ ← assert (negb (bool_decide (is_Some r)));
  let half := Nat.div (length slots) 2 in
  _ ← for_each (take half slots) (slab_dealloc_local t);
  again ← times half (r ← slab_alloc t; unwrap r);
  _ ← assert_eq (distinct again) (Z.of_nat half);
  let seen := hash_set slots in
  _ ← assert (forallb (λ p, bool_decide (is_Some (seen !! p))) again);
  r ← slab_alloc t; _ ← assert (negb (bool_decide (is_Some r)));
  _ ← for_each (drop half slots ++ again) (slab_dealloc_local t);
  TestSlab_drop t.

Definition remote_dealloc_then_drain : system_test () :=
  t ← TestSlab_new 0;
  r ← slab_alloc t; slot ← unwrap r;
  _ ← dealloc_remote slot;
  drained ← slab_drain_remote t;
  _ ← assert_eq drained 1;
  r ← slab_alloc t; recovered ← unwrap r;
  _ ← assert_eq recovered slot;
  _ ← slab_dealloc_local t recovered;
  TestSlab_drop t.

(** The threads push in the order [order] of their numbers. *)
Definition multi_thread_remote_drain (order : list nat) : system_test () :=
  t ← TestSlab_new 0;
  raws ← times 16 (r ← slab_alloc t; unwrap r);
  _ ← for_each order (λ i, raw ← unwrap (raws !! i); dealloc_remote raw);
  drained ← slab_drain_remote t;
  _ ← assert_eq drained 16;
  recovered ← times 16 (r ← slab_alloc t; unwrap r);
  _ ← assert (bool_decide (hash_set recovered = hash_set raws));
  TestSlab_drop t.

Definition fully_free_lifecycle : system_test () :=
  t ← TestSlab_new 0;
  free ← slab_is_fully_free t; _ ← assert free;
  r ← slab_alloc t; slot ← unwrap r;
  free ← slab_is_fully_free t; _ ← assert (negb free);
  _ ← slab_dealloc_local t slot;
  free ← slab_is_fully_free t; _ ← assert free;
  TestSlab_drop t.

(** ** They pass *)

Example slab_tests_pass :
  forallb (passes system_pool)
    [interior_ptr_recovers_header; all_slots_same_stride; header_fields_accessible; alloc_dealloc_no_duplicates;
     remote_dealloc_then_drain; multi_thread_remote_drain (seq 0 16); multi_thread_remote_drain (rev (seq 0 16));
     multi_thread_remote_drain [5; 1; 15; 3; 8; 0; 12; 7; 2; 14; 9; 4; 13; 6; 11; 10]%nat; fully_free_lifecycle] = true.
Proof. vm_compute. reflexivity. Qed.
