(* ===== verification/LoomTests.v ===== *)
(** * The racing tests of a slab ([src/src/slab.rs], [loom_tests])

    The loom tests run the owner of a slab and threads that free its slots under
    every interleaving.  A test is a condition on the events of a run of
    [race_step]: what the main thread does, in its order, what the spawned
    threads do, and that a join comes after the frees it waits for.  The
    assertions hold for every run, because what the drains return adds up to the
    frees that have taken effect ([race_counts]). *)

From stdpp Require Import base numbers list gmap.
From Stdlib Require Import ZArith Lia.
From S2P Require Import Prelude SizeClass LinkMem FreeList Treiber Slab SlabSpec SlabRace.

Local Open Scope Z_scope.

(** ** Counting frees and drains *)

Definition is_owner_event (e : race_event) : bool :=
  match e with RaFreeStart _ | RaFreeDone _ | RaWrite => false | _ => true end.

Definition freed (es : list race_event) : list Z := omap (λ e, match e with RaFreeDone a => Some a | _ => None end) es.

Definition drained (es : list race_event) : list Z := omap (λ e, match e with RaDrainDone n => Some n | _ => None end) es.

Definition sum_Z (l : list Z) : Z := foldr Z.add 0 l.

Lemma sum_Z_app l1 l2 : sum_Z (l1 ++ l2) = sum_Z l1 + sum_Z l2.
Proof. unfold sum_Z. induction l1 as [|x l1 IH]; [done|]. cbn. rewrite IH. lia. Qed.

(** Slots that are freed and not returned by a drain yet. *)
Definition outstanding (a : race_spec) : Z :=
  Z.of_nat (length (rs_pending a)) + Z.of_nat (length (default [] (rs_draining a))).

Lemma race_counts_step a e a' :
  race_spec_step a e a' → sum_Z (drained [e]) + outstanding a' = Z.of_nat (length (freed [e])) + outstanding a.
Proof. unfold outstanding. destruct 1; cbn; lia. Qed.

Lemma race_counts a es a' :
  run race_spec_step a es a' → sum_Z (drained es) + outstanding a' = Z.of_nat (length (freed es)) + outstanding a.
Proof.
  induction 1 as [a|a e a1 es a2 Hs _ IH]; [done|]. apply race_counts_step in Hs.
  change (e :: es) with ([e] ++ es). unfold drained, freed in *. rewrite !omap_app, sum_Z_app, length_app. lia.
Qed.

Lemma pending_stays es a a' :
  run race_spec_step a es a' → freed es = [] → rs_pending a = [] → rs_pending a' = [].
Proof.
  induction 1 as [a|a e a1 es a2 Hs _ IH]; [done|]. intros Hf Hp. apply IH.
  - by destruct e.
  - destruct Hs; cbn in *; done.
Qed.

(** If the last drain starts when all frees have taken effect, the drains have
    returned all of them. *)
Lemma joined_drains_exact base class heap m es s es1 es2 :
  slab_base_ok base → 0 ≤ class < NUM_CLASSES → run (race_step base) (race_init m class heap) es s →
  omap id es = es1 ++ RaDrainStart :: es2 → freed es2 = [] → ra_drain s = None →
  sum_Z (drained (omap id es)) = Z.of_nat (length (freed (omap id es))).
Proof.
  intros Hb Hc Hrun He Hf Hd.
  destruct (run_weak_simulation (race_step base) race_spec_step _ (race_sim_step base) _ _ _ _
    (race_related_init base m class heap Hb Hc) Hrun) as (a & Hr & loc & dr & [_ _ Hdr _ _ _]).
  pose proof (race_counts _ _ _ Hr) as Hcount. unfold outstanding in Hcount at 2. cbn in Hcount.
  rewrite Hd in Hdr. destruct (rs_draining a) as [d|] eqn:Ed; [done|].
  assert (rs_pending a = []) as Hp.
  { rewrite He in Hr. apply run_app_inv in Hr as (a1 & _ & Hr). inversion Hr as [|? ? a2 ? ? Hs Hr2]; subst.
    eapply pending_stays; [exact Hr2|done|]. by inversion Hs. }
  unfold outstanding in Hcount. rewrite Hp, Ed in Hcount. cbn in Hcount. lia.
Qed.

(** ** The tests *)

(** [with_test_slab 0]: a slab of the first class in zeroed memory. *)
Definition with_test_slab (base : Z) : race_sys := race_init ∅ 0 0.

(** [concurrent_push]: two slots, each freed by a thread, both joined before the drain. *)
Definition concurrent_push (es : list race_event) (drained : Z) : Prop :=
  ∃ s0 s1 es1, es = es1 ++ [RaDrainStart; RaDrainDone drained] ∧
    filter is_owner_event es1 = [RaAlloc (Some s0); RaAlloc (Some s1)] ∧
    filter (λ e, negb (is_owner_event e)) es1 ≡ₚ [RaFreeStart s0; RaFreeDone s0; RaFreeStart s1; RaFreeDone s1].

(** [push_drain_interleave]: a drain while another thread frees the slot, and one after the join. *)
Definition push_drain_interleave (es : list race_event) (d1 d2 : Z) : Prop :=
  ∃ slot es1, es = es1 ++ [RaDrainStart; RaDrainDone d2] ∧
    filter is_owner_event es1 = [RaAlloc (Some slot); RaDrainStart; RaDrainDone d1] ∧
    filter (λ e, negb (is_owner_event e)) es1 ≡ₚ [RaFreeStart slot; RaFreeDone slot].

Lemma freed_threads es : freed (filter (λ e, negb (is_owner_event e)) es) = freed es.
Proof.
  induction es as [|e es IH]; [done|]. rewrite filter_cons. unfold freed in *. destruct e; cbn; case_decide; cbn; rewrite ?IH; done.
Qed.

Lemma drained_owner es : drained (filter is_owner_event es) = drained es.
Proof.
  induction es as [|e es IH]; [done|]. rewrite filter_cons. unfold drained in *. destruct e; cbn; case_decide; cbn; rewrite ?IH; done.
Qed.

Section tests.
Context (base : Z) (Hb : slab_base_ok base) (es : list (option race_event)) (s : race_sys).
Context (Hrun : run (race_step base) (with_test_slab base) es s) (Hd : ra_drain s = None).

Lemma test_counts es1 d (ds : list Z) (threads : list race_event) :
  omap id es = es1 ++ [RaDrainStart; RaDrainDone d] → drained (filter is_owner_event es1) = ds →
  filter (λ e, negb (is_owner_event e)) es1 ≡ₚ threads → sum_Z (ds ++ [d]) = Z.of_nat (length (freed threads)).
Proof.
  intros He <- Hp. rewrite drained_owner.
  pose proof (joined_drains_exact base 0 0 ∅ es s es1 [RaDrainDone d] Hb ltac:(by vm_compute) Hrun He ltac:(done) Hd) as Hj.
  rewrite He in Hj. unfold drained, freed in *. rewrite !omap_app in Hj. rewrite length_app in Hj. cbn in Hj.
  rewrite <- Hp. fold (freed (filter (λ e, negb (is_owner_event e)) es1)). rewrite freed_threads. unfold freed. lia.
Qed.

(** [assert_eq!(drained, 2)] *)
Theorem concurrent_push_passes n : concurrent_push (omap id es) n → n = 2.
Proof.
  intros (s0 & s1 & es1 & He & Ho & Ht). pose proof (test_counts es1 n [] _ He ltac:(by rewrite Ho) Ht) as H. cbn in H. lia.
Qed.

(** [assert_eq!(d1 + d2, 1)] *)
Theorem push_drain_interleave_passes d1 d2 : push_drain_interleave (omap id es) d1 d2 → d1 + d2 = 1.
Proof.
  intros (slot & es1 & He & Ho & Ht). pose proof (test_counts es1 d2 [d1] _ He ltac:(by rewrite Ho) Ht) as H. cbn in H. lia.
Qed.
End tests.

(** Both tests have runs; in the second one the free lands between the swap of
    the first drain and its return. *)
Example concurrent_push_runs :
  ∃ es s, run (race_step 262144) (with_test_slab 262144) es s ∧ ra_drain s = None ∧ concurrent_push (omap id es) 2.
Proof.
  pose proof (race_exec_sound 262144
    [DoAlloc; DoAlloc; DoFreeStart 262216; DoFreeStart 262224; DoAccess 262216 false; DoAccess 262224 false;
     DoAccess 262224 false; DoAccess 262216 false; DoAccess 262216 false; DoAccess 262224 false;
     DoAccess 262224 false; DoAccess 262224 false; DoDrain; DoTurn; DoTurn; DoTurn] (with_test_slab 262144)) as Hs.
  do 2 eexists. split; [apply Hs; vm_compute; reflexivity|]. split; [done|].
  exists 262216, 262224, [RaAlloc (Some 262216); RaAlloc (Some 262224); RaFreeStart 262216; RaFreeStart 262224;
    RaFreeDone 262216; RaFreeDone 262224].
  split; [done|]. split; [done|]. apply (bool_decide_unpack _). by vm_compute.
Qed.

Example push_drain_interleave_runs :
  ∃ es s, run (race_step 262144) (with_test_slab 262144) es s ∧ ra_drain s = None ∧
    push_drain_interleave (omap id es) 0 1.
Proof.
  pose proof (race_exec_sound 262144
    [DoAlloc; DoFreeStart 262216; DoAccess 262216 false; DoAccess 262216 true; DoDrain; DoAccess 262216 false;
     DoTurn; DoDrain; DoTurn; DoTurn] (with_test_slab 262144)) as Hs.
  do 2 eexists. split; [apply Hs; vm_compute; reflexivity|]. split; [done|].
  exists 262216, [RaAlloc (Some 262216); RaFreeStart 262216; RaDrainStart; RaFreeDone 262216; RaDrainDone 0].
  split; [done|]. split; [done|]. apply (bool_decide_unpack _). by vm_compute.
Qed.
