(* ===== verification/SizeTests.v ===== *)
(** * The unit tests of size classes and metrics ([src/src/size_class.rs] and
    [src/src/metrics.rs], [mod tests])

    The tests of size classes run over all small sizes; that they pass follows
    from the lemmas of [SizeClass] instead of from running them.  The two on the
    waste in floating point are left out: [class_waste_quarter] bounds it. *)

From stdpp Require Import base numbers list gmap.
From Stdlib Require Import ZArith Lia.
From S2P Require Import Prelude SizeClass Sys SysAlloc Metrics TestKit.

Local Open Scope Z_scope.
Arguments class_index : simpl never.
Arguments class_size : simpl never.

(** ** Size classes *)

Definition all_sizes : list Z := seqZ 1 MAX_SLAB_SIZE.

Definition class_is_smallest_fit : system_test () :=
  for_each all_sizes (λ size,
    idx ← class_of (layout size 1);
    let cs := class_size idx in
    _ ← assert (size <=? cs);
    if 0 <? idx then
      let prev := class_size (idx - 1) in assert (prev <? size)
    else mret ()).

(** [usize::trailing_zeros], of a nonzero number. *)
Definition trailing_zeros (x : Z) : Z := Z.log2 (Z.land x (- x)).

Definition class_sizes_respect_alignment : system_test () :=
  for_each (seqZ 0 NUM_CLASSES) (λ idx,
    let cs := class_size idx in
    let max_align := Z.shiftl 1 (trailing_zeros cs) in
    assert (cs mod max_align =? 0)).

Definition alignment_requests_get_aligned_class : system_test () :=
  for_each (seqZ 0 13) (λ align_exp,
    let align := Z.shiftl 1 align_exp in
    for_each all_sizes (λ size,
      c ← lift (class_index (layout size align));
      match c with
      | Some idx => let cs := class_size idx in assert (cs mod align =? 0)
      | None => mret ()
      end)).

Definition large_allocations_return_none : system_test () :=
  for_each [MAX_SLAB_SIZE + 1; 65536; Z.shiftl 1 20] (λ size,
    c ← lift (class_index (layout size 1));
    assert (bool_decide (c = None))).

Definition dealloc_round_trip : system_test () :=
  for_each all_sizes (λ size,
    idx ← class_of (layout size 1);
    let cs := class_size idx in
    idx2 ← class_of (layout cs 1);
    assert_eq idx idx2).

Definition class_sizes_are_monotonic : system_test () :=
  for_each (seqZ 1 (NUM_CLASSES - 1)) (λ i, assert (class_size (i - 1) <? class_size i)).

(** ** Metrics *)

Definition counter_eq (l : list Z) (idx n : Z) : system_test () := x ← class_counter l idx; assert_eq x n.

Definition heap_metrics_on_alloc_dealloc : system_test () :=
  let idx := 5 in
  let cs := 128 in
  m ← lift (HeapMetrics_on_alloc HeapMetrics_ZERO idx cs);
  _ ← assert_eq (alloc_bytes m) 128;
  _ ← counter_eq (class_alloc_count m) idx 1;
  _ ← counter_eq (class_alloc_bytes m) idx 128;
  m ← lift (HeapMetrics_on_dealloc m idx cs);
  _ ← assert_eq (free_bytes m) 128;
  _ ← counter_eq (class_dealloc_count m) idx 1;
  counter_eq (class_free_bytes m) idx 128.

Definition accumulate_folds_counters : system_test () :=
  a ← lift (HeapMetrics_on_alloc HeapMetrics_ZERO 0 8);
  a ← lift (HeapMetrics_on_alloc a 0 8);
  b ← lift (HeapMetrics_on_alloc HeapMetrics_ZERO 0 8);
  b ← lift (HeapMetrics_on_dealloc b 0 8);
  let a := HeapMetrics_accumulate a b in
  _ ← assert_eq (alloc_bytes a) 24;
  _ ← assert_eq (free_bytes a) 8;
  counter_eq (class_alloc_count a) 0 3.

(** A new snapshot with some counters set. *)
Definition snapshot_with (allocs frees : Z) (ac dc ab fb : list Z) : MetricsSnapshot :=
  let s := MetricsSnapshot_new in
  let h := ms_heaps s in
  mkSnapshot (ms_allocated s) (ms_active s) (ms_mapped s)
    (mkHeapMetrics (registry_idx h) allocs frees ac dc ab fb (remote_free_count h)
       (large_alloc_count h) (large_alloc_bytes h) (large_dealloc_bytes h))
    (class_live_count s) (class_live_bytes s) (ms_abandon_count s) (ms_adopt_count s)
    (ms_segment_mmap_count s) (ms_segment_munmap_count s) (ms_slab_purge_count s) (ms_pool_lock_count s).

Definition finalize_computes_live_counts : system_test () :=
  let snap := snapshot_with 640 256 (<[3%nat := 10]> ZERO_ARRAY) (<[3%nat := 4]> ZERO_ARRAY)
                (<[3%nat := 640]> ZERO_ARRAY) (<[3%nat := 256]> ZERO_ARRAY) in
  let snap := MetricsSnapshot_finalize snap in
  _ ← counter_eq (class_live_count snap) 3 6;
  _ ← counter_eq (class_live_bytes snap) 3 384;
  assert_eq (ms_allocated snap) 384.

Definition per_class_counters_are_independent : system_test () :=
  idx_64 ← class_of (layout 64 1);
  let counts := <[Z.to_nat idx_64 := 3]> (<[0%nat := 5]> ZERO_ARRAY) in
  let counts := class_alloc_count (ms_heaps (snapshot_with 0 0 counts ZERO_ARRAY ZERO_ARRAY ZERO_ARRAY)) in
  _ ← counter_eq counts 0 5;
  _ ← counter_eq counts idx_64 3;
  for_each (seqZ 0 NUM_CLASSES) (λ i,
    if negb (i =? 0) && negb (i =? idx_64) then counter_eq counts i 0 else mret ()).

(** ** They pass *)

Lemma for_each_passes {A} (l : list A) (f : A → system_test ()) s :
  (∀ a, a ∈ l → f a s = Ok ((), s)) → for_each l f s = Ok ((), s).
Proof.
  induction l as [|a l IH]; intros Hf; cbn [for_each]; [done|]. unfold mbind, prog_bind.
  rewrite Hf by by left. apply IH. intros b Hb. apply Hf. by right.
Qed.

Lemma assert_passes b (s : tstate (SystemAllocator bump)) : b = true → assert b s = Ok ((), s).
Proof. by intros ->. Qed.

Lemma next_multiple_of_one n : next_multiple_of n 1 = n.
Proof.
  apply Z.le_antisymm; [|by apply next_multiple_of_ge].
  apply next_multiple_of_least; [done|done|apply Z.divide_1_l].
Qed.

Lemma effective_size_one n : effective_size (layout n 1) = Z.max n 8.
Proof. exact (f_equal (λ x, Z.max x 8) (next_multiple_of_one n)). Qed.

Lemma class_of_passes size (s : tstate (SystemAllocator bump)) :
  1 ≤ size ≤ 32768 → ∃ i, class_of (layout size 1) s = Ok (i, s) ∧ least_class (Z.max size 8) i.
Proof.
  intros Hs. destruct (class_index_least (layout size 1)) as (i & E & Hi); rewrite effective_size_one in *; [lia|].
  exists i. split; [|done]. unfold class_of, lift, unwrap, mbind, prog_bind. by rewrite E.
Qed.

Lemma all_sizes_range size : size ∈ all_sizes → 1 ≤ size ≤ 32768.
Proof. unfold all_sizes. rewrite elem_of_seqZ. unfold MAX_SLAB_SIZE. lia. Qed.

Example class_is_smallest_fit_passes s : class_is_smallest_fit s = Ok ((), s).
Proof.
  apply for_each_passes. intros size Hs%all_sizes_range. unfold mbind, prog_bind.
  destruct (class_of_passes size s Hs) as (i & -> & Hi & Hle & Hprev).
  rewrite assert_passes by (apply Z.leb_le; lia). destruct (Z.ltb_spec 0 i); [|done].
  apply assert_passes, Z.ltb_lt. destruct (Z.le_gt_cases 8 size); [specialize (Hprev ltac:(lia)); lia|].
  exfalso. pose proof (class_size_bounds (i - 1) ltac:(lia)). specialize (Hprev ltac:(lia)). lia.
Qed.

Example alignment_requests_get_aligned_class_passes s : alignment_requests_get_aligned_class s = Ok ((), s).
Proof.
  apply for_each_passes. intros e [He He']%elem_of_seqZ. apply for_each_passes. intros size Hs%all_sizes_range.
  rewrite Z.shiftl_1_l. assert (pow2 (2 ^ e)) as Hp by by exists e.
  assert (2 ^ e ≤ 2 ^ 12) as He2 by (apply Z.pow_le_mono_r; lia). change (2 ^ 12) with 4096 in He2.
  assert (layout_valid (layout size (2 ^ e))) as Hv.
  { split; [done|]. unfold layout, isize_MAX. cbn [Prelude.size align]. lia. }
  unfold mbind, prog_bind, lift. destruct (class_index (layout size (2 ^ e))) as [[i|]|p] eqn:E; cbn [mbind res_bind].
  - destruct (class_index_fits _ _ Hv ltac:(unfold layout; cbn [Prelude.size]; lia) E) as [_ [_ Hd]]. apply assert_passes, Z.eqb_eq.
    apply Z.mod_divide; [|exact Hd]. pose proof (pow2_pos _ Hp). lia.
  - done.
  - exfalso. destruct (Z.le_gt_cases (effective_size (layout size (2 ^ e))) 32768) as [Hle|Hgt].
    + destruct (class_index_least _ Hle) as (i & Hi & _). congruence.
    + rewrite class_index_large in E by done. done.
Qed.

Example dealloc_round_trip_passes s : dealloc_round_trip s = Ok ((), s).
Proof.
  apply for_each_passes. intros size Hs%all_sizes_range. unfold mbind, prog_bind.
  destruct (class_of_passes size s Hs) as (i & -> & Hi & Hle & Hprev).
  pose proof (class_size_bounds i Hi). destruct (class_of_passes (class_size i) s) as (j & -> & Hj); [lia|].
  assert (i = j) as ->; [|by apply assert_passes, Z.eqb_refl]. eapply least_class_unique; [|exact Hj].
  split; [done|]. split; [lia|]. intros Hpos. pose proof (class_size_mono (i - 1) i). lia.
Qed.

Example size_tests_pass :
  forallb (passes system_pool)
    [class_sizes_respect_alignment; large_allocations_return_none; class_sizes_are_monotonic;
     heap_metrics_on_alloc_dealloc; accumulate_folds_counters; finalize_computes_live_counts;
     per_class_counters_are_independent] = true.
Proof. vm_compute. reflexivity. Qed.
