(* ===== verification/GlobalTests.v ===== *)
(** * The integration tests of the global allocator and the unit tests of the
    profiler ([src/tests/global_alloc.rs]; [src/src/pprof.rs], [mod tests])

    The tests that call the allocator directly, and those of the profiler that
    do not draw random numbers.  What else the standard library's collections
    and threads ask for is not modelled. *)

From stdpp Require Import base numbers list gmap strings.
From Stdlib Require Import ZArith Lia.
From S2P Require Import Prelude Sys Pool PoolSeq PagePort Heap Global GlobalSpec Pprof Protobuf Profile ProfileSpec Dump Profiled TestKit.

Local Open Scope Z_scope.
Local Open Scope clm_scope.

(** ** The global allocator *)

Abbreviation global_test := (prog (process (PagePool demo_kernel) demo_libc)).

(** [std::alloc::alloc] and [dealloc], and the end of a thread; the test runs on thread 1. *)
Definition std_alloc (t : Z) (l : Layout) : global_test Z := λ p, ClMalloc_alloc p t l.
Definition std_dealloc (t ptr : Z) (l : Layout) : global_test () := λ p,
  p ← ClMalloc_dealloc PushNow p t ptr l; Ok ((), p).
Definition join (t : Z) : global_test () := λ p, p ← thread_exit p t; Ok ((), p).

Definition large_allocation : global_test () :=
  let l := layout (Z.shiftl 1 20) 4096 in
  ptr ← std_alloc 1 l;
  _ ← assert_ne ptr 0;
  _ ← assert_eq (ptr mod 4096) 0;
  std_dealloc 1 ptr l.

(** [vec![42; 256]] is dropped by a second thread. *)
Definition cross_thread_dealloc : global_test () :=
  let l := layout 256 1 in
  v ← std_alloc 1 l;
  _ ← std_dealloc 2 v l;
  join 2.

Definition null_on_impossible_layout : global_test () :=
  let usize_MAX := 2 ^ 64 - 1 in
  ptr ← std_alloc 1 (layout (usize_MAX / 2) 1);
  assert_eq ptr 0.

Definition alloc_dealloc_many_sizes : global_test () :=
  for_each [8; 16; 32; 64; 128; 256; 512; 1024; 2048; 4096; 8192; 16384; 32768] (λ size,
    let l := layout size 1 in
    ptr ← std_alloc 1 l;
    _ ← assert_ne ptr 0;
    _ ← assert_eq (ptr mod align l) 0;
    std_dealloc 1 ptr l).

Example global_tests_pass :
  forallb (run_from demo_proc)
    [large_allocation; cross_thread_dealloc; null_on_impossible_layout; alloc_dealloc_many_sizes] = true.
Proof. vm_compute. reflexivity. Qed.

(** ** The profiler *)

Abbreviation pprof_test := (prog pprof).

Definition on_pprof (f : pprof → res pprof) : pprof_test () := λ p, p ← f p; Ok ((), p).
Definition get_pprof : pprof_test pprof := λ p, Ok (p, p).

(** [with_state] of a closure that only reads. *)
Definition state_of (p : pprof) : PprofState := default PprofState_new (PPROF p).

(** The backtrace at the call site of the test, which runs on thread 1. *)
Definition call_site : list Z := [10; 20].
Definition test_sample (ptr size class_idx : Z) : pprof_test () :=
  on_pprof (λ p, record_sample p 1 ptr size class_idx call_site).
Definition test_remove (ptr : Z) : pprof_test () := on_pprof (λ p, maybe_remove_sample p 1 ptr).
Definition configure (config : option PprofConfig) : pprof_test () := on_pprof (λ p, set_pprof_config p config).

Definition should_sample_reflects_active_flag : pprof_test () :=
  _ ← configure None;
  p ← get_pprof; _ ← assert (negb (should_sample p));
  _ ← configure (Some PprofConfig_default);
  p ← get_pprof; _ ← assert (should_sample p);
  configure None.

Definition side_table_tracks_live_samples : pprof_test () :=
  _ ← configure (Some (mkPprofConfig 1));
  let ptr := 3735928559 in
  _ ← test_sample ptr 128 5;
  p ← get_pprof;
  record ← unwrap (side (state_of p) !! ptr);
  c ← unwrap (counters (stacks (state_of p)) !! Z.to_nat (stack_id record));
  _ ← assert (0 <? live_count c);
  _ ← test_remove ptr;
  p ← get_pprof;
  _ ← assert (bool_decide (side (state_of p) !! ptr = None));
  c ← unwrap (counters (stacks (state_of p)) !! Z.to_nat (stack_id record));
  _ ← assert_eq (live_count c) 0;
  configure None.

Definition duplicate_stacks_share_id : pprof_test () :=
  _ ← configure (Some (mkPprofConfig 1));
  let a1 := 2863267841 in
  let a2 := 2863267842 in
  _ ← for_each [a1; a2] (λ addr, test_sample addr 64 0);
  p ← get_pprof;
  r1 ← unwrap (side (state_of p) !! a1);
  r2 ← unwrap (side (state_of p) !! a2);
  _ ← assert_eq (stack_id r1) (stack_id r2);
  _ ← for_each [a1; a2] test_remove;
  configure None.

(** [dump(&mut buf).unwrap()], into an empty vector, at some time after 1970. *)
Definition dump_to_vec : pprof_test bytes := λ p,
  let order := map_to_list (Pprof.map (stacks (state_of p))) in
  let records := (map_to_list (side (state_of p))).*2 in
  '(r, p, w) ← ClMalloc_dump_heap_profile (R := Z) demo_symbols p 1 [] order records 1700 (mkSink [] 4096);
  match r with IoOk => Ok (sink_out w, p) | IoErr _ => Panic PanicAssert end.

(** The reader of [ProfileSpec], which also asks for the empty string at index
    zero, is in the place of the decoder of the crate [pprof]. *)
Definition dump_produces_valid_pprof_protobuf : pprof_test () :=
  _ ← configure (Some (mkPprofConfig 1));
  let ptr := 3405643776 in
  _ ← test_sample ptr 256 2;
  buf ← dump_to_vec;
  decompressed ← unwrap (store_gunzip buf);
  profile ← unwrap (read_profile decompressed);
  let type_names := (pv_types profile).*1 in
  _ ← assert (bool_decide (type_names = str <$> ["alloc_objects"; "alloc_space"; "inuse_objects"; "inuse_space"]%string));
  _ ← assert (bool_decide (pv_samples profile ≠ []));
  _ ← for_each (pv_samples profile) (λ sample, assert (bool_decide (length (sv_values sample) = 4%nat)));
  fields ← unwrap (parse_message decompressed);
  _ ← assert (bool_decide (payloads 4 fields ≠ []));
  _ ← assert (bool_decide (payloads 5 fields ≠ []));
  let has_class_label :=
    existsb (λ s, existsb (λ l, bool_decide (fst l = str "size_class")) (sv_labels s)) (pv_samples profile) in
  _ ← assert has_class_label;
  time_nanos ← unwrap (head (pv_time profile)); _ ← assert (0 <? time_nanos);
  pt ← unwrap (head (pv_period_type profile));
  _ ← assert (bool_decide (pt = (str "space", str "bytes")));
  period ← unwrap (head (pv_period profile)); _ ← assert_eq period 1;
  _ ← test_remove ptr;
  configure None.

Example pprof_tests_pass :
  forallb (run_from pprof_init)
    [should_sample_reflects_active_flag; side_table_tracks_live_samples; duplicate_stacks_share_id;
     dump_produces_valid_pprof_protobuf] = true.
Proof. vm_compute. reflexivity. Qed.
